(** * TurboPFor-CPP: the P4 / delta1 block codec, embedded and verified

    A shallow embedding of the scalar reference implementation
    (src/scalar/*.cpp, p4_scalar_internal.h, p4_scalar_bitpack_impl.h,
    p4_scalar_bitunpack_impl.h, p4_scalar.cpp), of the SIMD decoders
    (src/simd) and of the entry point that src/dispatch.cpp defines.

    Conventions of the embedding
    - every C++ integer variable is a [Z]; a conversion to a narrower
      unsigned type is written out as a reduction modulo 2^w ([u8], [u16],
      [u32], [u64]);
    - an input array [const uint32_t * in] read at indices [0 .. n) is a
      [list Z] together with the count [n];
    - an output pointer [unsigned char * out] that a routine advances is
      the list of bytes the routine appends; the returned pointer is the
      end of that list;
    - an input pointer [unsigned char * in] is the list of bytes starting
      at the pointer; a routine returns the number of bytes by which it
      advanced the pointer.  A read past the end of the list yields 0
      (the callers own a padded buffer). *)

From Stdlib Require Import ZArith List Lia Bool.
Import ListNotations.
Local Open Scope Z_scope.

(** ** Fixed-width unsigned integers *)

Definition u8 (x : Z) : Z := x mod 256.
Definition u16 (x : Z) : Z := x mod 65536.
Definition u32 (x : Z) : Z := x mod 4294967296.
Definition u64 (x : Z) : Z := x mod 18446744073709551616.

(** [x << k] and [x >> k] on a 32-bit and on a 64-bit operand. *)
Definition shl32 (x k : Z) : Z := u32 (Z.shiftl x k).
Definition shr32 (x k : Z) : Z := Z.shiftr x k.
Definition shl64 (x k : Z) : Z := u64 (Z.shiftl x k).
Definition shr64 (x k : Z) : Z := Z.shiftr x k.

(** ** Lists indexed by machine integers *)

Definition zlen {A} (l : list A) : Z := Z.of_nat (length l).
Definition zget (l : list Z) (k : Z) : Z := nth (Z.to_nat k) l 0.
Definition ztake {A} (k : Z) (l : list A) : list A := firstn (Z.to_nat k) l.
Definition zdrop {A} (k : Z) (l : list A) : list A := skipn (Z.to_nat k) l.
Definition zseq (a n : Z) : list Z := map Z.of_nat (seq (Z.to_nat a) (Z.to_nat n)).

(** [out[k] = v] on an array of known length. *)
Fixpoint set_nth (k : nat) (v : Z) (l : list Z) : list Z :=
  match l, k with
  | [], _ => []
  | _ :: t, O => v :: t
  | h :: t, S k' => h :: set_nth k' v t
  end.
Definition zset (l : list Z) (k v : Z) : list Z := set_nth (Z.to_nat k) v l.

(** ** p4_scalar_internal.h: constants and little-endian memory access *)

Definition MAX_BITS : Z := 32.
Definition MAX_VALUES : Z := 256.

Definition pad8 (x : Z) : Z := u32 (x + 7) / 8.

Definition loadU16 (inp : list Z) : Z :=
  Z.lor (zget inp 0) (Z.shiftl (zget inp 1) 8).

Definition loadU24 (inp : list Z) : Z :=
  Z.lor (loadU16 inp) (Z.shiftl (zget inp 2) 16).

Definition loadU32 (inp : list Z) : Z :=
  Z.lor (Z.lor (Z.lor (zget inp 0) (Z.shiftl (zget inp 1) 8))
               (Z.shiftl (zget inp 2) 16))
        (Z.shiftl (zget inp 3) 24).

Definition loadU64 (inp : list Z) : Z :=
  Z.lor (loadU32 inp) (Z.shiftl (loadU32 (zdrop 4 inp)) 32).

Definition storeU16 (v : Z) : list Z := [u8 v; u8 (Z.shiftr v 8)].

Definition storeU32 (v : Z) : list Z :=
  [u8 v; u8 (Z.shiftr v 8); u8 (Z.shiftr v 16); u8 (Z.shiftr v 24)].

Definition storeU64 (v : Z) : list Z :=
  storeU32 (u32 v) ++ storeU32 (Z.shiftr v 32).

(** [copyU32ArrayToLe(out, in, n)] and [copyU32ArrayFromLe(out, in, n)]. *)
Definition copyU32ArrayToLe (inp : list Z) (n : Z) : list Z :=
  flat_map storeU32 (ztake n inp).

Fixpoint copyU32ArrayFromLe_aux (n : nat) (inp : list Z) : list Z :=
  match n with
  | O => []
  | S n' => loadU32 inp :: copyU32ArrayFromLe_aux n' (zdrop 4 inp)
  end.
Definition copyU32ArrayFromLe (inp : list Z) (n : Z) : list Z :=
  copyU32ArrayFromLe_aux (Z.to_nat n) inp.

(** ** p4_scalar.cpp: the variable-byte codec *)

Definition VBYTE_ESCAPE_UNCOMPRESSED : Z := 0xFF.
Definition VBYTE_MARKER_4PLUS : Z := 0xFC.
Definition VBYTE_MARKER_3BYTE : Z := 0xDC.
Definition VBYTE_MARKER_2BYTE : Z := 0x9C.
Definition VBYTE_THRESHOLD_2BYTE : Z := 156.
Definition VBYTE_THRESHOLD_3BYTE : Z := 16540.
Definition VBYTE_THRESHOLD_4PLUS : Z := 2113692.

(** [vbPut32(out, x)]: the bytes appended for one value. *)
Definition vbPut32 (x : Z) : list Z :=
  if x <? VBYTE_THRESHOLD_2BYTE then
    [u8 x]
  else if x <? VBYTE_THRESHOLD_3BYTE then
    let delta := u32 (x - VBYTE_THRESHOLD_2BYTE) in
    [u8 (VBYTE_MARKER_2BYTE + Z.shiftr delta 8); u8 (Z.land delta 0xFF)]
  else if x <? VBYTE_THRESHOLD_4PLUS then
    let delta := u32 (x - VBYTE_THRESHOLD_3BYTE) in
    [u8 (VBYTE_MARKER_3BYTE + Z.shiftr delta 16);
     u8 (Z.land delta 0xFF);
     u8 (Z.land (Z.shiftr delta 8) 0xFF)]
  else if x <=? 0xFFFFFF then
    [u8 VBYTE_MARKER_4PLUS; u8 x; u8 (Z.shiftr x 8); u8 (Z.shiftr x 16)]
  else
    u8 (VBYTE_MARKER_4PLUS + 1) :: storeU32 x.

(** [vbGet32(in, x)] (and its inline twin [vbGet32Inline]): the decoded
    value and the number of bytes consumed. *)
Definition vbGet32 (inp : list Z) : Z * Z :=
  let marker := zget inp 0 in
  if marker <? VBYTE_MARKER_2BYTE then
    (marker, 1)
  else if marker <? VBYTE_MARKER_3BYTE then
    let data_byte := zget inp 1 in
    let delta := u32 (shl32 (marker - VBYTE_MARKER_2BYTE) 8 + data_byte) in
    (u32 (delta + VBYTE_THRESHOLD_2BYTE), 2)
  else if marker <? VBYTE_MARKER_4PLUS then
    let low16 := loadU16 (zdrop 1 inp) in
    (u32 (u32 (low16 + shl32 (marker - VBYTE_MARKER_3BYTE) 16)
          + VBYTE_THRESHOLD_3BYTE), 3)
  else if marker =? VBYTE_MARKER_4PLUS then
    (Z.land (loadU32 (zdrop 1 inp)) 0xFFFFFF, 4)
  else
    (loadU32 (zdrop 1 inp), 5).

(** [vbEnc32(in, n, out)]. *)
Definition vbEnc32 (inp : list Z) (n : Z) : list Z :=
  let op := flat_map vbPut32 (ztake n inp) in
  if zlen op + 32 >? n * 4 then
    VBYTE_ESCAPE_UNCOMPRESSED :: copyU32ArrayToLe inp n
  else op.

(** [vbDec32(in, n, out)]: the [n] decoded values and the bytes consumed. *)
Fixpoint vbDec32_loop (n : nat) (ip : list Z) : list Z * Z :=
  match n with
  | O => ([], 0)
  | S n' =>
      let '(x, k) := vbGet32 ip in
      let '(xs, m) := vbDec32_loop n' (zdrop k ip) in
      (x :: xs, k + m)
  end.

Definition vbDec32 (inp : list Z) (n : Z) : list Z * Z :=
  if zget inp 0 =? VBYTE_ESCAPE_UNCOMPRESSED then
    (copyU32ArrayFromLe (zdrop 1 inp) n, 1 + n * 4)
  else vbDec32_loop (Z.to_nat n) inp.

(** ** p4_scalar_internal.h: bit width *)

(** [bitWidth32(x)]: position of the highest set bit plus one, 0 for 0. *)
Definition bitWidth32 (x : Z) : Z :=
  if x =? 0 then 0 else Z.log2 x + 1.

(** [maskBits(b)]. *)
Definition maskBits (b : Z) : Z :=
  if b >=? 32 then 0xFFFFFFFF
  else if b =? 0 then 0 else u32 (u32 (Z.shiftl 1 b) - 1).

(** ** p4_scalar.cpp: the bit-width analyzer [p4Bits32]

    The counters of the analyzer are [unsigned]; for [n <= MAX_VALUES] none
    of its sums and products reaches [2^32], and they are written in [Z]
    without reduction.  The arrays [bit_width_count] and
    [vbyte_accumulator] (the latter indexed from [-48]) are maps from the
    index to the cell. *)

Definition upd (f : Z -> Z) (k v : Z) : Z -> Z :=
  fun i => if i =? k then v else f i.

(** The lambda [update_vbyte_accumulator(count, bits)]. *)
Definition update_vbyte_accumulator (vb : Z -> Z) (count bits : Z) : Z -> Z :=
  let vb := upd vb (bits - 7) (vb (bits - 7) + count) in
  let vb := upd vb (bits - 15) (vb (bits - 15) + count * 2) in
  let vb := upd vb (bits - 19) (vb (bits - 19) + count * 3) in
  upd vb (bits - 25) (vb (bits - 25) + count * 4).

(** The variables the candidate loop carries from one iteration to the
    next. *)
Record p4bits_state : Type := mk_p4bits_state {
  exception_count : Z;
  vbyte_size_accumulator : Z;
  vbyte_accumulator : Z -> Z;
  min_size : Z;
  optimal_base_bits : Z;
  use_vbyte_exceptions : Z
}.

(** The two sizes computed at the head of an iteration. *)
Definition vbyte_size_at (n base_bits : Z) (st : p4bits_state) : Z :=
  pad8 (n * base_bits) + 2 + exception_count st + vbyte_size_accumulator st.

Definition patching_size_at (n max_bits base_bits : Z) (st : p4bits_state) : Z :=
  let patch_bits := max_bits - base_bits in
  pad8 (n * base_bits) + 2 + pad8 n + pad8 (exception_count st * patch_bits).

(** "Update optimal choice". *)
Definition p4Bits32_choose (n max_bits base_bits : Z) (st : p4bits_state)
  : p4bits_state :=
  let vbyte_size := vbyte_size_at n base_bits st in
  let patching_size := patching_size_at n max_bits base_bits st in
  if (patching_size <? min_size st) && (patching_size <=? vbyte_size) then
    mk_p4bits_state (exception_count st) (vbyte_size_accumulator st)
      (vbyte_accumulator st) patching_size base_bits 0
  else if vbyte_size <? min_size st then
    mk_p4bits_state (exception_count st) (vbyte_size_accumulator st)
      (vbyte_accumulator st) vbyte_size base_bits 1
  else st.

(** "Update state for next iteration". *)
Definition p4Bits32_advance (bit_width_count : Z -> Z) (base_bits : Z)
    (st : p4bits_state) : p4bits_state :=
  mk_p4bits_state
    (exception_count st + bit_width_count base_bits)
    (vbyte_size_accumulator st + bit_width_count base_bits
     + vbyte_accumulator st base_bits)
    (update_vbyte_accumulator (vbyte_accumulator st)
       (bit_width_count base_bits) base_bits)
    (min_size st) (optimal_base_bits st) (use_vbyte_exceptions st).

(** The [while (true)] loop; it runs with [base_bits] from [max_bits - 1]
    down to 0 and leaves at [base_bits == 0]. *)
Fixpoint p4Bits32_loop (n max_bits : Z) (bit_width_count : Z -> Z)
    (base_bits : nat) (st : p4bits_state) : p4bits_state :=
  let st := p4Bits32_choose n max_bits (Z.of_nat base_bits) st in
  match base_bits with
  | O => st
  | S base_bits' =>
      p4Bits32_loop n max_bits bit_width_count base_bits'
        (p4Bits32_advance bit_width_count (Z.of_nat base_bits) st)
  end.

(** The histogram of Phase 2. *)
Definition bit_width_histogram (inp : list Z) (n : Z) : Z -> Z :=
  fold_left (fun cnt v => upd cnt (bitWidth32 v) (cnt (bitWidth32 v) + 1))
    (ztake n inp) (fun _ => 0).

(** The state with which the loop is entered. *)
Definition p4Bits32_init (n max_bits : Z) (bit_width_count : Z -> Z)
  : p4bits_state :=
  let exception_count := bit_width_count max_bits in
  mk_p4bits_state exception_count exception_count
    (update_vbyte_accumulator (fun _ => 0) exception_count max_bits)
    (pad8 (n * max_bits) + 1) max_bits 0.

(** [p4Bits32(in, n, &out_exception_bits)]: the pair
    [(return value, *out_exception_bits)]. *)
Definition p4Bits32 (inp : list Z) (n : Z) : Z * Z :=
  let bitwise_or := fold_left Z.lor (ztake n inp) 0 in
  let first_value := zget inp 0 in
  let equal_count :=
    fold_left (fun c v => c + (if v =? first_value then 1 else 0))
      (ztake n inp) 0 in
  if bitwise_or =? 0 then (0, 0)
  else
    let max_bits := bitWidth32 bitwise_or in
    if equal_count =? n then (max_bits, MAX_BITS + 2)
    else
      let bit_width_count := bit_width_histogram inp n in
      let st :=
        p4Bits32_loop n max_bits bit_width_count (Z.to_nat (max_bits - 1))
          (p4Bits32_init n max_bits bit_width_count) in
      (optimal_base_bits st,
       if use_vbyte_exceptions st =? 0
       then max_bits - optimal_base_bits st
       else MAX_BITS + 1).

(** [writeHeader(out, b, bx)]. *)
Definition writeHeader (b bx : Z) : list Z :=
  if bx =? 0 then [u8 b]
  else if bx <=? MAX_BITS then [u8 (Z.lor 0x80 b); u8 bx]
  else
    let flag := if bx =? MAX_BITS + 1 then 0x40 else 0xC0 in
    [u8 (Z.lor flag b)].

(** ** p4_scalar_bitunpack_impl.h / p4_scalar_bitpack_impl.h:
       horizontal bit packing

    The template parameters [B], [N], [K], [Base], [I] and [Delta1] are
    ordinary arguments. *)

Definition gcd_u32 (a b : Z) : Z := Z.gcd a b.

Definition word_count_for (b n : Z) : Z := (n * b + 63) / 64.

Definition max_words_for_gcd (g : Z) : Z := if g <=? 2 then 12 else 16.

(** [while (k > 1u && k > n) k >>= 1u;] -- [k] starts at a divisor of 64,
    seven rounds exhaust it. *)
Fixpoint choose_shrink (fuel : nat) (k n : Z) : Z :=
  match fuel with
  | O => k
  | S fuel' =>
      if (k >? 1) && (k >? n) then choose_shrink fuel' (Z.shiftr k 1) n else k
  end.

(** The [for (;;)] loop of [choose_block_size]. *)
Fixpoint choose_search (fuel : nat) (b n max_words k : Z) : Z :=
  match fuel with
  | O => n
  | S fuel' =>
      if (word_count_for b k <=? max_words) && ((k * b) mod 8 =? 0) then k
      else if k =? 1 then n
      else choose_search fuel' b n max_words (Z.shiftr k 1)
  end.

Definition choose_block_size (b n : Z) : Z :=
  if n =? 0 then 0
  else
    let g := gcd_u32 64 b in
    let period := 64 / g in
    let max_words := max_words_for_gcd g in
    let k := choose_shrink 7 period n in
    let k := if k >? n then 1 else k in
    choose_search 7 b n max_words k.

(** [store_partial<R>(op, v)] and [load_partial<R>(ip)], [1 <= R <= 7]. *)
Definition store_partial (R v : Z) : list Z :=
  if R >=? 4 then
    storeU32 (u32 v) ++
    (if R >=? 6 then
       storeU16 (u16 (Z.shiftr v 32)) ++
       (if R =? 7 then [u8 (Z.shiftr v 48)] else [])
     else if R =? 5 then [u8 (Z.shiftr v 32)] else [])
  else if R >=? 2 then
    storeU16 (u16 v) ++ (if R =? 3 then [u8 (Z.shiftr v 16)] else [])
  else [u8 v].

Definition load_partial (R : Z) (ip : list Z) : Z :=
  if R >=? 4 then
    let v := loadU32 ip in
    if R >=? 6 then
      let v := Z.lor v (Z.shiftl (loadU16 (zdrop 4 ip)) 32) in
      if R =? 7 then Z.lor v (Z.shiftl (zget ip 6) 48) else v
    else if R =? 5 then Z.lor v (Z.shiftl (zget ip 4) 32) else v
  else if R >=? 2 then
    let v := loadU16 ip in
    if R =? 3 then Z.lor v (Z.shiftl (zget ip 2) 16) else v
  else zget ip 0.

(** [pack_one<B, Base, I>(in, w)]. *)
Definition pack_one (B Base I : Z) (inp w : list Z) : list Z :=
  let idx := Base + I in
  let bitpos := I * B in
  let wi := bitpos / 64 in
  let sh := bitpos mod 64 in
  let w := zset w wi (Z.lor (zget w wi) (shl64 (zget inp idx) sh)) in
  if sh + B >? 64 then
    zset w (wi + 1) (Z.lor (zget w (wi + 1)) (shr64 (zget inp idx) (64 - sh)))
  else w.

(** [pack_all<B, Base>(in, w, index_sequence<0 .. K-1>)]. *)
Definition pack_all (B Base K : Z) (inp w : list Z) : list Z :=
  fold_left (fun w I => pack_one B Base I inp w) (zseq 0 K) w.

(** [pack_block<B, K, Base>(in, out)]. *)
Definition pack_block (B K Base : Z) (inp : list Z) : list Z :=
  let total_bits := K * B in
  let total_bytes := (total_bits + 7) / 8 in
  let word_count := (total_bits + 63) / 64 in
  let last_bytes := total_bytes - (word_count - 1) * 8 in
  let w := pack_all B Base K inp (repeat 0 (Z.to_nat word_count)) in
  flat_map storeU64 (ztake (word_count - 1) w) ++
  (if last_bytes =? 8 then storeU64 (zget w (word_count - 1))
   else store_partial last_bytes (zget w (word_count - 1))).

(** [pack_blocks<B, N, Base>(in, out)]; the template recursion ends
    because every block holds at least one element, [fuel] bounds it. *)
Fixpoint pack_blocks (fuel : nat) (B N Base : Z) (inp : list Z) : list Z :=
  match fuel with
  | O => []
  | S fuel' =>
      if N =? 0 then []
      else
        let block := choose_block_size B N in
        let op := pack_block B block Base inp in
        if N =? block then op
        else op ++ pack_blocks fuel' B (N - block) (Base + block) inp
  end.

(** [pack_n_b<B, N>(in, out)], [1 <= B <= 32], [1 <= N <= 32]. *)
Definition pack_n_b (B N : Z) (inp : list Z) : list Z :=
  if B =? 32 then copyU32ArrayToLe inp N
  else if B =? 16 then flat_map (fun v => storeU16 (u16 v)) (ztake N inp)
  else if B =? 8 then map u8 (ztake N inp)
  else pack_blocks (Z.to_nat N) B N 0 inp.

(** The [while (in < end)] loop of [bitpack_b<B>]: [k] blocks of 32. *)
Fixpoint bitpack_b_full (k : nat) (B : Z) (inp : list Z) : list Z :=
  match k with
  | O => []
  | S k' => pack_n_b B 32 inp ++ bitpack_b_full k' B (zdrop 32 inp)
  end.

(** [Bitpack32ScalarImpl::bitpack_b<B>(in, n, out)]. *)
Definition bitpack_b (B : Z) (inp : list Z) (n : Z) : list Z :=
  let full := Z.land n (Z.lnot 31) in
  let out := bitpack_b_full (Z.to_nat (full / 32)) B inp in
  let n := Z.land n 31 in
  if n =? 0 then out else out ++ pack_n_b B n (zdrop full inp).

(** [bitpack32Scalar(in, n, out, b)], that is
    [Bitpack32ScalarImpl::dispatch].  The function table has the entries
    [1 .. 32]; the embedding is used with [b <= 32] only. *)
Definition bitpack32Scalar (inp : list Z) (n b : Z) : list Z :=
  if b =? 0 then []
  else if b =? 32 then copyU32ArrayToLe inp n
  else bitpack_b b inp n.

(** [unpack_emit_one<Delta1, B, Base, I>(w, out, acc)]: the value stored
    at [out[Base + I]] and the accumulator. *)
Definition unpack_emit_one (Delta1 : bool) (B Base I : Z) (w : list Z)
    (acc : Z) : Z * Z :=
  let idx := Base + I in
  let bitpos := I * B in
  let wi := bitpos / 64 in
  let sh := bitpos mod 64 in
  let mask := u32 (u64 (Z.shiftl 1 B) - 1) in
  let v := shr64 (zget w wi) sh in
  let v := if sh + B >? 64
           then Z.lor v (shl64 (zget w (wi + 1)) (64 - sh)) else v in
  if Delta1 then
    let acc := u32 (acc + Z.land (u32 v) mask) in
    (u32 (acc + u32 (idx + 1)), acc)
  else (Z.land (u32 v) mask, acc).

(** [unpack_emit<Delta1, B, Base>(w, out, acc, index_sequence<0 .. K-1>)]:
    the values stored at [out[Base .. Base + K)] and the accumulator. *)
Fixpoint unpack_emit_from (Delta1 : bool) (B Base : Z) (w : list Z)
    (Is : list Z) (acc : Z) : list Z * Z :=
  match Is with
  | [] => ([], acc)
  | i :: Is' =>
      let '(x, acc) := unpack_emit_one Delta1 B Base i w acc in
      let '(xs, acc) := unpack_emit_from Delta1 B Base w Is' acc in
      (x :: xs, acc)
  end.

Definition unpack_emit (Delta1 : bool) (B Base K : Z) (w : list Z) (acc : Z)
  : list Z * Z :=
  unpack_emit_from Delta1 B Base w (zseq 0 K) acc.

Fixpoint load_words (k : nat) (ip : list Z) : list Z :=
  match k with
  | O => []
  | S k' => loadU64 ip :: load_words k' (zdrop 8 ip)
  end.

(** [unpack_block<Delta1, B, K, Base>(in, out, acc)]: the values, the
    accumulator and the number of bytes consumed. *)
Definition unpack_block (Delta1 : bool) (B K Base : Z) (inp : list Z)
    (acc : Z) : list Z * Z * Z :=
  let total_bits := K * B in
  let total_bytes := (total_bits + 7) / 8 in
  let word_count := (total_bits + 63) / 64 in
  let last_bytes := total_bytes - (word_count - 1) * 8 in
  let ip := zdrop (8 * (word_count - 1)) inp in
  let w := load_words (Z.to_nat (word_count - 1)) inp ++
           [if last_bytes =? 8 then loadU64 ip else load_partial last_bytes ip] in
  let '(vals, acc) := unpack_emit Delta1 B Base K w acc in
  (vals, acc, total_bytes).

(** [unpack_blocks<Delta1, B, N, Base>(in, out, acc)]. *)
Fixpoint unpack_blocks (fuel : nat) (Delta1 : bool) (B N Base : Z)
    (inp : list Z) (acc : Z) : list Z * Z :=
  match fuel with
  | O => ([], 0)
  | S fuel' =>
      if N =? 0 then ([], 0)
      else
        let block := choose_block_size B N in
        let '(vals, acc, used) := unpack_block Delta1 B block Base inp acc in
        if N =? block then (vals, used)
        else
          let '(vals', used') :=
            unpack_blocks fuel' Delta1 B (N - block) (Base + block)
              (zdrop used inp) acc in
          (vals ++ vals', used + used')
  end.

(** The aligned loops of [unpack_n_b] for [B] in [{8, 16, 32}] (their
    unrolled forms [unpack_b32_d1_32], [unpack_b16_d1_32] and
    [unpack_b8_d1_32] compute the same for [N = 32]); [width] is the
    number of bytes per value. *)
Fixpoint unpack_aligned (Delta1 : bool) (width : Z) (k : nat) (i : Z)
    (ip : list Z) (start : Z) : list Z :=
  match k with
  | O => []
  | S k' =>
      let v := if width =? 4 then loadU32 ip
               else if width =? 2 then loadU16 ip else zget ip 0 in
      if Delta1 then
        let start := u32 (start + v) in
        u32 (start + u32 (i + 1))
          :: unpack_aligned Delta1 width k' (i + 1) (zdrop width ip) start
      else v :: unpack_aligned Delta1 width k' (i + 1) (zdrop width ip) start
  end.

(** [unpack_n_b<Delta1, B, N>(in, out, start)]: the [N] values and the
    bytes consumed. *)
Definition unpack_n_b (Delta1 : bool) (B N : Z) (inp : list Z) (start : Z)
  : list Z * Z :=
  if B =? 32 then (unpack_aligned Delta1 4 (Z.to_nat N) 0 inp start, N * 4)
  else if B =? 16 then (unpack_aligned Delta1 2 (Z.to_nat N) 0 inp start, N * 2)
  else if B =? 8 then (unpack_aligned Delta1 1 (Z.to_nat N) 0 inp start, N)
  else unpack_blocks (Z.to_nat N) Delta1 B N 0 inp start.

(** The [while (out < end)] loop of [bitunpack_b<B>]: [k] blocks of 32;
    in the fused variant the next block starts from [out[31]]. *)
Fixpoint bitunpack_b_full (k : nat) (Delta1 : bool) (B : Z) (inp : list Z)
    (start : Z) : list Z * Z * Z :=
  match k with
  | O => ([], 0, start)
  | S k' =>
      let '(vals, used) := unpack_n_b Delta1 B 32 inp (if Delta1 then start else 0) in
      let start := if Delta1 then zget vals 31 else start in
      let '(vals', used', start') :=
        bitunpack_b_full k' Delta1 B (zdrop used inp) start in
      (vals ++ vals', used + used', start')
  end.

(** [Bitunpack32ScalarImpl<Delta1>::bitunpack_b<B>(in, n, out, start)]. *)
Definition bitunpack_b (Delta1 : bool) (B : Z) (inp : list Z) (n start : Z)
  : list Z * Z :=
  let full := Z.land n (Z.lnot 31) in
  let '(vals, used, start) :=
    bitunpack_b_full (Z.to_nat (full / 32)) Delta1 B inp start in
  let n := Z.land n 31 in
  if n =? 0 then (vals, used)
  else
    let '(vals', used') :=
      unpack_n_b Delta1 B n (zdrop used inp) (if Delta1 then start else 0) in
    (vals ++ vals', used + used').

(** [Bitunpack32ScalarImpl<Delta1>::dispatch(in, n, out, start, b)].  The
    function table has 33 entries; for [b > 32] the C++ indexes past its
    end and no behaviour is defined: the embedding has no result there. *)
Definition bitunpack_dispatch (Delta1 : bool) (inp : list Z) (n start b : Z)
  : option (list Z * Z) :=
  if b =? 0 then
    Some (if Delta1
          then map (fun i => u32 (u32 (start + i) + 1)) (zseq 0 n)
          else map (fun _ => 0) (zseq 0 n), 0)
  else if b <=? 32 then Some (bitunpack_b Delta1 b inp n start)
  else None.

(** [bitunpack32Scalar(in, n, out, b)]. *)
Definition bitunpack32Scalar (inp : list Z) (n b : Z) : option (list Z * Z) :=
  bitunpack_dispatch false inp n 0 b.

(** Modelled from the spec: the file that defines [bitunpackd1_32Scalar]
    is absent; p4_scalar_internal.h declares it as the fused unpack +
    delta1 decode, and it is taken as the [Delta1 = true] instance of
    [Bitunpack32ScalarImpl::dispatch], as [bitunpack32Scalar] is the
    [Delta1 = false] instance. *)
Definition bitunpackd1_32Scalar (inp : list Z) (n start b : Z)
  : option (list Z * Z) :=
  bitunpack_dispatch true inp n start b.

(** ** p4enc32.cpp: the scalar block encoder *)

(** Phase 1 of [p4Enc32PayloadExceptions]: the arrays [base],
    [exceptions] and [exception_positions] ([i] is the index of the head
    of [vals]). *)
Fixpoint split_exceptions (vals : list Z) (i base_mask b : Z)
  : list Z * list Z * list Z :=
  match vals with
  | [] => ([], [], [])
  | value :: vals' =>
      let '(base, exceptions, exception_positions) :=
        split_exceptions vals' (i + 1) base_mask b in
      let base_i := u32 (Z.land value base_mask) in
      if value >? base_mask
      then (base_i :: base, shr32 value b :: exceptions,
            i :: exception_positions)
      else (base_i :: base, exceptions, exception_positions)
  end.

(** [bitmap[pos >> 6] |= 1ull << (pos & 0x3Fu)]. *)
Definition bitmap_set (bitmap : list Z) (pos : Z) : list Z :=
  zset bitmap (Z.shiftr pos 6)
    (Z.lor (zget bitmap (Z.shiftr pos 6)) (shl64 1 (Z.land pos 0x3F))).

Definition build_bitmap (exception_positions : list Z) : list Z :=
  fold_left bitmap_set exception_positions [0; 0; 0; 0].

(** The bitmap as it stands in the output: [bitmap_words] full words are
    stored and the pointer advances by [pad8(n)] bytes only, so that the
    bytes past [pad8(n)] are overwritten by what follows (or lie past the
    returned end). *)
Definition write_bitmap (bitmap : list Z) (n : Z) : list Z :=
  let bitmap_words := u32 (n + 63) / 64 in
  ztake (pad8 n) (flat_map storeU64 (ztake bitmap_words bitmap)).

(** [p4Enc32PayloadExceptions(in, n, out, b, bx)]. *)
Definition p4Enc32PayloadExceptions (inp : list Z) (n b bx : Z) : list Z :=
  let base_mask := u32 (shl32 1 b - 1) in
  let '(base, exceptions, exception_positions) :=
    split_exceptions (ztake n inp) 0 base_mask b in
  let exception_count := zlen exceptions in
  if bx <=? MAX_BITS then
    write_bitmap (build_bitmap exception_positions) n
    ++ bitpack32Scalar exceptions exception_count bx
    ++ bitpack32Scalar base n b
  else
    [u8 exception_count]
    ++ bitpack32Scalar base n b
    ++ vbEnc32 exceptions exception_count
    ++ map u8 exception_positions.

(** The bytes [out[i] = masked_value >> (i * 8)], [i < bytes_needed]. *)
Definition store_low_bytes (bytes_needed v : Z) : list Z :=
  map (fun i => u8 (Z.shiftr v (i * 8))) (zseq 0 bytes_needed).

(** [p4Enc32Payload(in, n, out, b, bx)]. *)
Definition p4Enc32Payload (inp : list Z) (n b bx : Z) : list Z :=
  if (b =? 0) && (bx =? 0) then []
  else if bx =? 0 then bitpack32Scalar inp n b
  else if bx =? MAX_BITS + 2 then
    if b =? 32 then storeU32 (zget inp 0)
    else
      let masked_value := Z.land (zget inp 0) (u32 (shl32 1 b - 1)) in
      let bytes_needed := (b + 7) / 8 in
      store_low_bytes bytes_needed masked_value
  else p4Enc32PayloadExceptions inp n b bx.

(** [turbopfor::scalar::p4Enc32(in, n, out)]. *)
Definition p4Enc32 (inp : list Z) (n : Z) : list Z :=
  let '(base_bits, exception_bits) := p4Bits32 inp n in
  writeHeader base_bits exception_bits
  ++ p4Enc32Payload inp n base_bits exception_bits.

(** ** p4d1dec32.cpp: the scalar block decoder with delta1 *)

(** The lowest set bit of a non-zero word, as the portable branch finds
    it: [while (((word >> bit) & 1) == 0) ++bit]. *)
Fixpoint ctz_scan (fuel : nat) (word bit : Z) : Z :=
  match fuel with
  | O => bit
  | S fuel' =>
      if Z.land (Z.shiftr word bit) 1 =? 0
      then ctz_scan fuel' word (bit + 1) else bit
  end.
Definition ctzll (word : Z) : Z := ctz_scan 64 word 0.

(** The number of set bits of a 64-bit word, as the portable branch
    counts it: [while (word) { ++count; word &= word - 1; }]. *)
Fixpoint popcount_loop (fuel : nat) (word : Z) : Z :=
  match fuel with
  | O => 0
  | S fuel' =>
      if word =? 0 then 0
      else 1 + popcount_loop fuel' (Z.land word (word - 1))
  end.
Definition popcountll (word : Z) : Z := popcount_loop 64 word.

(** Phase 1 of the bitmap decoders: the words of the bitmap, the last one
    masked to [n mod 64] bits. *)
Fixpoint load_bitmap (k : nat) (i bitmap_words n : Z) (inp : list Z)
  : list Z :=
  match k with
  | O => []
  | S k' =>
      let word := loadU64 inp in
      let word :=
        if (i =? bitmap_words - 1) && negb (Z.land n 0x3F =? 0)
        then Z.land word (u64 (shl64 1 (Z.land n 0x3F) - 1))
        else word in
      word :: load_bitmap k' (i + 1) bitmap_words n (zdrop 8 inp)
  end.

Definition count_exceptions (bitmap : list Z) : Z :=
  fold_left (fun c word => u32 (c + popcountll word)) bitmap 0.

(** The inner [while (word)] loop of Phase 3: every set bit of [word]
    ORs the next exception into [out]; the index of the next exception is
    threaded through. *)
Fixpoint patch_word (fuel : nat) (word word_index b : Z)
    (exception_values : list Z) (exception_index : Z) (out : list Z)
  : list Z * Z :=
  match fuel with
  | O => (out, exception_index)
  | S fuel' =>
      if word =? 0 then (out, exception_index)
      else
        let bit_position := ctzll word in
        let value_index := word_index * 64 + bit_position in
        let out :=
          zset out value_index
            (Z.lor (zget out value_index)
                   (shl32 (zget exception_values exception_index) b)) in
        patch_word fuel' (Z.land word (word - 1)) word_index b
          exception_values (exception_index + 1) out
  end.

Fixpoint patch_words (bitmap : list Z) (word_index b : Z)
    (exception_values : list Z) (exception_index : Z) (out : list Z)
  : list Z :=
  match bitmap with
  | [] => out
  | word :: bitmap' =>
      let '(out, exception_index) :=
        patch_word 64 word word_index b exception_values exception_index out in
      patch_words bitmap' (word_index + 1) b exception_values
        exception_index out
  end.

(** [for (i = 0; i < n; ++i) out[i] = (start += out[i]) + (i + 1u)]. *)
Fixpoint delta1_loop (vals : list Z) (i start : Z) : list Z :=
  match vals with
  | [] => []
  | v :: vals' =>
      let start := u32 (start + v) in
      u32 (start + u32 (i + 1)) :: delta1_loop vals' (i + 1) start
  end.

(** [p4D1DecPayloadExceptions(in, n, out, start, b, bx)]. *)
Definition p4D1DecPayloadExceptions (inp : list Z) (n start b bx : Z)
  : option (list Z * Z) :=
  let bitmap_words := u32 (n + 63) / 64 in
  let bitmap := load_bitmap (Z.to_nat bitmap_words) 0 bitmap_words n inp in
  let exception_count := count_exceptions bitmap in
  let input_ptr := zdrop (pad8 n) inp in
  match bitunpack32Scalar input_ptr exception_count bx with
  | None => None
  | Some (exception_values, used1) =>
      let input_ptr := zdrop used1 input_ptr in
      match bitunpack32Scalar input_ptr n b with
      | None => None
      | Some (out, used2) =>
          let out := patch_words bitmap 0 b exception_values 0 out in
          Some (delta1_loop (ztake n out) 0 start, pad8 n + used1 + used2)
      end
  end.

(** The merge loop of the vbyte path:
    [out[input_ptr[i]] |= exception_values[i] << base_bits]. *)
Fixpoint merge_positions (exception_values positions : list Z) (b : Z)
    (out : list Z) : list Z :=
  match exception_values, positions with
  | e :: es, position :: ps =>
      merge_positions es ps b
        (zset out position (Z.lor (zget out position) (shl32 e b)))
  | _, _ => out
  end.

(** [turbopfor::scalar::p4D1Dec32(in, n, out, start)]: the decoded values
    and the number of bytes consumed; no result where the C++ has no
    defined behaviour (a table index past the end, [__builtin_unreachable]). *)
Definition p4D1Dec32 (inp : list Z) (n start : Z) : option (list Z * Z) :=
  let base_bits := zget inp 0 in
  let input_ptr := zdrop 1 inp in
  if Z.land base_bits 0xC0 =? 0 then
    match bitunpackd1_32Scalar input_ptr n start base_bits with
    | None => None
    | Some (out, used) => Some (out, 1 + used)
    end
  else if Z.land base_bits 0x40 =? 0 then
    let exception_bits := zget input_ptr 0 in
    let input_ptr := zdrop 1 input_ptr in
    let base_bits := Z.land base_bits 0x7F in
    match (if exception_bits =? 0
           then bitunpackd1_32Scalar input_ptr n start base_bits
           else p4D1DecPayloadExceptions input_ptr n start base_bits
                  exception_bits) with
    | None => None
    | Some (out, used) => Some (out, 2 + used)
    end
  else if Z.land base_bits 0xC0 =? 0xC0 then
    let base_bits := Z.land base_bits 0x3F in
    let bytes_stored := (base_bits + 7) / 8 in
    let loaded :=
      if bytes_stored =? 1 then Some (zget input_ptr 0)
      else if bytes_stored =? 2 then Some (loadU16 input_ptr)
      else if bytes_stored =? 3 then Some (loadU24 input_ptr)
      else if bytes_stored =? 4 then Some (loadU32 input_ptr)
      else None in
    match loaded with
    | None => None
    | Some constant_value =>
        let constant_value :=
          u32 (Z.land constant_value (u64 (shl64 1 base_bits - 1))) in
        Some (delta1_loop (map (fun _ => constant_value) (zseq 0 n)) 0 start,
              1 + bytes_stored)
    end
  else
    let base_bits := Z.land base_bits 0x3F in
    let exception_count := zget input_ptr 0 in
    let input_ptr := zdrop 1 input_ptr in
    match bitunpack32Scalar input_ptr n base_bits with
    | None => None
    | Some (out, used1) =>
        let input_ptr := zdrop used1 input_ptr in
        let '(exception_values, used2) := vbDec32 input_ptr exception_count in
        let input_ptr := zdrop used2 input_ptr in
        let out :=
          merge_positions exception_values (ztake exception_count input_ptr)
            base_bits out in
        Some (delta1_loop (ztake n out) 0 start,
              2 + used1 + used2 + exception_count)
    end.

(** ** bitpack128v32_scalar.cpp / bitpack256v32_scalar.cpp:
       lane-interleaved bit packing

    The two files differ in their constants only ([V128_LANE_COUNT = 4],
    [V256_LANE_COUNT = 8]; 32 groups each); [LANE_COUNT] is an argument
    here.  The lane arrays [ov] and [iv] are lists of [LANE_COUNT]
    words. *)

Definition V128_LANE_COUNT : Z := 4.
Definition V256_LANE_COUNT : Z := 8.
Definition V_GROUP_COUNT : Z := 32.

(** One round of the group loop of [bitpack128v32Scalar] /
    [bitpack256v32Scalar]: the accumulators, [shift] and the bytes written
    in this round. *)
Definition bitpack_v_group (LANE_COUNT b mask : Z) (inp : list Z) (g : Z)
    (ov : list Z) (shift : Z) : list Z * Z * list Z :=
  let iv := map (fun lane => Z.land (zget inp (g * LANE_COUNT + lane)) mask)
                (zseq 0 LANE_COUNT) in
  let ov :=
    if shift =? 0 then iv
    else map (fun lane => Z.lor (zget ov lane) (shl32 (zget iv lane) shift))
             (zseq 0 LANE_COUNT) in
  let shift := shift + b in
  if shift >=? 32 then
    let written := flat_map storeU32 ov in
    let shift := shift - 32 in
    let ov :=
      if shift >? 0
      then map (fun lane => shr32 (zget iv lane) (b - shift)) (zseq 0 LANE_COUNT)
      else map (fun _ => 0) (zseq 0 LANE_COUNT) in
    (ov, shift, written)
  else (ov, shift, []).

Fixpoint bitpack_v_groups (LANE_COUNT b mask : Z) (inp : list Z)
    (groups : list Z) (ov : list Z) (shift : Z) : list Z * Z * list Z :=
  match groups with
  | [] => (ov, shift, [])
  | g :: groups' =>
      let '(ov, shift, written) :=
        bitpack_v_group LANE_COUNT b mask inp g ov shift in
      let '(ov, shift, written') :=
        bitpack_v_groups LANE_COUNT b mask inp groups' ov shift in
      (ov, shift, written ++ written')
  end.

Definition bitpack_v32Scalar (LANE_COUNT : Z) (inp : list Z) (b : Z) : list Z :=
  if b =? 0 then []
  else if b =? 32 then copyU32ArrayToLe inp (LANE_COUNT * V_GROUP_COUNT)
  else
    let mask := u32 (shl32 1 b - 1) in
    let '(ov, shift, written) :=
      bitpack_v_groups LANE_COUNT b mask inp (zseq 0 V_GROUP_COUNT)
        (map (fun _ => 0) (zseq 0 LANE_COUNT)) 0 in
    if shift >? 0 then written ++ flat_map storeU32 ov else written.

Definition bitpack128v32Scalar := bitpack_v32Scalar V128_LANE_COUNT.
Definition bitpack256v32Scalar := bitpack_v32Scalar V256_LANE_COUNT.

(** [LANE_COUNT] consecutive little-endian words. *)
Definition load_lanes (LANE_COUNT : Z) (inp : list Z) : list Z :=
  map (fun lane => loadU32 (zdrop (4 * lane) inp)) (zseq 0 LANE_COUNT).

(** One round of the group loop of [bitunpack128v32Scalar] /
    [bitunpack256v32Scalar]: [iv], [shift], the bytes read so far and the
    [LANE_COUNT] values stored. *)
Definition bitunpack_v_group (LANE_COUNT b mask : Z) (inp : list Z)
    (iv : list Z) (shift inp_off : Z) : list Z * Z * Z * list Z :=
  let '(iv, inp_off) :=
    if shift =? 0
    then (load_lanes LANE_COUNT (zdrop inp_off inp), inp_off + 4 * LANE_COUNT)
    else (iv, inp_off) in
  let ov := map (fun x => Z.land (shr32 x shift) mask) iv in
  let shift := shift + b in
  if shift >=? 32 then
    let shift := shift - 32 in
    if shift >? 0 then
      let iv := load_lanes LANE_COUNT (zdrop inp_off inp) in
      let ov :=
        map (fun lane =>
               Z.lor (zget ov lane)
                     (Z.land (shl32 (zget iv lane) (b - shift)) mask))
            (zseq 0 LANE_COUNT) in
      (iv, shift, inp_off + 4 * LANE_COUNT, ov)
    else (iv, shift, inp_off, ov)
  else (iv, shift, inp_off, ov).

Fixpoint bitunpack_v_groups (k : nat) (LANE_COUNT b mask : Z) (inp : list Z)
    (iv : list Z) (shift inp_off : Z) : list Z :=
  match k with
  | O => []
  | S k' =>
      let '(iv, shift, inp_off, ov) :=
        bitunpack_v_group LANE_COUNT b mask inp iv shift inp_off in
      ov ++ bitunpack_v_groups k' LANE_COUNT b mask inp iv shift inp_off
  end.

Definition bitunpack_v32Scalar (LANE_COUNT : Z) (inp : list Z) (b : Z)
  : option (list Z * Z) :=
  let BLOCK_SIZE := LANE_COUNT * V_GROUP_COUNT in
  if b =? 0 then Some (map (fun _ => 0) (zseq 0 BLOCK_SIZE), 0)
  else if b =? 32 then Some (copyU32ArrayFromLe inp BLOCK_SIZE, BLOCK_SIZE * 4)
  else if b >? 32 then None
  else
    let mask := u32 (shl32 1 b - 1) in
    Some (bitunpack_v_groups (Z.to_nat V_GROUP_COUNT) LANE_COUNT b mask inp
            (map (fun _ => 0) (zseq 0 LANE_COUNT)) 0 0,
          u32 (BLOCK_SIZE * b + 7) / 8).

Definition bitunpack128v32Scalar := bitunpack_v32Scalar V128_LANE_COUNT.
Definition bitunpack256v32Scalar := bitunpack_v32Scalar V256_LANE_COUNT.

(** ** p4d1dec128v32_scalar.cpp: the scalar decoder of the 128v layout *)

(** [applyDelta1(out, n, start)]: [acc += out[i] + 1; out[i] = acc] on
    the first [n] cells. *)
Fixpoint applyDelta1_loop (vals : list Z) (acc : Z) : list Z :=
  match vals with
  | [] => []
  | v :: vals' =>
      let acc := u32 (acc + u32 (v + 1)) in
      acc :: applyDelta1_loop vals' acc
  end.
Definition applyDelta1 (out : list Z) (n start : Z) : list Z :=
  applyDelta1_loop (ztake n out) start ++ zdrop n out.

(** [p4D1Dec128PayloadBitmap(in, n, out, start, b, bx)]: the 128 cells of
    [out] and the bytes consumed. *)
Definition p4D1Dec128PayloadBitmap (inp : list Z) (n start b bx : Z)
  : option (list Z * Z) :=
  let words := u32 (n + 63) / 64 in
  let bitmap := load_bitmap (Z.to_nat words) 0 words n inp in
  let exception_count := count_exceptions bitmap in
  let ip := zdrop (pad8 n) inp in
  match bitunpack32Scalar ip exception_count bx with
  | None => None
  | Some (exceptions, used1) =>
      let ip := zdrop used1 ip in
      match bitunpack128v32Scalar ip b with
      | None => None
      | Some (out, used2) =>
          let out := patch_words bitmap 0 b exceptions 0 out in
          Some (applyDelta1 out n start, pad8 n + used1 + used2)
      end
  end.

(** The two places of [p4D1Dec128Payload] that unpack and apply delta1. *)
Definition unpack128_delta1 (inp : list Z) (n start b : Z)
  : option (list Z * Z) :=
  match bitunpack128v32Scalar inp b with
  | None => None
  | Some (out, used) => Some (applyDelta1 out n start, used)
  end.

(** [p4D1Dec128Payload(in, n, out, start, b, bx)]. *)
Definition p4D1Dec128Payload (inp : list Z) (n start b bx : Z)
  : option (list Z * Z) :=
  if Z.land b 0x80 =? 0 then unpack128_delta1 inp n start b
  else
    let b := Z.land b 0x7F in
    if bx =? 0 then unpack128_delta1 inp n start b
    else p4D1Dec128PayloadBitmap inp n start b bx.

(** [turbopfor::scalar::p4D1Dec128v32(in, n, out, start)]: the cells of
    [out] that the call writes and the bytes consumed. *)
Definition p4D1Dec128v32 (inp : list Z) (n start : Z) : option (list Z * Z) :=
  if n =? 0 then Some ([], 0)
  else
    let b := zget inp 0 in
    let ip := zdrop 1 inp in
    if Z.land b 0xC0 =? 0xC0 then
      let b := Z.land b 0x3F in
      let value := loadU32 ip in
      let value := if b <? MAX_BITS then Z.land value (maskBits b) else value in
      let out := map (fun _ => value) (zseq 0 n) in
      Some (applyDelta1 out n start, 1 + (b + 7) / 8)
    else if Z.land b 0x40 =? 0 then
      let bx := if negb (Z.land b 0x80 =? 0) then zget ip 0 else 0 in
      let hdr := if negb (Z.land b 0x80 =? 0) then 2 else 1 in
      match p4D1Dec128Payload (zdrop hdr inp) n start b bx with
      | None => None
      | Some (out, used) => Some (out, hdr + used)
      end
    else
      let bx := zget ip 0 in
      let ip := zdrop 1 ip in
      let b := Z.land b 0x3F in
      match bitunpack128v32Scalar ip b with
      | None => None
      | Some (out, used1) =>
          let ip := zdrop used1 ip in
          let '(exceptions, used2) := vbDec32 ip bx in
          let ip := zdrop used2 ip in
          let out := merge_positions exceptions (ztake bx ip) b out in
          Some (applyDelta1 out n start, 2 + used1 + used2 + bx)
      end.

(** ** p4enc256v32_scalar.cpp: the scalar encoder of the 256v layout *)

(** Phase 1 of [p4Enc256v32PayloadExceptions]: the branch-free scan that
    yields [exception_positions] (its first [exception_count] cells) and
    [base]. *)
Fixpoint scan_exceptions (vals : list Z) (i base_mask : Z)
  : list Z * list Z :=
  match vals with
  | [] => ([], [])
  | v :: vals' =>
      let '(exception_positions, base) :=
        scan_exceptions vals' (i + 1) base_mask in
      (if v >? base_mask then i :: exception_positions
       else exception_positions,
       u32 (Z.land v base_mask) :: base)
  end.

(** [p4Enc256v32PayloadExceptions(in, n, out, b, bx)]. *)
Definition p4Enc256v32PayloadExceptions (inp : list Z) (n b bx : Z) : list Z :=
  let base_mask := if b >=? 32 then 0xFFFFFFFF else u64 (shl64 1 b - 1) in
  let '(exception_positions, base) :=
    scan_exceptions (ztake n inp) 0 base_mask in
  let exception_count := zlen exception_positions in
  let bitmap := build_bitmap exception_positions in
  let exceptions :=
    map (fun pos => u32 (shr32 (zget inp pos) b)) exception_positions in
  if bx <=? MAX_BITS then
    write_bitmap bitmap n
    ++ bitpack32Scalar exceptions exception_count bx
    ++ bitpack256v32Scalar base b
  else
    [u8 exception_count]
    ++ bitpack256v32Scalar base b
    ++ vbEnc32 exceptions exception_count
    ++ map u8 exception_positions.

(** [p4Enc256v32Payload(in, n, out, b, bx)]; [storeU32] writes four
    bytes of which [(b + 7) / 8] lie before the returned pointer. *)
Definition p4Enc256v32Payload (inp : list Z) (n b bx : Z) : list Z :=
  if bx =? 0 then bitpack256v32Scalar inp b
  else if bx =? MAX_BITS + 2 then ztake ((b + 7) / 8) (storeU32 (zget inp 0))
  else p4Enc256v32PayloadExceptions inp n b bx.

(** [turbopfor::scalar::p4Enc256v32(in, n, out)]. *)
Definition p4Enc256v32 (inp : list Z) (n : Z) : list Z :=
  if n =? 0 then []
  else
    let '(b, bx) := p4Bits32 inp n in
    writeHeader b bx ++ p4Enc256v32Payload inp n b bx.

(** ** The SIMD decoders (src/simd)

    A vector register is the list of its 32-bit lanes, lane 0 first; the
    intrinsics are the functions of the same name. *)

Definition vzip (f : Z -> Z -> Z) (a b : list Z) : list Z :=
  map (fun p => f (fst p) (snd p)) (combine a b).

Definition mm_add_epi32 : list Z -> list Z -> list Z :=
  vzip (fun x y => u32 (x + y)).
Definition mm_and_si : list Z -> list Z -> list Z := vzip Z.land.
Definition mm_or_si : list Z -> list Z -> list Z := vzip Z.lor.
Definition mm_set1_epi32 (lanes x : Z) : list Z :=
  map (fun _ => x) (zseq 0 lanes).
Definition mm_slli_epi32 (a : list Z) (k : Z) : list Z :=
  map (fun x => if k >? 31 then 0 else shl32 x k) a.
Definition mm_srli_epi32 (a : list Z) (k : Z) : list Z :=
  map (fun x => if k >? 31 then 0 else shr32 x k) a.

(** [_mm_slli_si128(v, 4 * k)]: the lanes of a 128-bit register move up by
    [k] places. *)
Definition mm_slli_si128 (v : list Z) (k : Z) : list Z :=
  map (fun _ => 0) (zseq 0 k) ++ ztake (4 - k) v.
(** [_mm256_slli_si256(v, 4 * k)]: the same in each 128-bit half. *)
Definition mm256_slli_si256 (v : list Z) (k : Z) : list Z :=
  mm_slli_si128 (ztake 4 v) k ++ mm_slli_si128 (zdrop 4 v) k.

(** [_mm_shuffle_epi32(v, 0xFF)] and [_mm256_shuffle_epi32(v, 0xFF)]. *)
Definition mm_shuffle_epi32_FF (v : list Z) : list Z :=
  mm_set1_epi32 4 (zget v 3).
Definition mm256_shuffle_epi32_FF (v : list Z) : list Z :=
  mm_set1_epi32 4 (zget v 3) ++ mm_set1_epi32 4 (zget v 7).

(** [_mm256_permute2x128_si256(a, b, imm)]. *)
Definition mm256_permute2x128_si256 (a b : list Z) (imm : Z) : list Z :=
  let half c :=
    if Z.testbit c 3 then mm_set1_epi32 4 0
    else if Z.land c 3 =? 0 then ztake 4 a
    else if Z.land c 3 =? 1 then zdrop 4 a
    else if Z.land c 3 =? 2 then ztake 4 b
    else zdrop 4 b in
  half (Z.land imm 0xF) ++ half (Z.land (Z.shiftr imm 4) 0xF).

(** [_mm_shuffle_epi8(a, mask)]: byte [i] of the result is 0 if the top
    bit of [mask[i]] is set, else byte [mask[i] & 15] of [a]. *)
Definition mm_shuffle_epi8 (a mask : list Z) : list Z :=
  let bytes := flat_map storeU32 a in
  load_lanes 4
    (map (fun m => if Z.testbit m 7 then 0 else zget bytes (Z.land m 0x0F))
         mask).

(** [_shuffle_128_table] of bitunpack_sse_templates.h and [_shuffle_avx2]
    of bitunpack_avx2_templates.h (the same 16 rows; [(char)0xff] as the
    byte 255). *)
Definition shuffle_table : list (list Z) :=
  [[255; 255; 255; 255; 255; 255; 255; 255; 255; 255; 255; 255; 255; 255; 255; 255];
   [0; 1; 2; 3; 255; 255; 255; 255; 255; 255; 255; 255; 255; 255; 255; 255];
   [255; 255; 255; 255; 0; 1; 2; 3; 255; 255; 255; 255; 255; 255; 255; 255];
   [0; 1; 2; 3; 4; 5; 6; 7; 255; 255; 255; 255; 255; 255; 255; 255];
   [255; 255; 255; 255; 255; 255; 255; 255; 0; 1; 2; 3; 255; 255; 255; 255];
   [0; 1; 2; 3; 255; 255; 255; 255; 4; 5; 6; 7; 255; 255; 255; 255];
   [255; 255; 255; 255; 0; 1; 2; 3; 4; 5; 6; 7; 255; 255; 255; 255];
   [0; 1; 2; 3; 4; 5; 6; 7; 8; 9; 10; 11; 255; 255; 255; 255];
   [255; 255; 255; 255; 255; 255; 255; 255; 255; 255; 255; 255; 0; 1; 2; 3];
   [0; 1; 2; 3; 255; 255; 255; 255; 255; 255; 255; 255; 4; 5; 6; 7];
   [255; 255; 255; 255; 0; 1; 2; 3; 255; 255; 255; 255; 4; 5; 6; 7];
   [0; 1; 2; 3; 4; 5; 6; 7; 255; 255; 255; 255; 8; 9; 10; 11];
   [255; 255; 255; 255; 255; 255; 255; 255; 0; 1; 2; 3; 4; 5; 6; 7];
   [0; 1; 2; 3; 255; 255; 255; 255; 4; 5; 6; 7; 8; 9; 10; 11];
   [255; 255; 255; 255; 0; 1; 2; 3; 4; 5; 6; 7; 8; 9; 10; 11];
   [0; 1; 2; 3; 4; 5; 6; 7; 8; 9; 10; 11; 12; 13; 14; 15]].

Definition shuffle_row (m : Z) : list Z :=
  nth (Z.to_nat m) shuffle_table [].

(** The patch of one 128-bit register: four exceptions are loaded at
    [pex], shifted by [B], moved to the lanes selected by the four mask
    bits [m] and added; [pex] advances by the number of mask bits. *)
Definition patch_lanes (B m : Z) (ex : list Z) (pex : Z) (v : list Z)
  : list Z * Z :=
  let exc := map (fun j => zget ex (pex + j)) (zseq 0 4) in
  let exc_s := mm_slli_epi32 exc B in
  let p := mm_shuffle_epi8 exc_s (shuffle_row m) in
  (mm_add_epi32 v p, pex + popcountll m).

(** [MaskGenSSE<B>::value] and [MaskGen<B>::value]. *)
Definition MaskGen (B : Z) : Z :=
  if B =? 32 then 0xFFFFFFFF else u32 (shl32 1 B - 1).

(** [UnpackStepSSE<B, G, MaxG, CurrentLoadedIdx, Delta, Patching>::run]
    with [fuel = MaxG - G]: the lanes stored at [out + 4 G] onwards, and
    the final [ip] (a byte offset into [inp]), [sv] and [pex]. *)
Fixpoint UnpackStepSSE (fuel : nat) (B G CurrentLoadedIdx : Z)
    (Delta Patching : bool) (inp : list Z) (ip : Z) (iv mask cv sv : list Z)
    (bitmap ex : list Z) (pex : Z) : list Z * Z * list Z * Z :=
  match fuel with
  | O => ([], ip, sv, pex)
  | S fuel' =>
      let TargetIdx := (G * B) / 32 in
      let Offset := (G * B) mod 32 in
      let Spans := Offset + B >? 32 in
      let '(iv, ip) :=
        if TargetIdx >? CurrentLoadedIdx
        then (load_lanes 4 (zdrop ip inp), ip + 16) else (iv, ip) in
      let ov := if Offset =? 0 then iv else mm_srli_epi32 iv Offset in
      let '(iv, ip, ov) :=
        if Spans then
          let iv := load_lanes 4 (zdrop ip inp) in
          let BitsInFirst := 32 - Offset in
          (iv, ip + 16,
           mm_or_si ov (mm_and_si (mm_slli_epi32 iv BitsInFirst) mask))
        else (iv, ip, if B =? 32 then ov else mm_and_si ov mask) in
      let '(ov, pex) :=
        if Patching then
          let w := if G <? 16 then zget bitmap 0 else zget bitmap 1 in
          let shift := (G mod 16) * 4 in
          let m := Z.land (shr64 w shift) 0xF in
          patch_lanes B m ex pex ov
        else (ov, pex) in
      let '(ov, sv) :=
        if Delta then
          let ov := mm_add_epi32 ov (mm_slli_si128 ov 1) in
          let ov := mm_add_epi32 ov (mm_slli_si128 ov 2) in
          let ov := mm_add_epi32 ov (mm_add_epi32 sv cv) in
          (ov, mm_set1_epi32 4 (zget (mm_shuffle_epi32_FF ov) 0))
        else (ov, sv) in
      let NextLoadedIdx := if Spans then TargetIdx + 1 else TargetIdx in
      let '(out, ip, sv, pex) :=
        UnpackStepSSE fuel' B (G + 1) NextLoadedIdx Delta Patching inp ip iv
          mask cv sv bitmap ex pex in
      (ov ++ out, ip, sv, pex)
  end.

(** The [B == 0], [Delta], [!Patching] loop of the entry points:
    [sv += cv], then [MaxG - 1] times [sv += lanes]. *)
Fixpoint progression (k : nat) (lanes : Z) (sv : list Z) : list Z :=
  match k with
  | O => []
  | S k' =>
      let sv := mm_add_epi32 sv (mm_set1_epi32 lanes lanes) in
      sv ++ progression k' lanes sv
  end.

(** [bitunpack_sse_entry<B, Count, Delta, Patching>(in, out, sv, bitmap,
    pex)]: the [Count] values stored and the bytes consumed. *)
Definition bitunpack_sse_entry (B Count : Z) (Delta Patching : bool)
    (inp : list Z) (sv bitmap ex : list Z) (pex : Z) : list Z * Z :=
  let MaxG := Count / 4 in
  if (B =? 0) && Delta && negb Patching then
    let sv := mm_add_epi32 sv [1; 2; 3; 4] in
    (sv ++ progression (Z.to_nat (MaxG - 1)) 4 sv, 0)
  else if (B =? 0) && negb Delta && negb Patching then
    (map (fun _ => 0) (zseq 0 (MaxG * 4)), 0)
  else
    let mask := mm_set1_epi32 4 (MaskGen B) in
    let cv := if Delta then [1; 2; 3; 4] else mm_set1_epi32 4 0 in
    let '(out, ip, _, _) :=
      UnpackStepSSE (Z.to_nat MaxG) B 0 (-1) Delta Patching inp 0
        (mm_set1_epi32 4 0) mask cv sv bitmap ex pex in
    (out, ip).

(** [bitd1unpack128v32_ex(in, out, b, start, bitmap, pex)]: a table of 33
    entries indexed by [b]. *)
Definition bitd1unpack128v32_ex (inp : list Z) (b start : Z)
    (bitmap ex : list Z) (pex : Z) : option (list Z * Z) :=
  if (0 <=? b) && (b <=? 32) then
    Some (bitunpack_sse_entry b 128 true true inp (mm_set1_epi32 4 start)
            bitmap ex pex)
  else None.

(** [p4D1Dec128Exceptions(in, n, out, start, b, bx)] of p4d1dec128v32.cpp
    (SIMD): the 128 cells of [out] and the bytes consumed. *)
Definition p4D1Dec128Exceptions (inp : list Z) (n start b bx : Z)
  : option (list Z * Z) :=
  let words := u32 (n + 63) / 64 in
  let bitmap := load_bitmap (Z.to_nat words) 0 words n inp in
  let num := count_exceptions bitmap in
  let ip := zdrop (pad8 n) inp in
  match bitunpack32Scalar ip num bx with
  | None => None
  | Some (ex, used1) =>
      match bitd1unpack128v32_ex (zdrop used1 ip) b start bitmap ex 0 with
      | None => None
      | Some (out, used2) => Some (out, pad8 n + used1 + used2)
      end
  end.

(** [mm256_scan_epi32(v, sv)] and [mm256_scani_epi32(v, sv, vi)] of
    p4_simd_internal_256v.h. *)
Definition mm256_scan_epi32 (v sv : list Z) : list Z :=
  let v := mm_add_epi32 v (mm256_slli_si256 v 1) in
  let v := mm_add_epi32 v (mm256_slli_si256 v 2) in
  mm_add_epi32
    (mm256_permute2x128_si256 (mm256_shuffle_epi32_FF sv) sv 0x11)
    (mm_add_epi32 v
       (mm256_permute2x128_si256 (mm_set1_epi32 8 0)
          (mm256_shuffle_epi32_FF v) 0x20)).

Definition mm256_scani_epi32 (v sv vi : list Z) : list Z :=
  mm_add_epi32 (mm256_scan_epi32 v sv) vi.

(** [UnpackStep<B, G, MaxG, CurrentLoadedIdx, Delta, Patching>::run] of
    bitunpack_avx2_templates.h with [fuel = MaxG - G]. *)
Fixpoint UnpackStep (fuel : nat) (B G CurrentLoadedIdx : Z)
    (Delta Patching : bool) (inp : list Z) (ip : Z) (iv mask cv sv : list Z)
    (bitmap ex : list Z) (pex : Z) : list Z * Z * list Z * Z :=
  match fuel with
  | O => ([], ip, sv, pex)
  | S fuel' =>
      let TargetIdx := (G * B) / 32 in
      let Offset := (G * B) mod 32 in
      let Spans := Offset + B >? 32 in
      let '(iv, ip) :=
        if TargetIdx >? CurrentLoadedIdx
        then (load_lanes 8 (zdrop ip inp), ip + 32) else (iv, ip) in
      let ov := if Offset =? 0 then iv else mm_srli_epi32 iv Offset in
      let '(iv, ip, ov) :=
        if Spans then
          let iv := load_lanes 8 (zdrop ip inp) in
          let BitsInFirst := 32 - Offset in
          (iv, ip + 32,
           mm_or_si ov (mm_and_si (mm_slli_epi32 iv BitsInFirst) mask))
        else (iv, ip, if B =? 32 then ov else mm_and_si ov mask) in
      let '(ov, pex) :=
        if Patching then
          let WordIdx := G / 8 in
          let Shift := (G mod 8) * 8 in
          let w := zget bitmap WordIdx in
          let m := Z.land (shr64 w Shift) 0xFF in
          let m_low := Z.land m 0xF in
          let m_high := Z.shiftr m 4 in
          let '(v_low, pex) := patch_lanes B m_low ex pex (ztake 4 ov) in
          let ov := v_low ++ zdrop 4 ov in
          let '(v_high, pex) := patch_lanes B m_high ex pex (zdrop 4 ov) in
          (ztake 4 ov ++ v_high, pex)
        else (ov, pex) in
      let '(stored, sv) :=
        if Delta then
          let sv := mm256_scani_epi32 ov sv cv in (sv, sv)
        else (ov, sv) in
      let NextLoadedIdx := if Spans then TargetIdx + 1 else TargetIdx in
      let '(out, ip, sv, pex) :=
        UnpackStep fuel' B (G + 1) NextLoadedIdx Delta Patching inp ip iv
          mask cv sv bitmap ex pex in
      (stored ++ out, ip, sv, pex)
  end.

(** [bitunpack_avx2_entry<B, Count, Delta, Patching>(in, out, sv, bitmap,
    pex)]: the [Count] values stored and the bytes consumed. *)
Definition bitunpack_avx2_entry (B Count : Z) (Delta Patching : bool)
    (inp : list Z) (sv bitmap ex : list Z) (pex : Z) : list Z * Z :=
  let MaxG := Count / 8 in
  if (B =? 0) && Delta && negb Patching then
    let sv := mm_add_epi32 sv [1; 2; 3; 4; 5; 6; 7; 8] in
    (sv ++ progression (Z.to_nat (MaxG - 1)) 8 sv, 0)
  else if (B =? 0) && negb Delta && negb Patching then
    (map (fun _ => 0) (zseq 0 (MaxG * 8)), 0)
  else
    let mask := mm_set1_epi32 8 (MaskGen B) in
    let cv := if Delta then [1; 2; 3; 4; 5; 6; 7; 8] else mm_set1_epi32 8 0 in
    let '(out, ip, _, _) :=
      UnpackStep (Z.to_nat MaxG) B 0 (-1) Delta Patching inp 0
        (mm_set1_epi32 8 0) mask cv sv bitmap ex pex in
    (out, ip).

(** The dispatch tables of bitunpack256v32_simd.cpp and
    [BitUnpackAVX2Table<Count>]: 33 entries each, indexed by the bit
    width; no result past the end. *)
Definition avx2_table (Count : Z) (Delta Patching : bool) (b : Z)
    (inp : list Z) (sv bitmap ex : list Z) (pex : Z) : option (list Z * Z) :=
  if (0 <=? b) && (b <=? 32)
  then Some (bitunpack_avx2_entry b Count Delta Patching inp sv bitmap ex pex)
  else None.

Definition bitd1unpack256v32 (inp : list Z) (b start : Z)
  : option (list Z * Z) :=
  avx2_table 256 true false b inp (mm_set1_epi32 8 start) [] [] 0.

Definition bitunpack256v32 (inp : list Z) (b : Z) : option (list Z * Z) :=
  avx2_table 256 false false b inp (mm_set1_epi32 8 0) [] [] 0.

Definition bitd1unpack256v32_ex (inp : list Z) (b start : Z)
    (bitmap ex : list Z) (pex : Z) : option (list Z * Z) :=
  avx2_table 256 true true b inp (mm_set1_epi32 8 start) bitmap ex pex.

(** The loops of [p4D1Dec256Exceptions] that unpack the exceptions:
    [while (rem >= chunk) { ip = table[bx](ip, ex_ptr); ... }]. *)
Fixpoint unpack_exception_chunks (fuel : nat) (chunk bx : Z) (inp : list Z)
    (rem : Z) : option (list Z * Z * Z) :=
  match fuel with
  | O => Some ([], 0, rem)
  | S fuel' =>
      if rem >=? chunk then
        match avx2_table chunk false false bx inp (mm_set1_epi32 8 0) [] [] 0 with
        | None => None
        | Some (vals, used) =>
            match unpack_exception_chunks fuel' chunk bx (zdrop used inp)
                    (rem - chunk) with
            | None => None
            | Some (vals', used', rem') =>
                Some (vals ++ vals', used + used', rem')
            end
        end
      else Some ([], 0, rem)
  end.

(** The tail loop of [p4D1Dec256Exceptions], [j] from [vec_count * 8] to
    [n - 1]. *)
Fixpoint dec256_tail (js : list Z) (bitmap ex : list Z) (b pex start : Z)
    (out : list Z) : list Z :=
  match js with
  | [] => out
  | j :: js' =>
      let word_idx := j / 64 in
      let bit_idx := j mod 64 in
      let '(out, pex) :=
        if negb (Z.land (zget bitmap word_idx) (shl64 1 bit_idx) =? 0)
        then (zset out j (Z.lor (zget out j) (shl32 (zget ex pex) b)), pex + 1)
        else (out, pex) in
      let start := u32 (start + u32 (zget out j + 1)) in
      dec256_tail js' bitmap ex b pex start (zset out j start)
  end.

(** [p4D1Dec256Exceptions(in, n, out, start, b, bx)] of p4d1dec256v32.cpp:
    the 256 cells of [out] and the bytes consumed.  The kernel receives
    [pex] by value, so that the tail loop starts again at [ex]. *)
Definition p4D1Dec256Exceptions (inp : list Z) (n start b bx : Z)
  : option (list Z * Z) :=
  let words := u32 (n + 63) / 64 in
  let bitmap := load_bitmap (Z.to_nat words) 0 words n inp in
  let num := count_exceptions bitmap in
  let ip0 := zdrop (pad8 n) inp in
  match unpack_exception_chunks 2 128 bx ip0 num with
  | None => None
  | Some (ex128, used128, rem) =>
      let ip1 := zdrop used128 ip0 in
      match unpack_exception_chunks 4 32 bx ip1 rem with
      | None => None
      | Some (ex32, used32, rem) =>
          let ip2 := zdrop used32 ip1 in
          match (if rem >? 0 then bitunpack32Scalar ip2 rem bx
                 else Some ([], 0)) with
          | None => None
          | Some (ex_tail, used_tail) =>
              let ex := ex128 ++ ex32 ++ ex_tail in
              let ip3 := zdrop used_tail ip2 in
              match bitd1unpack256v32_ex ip3 b start bitmap ex 0 with
              | None => None
              | Some (out, used) =>
                  let vec_count := n / 8 in
                  let out :=
                    if n >? vec_count * 8 then
                      let start :=
                        if vec_count >? 0
                        then zget out ((vec_count - 1) * 8 + 7) else start in
                      dec256_tail (zseq (vec_count * 8) (n - vec_count * 8))
                        bitmap ex b 0 start out
                    else out in
                  Some (out, pad8 n + used128 + used32 + used_tail + used)
              end
          end
      end
  end.

(** [applyDelta1_256v(out, n, start)] of p4_simd_internal_256v.cpp. *)
Fixpoint applyDelta1_256v_vectors (k : nat) (out vs : list Z)
  : list Z * list Z :=
  match k with
  | O => ([], vs)
  | S k' =>
      let vs := mm256_scani_epi32 (ztake 8 out) vs [1; 2; 3; 4; 5; 6; 7; 8] in
      let '(done, vs') := applyDelta1_256v_vectors k' (zdrop 8 out) vs in
      (vs ++ done, vs')
  end.

Definition applyDelta1_256v (out : list Z) (n start : Z) : list Z :=
  if n =? 0 then out
  else
    let vec_count := n / 8 in
    let '(done, vs) :=
      applyDelta1_256v_vectors (Z.to_nat vec_count) out
        (mm_set1_epi32 8 start) in
    let start := zget vs 7 in
    done
    ++ applyDelta1_loop (ztake (n - vec_count * 8) (zdrop (vec_count * 8) out))
         start
    ++ zdrop n out.

(** [turbopfor::simd::p4D1Dec256v32(in, n, out, start)]: the cells of
    [out] that the call writes and the bytes consumed. *)
Definition p4D1Dec256v32 (inp : list Z) (n start : Z) : option (list Z * Z) :=
  if n =? 0 then Some ([], 0)
  else
    let b := zget inp 0 in
    let ip := zdrop 1 inp in
    if Z.land b 0xC0 =? 0xC0 then
      let b := Z.land b 0x3F in
      let value := loadU32 ip in
      let value := if b <? MAX_BITS then Z.land value (maskBits b) else value in
      let out := map (fun _ => value) (zseq 0 n) in
      Some (applyDelta1_256v out n start, 1 + (b + 7) / 8)
    else if Z.land b 0x40 =? 0 then
      if Z.land b 0x80 =? 0 then
        match bitd1unpack256v32 ip b start with
        | None => None
        | Some (out, used) => Some (out, 1 + used)
        end
      else
        let bx := zget ip 0 in
        let ip := zdrop 1 ip in
        let b := Z.land b 0x7F in
        match (if bx =? 0 then bitd1unpack256v32 ip b start
               else p4D1Dec256Exceptions ip n start b bx) with
        | None => None
        | Some (out, used) => Some (out, 2 + used)
        end
    else
      let bx := zget ip 0 in
      let ip := zdrop 1 ip in
      let b := Z.land b 0x3F in
      if bx =? 0 then
        match bitd1unpack256v32 ip b start with
        | None => None
        | Some (out, used) => Some (out, 2 + used)
        end
      else
        match bitunpack256v32 ip b with
        | None => None
        | Some (out, used1) =>
            let ip := zdrop used1 ip in
            let '(ex, used2) := vbDec32 ip bx in
            let ip := zdrop used2 ip in
            let out := merge_positions ex (ztake bx ip) b out in
            Some (applyDelta1_256v out n start, 2 + used1 + used2 + bx)
        end.

(** ** src/dispatch.cpp: the public entry point *)

(** The delta1 transform of a sequence [X] with seed [s]:
    [X[i] - X[i-1] - 1] in uint32 arithmetic, [X[-1] = s]. *)
Fixpoint X_delta1_of (X : list Z) (s : Z) : list Z :=
  match X with
  | [] => []
  | x :: X' => u32 (x - s - 1) :: X_delta1_of X' x
  end.


(** ** Definitions used by the statements *)

(** The contents of a [uint32_t] array. *)
Definition u32_list (l : list Z) : Prop :=
  Forall (fun v => 0 <= v < 4294967296) l.

(** A strictly increasing sequence of 256 values whose first 32 steps are
    [129, 130, ..., 160] and whose remaining steps are 1. *)
Definition X_32_exceptions : list Z :=
  map (fun i => if i <? 32 then 129 * (i + 1) + i * (i + 1) / 2
                else 4624 + (i - 31))
      (zseq 0 256).

(** Its delta1 transform with seed 0: [128 + i] for [i < 32], then 0. *)
Definition D_32_exceptions : list Z :=
  map (fun i => if i <? 32 then 128 + i else 0) (zseq 0 256).

(** The contents of an [unsigned char] buffer. *)
Definition bytes (l : list Z) : Prop := Forall (fun x => 0 <= x < 256) l.

(** Two inputs "differ only in bitmap bits at positions [>= n]": they
    consist of [pad8(n)] bitmap bytes that agree on the bits [0 .. n) and
    of the same bytes afterwards. *)
Definition bitmaps_agree_below (n : Z) (bm1 bm2 : list Z) : Prop :=
  zlen bm1 = pad8 n /\ zlen bm2 = pad8 n /\ bytes bm1 /\ bytes bm2 /\
  forall p, 0 <= p < n ->
    Z.testbit (zget bm1 (p / 8)) (p mod 8)
    = Z.testbit (zget bm2 (p / 8)) (p mod 8).

(** The sum of a list of integers. *)
Definition zsum (l : list Z) : Z := fold_right Z.add 0 l.

(** The number of bytes the analyzer charges for the vbyte encoding of an
    exception whose high bits are [d] bits wide: the running sum of the
    increments [1, 2, 3, 4] that [update_vbyte_accumulator] schedules at
    the widths 7, 15, 19 and 25. *)
Definition vbyte_estimate (d : Z) : Z :=
  if d <=? 7 then 1
  else if d <=? 15 then 2
  else if d <=? 19 then 4
  else if d <=? 25 then 7
  else 11.

(** What [update_vbyte_accumulator (count, bits)] adds, per counted
    value, to the cell [j] of [vbyte_accumulator], as a function of
    [d = bits - j]. *)
Definition vbyte_increment (d : Z) : Z :=
  if d =? 7 then 1
  else if d =? 15 then 2
  else if d =? 19 then 3
  else if d =? 25 then 4
  else 0.

(** The state with which the loop of [p4Bits32] enters its iteration
    number [steps] (from 0), that is, the iteration of
    [base_bits = max_bits - 1 - steps]. *)
Fixpoint p4Bits32_head (n max_bits : Z) (cnt : Z -> Z) (steps : nat)
  : p4bits_state :=
  match steps with
  | O => p4Bits32_init n max_bits cnt
  | S k =>
      let base_bits := max_bits - 1 - Z.of_nat k in
      p4Bits32_advance cnt base_bits
        (p4Bits32_choose n max_bits base_bits (p4Bits32_head n max_bits cnt k))
  end.

(** The number of bytes [pack_blocks] writes, computed along the same
    recursion; [None] if a block turned out empty. *)
Fixpoint pack_blocks_len (fuel : nat) (B N : Z) : option Z :=
  match fuel with
  | O => Some 0
  | S fuel' =>
      if N =? 0 then Some 0
      else
        let block := choose_block_size B N in
        if 1 <=? block * B then
          if N =? block then Some ((block * B + 7) / 8)
          else option_map (Z.add ((block * B + 7) / 8))
                 (pack_blocks_len fuel' B (N - block))
        else None
  end.

(** [pack_blocks<B, N, 0>] writes [ceil (N * B / 8)] bytes. *)
Definition pack_blocks_len_ok (B N : Z) : bool :=
  match pack_blocks_len (Z.to_nat N) B N with
  | Some L => L =? (N * B + 7) / 8
  | None => false
  end.

(** The check over the instances [1 <= B <= 31], [1 <= N <= 32] that
    [pack_n_b] is dispatched to. *)
Definition pack_blocks_len_table : bool :=
  forallb (fun B => forallb (pack_blocks_len_ok B) (zseq 1 32)) (zseq 1 31).

(** The sizes the loop of [p4Bits32] computes for the candidate base width
    [k]: [patching_size] and [vbyte_size] in the iteration of
    [base_bits = k]. *)
Definition candidate_patching_size (n max_bits : Z) (cnt : Z -> Z) (k : Z) : Z :=
  patching_size_at n max_bits k
    (p4Bits32_head n max_bits cnt (Z.to_nat (max_bits - 1 - k))).

Definition candidate_vbyte_size (n max_bits : Z) (cnt : Z -> Z) (k : Z) : Z :=
  vbyte_size_at n k
    (p4Bits32_head n max_bits cnt (Z.to_nat (max_bits - 1 - k))).

(** What the loop has established when the candidates [lo <= k < max_bits]
    have been evaluated. *)
Definition candidates_invariant (n max_bits : Z) (cnt : Z -> Z) (lo : Z)
    (st : p4bits_state) : Prop :=
  let cost_p := candidate_patching_size n max_bits cnt in
  let cost_v := candidate_vbyte_size n max_bits cnt in
  let cost_0 := pad8 (n * max_bits) + 1 in
  let m := min_size st in
  let opt := optimal_base_bits st in
  let use := use_vbyte_exceptions st in
  m <= cost_0 /\
  (forall k, lo <= k < max_bits -> m <= cost_p k /\ m <= cost_v k) /\
  (opt = max_bits /\ use = 0 /\ m = cost_0 \/
   (lo <= opt < max_bits /\ use = 0 /\ m = cost_p opt /\ m <= cost_v opt) \/
   (lo <= opt < max_bits /\ use = 1 /\ m = cost_v opt /\ m < cost_p opt)) /\
  (opt < max_bits -> m < cost_0) /\
  (forall k, opt < k < max_bits -> m < cost_p k /\ m < cost_v k).

(** The bit [p] of a buffer, little-endian: the bit [p mod 8] of the byte
    [p / 8]. *)
Definition sbit (l : list Z) (p : Z) : bool :=
  Z.testbit (zget l (p / 8)) (p mod 8).

(** The [k] low bytes of [v], least significant first. *)
Definition le_bytes (k v : Z) : list Z :=
  map (fun i => u8 (Z.shiftr v (8 * i))) (zseq 0 k).

(** The positions of the set bits of a 64-bit word, in increasing order. *)
Definition set_bits (word : Z) : list Z :=
  filter (Z.testbit word) (zseq 0 64).

(** The bit [p] of an array of 64-bit words. *)
Definition wbit (w : list Z) (p : Z) : bool :=
  Z.testbit (zget w (p / 64)) (p mod 64).

(** The bit [p] of the sequence of the [n] fields of [B] bits that hold
    [vals[Base]], [vals[Base + 1]], ...: the bit [p mod B] of the value
    number [p / B]. *)
Definition field_bit (B : Z) (vals : list Z) (Base n p : Z) : bool :=
  (p <? n * B) && Z.testbit (zget vals (Base + p / B)) (p mod B).

(** [out] is the little-endian bit stream of these fields, padded with
    zero bits to a whole number of bytes. *)
Definition packs (B : Z) (vals : list Z) (Base n : Z) (out : list Z) : Prop :=
  bytes out /\ zlen out = (n * B + 7) / 8 /\
  forall p, 0 <= p < 8 * zlen out -> sbit out p = field_bit B vals Base n p.

(** The values [vals[Base .. Base + n)] fit in [B] bits. *)
Definition fits (B : Z) (vals : list Z) (Base n : Z) : Prop :=
  forall i, Base <= i < Base + n -> 0 <= zget vals i < 2 ^ B.

(** Every block that [pack_blocks] and [unpack_blocks] cut off is not
    empty, not larger than what is left, and ends on a byte boundary unless
    it is the last one. *)
Fixpoint blocks_aligned (fuel : nat) (B N : Z) : bool :=
  match fuel with
  | O => N =? 0
  | S fuel' =>
      if N =? 0 then true
      else
        let block := choose_block_size B N in
        (1 <=? block) && (block <=? N) &&
        (if N =? block then true
         else ((block * B) mod 8 =? 0) && blocks_aligned fuel' B (N - block))
  end.

Definition blocks_aligned_table : bool :=
  forallb (fun B => forallb (fun N => blocks_aligned (Z.to_nat N) B N)
                            (zseq 1 32))
          (zseq 1 32).

(** [vals] are the [n] fields of [B] bits that start at the bit [off] of
    the buffer [inp]. *)
Definition unpacks (B : Z) (inp : list Z) (off n : Z) (vals : list Z) : Prop :=
  zlen vals = n /\
  forall i r, 0 <= i < n -> 0 <= r ->
    Z.testbit (zget vals i) r = (r <? B) && sbit inp (off + i * B + r).

(** The running sum [start + vals[0] + ... ] in uint32 arithmetic. *)
Definition dsum (start : Z) (vals : list Z) : Z :=
  fold_left (fun a v => u32 (a + v)) vals start.

(** The patch loop over a list of positions, with the index of the next
    exception threaded through as [patch_word] threads it. *)
Fixpoint merge_at (ev : list Z) (ei : Z) (positions : list Z) (b : Z)
    (out : list Z) : list Z :=
  match positions with
  | [] => out
  | position :: ps =>
      merge_at ev (ei + 1) ps b
        (zset out position
           (Z.lor (zget out position) (shl32 (zget ev ei) b)))
  end.

(** The positions a bitmap marks, in the order in which [patch_words]
    visits them. *)
Fixpoint bitmap_positions (bitmap : list Z) (word_index : Z) : list Z :=
  match bitmap with
  | [] => []
  | word :: bitmap' =>
      map (fun t => word_index * 64 + t) (set_bits word)
      ++ bitmap_positions bitmap' (word_index + 1)
  end.

(** Bit [p] of the stream of lane [l]: the values [in[l]],
    [in[LANE_COUNT + l]], ... of the lane, [b] bits each, low bits first. *)
Definition lane_bit (b LANE_COUNT : Z) (inp : list Z) (l p : Z) : bool :=
  Z.testbit (zget inp ((p / b) * LANE_COUNT + l)) (p mod b).

(** Bit [p] of the stream of lane [l] as it lies in a buffer: bit
    [p mod 32] of the word [l] of the row [p / 32] of [LANE_COUNT]
    little-endian words. *)
Definition row_bit (LANE_COUNT : Z) (out : list Z) (l p : Z) : bool :=
  sbit out (32 * ((p / 32) * LANE_COUNT + l) + p mod 32).

(** The state of the packing loop before group [g]. *)
Definition pack_v_inv (b LANE_COUNT : Z) (inp : list Z) (g : Z)
    (ov : list Z) (shift : Z) : Prop :=
  shift = (g * b) mod 32 /\
  forall l t, 0 <= l < LANE_COUNT -> 0 <= t ->
    Z.testbit (zget ov l) t
    = (t <? shift) && lane_bit b LANE_COUNT inp l (32 * ((g * b) / 32) + t).

(** The rows [w0 .. w1 - 1] of the packed block. *)
Definition rows_spec (b LANE_COUNT : Z) (inp : list Z) (w0 w1 : Z)
    (W : list Z) : Prop :=
  bytes W /\ zlen W = 4 * LANE_COUNT * (w1 - w0) /\
  forall w l t, w0 <= w < w1 -> 0 <= l < LANE_COUNT -> 0 <= t < 32 ->
    sbit W (32 * ((w - w0) * LANE_COUNT + l) + t)
    = lane_bit b LANE_COUNT inp l (32 * w + t).

(** The state of the unpacking loop before group [g]: [iv] holds the row
    in which the group starts, unless the group starts a new row. *)
Definition unpack_v_inv (b LANE_COUNT : Z) (inp : list Z) (g : Z)
    (iv : list Z) (shift inp_off : Z) : Prop :=
  shift = (g * b) mod 32 /\ zlen iv = LANE_COUNT /\
  inp_off = 4 * LANE_COUNT * ((g * b + 31) / 32) /\
  (0 < shift ->
   forall l t, 0 <= l < LANE_COUNT -> 0 <= t ->
     Z.testbit (zget iv l) t
     = (t <? 32) && row_bit LANE_COUNT inp l (32 * ((g * b) / 32) + t)).

(** The values of the groups [g .. g + k - 1]. *)
Definition groups_spec (b LANE_COUNT : Z) (inp : list Z) (g k : Z)
    (vals : list Z) : Prop :=
  zlen vals = k * LANE_COUNT /\
  forall j l r, 0 <= j < k -> 0 <= l < LANE_COUNT -> 0 <= r ->
    Z.testbit (zget vals (j * LANE_COUNT + l)) r
    = (r <? b) && row_bit LANE_COUNT inp l ((g + j) * b + r).

(** [in[i] | in[i + 1] | ... | in[i + 7]]. *)
Definition p4Bits128_or8 (inp : list Z) (i : Z) : Z :=
  Z.lor (Z.lor (Z.lor (Z.lor (Z.lor (Z.lor (Z.lor
    (zget inp i) (zget inp (i + 1))) (zget inp (i + 2)))
    (zget inp (i + 3))) (zget inp (i + 4))) (zget inp (i + 5)))
    (zget inp (i + 6))) (zget inp (i + 7)).

(** [(in[i] == first) + (in[i + 1] == first) + ... + (in[i + 7] == first)]. *)
Definition p4Bits128_eq8 (inp : list Z) (first i : Z) : Z :=
  (if zget inp i =? first then 1 else 0)
  + (if zget inp (i + 1) =? first then 1 else 0)
  + (if zget inp (i + 2) =? first then 1 else 0)
  + (if zget inp (i + 3) =? first then 1 else 0)
  + (if zget inp (i + 4) =? first then 1 else 0)
  + (if zget inp (i + 5) =? first then 1 else 0)
  + (if zget inp (i + 6) =? first then 1 else 0)
  + (if zget inp (i + 7) =? first then 1 else 0).

(** Phase 1 of [p4Bits128], unrolled 8 times: [(or_acc, eq)]. *)
Fixpoint p4Bits128_scan (k : nat) (inp : list Z) (first i or_acc eq : Z)
  : Z * Z :=
  match k with
  | O => (or_acc, eq)
  | S k' =>
      p4Bits128_scan k' inp first (i + 8)
        (Z.lor or_acc (p4Bits128_or8 inp i))
        (eq + p4Bits128_eq8 inp first i)
  end.

(** [++cnt[bitWidth32(v)]]. *)
Definition p4Bits128_count (cnt : Z -> Z) (v : Z) : Z -> Z :=
  upd cnt (bitWidth32 v) (cnt (bitWidth32 v) + 1).

(** Phase 2 of [p4Bits128], eight counter updates a round. *)
Fixpoint p4Bits128_histogram (k : nat) (inp : list Z) (i : Z) (cnt : Z -> Z)
  : Z -> Z :=
  match k with
  | O => cnt
  | S k' =>
      let cnt := p4Bits128_count cnt (zget inp i) in
      let cnt := p4Bits128_count cnt (zget inp (i + 1)) in
      let cnt := p4Bits128_count cnt (zget inp (i + 2)) in
      let cnt := p4Bits128_count cnt (zget inp (i + 3)) in
      let cnt := p4Bits128_count cnt (zget inp (i + 4)) in
      let cnt := p4Bits128_count cnt (zget inp (i + 5)) in
      let cnt := p4Bits128_count cnt (zget inp (i + 6)) in
      let cnt := p4Bits128_count cnt (zget inp (i + 7)) in
      p4Bits128_histogram k' inp (i + 8) cnt
  end.

(** The lambda [vbb(xval, bval)]. *)
Definition p4Bits128_vbb (vb : Z -> Z) (xval bval : Z) : Z -> Z :=
  let vb := upd vb (bval - 7) (vb (bval - 7) + xval) in
  let vb := upd vb (bval - 15) (vb (bval - 15) + xval * 2) in
  let vb := upd vb (bval - 19) (vb (bval - 19) + xval * 3) in
  upd vb (bval - 25) (vb (bval - 25) + xval * 4).

(** The variables [x], [vv], [vb], [ml], [b] and [fx] of Phase 3. *)
Record p4bits128_state : Type := mk_p4bits128_state {
  s128_x : Z;
  s128_vv : Z;
  s128_vb : Z -> Z;
  s128_ml : Z;
  s128_b : Z;
  s128_fx : Z
}.

(** One round of the loop [for (int i = b - 1; i >= 0; --i)]; [bx] is the
    width of the widest value and [bmp8 = pad8(n)]. *)
Definition p4Bits128_iter (cnt : Z -> Z) (bx bmp8 i : Z)
    (st : p4bits128_state) : p4bits128_state :=
  let n := 128 in
  let ui := i in
  let v := pad8 (n * ui) + 2 + s128_x st + s128_vv st in
  let l := pad8 (n * ui) + 2 + bmp8 + pad8 (s128_x st * (bx - ui)) in
  let x := s128_x st + cnt ui in
  let vv := s128_vv st + (cnt ui + s128_vb st i) in
  let vb := p4Bits128_vbb (s128_vb st) (cnt ui) i in
  let fi := l <? s128_ml st in
  let ml := if fi then l else s128_ml st in
  let b := if fi then ui else s128_b st in
  let fx := if fi then 0 else s128_fx st in
  let fi := v <? ml in
  let ml := if fi then v else ml in
  let b := if fi then ui else b in
  let fx := if fi then 1 else fx in
  mk_p4bits128_state x vv vb ml b fx.

Fixpoint p4Bits128_loop (cnt : Z -> Z) (bx bmp8 : Z) (k : nat)
    (st : p4bits128_state) : p4bits128_state :=
  match k with
  | O => st
  | S k' =>
      p4Bits128_loop cnt bx bmp8 k'
        (p4Bits128_iter cnt bx bmp8 (Z.of_nat k') st)
  end.

(** [p4Bits128(in, &bx)]: the pair [(return value, *pbx)]. *)
Definition p4Bits128 (inp : list Z) : Z * Z :=
  let n := 128 in
  let first := zget inp 0 in
  let '(or_acc, eq) := p4Bits128_scan 16 inp first 0 0 0 in
  let b := bitWidth32 or_acc in
  if (eq =? n) && negb (first =? 0) then (b, MAX_BITS + 2)
  else if b =? 0 then (0, 0)
  else
    let cnt := p4Bits128_histogram 16 inp 0 (fun _ => 0) in
    let bx := b in
    let x := cnt bx in
    let ml := pad8 (n * bx) + 1 in
    let bmp8 := pad8 n in
    if x =? 0 then (b, 0)
    else
      let vv := x in
      let vb := p4Bits128_vbb (fun _ => 0) x bx in
      let st :=
        p4Bits128_loop cnt bx bmp8 (Z.to_nat b)
          (mk_p4bits128_state x vv vb ml b 0) in
      (s128_b st,
       if s128_fx st =? 0 then bx - s128_b st else MAX_BITS + 1).

(** The two loops carry the same values. *)
Definition same_state (s : p4bits128_state) (st : p4bits_state) : Prop :=
  s128_x s = exception_count st /\
  s128_vv s = vbyte_size_accumulator st /\
  s128_vb s = vbyte_accumulator st /\
  s128_ml s = min_size st /\
  s128_b s = optimal_base_bits st /\
  s128_fx s = use_vbyte_exceptions st.

(** [p4Enc128v32PayloadExceptions(in, n, out, b, bx)]: the scan of Phase 1
    is [scan_exceptions]; [base] is an array of zeros of which the first
    [n] cells are written, and [bitpack128v32Scalar] packs 128 of its
    cells. *)
Definition p4Enc128v32PayloadExceptions (inp : list Z) (n b bx : Z) : list Z :=
  let base_mask := if b >=? 32 then 0xFFFFFFFF else u64 (shl64 1 b - 1) in
  let '(exception_positions, base) :=
    scan_exceptions (ztake n inp) 0 base_mask in
  let exception_count := zlen exception_positions in
  let bitmap := build_bitmap exception_positions in
  let exceptions :=
    map (fun pos => u32 (shr32 (zget inp pos) b)) exception_positions in
  if bx <=? MAX_BITS then
    write_bitmap bitmap n
    ++ bitpack32Scalar exceptions exception_count bx
    ++ bitpack128v32Scalar base b
  else
    [u8 exception_count]
    ++ bitpack128v32Scalar base b
    ++ vbEnc32 exceptions exception_count
    ++ map u8 exception_positions.

(** [p4Enc128v32Payload(in, n, out, b, bx)]; [storeU32] writes four bytes
    of which [(b + 7) / 8] lie before the returned pointer. *)
Definition p4Enc128v32Payload (inp : list Z) (n b bx : Z) : list Z :=
  if bx =? 0 then bitpack128v32Scalar inp b
  else if bx =? MAX_BITS + 2 then ztake ((b + 7) / 8) (storeU32 (zget inp 0))
  else p4Enc128v32PayloadExceptions inp n b bx.

(** [turbopfor::scalar::p4Enc128v32(in, n, out)]: a full block is analyzed
    by [p4Bits128], any other by [p4Bits32]. *)
Definition p4Enc128v32 (inp : list Z) (n : Z) : list Z :=
  if n =? 0 then []
  else
    let '(b, bx) := if n =? 128 then p4Bits128 inp else p4Bits32 inp n in
    writeHeader b bx ++ p4Enc128v32Payload inp n b bx.

(** The accumulator of [applyDelta1] after a run of cells. *)
Definition delta1_acc (vals : list Z) (acc : Z) : Z :=
  fold_left (fun a v => u32 (a + u32 (v + 1))) vals acc.

(** * Basic facts on machine integers and byte lists *)

Lemma lor_shiftl_add (a b k : Z) :
  0 <= k -> 0 <= a < 2 ^ k -> Z.lor a (Z.shiftl b k) = a + b * 2 ^ k.
Proof.
  intros Hk Ha.
  rewrite <- Z.shiftl_mul_pow2 by lia.
  assert (Hd : Z.land a (Z.shiftl b k) = 0).
  { apply Z.bits_inj'. intros n Hn. rewrite Z.land_spec, Z.bits_0.
    destruct (Z.ltb_spec n k).
    - rewrite Z.shiftl_spec_low by lia. apply andb_false_r.
    - replace (Z.testbit a n) with false; [reflexivity|].
      symmetry. destruct (Z.eq_dec a 0) as [->|].
      + apply Z.bits_0.
      + apply Z.bits_above_log2; try lia.
        apply Z.log2_lt_pow2; try lia.
        apply Z.lt_le_trans with (2 ^ k); try lia.
        apply Z.pow_le_mono_r; lia. }
  rewrite <- Z.lxor_lor by exact Hd.
  symmetry. apply Z.add_nocarry_lxor. exact Hd.
Qed.

Lemma zget_cons_0 (x : Z) (l : list Z) : zget (x :: l) 0 = x.
Proof. reflexivity. Qed.

Lemma zget_cons_S (x : Z) (l : list Z) (k : Z) :
  0 < k -> zget (x :: l) k = zget l (k - 1).
Proof.
  intros Hk. unfold zget.
  replace (Z.to_nat k) with (S (Z.to_nat (k - 1))) by lia. reflexivity.
Qed.

Lemma zdrop_0 {A} (l : list A) : zdrop 0 l = l.
Proof. reflexivity. Qed.

Lemma zdrop_cons {A} (x : A) (l : list A) (k : Z) :
  0 < k -> zdrop k (x :: l) = zdrop (k - 1) l.
Proof.
  intros Hk. unfold zdrop.
  replace (Z.to_nat k) with (S (Z.to_nat (k - 1))) by lia. reflexivity.
Qed.

Lemma zdrop_app_len {A} (l r : list A) (k : Z) :
  k = zlen l -> zdrop k (l ++ r) = r.
Proof.
  intros ->. unfold zdrop, zlen. rewrite Nat2Z.id.
  rewrite skipn_app, skipn_all, Nat.sub_diag. reflexivity.
Qed.

Lemma zdrop_zdrop {A} (l : list A) (a b : Z) :
  0 <= a -> 0 <= b -> zdrop a (zdrop b l) = zdrop (a + b) l.
Proof.
  intros Ha Hb. unfold zdrop. rewrite skipn_skipn. f_equal. lia.
Qed.

Lemma zlen_app {A} (l r : list A) : zlen (l ++ r) = zlen l + zlen r.
Proof. unfold zlen. rewrite length_app. lia. Qed.

Lemma zlen_cons {A} (x : A) (l : list A) : zlen (x :: l) = 1 + zlen l.
Proof. unfold zlen. cbn [length]. lia. Qed.

Lemma zlen_nil {A} : zlen (@nil A) = 0.
Proof. reflexivity. Qed.

Lemma zlen_nonneg {A} (l : list A) : 0 <= zlen l.
Proof. unfold zlen. lia. Qed.

Lemma ztake_all {A} (l : list A) (k : Z) : zlen l <= k -> ztake k l = l.
Proof. intros H. unfold ztake. apply firstn_all2. unfold zlen in H. lia. Qed.

Lemma u8_small x : 0 <= x < 256 -> u8 x = x.
Proof. intros. unfold u8. apply Z.mod_small; lia. Qed.

Lemma u32_small x : 0 <= x < 4294967296 -> u32 x = x.
Proof. intros. unfold u32. apply Z.mod_small; lia. Qed.

Lemma u64_small x : 0 <= x < 18446744073709551616 -> u64 x = x.
Proof. intros. unfold u64. apply Z.mod_small; lia. Qed.

Lemma u8_range x : 0 <= u8 x < 256.
Proof. unfold u8. apply Z.mod_pos_bound. lia. Qed.

Lemma u32_range x : 0 <= u32 x < 4294967296.
Proof. unfold u32. apply Z.mod_pos_bound. lia. Qed.

Lemma u64_range x : 0 <= u64 x < 18446744073709551616.
Proof. unfold u64. apply Z.mod_pos_bound. lia. Qed.

(** Little-endian stores read back. *)

Lemma loadU32_bytes (b0 b1 b2 b3 : Z) (r : list Z) :
  0 <= b0 < 256 -> 0 <= b1 < 256 -> 0 <= b2 < 256 -> 0 <= b3 ->
  loadU32 (b0 :: b1 :: b2 :: b3 :: r) = b0 + 256 * b1 + 65536 * b2 + 16777216 * b3.
Proof.
  intros H0 H1 H2 H3. unfold loadU32.
  change (zget (b0 :: b1 :: b2 :: b3 :: r) 0) with b0.
  change (zget (b0 :: b1 :: b2 :: b3 :: r) 1) with b1.
  change (zget (b0 :: b1 :: b2 :: b3 :: r) 2) with b2.
  change (zget (b0 :: b1 :: b2 :: b3 :: r) 3) with b3.
  rewrite (lor_shiftl_add b0 b1 8) by lia.
  rewrite (lor_shiftl_add _ b2 16) by lia.
  rewrite (lor_shiftl_add _ b3 24) by lia.
  lia.
Qed.

Lemma loadU16_bytes (b0 b1 : Z) (r : list Z) :
  0 <= b0 < 256 -> loadU16 (b0 :: b1 :: r) = b0 + 256 * b1.
Proof.
  intros H0. unfold loadU16.
  change (zget (b0 :: b1 :: r) 0) with b0.
  change (zget (b0 :: b1 :: r) 1) with b1.
  rewrite (lor_shiftl_add b0 b1 8) by lia. lia.
Qed.

Lemma loadU32_storeU32 (v : Z) (r : list Z) :
  0 <= v < 4294967296 -> loadU32 (storeU32 v ++ r) = v.
Proof.
  intros Hv. unfold storeU32. cbn [app].
  rewrite loadU32_bytes; try apply u8_range.
  unfold u8. rewrite !Z.shiftr_div_pow2 by lia.
  change (2 ^ 8) with 256. change (2 ^ 16) with 65536.
  change (2 ^ 24) with 16777216.
  Z.div_mod_to_equations. lia.
Qed.

Lemma zlen_storeU32 v : zlen (storeU32 v) = 4.
Proof. reflexivity. Qed.

Lemma testbit_small (a k i : Z) :
  0 <= a < 2 ^ k -> k <= i -> Z.testbit a i = false.
Proof.
  intros Ha Hi. destruct (Z.eq_dec a 0) as [->|]; [apply Z.bits_0|].
  apply Z.bits_above_log2; try lia.
  assert (0 <= k) by (destruct (Z.le_gt_cases 0 k); [assumption|];
                      rewrite Z.pow_neg_r in Ha by lia; lia).
  assert (Z.log2 a < k) by (apply Z.log2_lt_pow2; lia). lia.
Qed.

Lemma land_lor_shiftl_low (a x k : Z) :
  0 <= k -> 0 <= a < 2 ^ k ->
  Z.land (Z.lor a (Z.shiftl x k)) (Z.ones k) = a.
Proof.
  intros Hk Ha. apply Z.bits_inj'. intros i Hi.
  rewrite Z.land_spec, Z.lor_spec.
  destruct (Z.ltb_spec i k).
  - rewrite Z.shiftl_spec_low, Z.ones_spec_low by lia.
    rewrite orb_false_r, andb_true_r. reflexivity.
  - rewrite Z.ones_spec_high by lia. rewrite andb_false_r.
    symmetry. apply testbit_small with k; lia.
Qed.

Lemma loadU32_masked24 (b0 b1 b2 : Z) (r : list Z) :
  0 <= b0 < 256 -> 0 <= b1 < 256 -> 0 <= b2 < 256 ->
  Z.land (loadU32 (b0 :: b1 :: b2 :: r)) 16777215 = b0 + 256 * b1 + 65536 * b2.
Proof.
  intros H0 H1 H2. unfold loadU32.
  change (zget (b0 :: b1 :: b2 :: r) 0) with b0.
  change (zget (b0 :: b1 :: b2 :: r) 1) with b1.
  change (zget (b0 :: b1 :: b2 :: r) 2) with b2.
  rewrite (lor_shiftl_add b0 b1 8) by lia.
  rewrite (lor_shiftl_add _ b2 16) by lia.
  change 16777215 with (Z.ones 24).
  rewrite land_lor_shiftl_low; lia.
Qed.

Lemma Forall_ztake {A} (P : A -> Prop) (l : list A) (k : Z) :
  Forall P l -> Forall P (ztake k l).
Proof.
  intros H. rewrite <- (firstn_skipn (Z.to_nat k) l) in H.
  apply Forall_app in H. exact (proj1 H).
Qed.

Lemma Forall_zdrop {A} (P : A -> Prop) (l : list A) (k : Z) :
  Forall P l -> Forall P (zdrop k l).
Proof.
  intros H. rewrite <- (firstn_skipn (Z.to_nat k) l) in H.
  apply Forall_app in H. exact (proj2 H).
Qed.

(** * The variable-byte codec *)

Ltac vb_cases v :=
  unfold vbPut32, VBYTE_THRESHOLD_2BYTE, VBYTE_THRESHOLD_3BYTE,
    VBYTE_THRESHOLD_4PLUS, VBYTE_MARKER_2BYTE, VBYTE_MARKER_3BYTE,
    VBYTE_MARKER_4PLUS;
  destruct (Z.ltb_spec v 156);
  [| destruct (Z.ltb_spec v 16540);
     [| destruct (Z.ltb_spec v 2113692);
        [| destruct (Z.leb_spec v 16777215)]]].

Ltac vb_arith :=
  unfold u8, u32;
  change 255 with (Z.ones 8);
  rewrite ?Z.land_ones by lia;
  rewrite ?Z.shiftr_div_pow2 by lia;
  change (2 ^ 8) with 256; change (2 ^ 16) with 65536;
  change (2 ^ 24) with 16777216;
  Z.div_mod_to_equations; lia.

(** The explicit form of each magnitude class. *)
Lemma vbPut32_form (v : Z) :
  0 <= v < 4294967296 ->
  vbPut32 v =
    if v <? 156 then [v]
    else if v <? 16540 then [156 + (v - 156) / 256; (v - 156) mod 256]
    else if v <? 2113692 then
      [220 + (v - 16540) / 65536; (v - 16540) mod 256;
       ((v - 16540) / 256) mod 256]
    else if v <? 16777216 then
      [252; v mod 256; (v / 256) mod 256; v / 65536]
    else [253; v mod 256; (v / 256) mod 256; (v / 65536) mod 256;
          v / 16777216].
Proof.
  intros Hv. vb_cases v.
  - apply (f_equal2 (@cons Z)); [vb_arith|reflexivity].
  - repeat (apply (f_equal2 (@cons Z)); [vb_arith|]). reflexivity.
  - destruct (Z.ltb_spec v 156); [lia|]. destruct (Z.ltb_spec v 16540); [lia|].
    repeat (apply (f_equal2 (@cons Z)); [vb_arith|]). reflexivity.
  - destruct (Z.ltb_spec v 16777216); [|lia].
    change (u8 252) with 252.
    repeat (apply (f_equal2 (@cons Z)); [vb_arith|]). reflexivity.
  - destruct (Z.ltb_spec v 16777216); [lia|].
    unfold storeU32. change (u8 (252 + 1)) with 253.
    repeat (apply (f_equal2 (@cons Z)); [vb_arith|]). reflexivity.
Qed.

Lemma vbPut32_first_byte (v : Z) :
  0 <= v < 4294967296 -> 0 <= zget (vbPut32 v) 0 <= 253.
Proof.
  intros Hv. rewrite vbPut32_form by assumption.
  repeat match goal with
         | |- context [?a <? ?b] => destruct (Z.ltb_spec a b)
         end; rewrite zget_cons_0; try lia;
    Z.div_mod_to_equations; lia.
Qed.

Lemma vbPut32_len (v : Z) :
  0 <= v < 4294967296 -> 1 <= zlen (vbPut32 v) <= 5.
Proof.
  intros Hv. rewrite vbPut32_form by assumption.
  repeat match goal with
         | |- context [?a <? ?b] => destruct (Z.ltb_spec a b)
         end; cbv [zlen length]; lia.
Qed.

Lemma vbGet32_vbPut32 (v : Z) (rest : list Z) :
  0 <= v < 4294967296 ->
  vbGet32 (vbPut32 v ++ rest) = (v, zlen (vbPut32 v)).
Proof.
  intros Hv. rewrite vbPut32_form by assumption.
  unfold vbGet32, VBYTE_THRESHOLD_2BYTE, VBYTE_THRESHOLD_3BYTE,
    VBYTE_MARKER_2BYTE, VBYTE_MARKER_3BYTE, VBYTE_MARKER_4PLUS.
  cbv zeta.
  destruct (Z.ltb_spec v 156).
  { cbn [app]. rewrite !zget_cons_0.
    destruct (Z.ltb_spec v 156); [reflexivity | lia]. }
  destruct (Z.ltb_spec v 16540).
  { cbn [app]. rewrite !zget_cons_0.
    assert (0 <= (v - 156) / 256 < 64) by (Z.div_mod_to_equations; lia).
    destruct (Z.ltb_spec (156 + (v - 156) / 256) 156); [lia|].
    destruct (Z.ltb_spec (156 + (v - 156) / 256) 220); [|lia].
    change (zget (156 + (v - 156) / 256 :: (v - 156) mod 256 :: rest) 1)
      with ((v - 156) mod 256).
    f_equal. unfold shl32, u32. rewrite Z.shiftl_mul_pow2 by lia.
    change (2 ^ 8) with 256. Z.div_mod_to_equations. lia. }
  destruct (Z.ltb_spec v 2113692).
  { cbn [app]. rewrite !zget_cons_0.
    assert (0 <= (v - 16540) / 65536 < 32) by (Z.div_mod_to_equations; lia).
    destruct (Z.ltb_spec (220 + (v - 16540) / 65536) 156); [lia|].
    destruct (Z.ltb_spec (220 + (v - 16540) / 65536) 220); [lia|].
    destruct (Z.ltb_spec (220 + (v - 16540) / 65536) 252); [|lia].
    rewrite zdrop_cons, zdrop_0 by lia.
    rewrite loadU16_bytes by (apply Z.mod_pos_bound; lia).
    f_equal. unfold shl32, u32. rewrite Z.shiftl_mul_pow2 by lia.
    change (2 ^ 16) with 65536. Z.div_mod_to_equations. lia. }
  destruct (Z.ltb_spec v 16777216).
  { cbn [app]. rewrite !zget_cons_0.
    match goal with |- context [zdrop 1 ?l] =>
      replace (zdrop 1 l) with (tl l) by reflexivity end.
    cbn [tl]. cbv beta iota delta [Z.ltb Z.eqb Z.compare Pos.compare Pos.compare_cont Pos.eqb].
    rewrite loadU32_masked24;
      try (apply Z.mod_pos_bound; lia); try (Z.div_mod_to_equations; lia).
    f_equal. Z.div_mod_to_equations. lia. }
  { cbn [app]. rewrite !zget_cons_0.
    match goal with |- context [zdrop 1 ?l] =>
      replace (zdrop 1 l) with (tl l) by reflexivity end.
    cbn [tl]. cbv beta iota delta [Z.ltb Z.eqb Z.compare Pos.compare Pos.compare_cont Pos.eqb].
    rewrite loadU32_bytes;
      try (apply Z.mod_pos_bound; lia); try (Z.div_mod_to_equations; lia).
    f_equal. Z.div_mod_to_equations. lia. }
Qed.

(** C7. For every uint32 [v] the single-value encoder emits exactly the
    magnitude class of the table: one byte [0x00..0x9B] iff [v < 156]; two
    bytes with first byte [0x9C..0xDB] iff [156 <= v < 16540]; three bytes
    with first byte [0xDC..0xFB] iff [16540 <= v < 2113692]; the marker
    [0xFC] and three little-endian data bytes iff [2113692 <= v < 2^24];
    the marker [0xFD] and four little-endian data bytes otherwise.  In the
    two- and three-byte classes the first byte carries the top bits of
    [delta = v - threshold] and the data bytes its low bits.  The decoder
    inverts the encoder and consumes exactly the encoded bytes. *)
Theorem vbyte_classes_roundtrip (v : Z) (Hv : 0 <= v < 4294967296) :
  (v < 156 <->
     zlen (vbPut32 v) = 1 /\ 0x00 <= zget (vbPut32 v) 0 <= 0x9B) /\
  (v < 156 -> vbPut32 v = [v]) /\
  (156 <= v < 16540 <->
     zlen (vbPut32 v) = 2 /\ 0x9C <= zget (vbPut32 v) 0 <= 0xDB) /\
  (156 <= v < 16540 ->
     vbPut32 v = [0x9C + Z.shiftr (v - 156) 8; (v - 156) mod 256]) /\
  (16540 <= v < 2113692 <->
     zlen (vbPut32 v) = 3 /\ 0xDC <= zget (vbPut32 v) 0 <= 0xFB) /\
  (16540 <= v < 2113692 ->
     vbPut32 v = [0xDC + Z.shiftr (v - 16540) 16;
                  (v - 16540) mod 256; ((v - 16540) / 256) mod 256]) /\
  (2113692 <= v < 16777216 <->
     zlen (vbPut32 v) = 4 /\ zget (vbPut32 v) 0 = 0xFC) /\
  (2113692 <= v < 16777216 ->
     vbPut32 v = [0xFC; v mod 256; (v / 256) mod 256; v / 65536]) /\
  (16777216 <= v <->
     zlen (vbPut32 v) = 5 /\ zget (vbPut32 v) 0 = 0xFD) /\
  (16777216 <= v ->
     vbPut32 v = [0xFD; v mod 256; (v / 256) mod 256; (v / 65536) mod 256;
                  v / 16777216]) /\
  (forall rest, vbGet32 (vbPut32 v ++ rest) = (v, zlen (vbPut32 v))).
Proof.
  pose proof (vbPut32_form v Hv) as F.
  pose proof (fun rest => vbGet32_vbPut32 v rest Hv) as G.
  rewrite !Z.shiftr_div_pow2 by lia.
  change (2 ^ 8) with 256. change (2 ^ 16) with 65536.
  set (e := vbPut32 v) in *. clearbody e.
  destruct (Z.ltb_spec v 156);
    [| destruct (Z.ltb_spec v 16540);
       [| destruct (Z.ltb_spec v 2113692);
          [| destruct (Z.ltb_spec v 16777216)]]];
    subst e; cbv [zlen length]; rewrite ?zget_cons_0;
    (repeat split; intros;
     repeat match goal with H : _ /\ _ |- _ => destruct H end;
     try apply G; try lia; try reflexivity;
     try (Z.div_mod_to_equations; lia)).
Qed.

Lemma vbyte_classes_roundtrip_witness :
  vbGet32 (vbPut32 1000 ++ [7; 8]) = (1000, zlen (vbPut32 1000)).
Proof.
  assert (H : 0 <= 1000 < 4294967296) by lia.
  exact (proj2 (proj2 (proj2 (proj2 (proj2 (proj2 (proj2 (proj2 (proj2 (proj2
           (vbyte_classes_roundtrip 1000 H)))))))))) [7; 8]).
Defined.

Lemma vbDec32_loop_flat_map (l rest : list Z) :
  u32_list l ->
  vbDec32_loop (length l) (flat_map vbPut32 l ++ rest)
  = (l, zlen (flat_map vbPut32 l)).
Proof.
  induction 1 as [|v l Hv Hl IH]; [reflexivity|].
  cbn [length flat_map vbDec32_loop]. rewrite <- app_assoc.
  rewrite vbGet32_vbPut32 by assumption.
  rewrite zdrop_app_len by reflexivity.
  rewrite IH. rewrite zlen_app. reflexivity.
Qed.

Lemma copyU32ArrayFromLe_aux_flat_map (l rest : list Z) :
  u32_list l ->
  copyU32ArrayFromLe_aux (length l) (flat_map storeU32 l ++ rest) = l.
Proof.
  induction 1 as [|v l Hv Hl IH]; [reflexivity|].
  cbn [length flat_map copyU32ArrayFromLe_aux]. rewrite <- app_assoc.
  rewrite loadU32_storeU32 by assumption.
  rewrite zdrop_app_len by reflexivity. rewrite IH. reflexivity.
Qed.

Lemma zlen_flat_map_storeU32 (l : list Z) :
  zlen (flat_map storeU32 l) = 4 * zlen l.
Proof.
  induction l as [|v l IH]; [reflexivity|].
  cbn [flat_map]. rewrite zlen_app, zlen_cons, IH, zlen_storeU32. lia.
Qed.

Lemma flat_map_vbPut32_first (l : list Z) :
  u32_list l -> l <> [] -> 0 <= zget (flat_map vbPut32 l) 0 <= 253.
Proof.
  intros Hl Hne. destruct l as [|v l]; [congruence|].
  inversion Hl as [|? ? Hv Hl']; subst.
  cbn [flat_map].
  pose proof (vbPut32_first_byte v Hv) as Hb.
  pose proof (vbPut32_len v Hv) as Hlen.
  destruct (vbPut32 v) as [|b0 t]; [cbv [zlen length] in Hlen; lia|].
  exact Hb.
Qed.

(** C6. The array encoder produces the escape form -- [0xFF] followed by
    the [n] values as raw little-endian uint32s, [1 + 4n] bytes -- exactly
    when the per-value encoding of the whole array occupies more than
    [4n - 32] bytes (that is, [encoded_size + 32 > 4n]); otherwise it
    returns the per-value encoding.  The array decoder reads back whichever
    form the first byte announces and consumes exactly the encoded bytes. *)
Theorem vbEnc32_escape_threshold (l : list Z) (Hl : u32_list l) :
  let n := zlen l in
  let encoded := flat_map vbPut32 l in
  (zlen encoded > 4 * n - 32 <-> zlen encoded + 32 > 4 * n) /\
  (zlen encoded + 32 > 4 * n ->
     vbEnc32 l n = 0xFF :: flat_map storeU32 l /\
     zlen (vbEnc32 l n) = 1 + 4 * n) /\
  (zlen encoded + 32 <= 4 * n -> vbEnc32 l n = encoded) /\
  (zget (vbEnc32 l n) 0 = 0xFF <-> zlen encoded + 32 > 4 * n) /\
  (forall rest, vbDec32 (vbEnc32 l n ++ rest) n = (l, zlen (vbEnc32 l n))).
Proof.
  intros n encoded.
  assert (Hesc : zlen encoded + 32 > 4 * n ->
                 vbEnc32 l n = 0xFF :: flat_map storeU32 l).
  { intros H. unfold vbEnc32, copyU32ArrayToLe.
    rewrite ztake_all by (subst n; lia). fold encoded.
    destruct (Z.gtb_spec (zlen encoded + 32) (n * 4)); [reflexivity | lia]. }
  assert (Hraw : zlen encoded + 32 <= 4 * n -> vbEnc32 l n = encoded).
  { intros H. unfold vbEnc32.
    rewrite ztake_all by (subst n; lia). fold encoded.
    destruct (Z.gtb_spec (zlen encoded + 32) (n * 4)); [lia | reflexivity]. }
  assert (Hne : zlen encoded + 32 <= 4 * n -> l <> []).
  { intros H ->. subst n encoded. cbv in H. congruence. }
  split; [lia|]. split.
  { intros H. split; [auto|]. rewrite Hesc by assumption.
    rewrite zlen_cons, zlen_flat_map_storeU32. reflexivity. }
  split; [exact Hraw|]. split.
  { split.
    - intros H0. destruct (Z.le_gt_cases (zlen encoded + 32) (4 * n)); [|lia].
      rewrite Hraw in H0 by assumption.
      pose proof (flat_map_vbPut32_first l Hl (Hne H)). subst encoded. lia.
    - intros H. rewrite Hesc by assumption. reflexivity. }
  intros rest. unfold vbDec32, VBYTE_ESCAPE_UNCOMPRESSED.
  destruct (Z.le_gt_cases (zlen encoded + 32) (4 * n)) as [H|H].
  - rewrite Hraw by assumption.
    assert (Hf : zget (encoded ++ rest) 0 = zget encoded 0).
    { pose proof (Hne H). subst encoded. destruct l as [|v l']; [congruence|].
      inversion Hl as [|? ? Hv Hl']; subst. cbn [flat_map].
      pose proof (vbPut32_len v Hv) as Hlen.
      destruct (vbPut32 v) as [|b0 t]; [cbv [zlen length] in Hlen; lia|].
      reflexivity. }
    rewrite Hf.
    pose proof (flat_map_vbPut32_first l Hl (Hne H)) as Hb. fold encoded in Hb.
    destruct (Z.eqb_spec (zget encoded 0) 255); [lia|].
    subst n. unfold zlen at 1. rewrite Nat2Z.id.
    apply vbDec32_loop_flat_map. assumption.
  - rewrite Hesc by lia. cbn [app]. rewrite zget_cons_0.
    change (255 =? 255) with true. cbv iota.
    rewrite zdrop_cons, zdrop_0 by lia.
    unfold copyU32ArrayFromLe. subst n. unfold zlen at 1. rewrite Nat2Z.id.
    rewrite copyU32ArrayFromLe_aux_flat_map by assumption.
    rewrite zlen_cons, zlen_flat_map_storeU32. f_equal. lia.
Qed.

Lemma vbEnc32_escape_threshold_witness :
  vbEnc32 [1; 2; 3] 3 = 0xFF :: flat_map storeU32 [1; 2; 3] /\
  zlen (vbEnc32 [1; 2; 3] 3) = 1 + 4 * 3.
Proof.
  apply (vbEnc32_escape_threshold [1; 2; 3]).
  - repeat constructor; lia.
  - vm_compute. reflexivity.
Defined.

(** * Concrete blocks *)

(** C3 (as stated, refuted). The block [n = 4], [X = [42,42,42,42]],
    [s = 0] does not decode to [[43, 85, 127, 169]]. *)
Lemma constant_block_42_claimed_output_wrong :
  ~ (p4Bits32 [42; 42; 42; 42] 4 = (6, 34) /\
     p4Enc32 [42; 42; 42; 42] 4 = [0xC6; 0x2A] /\
     exists used, p4D1Dec32 [0xC6; 0x2A] 4 0 = Some ([43; 85; 127; 169], used)).
Proof.
  intros (_ & _ & used & H). vm_compute in H. congruence.
Qed.

(** C3 (amended). For [n = 4], [X = [42,42,42,42]], [s = 0] the analyzer
    returns [b = bw(42) = 6] with [bx = 34]; the encoded block is the two
    bytes [0xC6], [0x2A]; decoding them with [n = 4], [start = 0] consumes
    both and yields [[43, 86, 129, 172]]: every step adds [42 + 1]. *)
Theorem constant_block_42 :
  bitWidth32 42 = 6 /\
  p4Bits32 [42; 42; 42; 42] 4 = (6, 34) /\
  p4Enc32 [42; 42; 42; 42] 4 = [0xC6; 0x2A] /\
  p4D1Dec32 [0xC6; 0x2A] 4 0 = Some ([43; 86; 129; 172], 2).
Proof. vm_compute. repeat split; reflexivity. Qed.

(** * The all-zero block *)

Lemma fold_lor_zeros (l : list Z) :
  Forall (fun v => v = 0) l -> fold_left Z.lor l 0 = 0.
Proof. induction 1 as [|v l -> _ IH]; [reflexivity | exact IH]. Qed.

Lemma p4Bits32_zeros (X : list Z) (n : Z) :
  Forall (fun v => v = 0) X -> p4Bits32 X n = (0, 0).
Proof.
  intros Hz. unfold p4Bits32.
  rewrite (fold_lor_zeros _ (Forall_ztake _ X n Hz)). reflexivity.
Qed.

Lemma p4Enc32_zeros (X : list Z) (n : Z) :
  Forall (fun v => v = 0) X -> p4Enc32 X n = [0].
Proof.
  intros Hz. unfold p4Enc32. rewrite (p4Bits32_zeros X n Hz). reflexivity.
Qed.

Lemma p4D1Dec32_header_zero (rest : list Z) (n s : Z) :
  p4D1Dec32 (0 :: rest) n s
  = Some (map (fun i => u32 (s + (i + 1))) (zseq 0 n), 1).
Proof.
  unfold p4D1Dec32. rewrite zget_cons_0.
  change (Z.land 0 192 =? 0) with true. cbv iota.
  unfold bitunpackd1_32Scalar, bitunpack_dispatch.
  change (0 =? 0) with true. cbv iota. f_equal. f_equal.
  apply map_ext. intros i. unfold u32.
  rewrite Zplus_mod_idemp_l. f_equal. lia.
Qed.

(** C8. For every [n] in [[1, 256]], a block of [n] zeros is encoded as
    the single byte [0x00]; decoding that byte with any seed [s] consumes
    it and yields the progression [s+1, s+2, ..., s+n] (in uint32
    arithmetic; literally so when [s + n < 2^32]).  In particular [n = 4],
    [s = 0] encodes to [[0x00]] and decodes to [[1, 2, 3, 4]]. *)
Theorem all_zero_block (n : Z) (X : list Z)
    (Hn : 1 <= n <= 256) (Hlen : zlen X = n)
    (Hz : Forall (fun v => v = 0) X) :
  p4Enc32 X n = [0x00] /\
  (forall s rest,
     p4D1Dec32 (p4Enc32 X n ++ rest) n s
     = Some (map (fun i => u32 (s + (i + 1))) (zseq 0 n), 1)) /\
  (forall s, 0 <= s -> s + n < 4294967296 ->
     p4D1Dec32 (p4Enc32 X n) n s
     = Some (map (fun i => s + (i + 1)) (zseq 0 n), 1)) /\
  p4Enc32 [0; 0; 0; 0] 4 = [0x00] /\
  p4D1Dec32 [0x00] 4 0 = Some ([1; 2; 3; 4], 1).
Proof.
  rewrite (p4Enc32_zeros X n Hz).
  split; [reflexivity|]. split.
  { intros s rest. apply p4D1Dec32_header_zero. }
  split.
  { intros s Hs Hsn. rewrite p4D1Dec32_header_zero. f_equal. f_equal.
    apply map_ext_in. intros i Hi. apply u32_small.
    unfold zseq in Hi. apply in_map_iff in Hi. destruct Hi as (k & <- & Hk).
    apply in_seq in Hk. lia. }
  split; vm_compute; reflexivity.
Qed.

Lemma all_zero_block_witness :
  p4Enc32 [0; 0; 0] 3 = [0x00] /\
  p4D1Dec32 (p4Enc32 [0; 0; 0] 3 ++ [77]) 3 10
  = Some (map (fun i => u32 (10 + (i + 1))) (zseq 0 3), 1).
Proof.
  assert (H : 1 <= 3 <= 256) by lia.
  assert (Hl : zlen [0; 0; 0] = 3) by reflexivity.
  assert (Hz : Forall (fun v => v = 0) [0; 0; 0]) by (repeat constructor).
  destruct (all_zero_block 3 [0; 0; 0] H Hl Hz) as (E & D & _).
  split; [exact E | exact (D 10 [77])].
Defined.

(** * Headers with [b > 32] *)

(** C2 (as stated, refuted). A header whose base bit width exceeds 32
    after masking is not rejected: the scalar decoder of the 128v layout
    decodes the constant-block header [0xE1] ([b = 33]) and produces
    output. *)
Lemma corrupt_header_not_rejected :
  Z.land 0xE1 0x3F = 33 /\
  p4D1Dec128v32 [0xE1; 5; 0; 0; 0; 0] 4 0 = Some ([6; 12; 18; 24], 6).
Proof. vm_compute. split; reflexivity. Qed.

(** C2 (amended). The decoders of the 128v and of the 256v layout do not
    reject a constant-block header [0xC0 | b] with [32 < b <= 63]: for
    [n >= 1] the scalar decoder [p4D1Dec128v32] and the decoder
    [p4D1Dec256v32] take the four bytes that follow the header as the
    constant, unmasked, write the [n] values of its delta1 progression
    and return the input pointer advanced by [1 + (b + 7) / 8]. *)
Theorem constant_header_above_32_is_decoded
    (b n s : Z) (payload : list Z) (Hb : 32 < b <= 63) (Hn : 1 <= n) :
  p4D1Dec128v32 (Z.lor 0xC0 b :: payload) n s
  = Some (applyDelta1 (map (fun _ => loadU32 payload) (zseq 0 n)) n s,
          1 + (b + 7) / 8) /\
  p4D1Dec256v32 (Z.lor 0xC0 b :: payload) n s
  = Some (applyDelta1_256v (map (fun _ => loadU32 payload) (zseq 0 n)) n s,
          1 + (b + 7) / 8).
Proof.
  assert (H1 : Z.land (Z.lor 192 b) 192 = 192).
  { rewrite Z.land_lor_distr_l. change (Z.land 192 192) with 192.
    apply Z.bits_inj'. intros i Hi. rewrite Z.lor_spec, Z.land_spec.
    destruct (Z.testbit 192 i); [reflexivity|]. rewrite andb_false_r.
    reflexivity. }
  assert (H2 : Z.land (Z.lor 192 b) 63 = b).
  { rewrite Z.land_lor_distr_l. change (Z.land 192 63) with 0.
    rewrite Z.lor_0_l. change 63 with (Z.ones 6).
    rewrite Z.land_ones by lia. apply Z.mod_small. change (2 ^ 6) with 64. lia. }
  split.
  - unfold p4D1Dec128v32. destruct (Z.eqb_spec n 0); [lia|].
    rewrite zget_cons_0, H1. change (192 =? 192) with true. cbv iota.
    rewrite H2. unfold MAX_BITS.
    destruct (Z.ltb_spec b 32); [lia|].
    rewrite zdrop_cons, zdrop_0 by lia. reflexivity.
  - unfold p4D1Dec256v32. destruct (Z.eqb_spec n 0); [lia|].
    rewrite zget_cons_0, H1. change (192 =? 192) with true. cbv iota.
    rewrite H2. unfold MAX_BITS.
    destruct (Z.ltb_spec b 32); [lia|].
    rewrite zdrop_cons, zdrop_0 by lia. reflexivity.
Qed.

Lemma constant_header_above_32_is_decoded_witness :
  p4D1Dec128v32 (Z.lor 0xC0 40 :: [1; 0; 0; 0; 9]) 2 0
  = Some (applyDelta1 (map (fun _ => loadU32 [1; 0; 0; 0; 9]) (zseq 0 2)) 2 0,
          1 + (40 + 7) / 8) /\
  p4D1Dec256v32 (Z.lor 0xC0 40 :: [1; 0; 0; 0; 9]) 2 0
  = Some (applyDelta1_256v
            (map (fun _ => loadU32 [1; 0; 0; 0; 9]) (zseq 0 2)) 2 0,
          1 + (40 + 7) / 8).
Proof. apply (constant_header_above_32_is_decoded 40 2 0); lia. Defined.

(** * The round trip through the AVX2 decoder of the 256v layout *)

(** C1 (the code at the failing input). The 256v block of
    [X_32_exceptions] is encoded with [b = 0], [bx = 8] and 32 bitmap
    exceptions, which [bitpack32Scalar] packs horizontally: the exception
    [j] is the byte [j] of the patch stream.  [p4D1Dec256Exceptions]
    unpacks 32 or more exceptions with the 8-lane kernel
    ([table32[bx]] / [table128[bx]]), which reads the byte [4 l + g] as
    the exception [8 g + l]; the decoded block differs from the input from
    the second value on (262 instead of 259), and the returned input
    pointer (98) is not the end of the 66 encoded bytes. *)
Theorem simd256_roundtrip_fails_at_32_exceptions :
  zlen X_32_exceptions = 256 /\
  X_delta1_of X_32_exceptions 0 = D_32_exceptions /\
  p4Bits32 D_32_exceptions 256 = (0, 8) /\
  zlen (p4Enc256v32 D_32_exceptions 256) = 66 /\
  exists out,
    p4D1Dec256v32 (p4Enc256v32 (X_delta1_of X_32_exceptions 0) 256) 256 0
    = Some (out, 98) /\
    zget X_32_exceptions 1 = 259 /\ zget out 1 = 262 /\
    out <> X_32_exceptions.
Proof.
  assert (E : X_delta1_of X_32_exceptions 0 = D_32_exceptions)
    by (vm_compute; reflexivity).
  split; [vm_compute; reflexivity|].
  split; [exact E|].
  split; [vm_compute; reflexivity|].
  split; [vm_compute; reflexivity|].
  rewrite E.
  set (out := match p4D1Dec256v32 (p4Enc256v32 D_32_exceptions 256) 256 0 with
              | Some (o, _) => o
              | None => []
              end).
  assert (H1 : zget out 1 = 262) by (vm_compute; reflexivity).
  assert (H2 : zget X_32_exceptions 1 = 259) by (vm_compute; reflexivity).
  exists out.
  split; [vm_compute; reflexivity|].
  split; [exact H2|].
  split; [exact H1|].
  intros H.
  assert (H3 : zget out 1 = zget X_32_exceptions 1) by (f_equal; exact H).
  rewrite H1, H2 in H3. discriminate H3.
Qed.

(** The same block goes through the scalar codec of the horizontal layout
    unharmed. *)
Lemma scalar_roundtrip_at_32_exceptions :
  p4D1Dec32 (p4Enc32 (X_delta1_of X_32_exceptions 0) 256) 256 0
  = Some (X_32_exceptions, 66).
Proof. vm_compute. reflexivity. Qed.

(** * Padding bits of the exception bitmap *)

Lemma zget_bytes (l : list Z) (k : Z) : bytes l -> 0 <= zget l k < 256.
Proof.
  intros H. unfold zget.
  destruct (Nat.lt_ge_cases (Z.to_nat k) (length l)) as [Hlt|Hge].
  - unfold bytes in H. rewrite Forall_forall in H. apply H. apply nth_In. exact Hlt.
  - rewrite nth_overflow by exact Hge. lia.
Qed.

Lemma zget_zdrop (l : list Z) (k j : Z) :
  0 <= k -> 0 <= j -> zget (zdrop k l) j = zget l (k + j).
Proof.
  intros Hk Hj. unfold zget, zdrop. rewrite nth_skipn. f_equal. lia.
Qed.

Lemma bytes_zdrop (l : list Z) (k : Z) : bytes l -> bytes (zdrop k l).
Proof. apply Forall_zdrop. Qed.

Lemma bytes_app (l r : list Z) : bytes l -> bytes r -> bytes (l ++ r).
Proof. intros. apply Forall_app. split; assumption. Qed.

Lemma testbit_byte_high (x i : Z) : 0 <= x < 256 -> 8 <= i -> Z.testbit x i = false.
Proof. intros Hx Hi. apply testbit_small with 8; [exact Hx | lia]. Qed.

Lemma testbit_shiftl_byte (x k t : Z) :
  0 <= x < 256 -> 0 <= k -> 0 <= t ->
  Z.testbit (Z.shiftl x k) t = (k <=? t) && (t <? k + 8) && Z.testbit x (t - k).
Proof.
  intros Hx Hk Ht.
  destruct (Z.leb_spec k t).
  - rewrite Z.shiftl_spec by lia. destruct (Z.ltb_spec t (k + 8)).
    + reflexivity.
    + cbn [andb]. apply testbit_byte_high; [exact Hx | lia].
  - rewrite Z.shiftl_spec_low by lia. reflexivity.
Qed.

(** The bit [t] of a little-endian load is the bit [t mod 8] of the byte
    [t / 8]. *)
Lemma testbit_loadU32 (l : list Z) (t : Z) :
  bytes l -> 0 <= t < 32 ->
  Z.testbit (loadU32 l) t = Z.testbit (zget l (t / 8)) (t mod 8).
Proof.
  intros Hb Ht. unfold loadU32.
  pose proof (zget_bytes l 0 Hb). pose proof (zget_bytes l 1 Hb).
  pose proof (zget_bytes l 2 Hb). pose proof (zget_bytes l 3 Hb).
  rewrite !Z.lor_spec.
  rewrite (testbit_shiftl_byte (zget l 1) 8 t) by lia.
  rewrite (testbit_shiftl_byte (zget l 2) 16 t) by lia.
  rewrite (testbit_shiftl_byte (zget l 3) 24 t) by lia.
  assert (Hc : (t < 8 /\ t / 8 = 0 /\ t mod 8 = t) \/
               (8 <= t < 16 /\ t / 8 = 1 /\ t mod 8 = t - 8) \/
               (16 <= t < 24 /\ t / 8 = 2 /\ t mod 8 = t - 16) \/
               (24 <= t /\ t / 8 = 3 /\ t mod 8 = t - 24))
    by (Z.div_mod_to_equations; lia).
  destruct Hc as [(Hr & -> & ->)|[(Hr & -> & ->)|[(Hr & -> & ->)|(Hr & -> & ->)]]].
  - destruct (Z.leb_spec 8 t); [lia|]. destruct (Z.leb_spec 16 t); [lia|].
    destruct (Z.leb_spec 24 t); [lia|]. cbn [andb]. rewrite !orb_false_r.
    reflexivity.
  - rewrite (testbit_byte_high (zget l 0)) by lia.
    destruct (Z.leb_spec 8 t); [|lia]. destruct (Z.ltb_spec t (8 + 8)); [|lia].
    destruct (Z.leb_spec 16 t); [lia|]. destruct (Z.leb_spec 24 t); [lia|].
    cbn [andb orb]. rewrite !orb_false_r. reflexivity.
  - rewrite (testbit_byte_high (zget l 0)) by lia.
    destruct (Z.ltb_spec t (8 + 8)); [lia|]. rewrite andb_false_r.
    destruct (Z.leb_spec 16 t); [|lia]. destruct (Z.ltb_spec t (16 + 8)); [|lia].
    destruct (Z.leb_spec 24 t); [lia|].
    cbn [andb orb]. rewrite !orb_false_r. reflexivity.
  - rewrite (testbit_byte_high (zget l 0)) by lia.
    destruct (Z.ltb_spec t (8 + 8)); [lia|]. rewrite andb_false_r.
    destruct (Z.ltb_spec t (16 + 8)); [lia|]. rewrite andb_false_r.
    destruct (Z.leb_spec 24 t); [|lia]. destruct (Z.ltb_spec t (24 + 8)); [|lia].
    cbn [andb orb]. reflexivity.
Qed.

Lemma loadU32_range (l : list Z) : bytes l -> 0 <= loadU32 l < 4294967296.
Proof.
  intros Hb. unfold loadU32.
  pose proof (zget_bytes l 0 Hb). pose proof (zget_bytes l 1 Hb).
  pose proof (zget_bytes l 2 Hb). pose proof (zget_bytes l 3 Hb).
  rewrite (lor_shiftl_add (zget l 0) _ 8) by lia.
  rewrite (lor_shiftl_add _ _ 16) by lia.
  rewrite (lor_shiftl_add _ _ 24) by lia. lia.
Qed.

Lemma testbit_loadU64 (l : list Z) (t : Z) :
  bytes l -> 0 <= t < 64 ->
  Z.testbit (loadU64 l) t = Z.testbit (zget l (t / 8)) (t mod 8).
Proof.
  intros Hb Ht. unfold loadU64. rewrite Z.lor_spec.
  destruct (Z.ltb_spec t 32).
  - rewrite Z.shiftl_spec_low by lia. rewrite orb_false_r.
    apply testbit_loadU32; [exact Hb | lia].
  - rewrite (testbit_small (loadU32 l) 32 t) by
      (first [apply loadU32_range; exact Hb | lia]).
    rewrite Z.shiftl_spec by lia. cbn [orb].
    rewrite testbit_loadU32 by (first [apply bytes_zdrop; exact Hb | lia]).
    rewrite zget_zdrop by (Z.div_mod_to_equations; lia).
    f_equal; [f_equal|]; Z.div_mod_to_equations; lia.
Qed.

Lemma loadU64_range (l : list Z) :
  bytes l -> 0 <= loadU64 l < 18446744073709551616.
Proof.
  intros Hb. unfold loadU64.
  pose proof (loadU32_range l Hb).
  pose proof (loadU32_range (zdrop 4 l) (bytes_zdrop l 4 Hb)).
  rewrite lor_shiftl_add by lia. lia.
Qed.

Lemma zget_app_l (l r : list Z) (k : Z) :
  0 <= k < zlen l -> zget (l ++ r) k = zget l k.
Proof.
  intros Hk. unfold zget. apply app_nth1. unfold zlen in Hk. lia.
Qed.

Lemma zget_app_r (l r : list Z) (k : Z) :
  zlen l <= k -> zget (l ++ r) k = zget r (k - zlen l).
Proof.
  intros Hk. unfold zget, zlen in *. rewrite app_nth2 by lia. f_equal. lia.
Qed.

Lemma pad8_spec (n : Z) : 0 <= n < 4294967289 -> pad8 n = (n + 7) / 8.
Proof. intros H. unfold pad8. rewrite u32_small by lia. reflexivity. Qed.

(** The masked words of the two bitmaps coincide. *)
Lemma load_bitmap_agree (n : Z) (bm1 bm2 rest : list Z) :
  0 <= n < 4294967233 -> bitmaps_agree_below n bm1 bm2 -> bytes rest ->
  forall (k : nat) (i : Z),
    0 <= i -> i + Z.of_nat k = u32 (n + 63) / 64 ->
    load_bitmap k i (u32 (n + 63) / 64) n (zdrop (8 * i) (bm1 ++ rest))
    = load_bitmap k i (u32 (n + 63) / 64) n (zdrop (8 * i) (bm2 ++ rest)).
Proof.
  intros Hn (Hl1 & Hl2 & Hb1 & Hb2 & Hagree) Hr.
  rewrite u32_small by lia. rewrite pad8_spec in Hl1, Hl2 by lia.
  set (words := (n + 63) / 64).
  induction k as [|k IH]; intros i Hi Hik; [reflexivity|].
  cbn [load_bitmap].
  rewrite !zdrop_zdrop by lia.
  replace (8 + 8 * i) with (8 * (i + 1)) by lia.
  rewrite (IH (i + 1)) by lia. f_equal.
  assert (B1 : bytes (zdrop (8 * i) (bm1 ++ rest)))
    by (apply bytes_zdrop, bytes_app; assumption).
  assert (B2 : bytes (zdrop (8 * i) (bm2 ++ rest)))
    by (apply bytes_zdrop, bytes_app; assumption).
  assert (Hbit : forall t, 0 <= t < 64 -> 64 * i + t < n ->
            Z.testbit (loadU64 (zdrop (8 * i) (bm1 ++ rest))) t
            = Z.testbit (loadU64 (zdrop (8 * i) (bm2 ++ rest))) t).
  { intros t Ht Hp.
    rewrite !testbit_loadU64 by assumption.
    rewrite !zget_zdrop by (Z.div_mod_to_equations; lia).
    assert (Hidx : 8 * i + t / 8 = (64 * i + t) / 8)
      by (Z.div_mod_to_equations; lia).
    assert (Hmod : t mod 8 = (64 * i + t) mod 8)
      by (Z.div_mod_to_equations; lia).
    rewrite Hidx, Hmod.
    rewrite !zget_app_l by (Z.div_mod_to_equations; lia).
    apply Hagree. lia. }
  pose proof (loadU64_range _ B1) as R1. pose proof (loadU64_range _ B2) as R2.
  destruct ((i =? words - 1) && negb (Z.land n 63 =? 0)) eqn:Hlast.
  - apply andb_prop in Hlast. destruct Hlast as [Hi1 Hn0].
    apply Z.eqb_eq in Hi1. apply negb_true_iff, Z.eqb_neq in Hn0.
    change (Z.land n 63) with (Z.land n (Z.ones 6)) in *.
    rewrite Z.land_ones in * by lia.
    change (2 ^ 6) with 64 in *.
    assert (Hm : 0 < n mod 64 < 64) by (Z.div_mod_to_equations; lia).
    assert (Hmask : u64 (shl64 1 (n mod 64) - 1) = Z.ones (n mod 64)).
    { unfold shl64, u64. rewrite Z.shiftl_1_l. rewrite Z.ones_equiv.
      assert (2 ^ (n mod 64) < 2 ^ 64) by (apply Z.pow_lt_mono_r; lia).
      assert (0 < 2 ^ (n mod 64)) by (apply Z.pow_pos_nonneg; lia).
      change (2 ^ 64) with 18446744073709551616 in *.
      rewrite (Z.mod_small (2 ^ (n mod 64))) by lia.
      rewrite Z.mod_small by lia. lia. }
    rewrite Hmask. apply Z.bits_inj'. intros t Ht.
    rewrite !Z.land_spec.
    destruct (Z.ltb_spec t (n mod 64)).
    + rewrite Z.ones_spec_low by lia. rewrite !andb_true_r.
      apply Hbit; [lia|]. subst words. Z.div_mod_to_equations. lia.
    + rewrite Z.ones_spec_high by lia. rewrite !andb_false_r. reflexivity.
  - apply Z.bits_inj'. intros t Ht.
    destruct (Z.ltb_spec t 64).
    + apply Hbit; [lia|].
      apply andb_false_iff in Hlast. destruct Hlast as [Hi1|Hn0].
      * apply Z.eqb_neq in Hi1. subst words. Z.div_mod_to_equations. lia.
      * apply negb_false_iff, Z.eqb_eq in Hn0.
        change 63 with (Z.ones 6) in Hn0. rewrite Z.land_ones in Hn0 by lia.
        change (2 ^ 6) with 64 in Hn0. subst words.
        Z.div_mod_to_equations. lia.
    + rewrite !(testbit_small _ 64 t) by (first [assumption | lia]).
      reflexivity.
Qed.

Lemma load_bitmap_agree_0 (n : Z) (bm1 bm2 rest : list Z) :
  0 <= n < 4294967233 -> bitmaps_agree_below n bm1 bm2 -> bytes rest ->
  load_bitmap (Z.to_nat (u32 (n + 63) / 64)) 0 (u32 (n + 63) / 64) n
    (bm1 ++ rest)
  = load_bitmap (Z.to_nat (u32 (n + 63) / 64)) 0 (u32 (n + 63) / 64) n
      (bm2 ++ rest).
Proof.
  intros Hn Ha Hr.
  pose proof (load_bitmap_agree n bm1 bm2 rest Hn Ha Hr
                (Z.to_nat (u32 (n + 63) / 64)) 0) as H.
  change (8 * 0) with 0 in H. rewrite !zdrop_0 in H. apply H; [lia|].
  rewrite u32_small by lia.
  assert (0 <= (n + 63) / 64) by (Z.div_mod_to_equations; lia). lia.
Qed.

Lemma zdrop_payload (n : Z) (bm1 bm2 rest : list Z) :
  bitmaps_agree_below n bm1 bm2 ->
  zdrop (pad8 n) (bm1 ++ rest) = rest /\ zdrop (pad8 n) (bm2 ++ rest) = rest.
Proof.
  intros (Hl1 & Hl2 & _). split; apply zdrop_app_len; congruence.
Qed.

(** C10. In every bitmap-patched decode path the last bitmap word is
    masked to its low [n mod 64] bits before the exceptions are counted
    and before the patches are applied; hence two encoded inputs that
    differ only in bitmap bits at positions [>= n] decode to the same
    output and return the same advanced input pointer -- in the payload
    decoders of the scalar codec, of the scalar 128v codec and of the two
    SIMD codecs, and in the block decoders that reach them through a
    bitmap header [0x80 | b], [bx]. *)
Theorem bitmap_padding_noninterference
    (n start b bx : Z) (bm1 bm2 rest : list Z)
    (Hn : 0 <= n < 4294967233)
    (Hagree : bitmaps_agree_below n bm1 bm2) (Hrest : bytes rest) :
  p4D1DecPayloadExceptions (bm1 ++ rest) n start b bx
  = p4D1DecPayloadExceptions (bm2 ++ rest) n start b bx /\
  p4D1Dec128PayloadBitmap (bm1 ++ rest) n start b bx
  = p4D1Dec128PayloadBitmap (bm2 ++ rest) n start b bx /\
  p4D1Dec128Exceptions (bm1 ++ rest) n start b bx
  = p4D1Dec128Exceptions (bm2 ++ rest) n start b bx /\
  p4D1Dec256Exceptions (bm1 ++ rest) n start b bx
  = p4D1Dec256Exceptions (bm2 ++ rest) n start b bx /\
  (forall h0, Z.land h0 0xC0 = 0x80 -> bx <> 0 ->
     p4D1Dec32 (h0 :: bx :: bm1 ++ rest) n start
     = p4D1Dec32 (h0 :: bx :: bm2 ++ rest) n start /\
     p4D1Dec128v32 (h0 :: bx :: bm1 ++ rest) n start
     = p4D1Dec128v32 (h0 :: bx :: bm2 ++ rest) n start /\
     p4D1Dec256v32 (h0 :: bx :: bm1 ++ rest) n start
     = p4D1Dec256v32 (h0 :: bx :: bm2 ++ rest) n start).
Proof.
  pose proof (load_bitmap_agree_0 n bm1 bm2 rest Hn Hagree Hrest) as Hbm.
  destruct (zdrop_payload n bm1 bm2 rest Hagree) as [Hd1 Hd2].
  assert (E1 : p4D1DecPayloadExceptions (bm1 ++ rest) n start b bx
               = p4D1DecPayloadExceptions (bm2 ++ rest) n start b bx).
  { unfold p4D1DecPayloadExceptions. rewrite Hbm, Hd1, Hd2. reflexivity. }
  assert (E2 : p4D1Dec128PayloadBitmap (bm1 ++ rest) n start b bx
               = p4D1Dec128PayloadBitmap (bm2 ++ rest) n start b bx).
  { unfold p4D1Dec128PayloadBitmap. rewrite Hbm, Hd1, Hd2. reflexivity. }
  assert (E3 : p4D1Dec128Exceptions (bm1 ++ rest) n start b bx
               = p4D1Dec128Exceptions (bm2 ++ rest) n start b bx).
  { unfold p4D1Dec128Exceptions. rewrite Hbm, Hd1, Hd2. reflexivity. }
  assert (E4 : p4D1Dec256Exceptions (bm1 ++ rest) n start b bx
               = p4D1Dec256Exceptions (bm2 ++ rest) n start b bx).
  { unfold p4D1Dec256Exceptions. rewrite Hbm, Hd1, Hd2. reflexivity. }
  repeat (split; [assumption|]).
  clear E1 E2 E3 E4 Hbm Hd1 Hd2.
  intros h0 Hh Hbx.
  assert (F1 : (Z.land h0 192 =? 0) = false) by (apply Z.eqb_neq; lia).
  assert (F2 : Z.land h0 64 = 0).
  { apply Z.bits_inj'. intros i Hi. rewrite Z.land_spec, Z.bits_0.
    destruct (Z.eq_dec i 6) as [->|Hne].
    - assert (Hb6 : Z.testbit (Z.land h0 192) 6 = false) by (rewrite Hh; reflexivity).
      rewrite Z.land_spec in Hb6. change (Z.testbit 192 6) with true in Hb6.
      rewrite andb_true_r in Hb6. rewrite Hb6. reflexivity.
    - replace (Z.testbit 64 i) with false; [apply andb_false_r|].
      symmetry. change 64 with (2 ^ 6). apply Z.pow2_bits_false. lia. }
  assert (F3 : Z.land h0 128 <> 0).
  { intros H0.
    assert (Hb7 : Z.testbit (Z.land h0 192) 7 = true) by (rewrite Hh; reflexivity).
    rewrite Z.land_spec in Hb7. change (Z.testbit 192 7) with true in Hb7.
    rewrite andb_true_r in Hb7.
    assert (Z.testbit (Z.land h0 128) 7 = true).
    { rewrite Z.land_spec, Hb7. reflexivity. }
    rewrite H0 in H. discriminate. }
  assert (F4 : (Z.land h0 192 =? 192) = false) by (apply Z.eqb_neq; lia).
  pose proof (load_bitmap_agree_0 n bm1 bm2 rest Hn Hagree Hrest) as Hbm.
  destruct (zdrop_payload n bm1 bm2 rest Hagree) as [Hd1 Hd2].
  apply Z.eqb_neq in Hbx.
  split; [|split].
  - unfold p4D1Dec32. rewrite !zget_cons_0, F1, F2.
    change (0 =? 0) with true. cbv iota.
    rewrite !(zdrop_cons _ _ 1), !zdrop_0 by lia. rewrite !zget_cons_0.
    rewrite Hbx. rewrite !(zdrop_cons _ _ 1), !zdrop_0 by lia.
    unfold p4D1DecPayloadExceptions. rewrite Hbm, Hd1, Hd2. reflexivity.
  - unfold p4D1Dec128v32. rewrite !zget_cons_0, F4, F2.
    change (0 =? 0) with true. cbv iota.
    apply Z.eqb_neq in F3. rewrite F3. cbn [negb].
    rewrite !(zdrop_cons _ _ 1), !zdrop_0 by lia. rewrite !zget_cons_0.
    rewrite !(zdrop_cons _ _ 2) by lia. change (2 - 1) with 1.
    rewrite !(zdrop_cons _ _ 1), !zdrop_0 by lia.
    unfold p4D1Dec128Payload. rewrite F3, Hbx.
    unfold p4D1Dec128PayloadBitmap. rewrite Hbm, Hd1, Hd2. reflexivity.
  - unfold p4D1Dec256v32. rewrite !zget_cons_0, F4, F2.
    change (0 =? 0) with true. cbv iota.
    apply Z.eqb_neq in F3. rewrite F3.
    rewrite !(zdrop_cons _ _ 1), !zdrop_0 by lia. rewrite !zget_cons_0.
    rewrite Hbx. rewrite !(zdrop_cons _ _ 1), !zdrop_0 by lia.
    unfold p4D1Dec256Exceptions. rewrite Hbm, Hd1, Hd2. reflexivity.
Qed.

Lemma bitmap_padding_noninterference_witness :
  p4D1DecPayloadExceptions ([0x05] ++ [0x0B; 0x00]) 4 0 0 3
  = p4D1DecPayloadExceptions ([0xF5] ++ [0x0B; 0x00]) 4 0 0 3 /\
  p4D1DecPayloadExceptions ([0x05] ++ [0x0B; 0x00]) 4 0 0 3
  = Some ([4; 5; 7; 8], 2).
Proof.
  assert (Hn : 0 <= 4 < 4294967233) by lia.
  assert (Ha : bitmaps_agree_below 4 [0x05] [0xF5]).
  { repeat split; try (repeat constructor; lia).
    intros p Hp.
    assert (Hc : p = 0 \/ p = 1 \/ p = 2 \/ p = 3) by lia.
    destruct Hc as [->|[->|[->| ->]]]; reflexivity. }
  assert (Hr : bytes [0x0B; 0x00]) by (repeat constructor; lia).
  split.
  - exact (proj1 (bitmap_padding_noninterference 4 0 0 3 [0x05] [0xF5]
                    [0x0B; 0x00] Hn Ha Hr)).
  - vm_compute. reflexivity.
Defined.

(** * The cost model of the bit-width analyzer *)

Lemma zsum_map_add {A} (f g : A -> Z) (l : list A) :
  zsum (map f l) + zsum (map g l) = zsum (map (fun x => f x + g x) l).
Proof. unfold zsum. induction l as [|a l IH]; cbn [map fold_right] in *; lia. Qed.

Lemma zsum_map_ext {A} (f g : A -> Z) (l : list A) :
  (forall x, In x l -> f x = g x) -> zsum (map f l) = zsum (map g l).
Proof.
  intros H. f_equal. apply map_ext_in. exact H.
Qed.

Lemma zsum_map_scale {A} (f : A -> Z) (c : Z) (l : list A) :
  zsum (map f l) * c = zsum (map (fun x => f x * c) l).
Proof. unfold zsum. induction l as [|a l IH]; cbn [map fold_right] in *; lia. Qed.

(** The histogram counts the values of each bit width. *)
Lemma zsum_cons (x : Z) (l : list Z) : zsum (x :: l) = x + zsum l.
Proof. reflexivity. Qed.

Lemma fold_histogram (l : list Z) (cnt : Z -> Z) (w : Z) :
  fold_left (fun cnt v => upd cnt (bitWidth32 v) (cnt (bitWidth32 v) + 1)) l cnt w
  = cnt w + zsum (map (fun v => if bitWidth32 v =? w then 1 else 0) l).
Proof.
  revert cnt. induction l as [|v l IH]; intros cnt.
  - cbn. lia.
  - cbn [fold_left map]. rewrite zsum_cons, IH. unfold upd. rewrite (Z.eqb_sym w).
    destruct (Z.eqb_spec (bitWidth32 v) w) as [->|]; lia.
Qed.

Lemma bit_width_histogram_spec (inp : list Z) (n w : Z) :
  bit_width_histogram inp n w
  = zsum (map (fun v => if bitWidth32 v =? w then 1 else 0) (ztake n inp)).
Proof. unfold bit_width_histogram. rewrite fold_histogram. lia. Qed.

Lemma update_vbyte_accumulator_spec (vb : Z -> Z) (count bits j : Z) :
  update_vbyte_accumulator vb count bits j
  = vb j + count * vbyte_increment (bits - j).
Proof.
  unfold update_vbyte_accumulator, upd, vbyte_increment. cbv beta zeta.
  repeat match goal with
         | |- context [?a =? ?b] => destruct (Z.eqb_spec a b)
         end; subst; try lia.
Qed.

Lemma choose_keeps_counters (n max_bits base_bits : Z) (st : p4bits_state) :
  let st' := p4Bits32_choose n max_bits base_bits st in
  exception_count st' = exception_count st /\
  vbyte_size_accumulator st' = vbyte_size_accumulator st /\
  vbyte_accumulator st' = vbyte_accumulator st.
Proof.
  unfold p4Bits32_choose.
  destruct (_ && _); [cbn; auto|].
  destruct (_ <? _); cbn; auto.
Qed.

Lemma vbyte_estimate_step (d : Z) :
  1 <= d -> vbyte_estimate d + vbyte_increment d = vbyte_estimate (d + 1).
Proof.
  intros Hd. unfold vbyte_estimate, vbyte_increment.
  repeat match goal with
         | |- context [?a =? ?b] => destruct (Z.eqb_spec a b)
         | |- context [?a <=? ?b] => destruct (Z.leb_spec a b)
         end; lia.
Qed.

(** The counters on entering the iteration of [base_bits], as sums over
    the input. *)
Section Analyzer.

Variables (inp : list Z) (n max_bits : Z).
Hypothesis Hwidth : forall v, In v (ztake n inp) -> bitWidth32 v <= max_bits.

Let cnt := bit_width_histogram inp n.
Let vals := ztake n inp.

Lemma head_counters (steps : nat) :
  let base_bits := max_bits - 1 - Z.of_nat steps in
  let st := p4Bits32_head n max_bits cnt steps in
  exception_count st
  = zsum (map (fun v => if base_bits <? bitWidth32 v then 1 else 0) vals) /\
  vbyte_size_accumulator st
  = zsum (map (fun v => if base_bits <? bitWidth32 v
                        then vbyte_estimate (bitWidth32 v - base_bits) else 0)
              vals) /\
  (forall j, vbyte_accumulator st j
             = zsum (map (fun v => if base_bits <? bitWidth32 v
                                   then vbyte_increment (bitWidth32 v - j) else 0)
                         vals)).
Proof.
  induction steps as [|k IH].
  - cbn [p4Bits32_head p4Bits32_init exception_count vbyte_size_accumulator
           vbyte_accumulator].
    replace (max_bits - 1 - Z.of_nat 0) with (max_bits - 1) by lia.
    assert (Hc : cnt max_bits
                 = zsum (map (fun v => if max_bits - 1 <? bitWidth32 v
                                       then 1 else 0) vals)).
    { unfold cnt. rewrite bit_width_histogram_spec. apply zsum_map_ext.
      intros v Hv. specialize (Hwidth v Hv).
      destruct (Z.eqb_spec (bitWidth32 v) max_bits);
        destruct (Z.ltb_spec (max_bits - 1) (bitWidth32 v)); lia. }
    split; [exact Hc|]. split.
    + rewrite Hc. apply zsum_map_ext. intros v Hv. specialize (Hwidth v Hv).
      destruct (Z.ltb_spec (max_bits - 1) (bitWidth32 v)); [|reflexivity].
      replace (bitWidth32 v - (max_bits - 1)) with 1 by lia. reflexivity.
    + intros j. rewrite update_vbyte_accumulator_spec.
      unfold cnt. rewrite bit_width_histogram_spec. fold vals.
      rewrite Z.add_0_l, zsum_map_scale. apply zsum_map_ext.
      intros v Hv. specialize (Hwidth v Hv).
      rewrite Z.mul_comm.
      destruct (Z.eqb_spec (bitWidth32 v) max_bits) as [E|];
        destruct (Z.ltb_spec (max_bits - 1) (bitWidth32 v)); try lia.
      rewrite E. lia.
  - cbn [p4Bits32_head].
    set (b := max_bits - 1 - Z.of_nat k) in *.
    replace (max_bits - 1 - Z.of_nat (S k)) with (b - 1) by lia.
    cbv zeta in IH. destruct IH as (Ix & Ia & Iv).
    destruct (choose_keeps_counters n max_bits b (p4Bits32_head n max_bits cnt k))
      as (Cx & Ca & Cv).
    unfold p4Bits32_advance.
    cbn [exception_count vbyte_size_accumulator vbyte_accumulator].
    rewrite Cx, Ca, Cv, Ix, Ia.
    assert (Hcb : cnt b = zsum (map (fun v => if bitWidth32 v =? b then 1 else 0) vals))
      by (unfold cnt; apply bit_width_histogram_spec).
    split; [|split].
    + rewrite Hcb, zsum_map_add. apply zsum_map_ext. intros v _.
      destruct (Z.ltb_spec b (bitWidth32 v)); destruct (Z.eqb_spec (bitWidth32 v) b);
        destruct (Z.ltb_spec (b - 1) (bitWidth32 v)); lia.
    + rewrite (Iv b), Hcb, !zsum_map_add. apply zsum_map_ext. intros v _.
      destruct (Z.ltb_spec b (bitWidth32 v)); destruct (Z.eqb_spec (bitWidth32 v) b);
        destruct (Z.ltb_spec (b - 1) (bitWidth32 v)); try lia.
      * replace (bitWidth32 v - (b - 1)) with (bitWidth32 v - b + 1) by lia.
        rewrite <- vbyte_estimate_step by lia. lia.
      * replace (bitWidth32 v - (b - 1)) with 1 by lia. reflexivity.
    + intros j. rewrite update_vbyte_accumulator_spec, (Iv j), Hcb.
      rewrite zsum_map_scale, zsum_map_add. apply zsum_map_ext. intros v _.
      destruct (Z.ltb_spec b (bitWidth32 v));
        destruct (Z.eqb_spec (bitWidth32 v) b) as [E|];
        destruct (Z.ltb_spec (b - 1) (bitWidth32 v)); try lia.
      rewrite E. lia.
Qed.

(** The loop of [p4Bits32] passes through these states. *)
Lemma loop_reaches_head (steps : nat) (base : nat) :
  Z.of_nat base = max_bits - 1 - Z.of_nat steps ->
  p4Bits32_loop n max_bits cnt (Z.to_nat (max_bits - 1))
    (p4Bits32_init n max_bits cnt)
  = p4Bits32_loop n max_bits cnt base (p4Bits32_head n max_bits cnt steps).
Proof.
  revert base. induction steps as [|k IH]; intros base Hb.
  - cbn [p4Bits32_head]. f_equal. lia.
  - rewrite (IH (S base)) by lia.
    cbn [p4Bits32_loop p4Bits32_head].
    replace (max_bits - 1 - Z.of_nat k) with (Z.of_nat (S base)) by lia.
    reflexivity.
Qed.

End Analyzer.

(** Bit widths and the bitwise OR of the block. *)

Lemma bitWidth32_nonneg (v : Z) : 0 <= bitWidth32 v.
Proof.
  unfold bitWidth32. destruct (v =? 0); [lia|].
  pose proof (Z.log2_nonneg v). lia.
Qed.

Lemma bitWidth32_lor (a b : Z) :
  0 <= a -> 0 <= b ->
  bitWidth32 (Z.lor a b) = Z.max (bitWidth32 a) (bitWidth32 b).
Proof.
  intros Ha Hb. unfold bitWidth32.
  pose proof (Z.lor_eq_0_iff a b) as H0.
  pose proof (Z.log2_lor a b Ha Hb) as HL.
  pose proof (Z.log2_nonneg a). pose proof (Z.log2_nonneg b).
  destruct (Z.eqb_spec (Z.lor a b) 0) as [E|E];
    destruct (Z.eqb_spec a 0) as [Ea|Ea]; destruct (Z.eqb_spec b 0) as [Eb|Eb];
    try (apply H0 in E; lia); try (exfalso; apply E, H0; split; assumption);
    try lia.
  - subst a. rewrite Z.lor_0_l. cbn. lia.
  - subst b. rewrite Z.lor_0_r. cbn. lia.
Qed.

Lemma bitWidth32_le_iff (v b : Z) :
  0 <= v -> 0 <= b -> (bitWidth32 v <= b <-> v < 2 ^ b).
Proof.
  intros Hv Hb. unfold bitWidth32.
  destruct (Z.eqb_spec v 0) as [->|E].
  - split; intros _; [apply Z.pow_pos_nonneg|]; lia.
  - pose proof (Z.log2_lt_pow2 v b ltac:(lia)). lia.
Qed.

Lemma fold_lor_nonneg (l : list Z) (a : Z) :
  0 <= a -> Forall (fun v => 0 <= v) l -> 0 <= fold_left Z.lor l a.
Proof.
  revert a. induction l as [|x l IH]; intros a Ha Hl; cbn [fold_left]; [exact Ha|].
  inversion Hl; subst. apply IH; [|assumption]. apply Z.lor_nonneg. lia.
Qed.

Lemma bitWidth32_fold_lor (l : list Z) (a : Z) :
  0 <= a -> Forall (fun v => 0 <= v) l ->
  bitWidth32 a <= bitWidth32 (fold_left Z.lor l a) /\
  (forall v, In v l -> bitWidth32 v <= bitWidth32 (fold_left Z.lor l a)).
Proof.
  revert a. induction l as [|x l IH]; intros a Ha Hl; cbn [fold_left].
  - split; [lia|]. intros v [].
  - inversion Hl as [|? ? Hx Hl']; subst.
    destruct (IH (Z.lor a x)) as (I1 & I2); [apply Z.lor_nonneg; lia|assumption|].
    rewrite bitWidth32_lor in I1 by assumption.
    split; [lia|]. intros v [<-|Hv]; [lia|]. apply I2, Hv.
Qed.

Lemma bitWidth32_fold_lor_bound (l : list Z) (a m : Z) :
  0 <= a -> Forall (fun v => 0 <= v) l ->
  bitWidth32 a <= m -> (forall v, In v l -> bitWidth32 v <= m) ->
  bitWidth32 (fold_left Z.lor l a) <= m.
Proof.
  revert a. induction l as [|x l IH]; intros a Ha Hl Hm Hall; cbn [fold_left].
  - exact Hm.
  - inversion Hl; subst. apply IH.
    + apply Z.lor_nonneg. lia.
    + assumption.
    + rewrite bitWidth32_lor by assumption.
      specialize (Hall x (or_introl eq_refl)). lia.
    + intros v Hv. apply Hall. right. exact Hv.
Qed.

Lemma bitWidth32_shiftr (v b : Z) :
  0 <= v -> 0 <= b -> b < bitWidth32 v ->
  bitWidth32 (Z.shiftr v b) = bitWidth32 v - b.
Proof.
  intros Hv Hb Hlt.
  assert (Hge : 2 ^ b <= v).
  { destruct (Z.lt_ge_cases v (2 ^ b)) as [Hc|]; [|assumption].
    apply bitWidth32_le_iff in Hc; lia. }
  assert (0 < 2 ^ b) by (apply Z.pow_pos_nonneg; lia).
  unfold bitWidth32 in *.
  destruct (Z.eqb_spec v 0); [lia|].
  rewrite Z.log2_shiftr by lia.
  assert (b <= Z.log2 v) by lia.
  destruct (Z.eqb_spec (Z.shiftr v b) 0) as [E|E].
  - rewrite Z.shiftr_div_pow2 in E by lia.
    apply Z.div_small_iff in E; lia.
  - lia.
Qed.

(** The exceptions the encoder extracts at a base width are the values
    wider than it, shifted down. *)
Lemma split_exceptions_sums (vals : list Z) (i b : Z) (f : Z -> Z) :
  0 <= b <= 31 -> Forall (fun v => 0 <= v < 4294967296) vals ->
  let exceptions :=
    snd (fst (split_exceptions vals i (u32 (shl32 1 b - 1)) b)) in
  zsum (map f exceptions)
  = zsum (map (fun v => if b <? bitWidth32 v
                        then f (Z.shiftr v b) else 0) vals).
Proof.
  intros Hb Hv. cbv zeta. revert i.
  assert (Hm : u32 (shl32 1 b - 1) = 2 ^ b - 1).
  { unfold shl32. rewrite Z.shiftl_1_l.
    assert (0 < 2 ^ b <= 2 ^ 31) by
      (split; [apply Z.pow_pos_nonneg; lia|apply Z.pow_le_mono_r; lia]).
    change (2 ^ 31) with 2147483648 in *.
    rewrite (u32_small (2 ^ b)) by lia. apply u32_small. lia. }
  rewrite Hm.
  induction vals as [|v vals IH]; intros i; [reflexivity|].
  inversion Hv as [|? ? Hv0 Hv']; subst.
  cbn [split_exceptions].
  specialize (IH Hv' (i + 1)).
  destruct (split_exceptions vals (i + 1) (2 ^ b - 1) b) as [[base exc] pos].
  cbn [fst snd] in IH.
  pose proof (bitWidth32_le_iff v b ltac:(lia) ltac:(lia)) as Hw.
  cbn [map]. rewrite zsum_cons. unfold shr32.
  destruct (Z.gtb_spec v (2 ^ b - 1)); destruct (Z.ltb_spec b (bitWidth32 v));
    try lia; cbn [fst snd map]; rewrite ?zsum_cons, IH; reflexivity.
Qed.

(** ** C4 *)

(** The claim's formula, with the exact length of the variable-byte code
    of each exception, is not what the analyzer charges: for the block
    [1; 260] at the base width 1 the only exception is 260 >> 1 = 130,
    whose variable-byte code is one byte long, so that the formula gives
    1 + 2 + 1 + 1 = 5, but the analyzer charges 6. *)
Lemma vbyte_cost_is_not_the_exact_length :
  let inp := [1; 260] in
  let max_bits := bitWidth32 (fold_left Z.lor (ztake 2 inp) 0) in
  let st := p4Bits32_head 2 max_bits (bit_width_histogram inp 2)
              (Z.to_nat (max_bits - 1 - 1)) in
  let exceptions :=
    snd (fst (split_exceptions (ztake 2 inp) 0 (u32 (shl32 1 1 - 1)) 1)) in
  max_bits = 9 /\
  exceptions = [130] /\
  vbPut32 130 = [130] /\
  vbyte_size_at 2 1 st = 6 /\
  vbyte_size_at 2 1 st
  <> pad8 (2 * 1) + 2 + zlen exceptions
     + zsum (map (fun h => zlen (vbPut32 h)) exceptions).
Proof. vm_compute. repeat split; try reflexivity; discriminate. Qed.

(** C4 (amended): on entering the iteration of a candidate base width
    [base_bits], the loop of [p4Bits32] holds a state [st] for which the
    cost of the variable-byte strategy, [vbyte_size_at n base_bits st], is
    [pad8 (n * base_bits) + 2 + x + sum of vbyte_estimate (bitWidth32 h)]
    over the [x] exceptions [h] (the high bits [v >> base_bits] of the
    values wider than [base_bits]): every exception is charged by the bit
    width of its high bits, 1 byte up to 7 bits, 2 up to 15, 4 up to 19,
    7 up to 25 and 11 above, not by the length of its variable-byte code. *)
Theorem vbyte_cost_charged_by_bit_width (inp : list Z) (n base_bits : Z)
  (Hn : 1 <= n <= 256) (Hlen : zlen inp = n) (Hu : u32_list inp)
  (Hbase : 0 <= base_bits < bitWidth32 (fold_left Z.lor (ztake n inp) 0)) :
  let max_bits := bitWidth32 (fold_left Z.lor (ztake n inp) 0) in
  let cnt := bit_width_histogram inp n in
  let st := p4Bits32_head n max_bits cnt (Z.to_nat (max_bits - 1 - base_bits)) in
  let exceptions :=
    snd (fst (split_exceptions (ztake n inp) 0
                (u32 (shl32 1 base_bits - 1)) base_bits)) in
  p4Bits32_loop n max_bits cnt (Z.to_nat (max_bits - 1))
    (p4Bits32_init n max_bits cnt)
  = p4Bits32_loop n max_bits cnt (Z.to_nat base_bits) st /\
  exception_count st = zlen exceptions /\
  vbyte_size_at n base_bits st
  = pad8 (n * base_bits) + 2 + zlen exceptions
    + zsum (map (fun h => vbyte_estimate (bitWidth32 h)) exceptions).
Proof.
  intros max_bits cnt st exceptions.
  assert (Hvals : Forall (fun v => 0 <= v < 4294967296) (ztake n inp))
    by (apply Forall_ztake; exact Hu).
  assert (Hnn : Forall (fun v => 0 <= v) (ztake n inp))
    by (eapply Forall_impl; [|exact Hvals]; cbn; lia).
  assert (Hw : forall v, In v (ztake n inp) -> bitWidth32 v <= max_bits)
    by (apply (bitWidth32_fold_lor (ztake n inp) 0); [lia|exact Hnn]).
  assert (Hmax : max_bits <= 32).
  { apply bitWidth32_fold_lor_bound; [lia|exact Hnn|cbn; lia|].
    intros v Hv. rewrite Forall_forall in Hvals. specialize (Hvals v Hv).
    apply bitWidth32_le_iff; cbn; lia. }
  fold max_bits in Hbase.
  assert (Hsteps : Z.of_nat (Z.to_nat (max_bits - 1 - base_bits))
                   = max_bits - 1 - base_bits) by lia.
  destruct (head_counters inp n max_bits Hw (Z.to_nat (max_bits - 1 - base_bits)))
    as (Hx & Ha & _).
  rewrite Hsteps in Hx, Ha.
  replace (max_bits - 1 - (max_bits - 1 - base_bits)) with base_bits in Hx, Ha by lia.
  fold cnt st in Hx, Ha.
  assert (Hcount : exception_count st = zlen exceptions).
  { rewrite Hx. unfold exceptions.
    pose proof (split_exceptions_sums (ztake n inp) 0 base_bits (fun _ => 1)
                  ltac:(lia) Hvals) as S.
    cbv zeta in S. rewrite <- S.
    generalize (snd (fst (split_exceptions (ztake n inp) 0
                            (u32 (shl32 1 base_bits - 1)) base_bits))).
    intros l. induction l as [|a l IH]; [reflexivity|].
    cbn [map]. rewrite zsum_cons, zlen_cons, IH. reflexivity. }
  split; [|split].
  - apply loop_reaches_head. lia.
  - exact Hcount.
  - unfold vbyte_size_at. rewrite Hcount, Ha. f_equal.
    unfold exceptions.
    rewrite (split_exceptions_sums (ztake n inp) 0 base_bits
               (fun h => vbyte_estimate (bitWidth32 h)) ltac:(lia) Hvals).
    apply zsum_map_ext. intros v Hv.
    rewrite Forall_forall in Hvals. specialize (Hvals v Hv).
    destruct (Z.ltb_spec base_bits (bitWidth32 v)); [|reflexivity].
    rewrite bitWidth32_shiftr by lia. reflexivity.
Qed.

Lemma vbyte_cost_charged_by_bit_width_witness :
  let inp := [1; 260] in
  let st := p4Bits32_head 2 9 (bit_width_histogram inp 2) 7 in
  exception_count st = 1 /\ vbyte_size_at 2 1 st = 1 + 2 + 1 + 2.
Proof.
  assert (Hu : u32_list [1; 260]) by (repeat constructor; lia).
  destruct (vbyte_cost_charged_by_bit_width [1; 260] 2 1
              ltac:(lia) eq_refl Hu ltac:(vm_compute; split; [discriminate|reflexivity]))
    as (_ & Hx & Hc).
  split; [exact Hx|exact Hc].
Defined.

(** * The length of a horizontally packed block *)

Lemma zlen_set_nth (k : nat) (v : Z) (l : list Z) :
  length (set_nth k v l) = length l.
Proof.
  revert k. induction l as [|h t IH]; intros k; [destruct k; reflexivity|].
  destruct k; cbn [set_nth length]; [reflexivity|]. rewrite IH. reflexivity.
Qed.

Lemma zlen_zset (l : list Z) (k v : Z) : zlen (zset l k v) = zlen l.
Proof. unfold zlen, zset. rewrite zlen_set_nth. reflexivity. Qed.

Lemma zlen_pack_one (B Base I : Z) (inp w : list Z) :
  zlen (pack_one B Base I inp w) = zlen w.
Proof.
  unfold pack_one. cbv zeta. destruct (_ >? _); rewrite ?zlen_zset; reflexivity.
Qed.

Lemma zlen_pack_all (B Base K : Z) (inp w : list Z) :
  zlen (pack_all B Base K inp w) = zlen w.
Proof.
  unfold pack_all. generalize (zseq 0 K). intros Is. revert w.
  induction Is as [|i Is IH]; intros w; cbn [fold_left]; [reflexivity|].
  rewrite IH. apply zlen_pack_one.
Qed.

Lemma zlen_flat_map_const {A} (f : A -> list Z) (c : Z) (l : list A) :
  (forall x, zlen (f x) = c) -> zlen (flat_map f l) = c * zlen l.
Proof.
  intros Hf. induction l as [|a l IH]; cbn [flat_map].
  - unfold zlen. cbn [length Z.of_nat]. lia.
  - rewrite zlen_app, zlen_cons, Hf, IH. ring.
Qed.

Lemma zlen_map {A B} (f : A -> B) (l : list A) : zlen (map f l) = zlen l.
Proof. unfold zlen. rewrite length_map. reflexivity. Qed.

Lemma zlen_ztake {A} (k : Z) (l : list A) :
  0 <= k <= zlen l -> zlen (ztake k l) = k.
Proof.
  unfold zlen, ztake. intros H. rewrite length_firstn. lia.
Qed.

Lemma zlen_zdrop {A} (k : Z) (l : list A) :
  0 <= k <= zlen l -> zlen (zdrop k l) = zlen l - k.
Proof.
  unfold zlen, zdrop. intros H. rewrite length_skipn. lia.
Qed.

Lemma zlen_repeat (x : Z) (k : Z) : 0 <= k -> zlen (repeat x (Z.to_nat k)) = k.
Proof. intros H. unfold zlen. rewrite repeat_length. lia. Qed.

Lemma zlen_storeU64 (v : Z) : zlen (storeU64 v) = 8.
Proof. reflexivity. Qed.

Lemma zlen_store_partial (R v : Z) :
  1 <= R <= 7 -> zlen (store_partial R v) = R.
Proof.
  intros H.
  assert (C : R = 1 \/ R = 2 \/ R = 3 \/ R = 4 \/ R = 5 \/ R = 6 \/ R = 7) by lia.
  destruct C as [->|[->|[->|[->|[->|[->| ->]]]]]]; reflexivity.
Qed.

Lemma zlen_pack_block (B K Base : Z) (inp : list Z) :
  1 <= K * B -> zlen (pack_block B K Base inp) = (K * B + 7) / 8.
Proof.
  intros H. unfold pack_block. cbv zeta.
  set (tb := K * B) in *.
  assert (Hwc : 1 <= (tb + 63) / 64) by (Z.div_mod_to_equations; lia).
  assert (Hlast : 1 <= (tb + 7) / 8 - ((tb + 63) / 64 - 1) * 8 <= 8)
    by (Z.div_mod_to_equations; lia).
  rewrite zlen_app.
  rewrite (zlen_flat_map_const storeU64 8) by apply zlen_storeU64.
  rewrite zlen_ztake
    by (rewrite zlen_pack_all, zlen_repeat by lia; lia).
  destruct (Z.eqb_spec ((tb + 7) / 8 - ((tb + 63) / 64 - 1) * 8) 8) as [E|E].
  - rewrite zlen_storeU64. lia.
  - rewrite zlen_store_partial by lia. lia.
Qed.

Lemma zlen_pack_blocks (fuel : nat) (B N Base L : Z) (inp : list Z) :
  pack_blocks_len fuel B N = Some L ->
  zlen (pack_blocks fuel B N Base inp) = L.
Proof.
  revert N Base L. induction fuel as [|fuel IH]; intros N Base L; cbn [pack_blocks_len pack_blocks].
  - intros [= <-]. reflexivity.
  - destruct (N =? 0); [intros [= <-]; reflexivity|]. cbv zeta.
    destruct (Z.leb_spec 1 (choose_block_size B N * B)) as [Hb|]; [|discriminate].
    destruct (N =? choose_block_size B N).
    + intros [= <-]. apply zlen_pack_block. exact Hb.
    + destruct (pack_blocks_len fuel B (N - choose_block_size B N)) as [L'|] eqn:E;
        [|discriminate].
      cbn [option_map]. intros [= <-].
      rewrite zlen_app, zlen_pack_block by exact Hb.
      rewrite (IH _ _ _ E). reflexivity.
Qed.

Lemma In_zseq (a n x : Z) : 0 <= a -> a <= x < a + n -> In x (zseq a n).
Proof.
  intros Ha Hx. unfold zseq. apply in_map_iff. exists (Z.to_nat x).
  split; [lia|]. apply in_seq. lia.
Qed.

Lemma pack_blocks_len_table_ok : pack_blocks_len_table = true.
Proof. vm_compute. reflexivity. Qed.

Lemma pack_blocks_len_spec (B N : Z) :
  1 <= B <= 31 -> 1 <= N <= 32 ->
  pack_blocks_len (Z.to_nat N) B N = Some ((N * B + 7) / 8).
Proof.
  intros HB HN. pose proof pack_blocks_len_table_ok as T.
  unfold pack_blocks_len_table in T. rewrite forallb_forall in T.
  specialize (T B (In_zseq 1 31 B ltac:(lia) ltac:(lia))).
  rewrite forallb_forall in T.
  specialize (T N (In_zseq 1 32 N ltac:(lia) ltac:(lia))).
  unfold pack_blocks_len_ok in T.
  destruct (pack_blocks_len (Z.to_nat N) B N) as [L|]; [|discriminate].
  apply Z.eqb_eq in T. rewrite T. reflexivity.
Qed.

Lemma zlen_copyU32ArrayToLe (inp : list Z) (n : Z) :
  0 <= n <= zlen inp -> zlen (copyU32ArrayToLe inp n) = 4 * n.
Proof.
  intros H. unfold copyU32ArrayToLe.
  rewrite (zlen_flat_map_const storeU32 4) by apply zlen_storeU32.
  rewrite zlen_ztake by lia. reflexivity.
Qed.

Lemma zlen_pack_n_b (B N : Z) (inp : list Z) :
  1 <= B <= 31 -> 1 <= N <= 32 -> N <= zlen inp ->
  zlen (pack_n_b B N inp) = (N * B + 7) / 8.
Proof.
  intros HB HN Hlen. unfold pack_n_b.
  destruct (Z.eqb_spec B 32); [lia|].
  destruct (Z.eqb_spec B 16) as [->|].
  - rewrite (zlen_flat_map_const (fun v => storeU16 (u16 v)) 2) by reflexivity.
    rewrite zlen_ztake by lia. Z.div_mod_to_equations. lia.
  - destruct (Z.eqb_spec B 8) as [->|].
    + rewrite zlen_map, zlen_ztake by lia. Z.div_mod_to_equations. lia.
    + apply zlen_pack_blocks, pack_blocks_len_spec; lia.
Qed.

Lemma zlen_bitpack_b_full (k : nat) (B : Z) (inp : list Z) :
  1 <= B <= 31 -> 32 * Z.of_nat k <= zlen inp ->
  zlen (bitpack_b_full k B inp) = 4 * B * Z.of_nat k.
Proof.
  intros HB. revert inp. induction k as [|k IH]; intros inp Hlen.
  - cbn. lia.
  - cbn [bitpack_b_full]. rewrite zlen_app, zlen_pack_n_b by lia.
    rewrite IH by (rewrite zlen_zdrop; lia).
    replace (32 * B) with (B * 4 * 8) by lia.
    rewrite Z.div_add_l by lia. replace (7 / 8) with 0 by reflexivity. lia.
Qed.

Lemma land_lnot_31 (n : Z) : 0 <= n -> Z.land n (Z.lnot 31) = 32 * (n / 32).
Proof.
  intros Hn. rewrite <- Z.ldiff_land. change 31 with (Z.ones 5).
  rewrite Z.ldiff_ones_r by lia.
  rewrite Z.shiftr_div_pow2, Z.shiftl_mul_pow2 by lia.
  change (2 ^ 5) with 32. lia.
Qed.

Lemma land_31 (n : Z) : 0 <= n -> Z.land n 31 = n mod 32.
Proof.
  intros Hn. change 31 with (Z.ones 5). rewrite Z.land_ones by lia. reflexivity.
Qed.

Lemma zlen_bitpack_b (B n : Z) (inp : list Z) :
  1 <= B <= 31 -> 0 <= n -> n <= zlen inp ->
  zlen (bitpack_b B inp n) = (n * B + 7) / 8.
Proof.
  intros HB Hn Hlen. unfold bitpack_b. cbv zeta.
  rewrite land_lnot_31, land_31 by lia.
  replace (32 * (n / 32) / 32) with (n / 32)
    by (rewrite Z.mul_comm, Z.div_mul; lia).
  pose proof (Z.div_mod n 32 ltac:(lia)) as Hdm.
  pose proof (Z.mod_pos_bound n 32 ltac:(lia)) as Hm.
  assert (0 <= n / 32) by (apply Z.div_pos; lia).
  assert (Hfull : zlen (bitpack_b_full (Z.to_nat (n / 32)) B inp)
                  = 4 * B * (n / 32))
    by (rewrite zlen_bitpack_b_full by lia; lia).
  assert (Hsplit : (n * B + 7) / 8 = 4 * B * (n / 32) + (n mod 32 * B + 7) / 8).
  { replace (n * B + 7) with (4 * B * (n / 32) * 8 + (n mod 32 * B + 7)) by nia.
    rewrite Z.div_add_l by lia. reflexivity. }
  destruct (Z.eqb_spec (n mod 32) 0) as [E|E].
  - rewrite Hfull, Hsplit, E. change ((0 * B + 7) / 8) with 0. lia.
  - rewrite zlen_app, Hfull, zlen_pack_n_b; [lia|lia|lia|].
    rewrite zlen_zdrop; lia.
Qed.

Lemma zlen_bitpack32Scalar (inp : list Z) (n b : Z) :
  0 <= b <= 32 -> 0 <= n -> n <= zlen inp ->
  zlen (bitpack32Scalar inp n b) = (n * b + 7) / 8.
Proof.
  intros Hb Hn Hlen. unfold bitpack32Scalar.
  destruct (Z.eqb_spec b 0) as [->|].
  - rewrite Z.mul_0_r. reflexivity.
  - destruct (Z.eqb_spec b 32) as [->|].
    + rewrite zlen_copyU32ArrayToLe by lia. Z.div_mod_to_equations. lia.
    + apply zlen_bitpack_b; lia.
Qed.

(** When the analyzer returns no exception width, the base width is the
    width of the widest value. *)
Lemma p4Bits32_simple (inp : list Z) (n b : Z) :
  p4Bits32 inp n = (b, 0) ->
  b = bitWidth32 (fold_left Z.lor (ztake n inp) 0).
Proof.
  unfold p4Bits32. cbv zeta.
  destruct (Z.eqb_spec (fold_left Z.lor (ztake n inp) 0) 0) as [E|E].
  - intros [= <-]. rewrite E. reflexivity.
  - destruct (_ =? n).
    + unfold MAX_BITS. intros [= _ H]. 
    + destruct (use_vbyte_exceptions _ =? 0).
      * intros [= H1 H2]. lia.
      * unfold MAX_BITS. intros [= _ H].
Qed.

(** ** C5 *)

(** C5 (as stated, refuted). The block [1; 2; 3; 1000] is neither
    constant nor zero and every value fits in 10 bits, but the analyzer
    keeps 2 base bits and patches the last value: the encoding is 5
    bytes long, not [1 + ceil (4 * 10 / 8) = 6], and no width [b < 32]
    in which the values fit gives its length as [1 + ceil (4 * b / 8)]. *)
Lemma fits_in_b_bits_length_fails :
  Forall (fun v => 0 <= v < 2 ^ 10) [1; 2; 3; 1000] /\
  p4Bits32 [1; 2; 3; 1000] 4 = (2, 8) /\
  p4Enc32 [1; 2; 3; 1000] 4 = [0x82; 8; 8; 250; 57] /\
  zlen (p4Enc32 [1; 2; 3; 1000] 4) <> 1 + (4 * 10 + 7) / 8 /\
  ~ (forall (n b : Z) (X : list Z),
       1 <= n <= 256 -> zlen X = n -> 0 <= b < 32 ->
       Forall (fun v => 0 <= v < 2 ^ b) X ->
       zlen (p4Enc32 X n) = 1 + (n * b + 7) / 8).
Proof.
  assert (HF : Forall (fun v => 0 <= v < 2 ^ 10) [1; 2; 3; 1000])
    by (repeat constructor; cbn; lia).
  split; [exact HF|].
  split; [vm_compute; reflexivity|].
  split; [vm_compute; reflexivity|].
  split; [vm_compute; discriminate|].
  intros H.
  specialize (H 4 10 [1; 2; 3; 1000] ltac:(lia) eq_refl ltac:(lia) HF).
  vm_compute in H. discriminate H.
Qed.

(** C5 (amended): for a block of [n] values, [1 <= n <= 256], for which
    the analyzer [p4Bits32] selects the width [b] without exceptions
    (it returns [(b, 0)]), every value fits in [b] bits, the encoding is the
    header byte [b] followed by the bit-packed values, and
    its length is [1 + ceil (n * b / 8)] bytes. *)
Theorem simple_packing_length (inp : list Z) (n b : Z)
  (Hn : 1 <= n <= 256) (Hlen : zlen inp = n) (Hu : u32_list inp)
  (Hsel : p4Bits32 inp n = (b, 0)) :
  0 <= b <= 32 /\
  Forall (fun v => v < 2 ^ b) inp /\
  p4Enc32 inp n = u8 b :: bitpack32Scalar inp n b /\
  zlen (p4Enc32 inp n) = 1 + (n * b + 7) / 8 /\
  zlen (p4Enc32 inp n) = 1 + pad8 (n * b).
Proof.
  pose proof (p4Bits32_simple inp n b Hsel) as Hb.
  rewrite (ztake_all inp n) in Hb by lia.
  assert (Hnn : Forall (fun v => 0 <= v) inp)
    by (eapply Forall_impl; [|exact Hu]; cbn; lia).
  assert (Hw : forall v, In v inp -> bitWidth32 v <= b)
    by (rewrite Hb; apply (bitWidth32_fold_lor inp 0); [lia|exact Hnn]).
  assert (Hb32 : b <= 32).
  { rewrite Hb. apply bitWidth32_fold_lor_bound; [lia|exact Hnn|cbn; lia|].
    intros v Hv. unfold u32_list in Hu. rewrite Forall_forall in Hu.
    specialize (Hu v Hv). apply bitWidth32_le_iff; cbn; lia. }
  assert (Hb0 : 0 <= b) by (rewrite Hb; apply bitWidth32_nonneg).
  assert (Henc : p4Enc32 inp n = u8 b :: bitpack32Scalar inp n b).
  { unfold p4Enc32. rewrite Hsel. unfold writeHeader, p4Enc32Payload.
    cbn [Z.eqb andb app]. rewrite andb_true_r.
    destruct (Z.eqb_spec b 0) as [->|]; reflexivity. }
  assert (Hlen' : zlen (p4Enc32 inp n) = 1 + (n * b + 7) / 8)
    by (rewrite Henc, zlen_cons, zlen_bitpack32Scalar by lia; reflexivity).
  split; [lia|]. split; [|split; [exact Henc|split; [exact Hlen'|]]].
  - rewrite Forall_forall. intros v Hv. specialize (Hw v Hv).
    rewrite Forall_forall in Hnn. specialize (Hnn v Hv).
    apply bitWidth32_le_iff; lia.
  - rewrite Hlen'. unfold pad8. rewrite u32_small by nia. reflexivity.
Qed.

Lemma simple_packing_length_witness :
  zlen (p4Enc32 [1; 2; 3; 1] 4) = 1 + (4 * 2 + 7) / 8.
Proof.
  assert (Hu : u32_list [1; 2; 3; 1]) by (repeat constructor; lia).
  destruct (simple_packing_length [1; 2; 3; 1] 4 2
              ltac:(lia) eq_refl Hu ltac:(vm_compute; reflexivity))
    as (_ & _ & _ & H & _).
  exact H.
Defined.

(** * Bounds of the variable-byte array encoder *)




(** * The candidate loop of the analyzer *)

Section Candidates.

Variables (n max_bits : Z) (cnt : Z -> Z).

Let head (k : Z) : p4bits_state :=
  p4Bits32_head n max_bits cnt (Z.to_nat (max_bits - 1 - k)).
Let cost_p := candidate_patching_size n max_bits cnt.
Let cost_v := candidate_vbyte_size n max_bits cnt.
Let cost_0 : Z := pad8 (n * max_bits) + 1.

Lemma choose_step (b : Z) (st : p4bits_state) :
  0 <= b < max_bits ->
  exception_count st = exception_count (head b) ->
  vbyte_size_accumulator st = vbyte_size_accumulator (head b) ->
  candidates_invariant n max_bits cnt (b + 1) st ->
  candidates_invariant n max_bits cnt b (p4Bits32_choose n max_bits b st).
Proof.
  unfold candidates_invariant. cbv zeta. fold cost_p cost_v cost_0.
  intros Hb Hx Ha (H0 & Hall & Hsel & Hs0 & Hstrict).
  assert (Hp : patching_size_at n max_bits b st = cost_p b)
    by (unfold cost_p, candidate_patching_size, patching_size_at; fold (head b);
        rewrite Hx; reflexivity).
  assert (Hv : vbyte_size_at n b st = cost_v b)
    by (unfold cost_v, candidate_vbyte_size, vbyte_size_at; fold (head b);
        rewrite Hx, Ha; reflexivity).
  assert (Hopt : b < optimal_base_bits st) by
    (destruct Hsel as [(-> & _)|[(? & _)|(? & _)]]; lia).
  assert (Hall' : forall m, m <= min_size st -> m <= cost_p b -> m <= cost_v b ->
                  forall k, b <= k < max_bits -> m <= cost_p k /\ m <= cost_v k).
  { intros m Hm Hmp Hmv k Hk. destruct (Z.eq_dec k b) as [->|]; [split; assumption|].
    destruct (Hall k ltac:(lia)). lia. }
  assert (Hnew : forall m, m < min_size st ->
                 forall k, b < k < max_bits -> m < cost_p k /\ m < cost_v k).
  { intros m Hm k Hk. destruct (Hall k ltac:(lia)). lia. }
  unfold p4Bits32_choose. cbv zeta. rewrite Hp, Hv.
  destruct (Z.ltb_spec (cost_p b) (min_size st)) as [Hlt|Hge];
    [destruct (Z.leb_spec (cost_p b) (cost_v b)) as [Hle|Hgt]|]; cbn [andb].
  - cbn [min_size optimal_base_bits use_vbyte_exceptions].
    split; [lia|]. split; [apply Hall'; lia|].
    split; [right; left; repeat split; lia|].
    split; [lia|]. apply Hnew. lia.
  - destruct (Z.ltb_spec (cost_v b) (min_size st)) as [Hvl|Hvg]; [|lia].
    cbn [min_size optimal_base_bits use_vbyte_exceptions].
    split; [lia|]. split; [apply Hall'; lia|].
    split; [right; right; repeat split; lia|].
    split; [lia|]. apply Hnew. lia.
  - destruct (Z.ltb_spec (cost_v b) (min_size st)) as [Hvl|Hvg].
    + cbn [min_size optimal_base_bits use_vbyte_exceptions].
      split; [lia|]. split; [apply Hall'; lia|].
      split; [right; right; repeat split; lia|].
      split; [lia|]. apply Hnew. lia.
    + split; [exact H0|].
      split; [apply Hall'; lia|].
      split.
      { destruct Hsel as [H|[(? & H)|(? & H)]]; [left; exact H| |].
        - right; left. split; [lia|exact H].
        - right; right. split; [lia|exact H]. }
      split; assumption.
Qed.

Lemma head_invariant (j : nat) :
  Z.of_nat j <= max_bits - 1 ->
  candidates_invariant n max_bits cnt (max_bits - Z.of_nat j)
    (p4Bits32_head n max_bits cnt j).
Proof.
  induction j as [|j IH]; intros Hj.
  - cbn [p4Bits32_head]. unfold candidates_invariant, p4Bits32_init.
    cbn [min_size optimal_base_bits use_vbyte_exceptions].
    split; [lia|]. split; [intros k Hk; lia|].
    split; [left; auto|]. split; [lia|]. intros k Hk. lia.
  - cbn [p4Bits32_head].
    set (b := max_bits - 1 - Z.of_nat j).
    assert (Hhead : head b = p4Bits32_head n max_bits cnt j).
    { unfold head, b. f_equal. lia. }
    replace (max_bits - Z.of_nat (S j)) with b by (unfold b; lia).
    assert (Hstep : candidates_invariant n max_bits cnt b
                      (p4Bits32_choose n max_bits b (p4Bits32_head n max_bits cnt j))).
    { apply choose_step; [unfold b; lia|rewrite Hhead; reflexivity..|].
      replace (b + 1) with (max_bits - Z.of_nat j) by (unfold b; lia).
      apply IH. lia. }
    exact Hstep.
Qed.

Lemma loop_from_head (steps base : nat) :
  Z.of_nat base = max_bits - 1 - Z.of_nat steps ->
  p4Bits32_loop n max_bits cnt (Z.to_nat (max_bits - 1))
    (p4Bits32_init n max_bits cnt)
  = p4Bits32_loop n max_bits cnt base (p4Bits32_head n max_bits cnt steps).
Proof.
  revert base. induction steps as [|k IH]; intros base Hb.
  - cbn [p4Bits32_head]. f_equal. lia.
  - rewrite (IH (S base)) by lia.
    cbn [p4Bits32_loop p4Bits32_head].
    replace (max_bits - 1 - Z.of_nat k) with (Z.of_nat (S base)) by lia.
    reflexivity.
Qed.

(** The state in which the loop ends. *)
Lemma loop_invariant :
  1 <= max_bits ->
  candidates_invariant n max_bits cnt 0
    (p4Bits32_loop n max_bits cnt (Z.to_nat (max_bits - 1))
       (p4Bits32_init n max_bits cnt)).
Proof.
  intros Hmax.
  rewrite (loop_from_head (Z.to_nat (max_bits - 1)) O) by (cbn; lia).
  cbn [p4Bits32_loop]. change (Z.of_nat 0) with 0.
  apply choose_step; [lia| | |].
  - unfold head. replace (max_bits - 1 - 0) with (max_bits - 1) by lia. reflexivity.
  - unfold head. replace (max_bits - 1 - 0) with (max_bits - 1) by lia. reflexivity.
  - pose proof (head_invariant (Z.to_nat (max_bits - 1)) ltac:(lia)) as H.
    replace (max_bits - Z.of_nat (Z.to_nat (max_bits - 1))) with (0 + 1) in H by lia.
    exact H.
Qed.

End Candidates.

Lemma max_bits_range (inp : list Z) (n : Z) :
  u32_list inp ->
  0 <= bitWidth32 (fold_left Z.lor (ztake n inp) 0) <= 32.
Proof.
  intros Hu. split; [apply bitWidth32_nonneg|].
  assert (Hvals : Forall (fun v => 0 <= v < 4294967296) (ztake n inp))
    by (apply Forall_ztake; exact Hu).
  apply bitWidth32_fold_lor_bound; [lia| |cbn; lia|].
  - eapply Forall_impl; [|exact Hvals]. cbn. lia.
  - intros v Hv. rewrite Forall_forall in Hvals. specialize (Hvals v Hv).
    apply bitWidth32_le_iff; cbn; lia.
Qed.

Lemma bitWidth32_pos (v : Z) : v <> 0 -> 1 <= bitWidth32 v.
Proof.
  intros Hv. unfold bitWidth32. destruct (Z.eqb_spec v 0); [contradiction|].
  pose proof (Z.log2_nonneg v). lia.
Qed.

(** The three ways the analyzer returns. *)
Lemma p4Bits32_cases (inp : list Z) (n : Z) :
  let bitwise_or := fold_left Z.lor (ztake n inp) 0 in
  let max_bits := bitWidth32 bitwise_or in
  let cnt := bit_width_histogram inp n in
  (bitwise_or = 0 /\ p4Bits32 inp n = (0, 0)) \/
  (bitwise_or <> 0 /\ p4Bits32 inp n = (max_bits, 34)) \/
  (bitwise_or <> 0 /\
   exists st,
     candidates_invariant n max_bits cnt 0 st /\
     p4Bits32 inp n
     = (optimal_base_bits st,
        if use_vbyte_exceptions st =? 0
        then max_bits - optimal_base_bits st else 33)).
Proof.
  intros bitwise_or max_bits cnt. unfold p4Bits32. cbv zeta.
  fold bitwise_or. fold max_bits. fold cnt.
  destruct (Z.eqb_spec bitwise_or 0) as [E|E]; [left; auto|].
  destruct (_ =? n); [right; left; auto|].
  right; right. split; [exact E|].
  eexists. split; [|reflexivity].
  apply loop_invariant. apply bitWidth32_pos. exact E.
Qed.

(** The analyzer returns the cheapest candidate.  For a block that is not
    constant, the pair [(b, bx)] it returns is plain packing at the width
    of the widest value ([bx = 0]), bitmap patching ([1 <= bx <= 32],
    [b + bx] the width of the widest value) or vbyte exceptions
    ([bx = 33]); the size computed for it is not larger than the size
    computed for any other candidate, and strictly smaller than that of
    every candidate with a wider base: among equal sizes the widest base
    wins, and at the same base patching wins over vbyte. *)
Theorem p4Bits32_selects_cheapest (inp : list Z) (n : Z)
  (Hu : u32_list inp) (Hnc : snd (p4Bits32 inp n) <> MAX_BITS + 2) :
  let max_bits := bitWidth32 (fold_left Z.lor (ztake n inp) 0) in
  let cnt := bit_width_histogram inp n in
  let b := fst (p4Bits32 inp n) in
  let bx := snd (p4Bits32 inp n) in
  let cost_p := candidate_patching_size n max_bits cnt in
  let cost_v := candidate_vbyte_size n max_bits cnt in
  let cost_0 := pad8 (n * max_bits) + 1 in
  let chosen :=
    if bx =? 0 then cost_0 else if bx =? 33 then cost_v b else cost_p b in
  (bx = 0 /\ b = max_bits \/
   1 <= bx <= 32 /\ 0 <= b /\ b + bx = max_bits \/
   bx = 33 /\ 0 <= b < max_bits) /\
  chosen <= cost_0 /\
  (forall k, 0 <= k < max_bits -> chosen <= cost_p k /\ chosen <= cost_v k) /\
  (b < max_bits -> chosen < cost_0) /\
  (forall k, b < k < max_bits -> chosen < cost_p k /\ chosen < cost_v k) /\
  (bx = 33 -> chosen < cost_p b).
Proof.
  intros max_bits cnt b bx cost_p cost_v cost_0 chosen.
  pose proof (max_bits_range inp n Hu) as Hmax. fold max_bits in Hmax.
  destruct (p4Bits32_cases inp n) as [(E & H)|[(E & H)|(E & st & Hinv & H)]].
  - assert (Hm0 : max_bits = 0) by (unfold max_bits; rewrite E; reflexivity).
    unfold chosen, b, bx. rewrite H. cbn [fst snd Z.eqb].
    split; [left; split; [reflexivity|lia]|].
    split; [lia|]. split; [intros k Hk; lia|].
    split; [lia|]. split; [intros k Hk; lia|]. discriminate.
  - exfalso. apply Hnc. rewrite H. reflexivity.
  - fold max_bits cnt in Hinv, H.
    unfold candidates_invariant in Hinv. cbv zeta in Hinv.
    fold cost_p cost_v cost_0 in Hinv.
    destruct Hinv as (H0 & Hall & Hsel & Hs0 & Hstrict).
    unfold chosen, b, bx. rewrite H. cbn [fst snd].
    destruct Hsel as [(Eo & Eu & Em)|[(Ho & Eu & Em & Hv)|(Ho & Eu & Em & Hp)]];
      rewrite Eu in *; cbn [Z.eqb Pos.eqb].
    + rewrite Eo, Z.sub_diag. cbn [Z.eqb].
      split; [left; auto|]. rewrite <- Em.
      split; [lia|]. split; [exact Hall|].
      split; [lia|]. split; [intros k Hk; lia|]. discriminate.
    + destruct (Z.eqb_spec (max_bits - optimal_base_bits st) 0); [lia|].
      destruct (Z.eqb_spec (max_bits - optimal_base_bits st) 33); [lia|].
      split; [right; left; lia|]. rewrite <- Em.
      split; [lia|]. split; [exact Hall|].
      split; [exact Hs0|]. split; [exact Hstrict|]. lia.
    + split; [right; right; lia|]. rewrite <- Em.
      split; [lia|]. split; [exact Hall|].
      split; [exact Hs0|]. split; [exact Hstrict|]. intros _. exact Hp.
Qed.

Lemma p4Bits32_selects_cheapest_witness :
  p4Bits32 [1; 2; 3; 1000] 4 = (2, 8) /\
  candidate_patching_size 4 10 (bit_width_histogram [1; 2; 3; 1000] 4) 2
  <= candidate_vbyte_size 4 10 (bit_width_histogram [1; 2; 3; 1000] 4) 2.
Proof.
  assert (Hu : u32_list [1; 2; 3; 1000]) by (repeat constructor; lia).
  assert (Hnc : snd (p4Bits32 [1; 2; 3; 1000] 4) <> MAX_BITS + 2)
    by (vm_compute; discriminate).
  destruct (p4Bits32_selects_cheapest [1; 2; 3; 1000] 4 Hu Hnc)
    as (_ & _ & Hall & _).
  split; [vm_compute; reflexivity|].
  exact (proj2 (Hall 2 ltac:(vm_compute; split; [discriminate|reflexivity]))).
Defined.

(** * The block header *)

Lemma Z_range_nat (P : Z -> Prop) (hi : nat) :
  (forall k : nat, (k <= hi)%nat -> P (Z.of_nat k)) ->
  forall b, 0 <= b <= Z.of_nat hi -> P b.
Proof.
  intros H b Hb. rewrite <- (Z2Nat.id b) by lia. apply H. lia.
Qed.

Ltac range_case k :=
  destruct k as [|k]; [vm_compute; repeat split; reflexivity|].

Lemma header_flag_bits (b : Z) :
  0 <= b <= 32 ->
  u8 b = b /\ Z.land b 0xC0 = 0 /\
  u8 (Z.lor 0x80 b) = 128 + b /\
  Z.land (128 + b) 0xC0 = 0x80 /\ Z.land (128 + b) 0x40 = 0 /\
  Z.land (128 + b) 0x7F = b /\
  u8 (Z.lor 0x40 b) = 64 + b /\
  Z.land (64 + b) 0xC0 = 0x40 /\ Z.land (64 + b) 0x3F = b /\
  u8 (Z.lor 0xC0 b) = 192 + b /\
  Z.land (192 + b) 0xC0 = 0xC0 /\ Z.land (192 + b) 0x3F = b.
Proof.
  revert b. apply (Z_range_nat _ 32). intros k Hk.
  do 33 (range_case k). lia.
Qed.

(** The four forms of the header are told apart by the two top bits of its
    first byte, as the decoders test them, and the decoders' masks give
    the base width back: for [0 <= b <= 32], [writeHeader] writes [b]
    alone for plain packing ([bx = 0]), [0x80 | b] and then [bx] for
    bitmap patching ([1 <= bx <= 32]), [0x40 | b] for vbyte exceptions
    ([bx = 33]) and [0xC0 | b] for a constant block ([bx = 34]). *)
Theorem writeHeader_flags (b bx : Z) (Hb : 0 <= b <= 32) (Hbx : 0 <= bx <= 34) :
  let h := zget (writeHeader b bx) 0 in
  (bx = 0 -> writeHeader b bx = [b] /\ Z.land h 0xC0 = 0) /\
  (1 <= bx <= 32 ->
   writeHeader b bx = [128 + b; bx] /\
   Z.land h 0xC0 = 0x80 /\ Z.land h 0x7F = b) /\
  (bx = 33 ->
   writeHeader b bx = [64 + b] /\
   Z.land h 0xC0 = 0x40 /\ Z.land h 0x3F = b) /\
  (bx = 34 ->
   writeHeader b bx = [192 + b] /\
   Z.land h 0xC0 = 0xC0 /\ Z.land h 0x3F = b).
Proof.
  destruct (header_flag_bits b Hb)
    as (H1 & H2 & H3 & H4 & _ & H5 & H6 & H7 & H8 & H9 & H10 & H11).
  cbv zeta. unfold writeHeader, MAX_BITS.
  repeat split; intros; subst;
    repeat match goal with
           | |- context [?a =? ?c] => destruct (Z.eqb_spec a c); try lia
           | |- context [?a <=? ?c] => destruct (Z.leb_spec a c); try lia
           end;
    rewrite ?zget_cons_0, ?H1, ?H3, ?H6, ?H9;
    rewrite ?(u8_small bx) by lia; auto.
Qed.

Lemma writeHeader_flags_witness :
  writeHeader 6 34 = [192 + 6] /\
  Z.land (zget (writeHeader 6 34) 0) 0xC0 = 0xC0 /\
  Z.land (zget (writeHeader 6 34) 0) 0x3F = 6.
Proof.
  destruct (writeHeader_flags 6 34 ltac:(lia) ltac:(lia)) as (_ & _ & _ & H).
  exact (H eq_refl).
Defined.

(** * Byte buffers as bit streams *)

(** ** Lists *)

Lemma zseq_S (a : Z) (n : nat) :
  0 <= a -> zseq a (Z.of_nat (S n)) = a :: zseq (a + 1) (Z.of_nat n).
Proof.
  intros Ha. unfold zseq. rewrite !Nat2Z.id. cbn [seq map].
  rewrite Z2Nat.id by lia.
  replace (Z.to_nat (a + 1)) with (S (Z.to_nat a)) by lia. reflexivity.
Qed.

Lemma zseq_nil (a n : Z) : n <= 0 -> zseq a n = [].
Proof.
  intros Hn. unfold zseq. replace (Z.to_nat n) with O by lia. reflexivity.
Qed.

Lemma zseq_cons (a n : Z) :
  0 <= a -> 0 < n -> zseq a n = a :: zseq (a + 1) (n - 1).
Proof.
  intros Ha Hn. replace n with (Z.of_nat (S (Z.to_nat (n - 1)))) at 1 by lia.
  rewrite zseq_S by lia. do 2 f_equal. lia.
Qed.

Lemma zseq_app (a n m : Z) :
  0 <= a -> 0 <= n -> 0 <= m -> zseq a (n + m) = zseq a n ++ zseq (a + n) m.
Proof.
  intros Ha Hn Hm. unfold zseq.
  replace (Z.to_nat (n + m)) with (Z.to_nat n + Z.to_nat m)%nat by lia.
  rewrite seq_app, map_app.
  replace (Z.to_nat (a + n)) with (Z.to_nat a + Z.to_nat n)%nat by lia.
  reflexivity.
Qed.

Lemma zlen_zseq (a n : Z) : 0 <= n -> zlen (zseq a n) = n.
Proof.
  intros Hn. unfold zlen, zseq. rewrite length_map, length_seq. lia.
Qed.

Lemma In_zseq_iff (a n x : Z) :
  0 <= a -> (In x (zseq a n) <-> a <= x < a + n).
Proof.
  intros Ha. unfold zseq. rewrite in_map_iff. split.
  - intros (k & <- & Hk). apply in_seq in Hk. lia.
  - intros Hx. exists (Z.to_nat x). split; [lia|]. apply in_seq. lia.
Qed.

Lemma zget_map_zseq (f : Z -> Z) (n k : Z) :
  0 <= k < n -> zget (map f (zseq 0 n)) k = f k.
Proof.
  intros Hk. unfold zget, zseq. rewrite map_map.
  rewrite nth_indep with (d' := f (Z.of_nat 0))
    by (rewrite length_map, length_seq; lia).
  rewrite (map_nth (fun x => f (Z.of_nat x)) (seq (Z.to_nat 0) (Z.to_nat n)) O).
  rewrite seq_nth by lia. f_equal. lia.
Qed.

Lemma zget_nil (k : Z) : zget [] k = 0.
Proof. unfold zget. destruct (Z.to_nat k); reflexivity. Qed.

Lemma zget_overflow (l : list Z) (k : Z) : zlen l <= k -> zget l k = 0.
Proof.
  intros H. unfold zget. apply nth_overflow. unfold zlen in H. lia.
Qed.

Lemma zget_set_nth (l : list Z) (k j : nat) (v : Z) :
  (k < length l)%nat ->
  nth j (set_nth k v l) 0 = if Nat.eqb j k then v else nth j l 0.
Proof.
  revert k j. induction l as [|h t IH]; intros k j Hk; [cbn in Hk; lia|].
  destruct k as [|k]; destruct j as [|j]; cbn [set_nth nth Nat.eqb]; try reflexivity.
  apply IH. cbn in Hk. lia.
Qed.

Lemma zget_zset (l : list Z) (k j v : Z) :
  0 <= k < zlen l -> 0 <= j ->
  zget (zset l k v) j = if j =? k then v else zget l j.
Proof.
  intros Hk Hj. unfold zget, zset. rewrite zget_set_nth by (unfold zlen in Hk; lia).
  destruct (Z.eqb_spec j k) as [->|Hne].
  - rewrite Nat.eqb_refl. reflexivity.
  - destruct (Nat.eqb_spec (Z.to_nat j) (Z.to_nat k)); [lia|reflexivity].
Qed.

Lemma zget_ztake (l : list Z) (k j : Z) :
  0 <= j < k -> zget (ztake k l) j = zget l j.
Proof.
  intros H. unfold zget, ztake. rewrite nth_firstn.
  destruct (Nat.ltb_spec (Z.to_nat j) (Z.to_nat k)); [reflexivity|lia].
Qed.

Lemma zget_repeat (x : Z) (n : nat) (k : Z) : zget (repeat x n) k = if (Z.to_nat k <? n)%nat then x else 0.
Proof.
  unfold zget. destruct (Nat.ltb_spec (Z.to_nat k) n).
  - apply nth_repeat_lt. assumption.
  - apply nth_overflow. rewrite repeat_length. lia.
Qed.

Lemma list_eq_zget (l1 l2 : list Z) :
  zlen l1 = zlen l2 ->
  (forall k, 0 <= k < zlen l1 -> zget l1 k = zget l2 k) -> l1 = l2.
Proof.
  intros Hlen H. apply nth_ext with (d := 0) (d' := 0).
  - unfold zlen in Hlen. lia.
  - intros k Hk. specialize (H (Z.of_nat k)). unfold zget in H.
    rewrite Nat2Z.id in H. apply H. unfold zlen. lia.
Qed.

(** ** Bits of truncations and shifts *)

Lemma testbit_u8 (x t : Z) :
  0 <= t -> Z.testbit (u8 x) t = (t <? 8) && Z.testbit x t.
Proof.
  intros Ht. unfold u8. change 256 with (2 ^ 8).
  rewrite Z.testbit_mod_pow2 by lia. reflexivity.
Qed.

Lemma testbit_u16 (x t : Z) :
  0 <= t -> Z.testbit (u16 x) t = (t <? 16) && Z.testbit x t.
Proof.
  intros Ht. unfold u16. change 65536 with (2 ^ 16).
  rewrite Z.testbit_mod_pow2 by lia. reflexivity.
Qed.

Lemma testbit_u32 (x t : Z) :
  0 <= t -> Z.testbit (u32 x) t = (t <? 32) && Z.testbit x t.
Proof.
  intros Ht. unfold u32. change 4294967296 with (2 ^ 32).
  rewrite Z.testbit_mod_pow2 by lia. reflexivity.
Qed.

Lemma testbit_u64 (x t : Z) :
  0 <= t -> Z.testbit (u64 x) t = (t <? 64) && Z.testbit x t.
Proof.
  intros Ht. unfold u64. change 18446744073709551616 with (2 ^ 64).
  rewrite Z.testbit_mod_pow2 by lia. reflexivity.
Qed.

Lemma testbit_neg_index (x t : Z) : t < 0 -> Z.testbit x t = false.
Proof. intros. apply Z.testbit_neg_r. assumption. Qed.

Lemma testbit_shiftl_full (x k t : Z) :
  0 <= k -> Z.testbit (Z.shiftl x k) t = (k <=? t) && Z.testbit x (t - k).
Proof.
  intros Hk. destruct (Z.leb_spec k t).
  - rewrite Z.shiftl_spec by lia. reflexivity.
  - rewrite Z.shiftl_spec_low by lia. reflexivity.
Qed.

Lemma testbit_range (x w t : Z) :
  0 <= x < 2 ^ w -> w <= t -> Z.testbit x t = false.
Proof. intros. apply testbit_small with w; assumption. Qed.

Lemma range_of_bits (x w : Z) :
  0 <= w -> 0 <= x ->
  (forall t, w <= t -> Z.testbit x t = false) -> x < 2 ^ w.
Proof.
  intros Hw Hx H.
  destruct (Z.eq_dec x 0) as [->|Hne]; [apply Z.pow_pos_nonneg; lia|].
  apply Z.log2_lt_pow2; [lia|].
  destruct (Z.lt_ge_cases (Z.log2 x) w) as [|Hge]; [assumption|].
  specialize (H (Z.log2 x) Hge).
  rewrite Z.bit_log2 in H by lia. discriminate.
Qed.

(** ** Stream bits *)

Lemma sbit_app_l (l r : list Z) (p : Z) :
  0 <= p < 8 * zlen l -> sbit (l ++ r) p = sbit l p.
Proof.
  intros Hp. unfold sbit. rewrite zget_app_l; [reflexivity|].
  Z.div_mod_to_equations; lia.
Qed.

Lemma sbit_app_r (l r : list Z) (p : Z) :
  8 * zlen l <= p -> sbit (l ++ r) p = sbit r (p - 8 * zlen l).
Proof.
  intros Hp. unfold sbit. pose proof (zlen_nonneg l).
  rewrite zget_app_r by (Z.div_mod_to_equations; lia).
  f_equal; [f_equal|]; Z.div_mod_to_equations; lia.
Qed.

Lemma sbit_zdrop (l : list Z) (k p : Z) :
  0 <= k -> 0 <= p -> sbit (zdrop k l) p = sbit l (8 * k + p).
Proof.
  intros Hk Hp. unfold sbit.
  rewrite zget_zdrop by (Z.div_mod_to_equations; lia).
  f_equal; [f_equal|]; Z.div_mod_to_equations; lia.
Qed.

Lemma sbit_overflow (l : list Z) (p : Z) :
  8 * zlen l <= p -> sbit l p = false.
Proof.
  intros Hp. unfold sbit. pose proof (zlen_nonneg l).
  rewrite zget_overflow by (Z.div_mod_to_equations; lia).
  apply Z.testbit_0_l.
Qed.

Lemma bytes_le_bytes (k v : Z) : bytes (le_bytes k v).
Proof.
  unfold bytes, le_bytes. apply Forall_forall. intros x Hx.
  apply in_map_iff in Hx. destruct Hx as (i & <- & _). apply u8_range.
Qed.

Lemma zlen_le_bytes (k v : Z) : 0 <= k -> zlen (le_bytes k v) = k.
Proof. intros. unfold le_bytes. rewrite zlen_map, zlen_zseq; lia. Qed.

Lemma sbit_le_bytes (k v p : Z) :
  0 <= p < 8 * k -> sbit (le_bytes k v) p = Z.testbit v p.
Proof.
  intros Hp. unfold sbit, le_bytes.
  rewrite zget_map_zseq by (Z.div_mod_to_equations; lia).
  rewrite testbit_u8 by (Z.div_mod_to_equations; lia).
  rewrite Z.shiftr_spec by (Z.div_mod_to_equations; lia).
  replace (p mod 8 <? 8) with true
    by (symmetry; apply Z.ltb_lt; Z.div_mod_to_equations; lia).
  cbn [andb]. f_equal. Z.div_mod_to_equations; lia.
Qed.

(** The stores write the low bytes of their argument. *)

Lemma byte_of_truncated (v m k : Z) :
  0 <= k -> k + 8 <= m ->
  u8 (Z.shiftr (v mod 2 ^ m) k) = u8 (Z.shiftr v k).
Proof.
  intros Hk Hm. apply Z.bits_inj'. intros t Ht.
  rewrite !testbit_u8, !Z.shiftr_spec by lia.
  rewrite Z.testbit_mod_pow2 by lia.
  destruct (Z.ltb_spec t 8); [|reflexivity]. cbn [andb].
  destruct (Z.ltb_spec (t + k) m); [reflexivity|lia].
Qed.

Lemma storeU32_le_bytes (v : Z) : storeU32 v = le_bytes 4 v.
Proof. reflexivity. Qed.

Lemma storeU16_le_bytes (v : Z) : storeU16 v = le_bytes 2 v.
Proof. reflexivity. Qed.

Lemma storeU64_le_bytes (v : Z) : storeU64 v = le_bytes 8 v.
Proof.
  unfold storeU64, storeU32, le_bytes. cbn [zseq map seq Z.to_nat Pos.to_nat Pos.iter_op Nat.add app Z.of_nat Pos.of_succ_nat Pos.succ Z.mul Pos.mul].
  unfold u32. change 4294967296 with (2 ^ 32).
  rewrite <- (Z.shiftr_0_r (v mod 2 ^ 32)) at 1.
  rewrite !byte_of_truncated by lia.
  rewrite !Z.shiftr_shiftr by lia.
  rewrite Z.shiftr_0_r. reflexivity.
Qed.

Lemma u8_u32_shiftr (v k : Z) :
  0 <= k <= 24 -> u8 (Z.shiftr (u32 v) k) = u8 (Z.shiftr v k).
Proof. intros. unfold u32. change 4294967296 with (2 ^ 32). apply byte_of_truncated; lia. Qed.

Lemma u8_u16_shiftr (v k : Z) :
  0 <= k <= 8 -> u8 (Z.shiftr (u16 v) k) = u8 (Z.shiftr v k).
Proof. intros. unfold u16. change 65536 with (2 ^ 16). apply byte_of_truncated; lia. Qed.

Lemma u8_u32 (v : Z) : u8 (u32 v) = u8 v.
Proof. rewrite <- (Z.shiftr_0_r (u32 v)), u8_u32_shiftr, Z.shiftr_0_r by lia. reflexivity. Qed.

Lemma u8_u16 (v : Z) : u8 (u16 v) = u8 v.
Proof. rewrite <- (Z.shiftr_0_r (u16 v)), u8_u16_shiftr, Z.shiftr_0_r by lia. reflexivity. Qed.

Lemma store_partial_le_bytes (R v : Z) :
  1 <= R <= 7 -> store_partial R v = le_bytes R v.
Proof.
  intros H.
  assert (C : R = 1 \/ R = 2 \/ R = 3 \/ R = 4 \/ R = 5 \/ R = 6 \/ R = 7) by lia.
  destruct C as [->|[->|[->|[->|[->|[->| ->]]]]]];
    cbv [store_partial Z.geb Z.eqb Z.compare Pos.compare Pos.compare_cont Pos.eqb];
    cbv [le_bytes zseq map seq Z.to_nat Pos.to_nat Pos.iter_op Nat.add Z.of_nat
         Pos.of_succ_nat Pos.succ storeU32 storeU16 app];
    rewrite ?u8_u32_shiftr, ?u8_u16_shiftr, ?u8_u32, ?u8_u16 by lia;
    rewrite ?Z.shiftr_shiftr by lia;
    rewrite ?Z.shiftr_0_r; reflexivity.
Qed.

(** The loads read the stream bits. *)

Lemma testbit_byte_sbit (l : list Z) (t : Z) :
  bytes l -> 0 <= t -> Z.testbit (zget l 0) t = (t <? 8) && sbit l t.
Proof.
  intros Hb Ht. unfold sbit. destruct (Z.ltb_spec t 8).
  - rewrite Z.div_small, Z.mod_small by lia. reflexivity.
  - apply testbit_byte_high; [apply zget_bytes; exact Hb|lia].
Qed.

Lemma testbit_loadU16_sbit (l : list Z) (t : Z) :
  bytes l -> 0 <= t -> Z.testbit (loadU16 l) t = (t <? 16) && sbit l t.
Proof.
  intros Hb Ht. unfold loadU16, sbit.
  pose proof (zget_bytes l 0 Hb). pose proof (zget_bytes l 1 Hb).
  rewrite Z.lor_spec, (testbit_shiftl_byte (zget l 1) 8 t) by lia.
  destruct (Z.ltb_spec t 8).
  - rewrite Z.div_small, Z.mod_small by lia.
    destruct (Z.leb_spec 8 t); [lia|]. destruct (Z.ltb_spec t 16); [|lia].
    cbn [andb]. apply orb_false_r.
  - rewrite (testbit_byte_high (zget l 0)) by lia. cbn [orb].
    change (8 + 8) with 16.
    destruct (Z.leb_spec 8 t); [|lia].
    destruct (Z.ltb_spec t 16); cbn [andb]; [|reflexivity].
    f_equal; [f_equal|]; Z.div_mod_to_equations; lia.
Qed.

Lemma testbit_loadU32_sbit (l : list Z) (t : Z) :
  bytes l -> 0 <= t -> Z.testbit (loadU32 l) t = (t <? 32) && sbit l t.
Proof.
  intros Hb Ht. destruct (Z.ltb_spec t 32).
  - apply testbit_loadU32; [exact Hb|lia].
  - apply testbit_range with 32; [apply loadU32_range; exact Hb|lia].
Qed.

Lemma testbit_loadU64_sbit (l : list Z) (t : Z) :
  bytes l -> 0 <= t -> Z.testbit (loadU64 l) t = (t <? 64) && sbit l t.
Proof.
  intros Hb Ht. destruct (Z.ltb_spec t 64).
  - apply testbit_loadU64; [exact Hb|lia].
  - apply testbit_range with 64; [apply loadU64_range; exact Hb|lia].
Qed.

Lemma loadU16_range (l : list Z) : bytes l -> 0 <= loadU16 l < 65536.
Proof.
  intros Hb. unfold loadU16.
  pose proof (zget_bytes l 0 Hb). pose proof (zget_bytes l 1 Hb).
  rewrite lor_shiftl_add by lia. lia.
Qed.

Lemma testbit_zget_sbit (l : list Z) (j t : Z) :
  bytes l -> 0 <= j -> 0 <= t ->
  Z.testbit (zget l j) t = (t <? 8) && sbit l (8 * j + t).
Proof.
  intros Hb Hj Ht. destruct (Z.ltb_spec t 8).
  - unfold sbit. cbn [andb]. f_equal; [f_equal|]; Z.div_mod_to_equations; lia.
  - apply testbit_byte_high; [apply zget_bytes; exact Hb|lia].
Qed.

Ltac split_ranges :=
  repeat match goal with
         | |- context [?a <? ?b] => destruct (Z.ltb_spec a b); try lia
         | |- context [?a <=? ?b] => destruct (Z.leb_spec a b); try lia
         end.

Lemma testbit_load_partial (R : Z) (l : list Z) (t : Z) :
  1 <= R <= 7 -> bytes l -> 0 <= t ->
  Z.testbit (load_partial R l) t = (t <? 8 * R) && sbit l t.
Proof.
  intros HR Hb Ht.
  assert (C : R = 1 \/ R = 2 \/ R = 3 \/ R = 4 \/ R = 5 \/ R = 6 \/ R = 7) by lia.
  pose proof (bytes_zdrop l 4 Hb) as Hb4.
  destruct C as [->|[->|[->|[->|[->|[->| ->]]]]]];
    cbv [load_partial Z.geb Z.eqb Z.compare Pos.compare Pos.compare_cont Pos.eqb];
    rewrite ?Z.lor_spec, ?testbit_shiftl_full by lia;
    split_ranges; cbn [andb orb]; rewrite ?orb_false_r;
    rewrite ?testbit_loadU32_sbit, ?testbit_loadU16_sbit, ?testbit_zget_sbit by
      (first [assumption | lia]);
    rewrite ?sbit_zdrop by lia;
    split_ranges; cbn [andb orb]; rewrite ?orb_false_r;
    try reflexivity; try (f_equal; lia).
Qed.

(** ** Little-endian stores and loads *)

Lemma testbit_load_le_bytes (k v t : Z) (rest : list Z)
    (load : list Z -> Z) :
  0 <= k ->
  (forall l t, bytes l -> 0 <= t ->
               Z.testbit (load l) t = (t <? 8 * k) && sbit l t) ->
  bytes rest -> 0 <= t ->
  Z.testbit (load (le_bytes k v ++ rest)) t = Z.testbit (v mod 2 ^ (8 * k)) t.
Proof.
  intros Hk Hload Hr Ht.
  rewrite Hload by (first [apply bytes_app; [apply bytes_le_bytes|exact Hr] | lia]).
  rewrite Z.testbit_mod_pow2 by lia.
  destruct (Z.ltb_spec t (8 * k)); [|reflexivity]. cbn [andb].
  rewrite sbit_app_l by (rewrite zlen_le_bytes; lia).
  apply sbit_le_bytes. lia.
Qed.

(** What a store writes, the matching load reads back, whatever follows
    in the buffer: [loadU16], [loadU32] and [loadU64] return the value
    reduced to their width, and [load_partial<R>] returns the low [R]
    bytes of what [store_partial<R>] was given, [1 <= R <= 7];
    [store_partial<R>] writes [R] bytes. *)
Theorem load_store_roundtrip (v : Z) (rest : list Z) (Hr : bytes rest) :
  loadU16 (storeU16 v ++ rest) = v mod 2 ^ 16 /\
  loadU32 (storeU32 v ++ rest) = v mod 2 ^ 32 /\
  loadU64 (storeU64 v ++ rest) = v mod 2 ^ 64 /\
  forall R, 1 <= R <= 7 ->
    zlen (store_partial R v) = R /\
    load_partial R (store_partial R v ++ rest) = v mod 2 ^ (8 * R).
Proof.
  rewrite storeU16_le_bytes, storeU32_le_bytes, storeU64_le_bytes.
  split; [|split; [|split]].
  - apply Z.bits_inj'. intros t Ht.
    apply (testbit_load_le_bytes 2 v t rest loadU16); try assumption; [lia|].
    intros l t' Hl Ht'. apply testbit_loadU16_sbit; assumption.
  - apply Z.bits_inj'. intros t Ht.
    apply (testbit_load_le_bytes 4 v t rest loadU32); try assumption; [lia|].
    intros l t' Hl Ht'. apply testbit_loadU32_sbit; assumption.
  - apply Z.bits_inj'. intros t Ht.
    apply (testbit_load_le_bytes 8 v t rest loadU64); try assumption; [lia|].
    intros l t' Hl Ht'. apply testbit_loadU64_sbit; assumption.
  - intros R HR. rewrite store_partial_le_bytes by exact HR.
    split; [apply zlen_le_bytes; lia|].
    apply Z.bits_inj'. intros t Ht.
    apply (testbit_load_le_bytes R v t rest (load_partial R)); try assumption; [lia|].
    intros l t' Hl Ht'. apply testbit_load_partial; assumption.
Qed.

Lemma load_store_roundtrip_witness :
  loadU32 (storeU32 0x1234567890 ++ [7]) = 0x1234567890 mod 2 ^ 32.
Proof.
  assert (Hr : bytes [7]) by (repeat constructor; lia).
  exact (proj1 (proj2 (load_store_roundtrip 0x1234567890 [7] Hr))).
Defined.

(** ** The lowest set bit and the number of set bits *)

Lemma land1_testbit (w bit : Z) :
  0 <= bit ->
  (Z.land (Z.shiftr w bit) 1 =? 0) = negb (Z.testbit w bit).
Proof.
  intros Hb. change 1 with (Z.ones 1) at 1. rewrite Z.land_ones by lia.
  change (2 ^ 1) with 2. rewrite <- Z.bit0_mod, Z.shiftr_spec by lia.
  rewrite Z.add_0_l. destruct (Z.testbit w bit); reflexivity.
Qed.

Lemma ctz_scan_spec (fuel : nat) (w bit : Z) :
  0 <= bit ->
  (exists q, bit <= q < bit + Z.of_nat fuel /\ Z.testbit w q = true) ->
  bit <= ctz_scan fuel w bit < bit + Z.of_nat fuel /\
  Z.testbit w (ctz_scan fuel w bit) = true /\
  forall i, bit <= i < ctz_scan fuel w bit -> Z.testbit w i = false.
Proof.
  revert bit. induction fuel as [|fuel IH]; intros bit Hb (q & Hq & Hset).
  - lia.
  - cbn [ctz_scan]. rewrite land1_testbit by lia.
    destruct (Z.testbit w bit) eqn:E; cbn [negb].
    + split; [lia|]. split; [exact E|]. intros i Hi. lia.
    + assert (Hq' : bit + 1 <= q < bit + 1 + Z.of_nat fuel).
      { destruct (Z.eq_dec q bit) as [->|]; [congruence|lia]. }
      destruct (IH (bit + 1) ltac:(lia) (ex_intro _ q (conj Hq' Hset)))
        as (Hr & Hs & Hlow).
      split; [lia|]. split; [exact Hs|].
      intros i Hi. destruct (Z.eq_dec i bit) as [->|]; [exact E|].
      apply Hlow. lia.
Qed.

Lemma ctzll_spec (word : Z) :
  0 < word < 2 ^ 64 ->
  0 <= ctzll word < 64 /\
  Z.testbit word (ctzll word) = true /\
  forall i, 0 <= i < ctzll word -> Z.testbit word i = false.
Proof.
  intros Hw. unfold ctzll. apply (ctz_scan_spec 64 word 0); [lia|].
  exists (Z.log2 word). split.
  - pose proof (Z.log2_nonneg word).
    assert (Z.log2 word < 64) by (apply Z.log2_lt_pow2; lia). lia.
  - apply Z.bit_log2. lia.
Qed.

(** [word & (word - 1)] clears the lowest set bit. *)
Lemma testbit_clear_lowest (word q i : Z) :
  0 < word -> 0 <= q -> Z.testbit word q = true ->
  (forall j, 0 <= j < q -> Z.testbit word j = false) ->
  0 <= i ->
  Z.testbit (Z.land word (word - 1)) i = (q + 1 <=? i) && Z.testbit word i.
Proof.
  intros Hw Hq Hset Hlow Hi.
  set (a := Z.shiftr word (q + 1)).
  assert (Ha : 0 <= a) by (apply Z.shiftr_nonneg; lia).
  assert (Hpow : 0 < 2 ^ q) by (apply Z.pow_pos_nonneg; lia).
  assert (Hpow' : 2 ^ (q + 1) = 2 * 2 ^ q)
    by (rewrite Z.pow_add_r by lia; change (2 ^ 1) with 2; lia).
  assert (E : word = 2 ^ q + a * 2 ^ (q + 1)).
  { rewrite <- lor_shiftl_add by lia.
    apply Z.bits_inj'. intros t Ht.
    rewrite Z.lor_spec, Z.pow2_bits_eqb, testbit_shiftl_full by lia.
    unfold a. destruct (Z.leb_spec (q + 1) t).
    - rewrite Z.shiftr_spec by lia.
      destruct (Z.eqb_spec q t); [lia|]. cbn [orb andb]. f_equal. lia.
    - cbn [andb]. rewrite orb_false_r.
      destruct (Z.eqb_spec q t) as [<-|]; [exact Hset|]. apply Hlow. lia. }
  assert (E1 : word - 1 = Z.ones q + a * 2 ^ (q + 1))
    by (rewrite Z.ones_equiv; lia).
  rewrite Z.land_spec, E1, <- lor_shiftl_add
    by (first [lia | rewrite Z.ones_equiv; lia]).
  rewrite Z.lor_spec, Z.testbit_ones_nonneg, testbit_shiftl_full by lia.
  unfold a. destruct (Z.leb_spec (q + 1) i).
  - rewrite Z.shiftr_spec by lia. destruct (Z.ltb_spec i q); [lia|].
    cbn [orb andb]. replace (i - (q + 1) + (q + 1)) with i by lia.
    apply andb_diag.
  - cbn [andb]. rewrite orb_false_r.
    destruct (Z.ltb_spec i q).
    + rewrite Hlow by lia. reflexivity.
    + replace i with q by lia. rewrite Hset. cbn.
      destruct (Z.ltb_spec q q); [lia|reflexivity].
Qed.

Lemma clear_lowest_range (word : Z) :
  0 < word < 2 ^ 64 -> 0 <= Z.land word (word - 1) < 2 ^ 64.
Proof.
  intros Hw. split; [apply Z.land_nonneg; lia|].
  apply range_of_bits; [lia|apply Z.land_nonneg; lia|].
  intros t Ht. rewrite Z.land_spec.
  rewrite (testbit_range word 64 t) by lia. reflexivity.
Qed.

Lemma filter_all_false {A} (f : A -> bool) (l : list A) :
  (forall x, In x l -> f x = false) -> filter f l = [].
Proof.
  induction l as [|a l IH]; intros H; [reflexivity|]. cbn [filter].
  rewrite (H a (or_introl eq_refl)). apply IH. intros x Hx. apply H. right. exact Hx.
Qed.

Lemma set_bits_step (word : Z) :
  0 < word < 2 ^ 64 ->
  set_bits word = ctzll word :: set_bits (Z.land word (word - 1)).
Proof.
  intros Hw. destruct (ctzll_spec word Hw) as (Hq & Hset & Hlow).
  set (q := ctzll word) in *.
  pose proof (fun i => testbit_clear_lowest word q i ltac:(lia) ltac:(lia) Hset Hlow)
    as Hc.
  unfold set_bits.
  replace 64 with (q + (1 + (63 - q))) by lia.
  rewrite !(zseq_app 0 q) by lia. rewrite !(zseq_app (0 + q) 1) by lia.
  rewrite !filter_app.
  rewrite (filter_all_false (Z.testbit word) (zseq 0 q))
    by (intros x Hx; apply In_zseq_iff in Hx; [apply Hlow|]; lia).
  rewrite (filter_all_false (Z.testbit (Z.land word (word - 1))) (zseq 0 q))
    by (intros x Hx; apply In_zseq_iff in Hx; [|lia]; rewrite Hc by lia;
        destruct (Z.leb_spec (q + 1) x); [lia|reflexivity]).
  change (zseq (0 + q) 1) with [Z.of_nat (Z.to_nat (0 + q))].
  rewrite Z2Nat.id by lia. cbn [filter app]. rewrite Z.add_0_l, Hset.
  rewrite Hc by lia. destruct (Z.leb_spec (q + 1) q); [lia|]. cbn [andb app].
  f_equal. apply filter_ext_in. intros x Hx.
  apply In_zseq_iff in Hx; [|lia]. rewrite Hc by lia.
  destruct (Z.leb_spec (q + 1) x); [reflexivity|lia].
Qed.

Lemma set_bits_0 : set_bits 0 = [].
Proof. reflexivity. Qed.

Lemma popcount_loop_spec (fuel : nat) (word : Z) :
  0 <= word < 2 ^ 64 -> zlen (set_bits word) <= Z.of_nat fuel ->
  popcount_loop fuel word = zlen (set_bits word).
Proof.
  revert word. induction fuel as [|fuel IH]; intros word Hw Hlen.
  - cbn [popcount_loop]. pose proof (zlen_nonneg (set_bits word)). lia.
  - cbn [popcount_loop]. destruct (Z.eqb_spec word 0) as [->|Hne].
    + reflexivity.
    + rewrite set_bits_step in * by lia. rewrite zlen_cons in *.
      rewrite IH; [reflexivity|apply clear_lowest_range; lia|lia].
Qed.

Lemma zlen_filter_le {A} (f : A -> bool) (l : list A) :
  zlen (filter f l) <= zlen l.
Proof.
  induction l as [|a l IH]; [cbn; lia|]. cbn [filter].
  destruct (f a); repeat rewrite zlen_cons; lia.
Qed.

Lemma popcountll_spec (word : Z) :
  0 <= word < 2 ^ 64 -> popcountll word = zlen (set_bits word).
Proof.
  intros Hw. apply popcount_loop_spec; [exact Hw|].
  unfold set_bits. pose proof (zlen_filter_le (Z.testbit word) (zseq 0 64)) as H.
  rewrite zlen_zseq in H by lia. exact H.
Qed.

(** The portable loops of [ctzll] and [popcountll] compute what their
    names say on a 64-bit word: [popcountll] returns the number of set
    bits (the length of [set_bits word], the list of the positions below 64
    at which the word has a 1), and [ctzll] the position of the lowest set
    bit of a non-zero word. *)
Theorem ctzll_popcountll_correct (word : Z) (Hw : 0 <= word < 2 ^ 64) :
  popcountll word = zlen (set_bits word) /\
  (word <> 0 ->
   0 <= ctzll word < 64 /\
   Z.testbit word (ctzll word) = true /\
   forall i, 0 <= i < ctzll word -> Z.testbit word i = false).
Proof.
  split; [exact (popcountll_spec word Hw)|].
  intros Hne. apply ctzll_spec. lia.
Qed.

Lemma ctzll_popcountll_correct_witness :
  popcountll 0x50 = zlen (set_bits 0x50) /\
  Z.testbit 0x50 (ctzll 0x50) = true.
Proof.
  assert (Hr : 0 <= 0x50 < 2 ^ 64) by (cbn; lia).
  destruct (ctzll_popcountll_correct 0x50 Hr) as (H1 & H2).
  split; [exact H1|]. exact (proj1 (proj2 (H2 ltac:(discriminate)))).
Defined.

(** * The horizontal layout: what [bitpack32Scalar] writes *)

(** ** One value *)

Lemma field_position (p B m : Z) :
  0 < B -> m * B <= p < (m + 1) * B -> p / B = m /\ p mod B = p - m * B.
Proof.
  intros HB Hp.
  assert (E : p / B = m) by (symmetry; apply (Z.div_unique p B m (p - m * B)); lia).
  split; [exact E|]. rewrite Z.mod_eq by lia. rewrite E. lia.
Qed.

Lemma word_position (p j t : Z) :
  0 <= t < 64 -> p = 64 * j + t -> p / 64 = j /\ p mod 64 = t.
Proof. intros Ht ->. Z.div_mod_to_equations. lia. Qed.

Lemma wbit_zset (w : list Z) (k v p : Z) :
  0 <= k < zlen w -> 0 <= p ->
  wbit (zset w k v) p
  = if p / 64 =? k then Z.testbit v (p mod 64) else wbit w p.
Proof.
  intros Hk Hp. unfold wbit.
  rewrite zget_zset by (first [assumption | Z.div_mod_to_equations; lia]).
  destruct (p / 64 =? k); reflexivity.
Qed.

Lemma pack_one_wbit (B Base I : Z) (inp w : list Z) (p : Z) :
  1 <= B <= 64 -> 0 <= I ->
  0 <= zget inp (Base + I) < 2 ^ B ->
  (I + 1) * B <= 64 * zlen w -> 0 <= p < 64 * zlen w ->
  wbit (pack_one B Base I inp w) p
  = wbit w p || ((I * B <=? p) && Z.testbit (zget inp (Base + I)) (p - I * B)).
Proof.
  intros HB HI Hv Hlen Hp.
  set (v := zget inp (Base + I)) in *.
  assert (Hbit : forall t, B <= t -> Z.testbit v t = false)
    by (intros t Ht; apply testbit_range with B; assumption).
  unfold pack_one. cbv zeta. fold v.
  set (bitpos := I * B) in *.
  assert (Hbp : 0 <= bitpos) by (unfold bitpos; nia).
  pose proof (Z.div_mod bitpos 64 ltac:(lia)) as Hdm.
  pose proof (Z.mod_pos_bound bitpos 64 ltac:(lia)) as Hsh.
  set (wi := bitpos / 64) in *. set (sh := bitpos mod 64) in *.
  assert (Hwi : 0 <= wi) by (unfold wi; apply Z.div_pos; lia).
  pose proof (Z.div_mod p 64 ltac:(lia)) as Hpdm.
  pose proof (Z.mod_pos_bound p 64 ltac:(lia)) as Hpt.
  assert (Hpj : 0 <= p / 64) by (apply Z.div_pos; lia).
  assert (Hwlen : wi < zlen w) by (unfold bitpos in *; nia).
  assert (Hnew : wbit (zset w wi (Z.lor (zget w wi) (shl64 v sh))) p
                 = wbit w p || ((p / 64 =? wi) && (bitpos <=? p)
                                && Z.testbit v (p - bitpos))).
  { rewrite wbit_zset by lia.
    destruct (Z.eqb_spec (p / 64) wi) as [E|E]; [|cbn; rewrite orb_false_r; reflexivity].
    unfold shl64. rewrite Z.lor_spec, testbit_u64, testbit_shiftl_full by lia.
    unfold wbit. rewrite E.
    destruct (Z.ltb_spec (p mod 64) 64); [|lia]. cbn [andb].
    destruct (Z.leb_spec sh (p mod 64)); destruct (Z.leb_spec bitpos p); try lia;
      cbn [andb]; [|reflexivity].
    do 2 f_equal. lia. }
  destruct (Z.gtb_spec (sh + B) 64) as [Hspan|Hnospan].
  - assert (Hwlen1 : wi + 1 < zlen w) by (unfold bitpos in *; nia).
    rewrite wbit_zset by (rewrite ?zlen_zset; lia).
    destruct (Z.eqb_spec (p / 64) (wi + 1)) as [E|E].
    + rewrite zget_zset by lia. destruct (Z.eqb_spec (wi + 1) wi); [lia|].
      unfold shr64. rewrite Z.lor_spec, Z.shiftr_spec by lia.
      unfold wbit. rewrite E.
      destruct (Z.leb_spec bitpos p); [|lia]. cbn [andb].
      do 2 f_equal. lia.
    + rewrite Hnew. f_equal.
      destruct (Z.eqb_spec (p / 64) wi) as [E'|E']; [reflexivity|]. cbn [andb].
      destruct (Z.leb_spec bitpos p); [|reflexivity]. cbn [andb].
      symmetry. apply Hbit. lia.
  - rewrite Hnew. f_equal.
    destruct (Z.eqb_spec (p / 64) wi) as [E'|E']; [reflexivity|]. cbn [andb].
    destruct (Z.leb_spec bitpos p); [|reflexivity]. cbn [andb].
    symmetry. apply Hbit. lia.
Qed.

(** ** One block *)

Lemma zseq_snoc (m : Z) : 0 <= m -> zseq 0 (m + 1) = zseq 0 m ++ [m].
Proof.
  intros Hm. rewrite zseq_app by lia. rewrite Z.add_0_l.
  rewrite (zseq_cons m 1), (zseq_nil (m + 1) (1 - 1)) by lia. reflexivity.
Qed.

Lemma wbit_zeros (k : nat) (p : Z) : wbit (repeat 0 k) p = false.
Proof.
  unfold wbit. rewrite zget_repeat. destruct (_ <? _)%nat; apply Z.testbit_0_l.
Qed.

Lemma pack_all_wbit (B Base : Z) (inp w0 : list Z) (m : nat) (p : Z) :
  1 <= B <= 64 ->
  fits B inp Base (Z.of_nat m) ->
  Z.of_nat m * B <= 64 * zlen w0 -> 0 <= p < 64 * zlen w0 ->
  wbit (pack_all B Base (Z.of_nat m) inp w0) p
  = wbit w0 p || field_bit B inp Base (Z.of_nat m) p.
Proof.
  intros HB. induction m as [|m IH]; intros Hfit Hlen Hp.
  - unfold pack_all, field_bit. cbn [Z.of_nat zseq Z.to_nat seq map fold_left].
    destruct (Z.ltb_spec p (0 * B)); [lia|]. cbn [andb]. rewrite orb_false_r.
    reflexivity.
  - unfold pack_all in *. replace (Z.of_nat (S m)) with (Z.of_nat m + 1) in * by lia.
    rewrite zseq_snoc by lia. rewrite fold_left_app. cbn [fold_left].
    assert (Hfit' : fits B inp Base (Z.of_nat m))
      by (intros i Hi; apply Hfit; lia).
    rewrite pack_one_wbit;
      [| lia | lia | apply Hfit; lia
       | fold (pack_all B Base (Z.of_nat m) inp w0); rewrite zlen_pack_all; lia
       | fold (pack_all B Base (Z.of_nat m) inp w0); rewrite zlen_pack_all; lia].
    rewrite IH by (first [assumption | nia]).
    rewrite <- orb_assoc. f_equal. unfold field_bit.
    destruct (Z.ltb_spec p (Z.of_nat m * B)) as [Hlow|Hhigh].
    + destruct (Z.leb_spec (Z.of_nat m * B) p); [lia|].
      destruct (Z.ltb_spec p ((Z.of_nat m + 1) * B)); [|lia].
      cbn [andb orb]. apply orb_false_r.
    + destruct (Z.leb_spec (Z.of_nat m * B) p); [|lia]. cbn [andb orb].
      destruct (Z.ltb_spec p ((Z.of_nat m + 1) * B)) as [Hin|Hout]; cbn [andb].
      * destruct (field_position p B (Z.of_nat m) ltac:(lia) ltac:(lia)) as (-> & ->).
        reflexivity.
      * apply testbit_range with B; [apply Hfit; lia|lia].
Qed.

Lemma sbit_flat_map_storeU64 (ws : list Z) (p : Z) :
  0 <= p < 64 * zlen ws -> sbit (flat_map storeU64 ws) p = wbit ws p.
Proof.
  revert p. induction ws as [|w ws IH]; intros p Hp; [cbn in Hp; lia|].
  rewrite zlen_cons in Hp. cbn [flat_map]. rewrite storeU64_le_bytes.
  destruct (Z.lt_ge_cases p 64) as [Hlt|Hge].
  - rewrite sbit_app_l by (rewrite zlen_le_bytes; lia).
    rewrite sbit_le_bytes by lia. unfold wbit.
    rewrite Z.div_small, Z.mod_small by lia. reflexivity.
  - rewrite sbit_app_r by (rewrite zlen_le_bytes; lia).
    rewrite zlen_le_bytes by lia. rewrite IH by lia. unfold wbit.
    rewrite zget_cons_S by (Z.div_mod_to_equations; lia).
    f_equal; [f_equal|]; Z.div_mod_to_equations; lia.
Qed.

Lemma bytes_flat_map_storeU64 (ws : list Z) : bytes (flat_map storeU64 ws).
Proof.
  induction ws as [|w ws IH]; [constructor|]. cbn [flat_map].
  apply bytes_app; [rewrite storeU64_le_bytes; apply bytes_le_bytes|exact IH].
Qed.

Lemma wbit_ztake (w : list Z) (k p : Z) :
  0 <= p < 64 * k -> wbit (ztake k w) p = wbit w p.
Proof.
  intros Hp. unfold wbit. rewrite zget_ztake by (Z.div_mod_to_equations; lia).
  reflexivity.
Qed.

Lemma pack_block_packs (B K Base : Z) (inp : list Z) :
  1 <= B <= 64 -> 1 <= K -> fits B inp Base K ->
  packs B inp Base K (pack_block B K Base inp).
Proof.
  intros HB HK Hfit.
  assert (Htb : 1 <= K * B) by nia.
  pose proof (zlen_pack_block B K Base inp Htb) as Hzlen.
  unfold packs. rewrite Hzlen.
  unfold pack_block in *. cbv zeta in *.
  set (tb := K * B) in *.
  set (wc := (tb + 63) / 64) in *.
  set (lastb := (tb + 7) / 8 - (wc - 1) * 8) in *.
  assert (Hwc : 1 <= wc) by (unfold wc; Z.div_mod_to_equations; lia).
  assert (Hlast : 1 <= lastb <= 8)
    by (unfold lastb, wc; Z.div_mod_to_equations; lia).
  split; [|split; [reflexivity|]].
  - apply bytes_app.
    + apply bytes_flat_map_storeU64.
    + destruct (Z.eqb_spec lastb 8).
      * rewrite storeU64_le_bytes. apply bytes_le_bytes.
      * rewrite store_partial_le_bytes by lia. apply bytes_le_bytes.
  - intros p Hp.
    set (w := pack_all B Base K inp (repeat 0 (Z.to_nat wc))).
    assert (Hwlen : zlen w = wc)
      by (unfold w; rewrite zlen_pack_all, zlen_repeat; lia).
    assert (Hw : forall q, 0 <= q < 64 * wc -> wbit w q = field_bit B inp Base K q).
    { intros q Hq. unfold w. rewrite <- (Z2Nat.id K) by lia.
      rewrite pack_all_wbit;
        [rewrite wbit_zeros; reflexivity | exact HB
        | rewrite Z2Nat.id by lia; exact Hfit
        | rewrite Z2Nat.id, zlen_repeat by lia; fold tb; unfold wc;
          Z.div_mod_to_equations; lia
        | rewrite zlen_repeat by lia; exact Hq]. }
    assert (Hfirst : zlen (flat_map storeU64 (ztake (wc - 1) w)) = 8 * (wc - 1)).
    { rewrite (zlen_flat_map_const storeU64 8) by apply zlen_storeU64.
      rewrite zlen_ztake by lia. reflexivity. }
    assert (Hpw : p < 64 * wc) by (unfold lastb in *; lia).
    rewrite <- Hw by lia.
    destruct (Z.lt_ge_cases p (64 * (wc - 1))) as [Hlow|Hhigh].
    + rewrite sbit_app_l by lia.
      rewrite sbit_flat_map_storeU64 by (rewrite zlen_ztake; lia).
      apply wbit_ztake. lia.
    + rewrite sbit_app_r by lia. rewrite Hfirst.
      assert (Hlastbit : forall k, 0 <= k -> p - 8 * (8 * (wc - 1)) < 8 * k ->
                sbit (le_bytes k (zget w (wc - 1))) (p - 8 * (8 * (wc - 1)))
                = wbit w p).
      { intros k Hk Hpk. rewrite sbit_le_bytes by lia. unfold wbit.
        destruct (word_position p (wc - 1) (p - 64 * (wc - 1)) ltac:(lia) ltac:(lia))
          as (-> & ->).
        f_equal. lia. }
      destruct (Z.eqb_spec lastb 8).
      * rewrite storeU64_le_bytes. apply Hlastbit; lia.
      * rewrite store_partial_le_bytes by lia. apply Hlastbit; unfold lastb in *; lia.
Qed.

(** ** Concatenation of byte-aligned pieces *)

Lemma packs_nil (B : Z) (vals : list Z) (Base : Z) : packs B vals Base 0 [].
Proof.
  split; [constructor|]. split; [reflexivity|]. intros p Hp. cbn in Hp. lia.
Qed.

Lemma packs_app (B : Z) (vals : list Z) (Base k m : Z) (out1 out2 : list Z) :
  1 <= B -> 0 <= k -> 0 <= m -> (k * B) mod 8 = 0 ->
  packs B vals Base k out1 -> packs B vals (Base + k) m out2 ->
  packs B vals Base (k + m) (out1 ++ out2).
Proof.
  intros HB Hk Hm Hal (Hb1 & Hl1 & H1) (Hb2 & Hl2 & H2).
  assert (Hkb : 0 <= k * B) by nia. assert (Hmb : 0 <= m * B) by nia.
  assert (Hl1' : 8 * zlen out1 = k * B)
    by (rewrite Hl1; Z.div_mod_to_equations; lia).
  assert (Hlen : zlen (out1 ++ out2) = ((k + m) * B + 7) / 8).
  { rewrite zlen_app, Hl2.
    replace ((k + m) * B + 7) with (m * B + 7 + zlen out1 * 8) by lia.
    rewrite Z.div_add by lia. lia. }
  split; [apply bytes_app; assumption|]. split; [exact Hlen|].
  intros p Hp. rewrite zlen_app in Hp. unfold field_bit.
  destruct (Z.lt_ge_cases p (k * B)) as [Hlow|Hhigh].
  - rewrite sbit_app_l by lia. rewrite H1 by lia. unfold field_bit.
    destruct (Z.ltb_spec p (k * B)); [|lia].
    destruct (Z.ltb_spec p ((k + m) * B)); [reflexivity|lia].
  - rewrite sbit_app_r by lia. rewrite H2 by lia. unfold field_bit.
    rewrite Hl1'.
    replace (p - k * B) with (p + (- k) * B) by lia.
    rewrite Z.div_add, Z.mod_add by lia.
    replace (Base + k + (p / B + - k)) with (Base + p / B) by lia.
    f_equal.
    destruct (Z.ltb_spec (p + - k * B) (m * B));
      destruct (Z.ltb_spec p ((k + m) * B)); lia || reflexivity.
Qed.

Lemma packs_zdrop (B : Z) (vals : list Z) (d Base n : Z) (out : list Z) :
  1 <= B -> 0 <= d -> 0 <= Base ->
  packs B (zdrop d vals) Base n out -> packs B vals (d + Base) n out.
Proof.
  intros HB Hd HBase (Hb & Hl & H). split; [exact Hb|]. split; [exact Hl|].
  intros p Hp. rewrite H by exact Hp. unfold field_bit.
  rewrite zget_zdrop by (first [lia | pose proof (Z.div_pos p B); lia]).
  do 3 f_equal. lia.
Qed.

Lemma fits_zdrop (B : Z) (vals : list Z) (d Base n : Z) :
  0 <= d -> 0 <= Base ->
  fits B vals (d + Base) n -> fits B (zdrop d vals) Base n.
Proof.
  intros Hd HBase H i Hi. rewrite zget_zdrop by lia. apply H. lia.
Qed.

(** ** The template recursion over blocks *)

Lemma blocks_aligned_table_ok : blocks_aligned_table = true.
Proof. vm_compute. reflexivity. Qed.

Lemma blocks_aligned_spec (B N : Z) :
  1 <= B <= 32 -> 1 <= N <= 32 -> blocks_aligned (Z.to_nat N) B N = true.
Proof.
  intros HB HN. pose proof blocks_aligned_table_ok as T.
  unfold blocks_aligned_table in T. rewrite forallb_forall in T.
  specialize (T B (In_zseq 1 32 B ltac:(lia) ltac:(lia))).
  rewrite forallb_forall in T.
  exact (T N (In_zseq 1 32 N ltac:(lia) ltac:(lia))).
Qed.

Lemma pack_blocks_packs (fuel : nat) (B N Base : Z) (inp : list Z) :
  1 <= B <= 64 -> 0 <= N -> blocks_aligned fuel B N = true ->
  fits B inp Base N ->
  packs B inp Base N (pack_blocks fuel B N Base inp).
Proof.
  intros HB. revert N Base.
  induction fuel as [|fuel IH]; intros N Base HN Hal Hfit;
    cbn [blocks_aligned pack_blocks] in *.
  - apply Z.eqb_eq in Hal. subst N. apply packs_nil.
  - destruct (Z.eqb_spec N 0) as [->|Hne]; [apply packs_nil|].
    cbv zeta in *. set (block := choose_block_size B N) in *.
    apply andb_prop in Hal. destruct Hal as (Hal & Hrest).
    apply andb_prop in Hal. destruct Hal as (H1 & H2).
    apply Z.leb_le in H1, H2.
    assert (Hfirst : packs B inp Base block (pack_block B block Base inp))
      by (apply pack_block_packs; [lia|lia|intros i Hi; apply Hfit; lia]).
    destruct (Z.eqb_spec N block) as [E|E].
    + rewrite E. exact Hfirst.
    + apply andb_prop in Hrest. destruct Hrest as (Hmod & Hrec).
      apply Z.eqb_eq in Hmod.
      replace N with (block + (N - block)) at 1 by lia.
      apply packs_app; [lia|lia|lia|exact Hmod|exact Hfirst|].
      apply IH; [lia|exact Hrec|]. intros i Hi. apply Hfit. lia.
Qed.

(** ** The widths 8, 16 and 32 *)

Lemma packs_units (k : Z) (vals : list Z) :
  1 <= k ->
  let out := flat_map (le_bytes k) vals in
  bytes out /\ zlen out = k * zlen vals /\
  forall p, 0 <= p < 8 * k * zlen vals ->
    sbit out p = Z.testbit (zget vals (p / (8 * k))) (p mod (8 * k)).
Proof.
  intros Hk. cbv zeta. induction vals as [|v vals (IHb & IHl & IH)].
  - split; [constructor|]. split; [cbn; lia|]. intros p Hp. cbn in Hp. lia.
  - cbn [flat_map]. split; [apply bytes_app; [apply bytes_le_bytes|exact IHb]|].
    split; [rewrite zlen_app, zlen_le_bytes, IHl, zlen_cons by lia; lia|].
    intros p Hp. rewrite zlen_cons in Hp.
    destruct (Z.lt_ge_cases p (8 * k)) as [Hlt|Hge].
    + rewrite sbit_app_l by (rewrite zlen_le_bytes; lia).
      rewrite sbit_le_bytes by lia.
      rewrite Z.div_small, Z.mod_small by lia. reflexivity.
    + rewrite sbit_app_r by (rewrite zlen_le_bytes; lia).
      rewrite zlen_le_bytes by lia. rewrite IH by nia.
      replace (p - 8 * k) with (p + (-1) * (8 * k)) by lia.
      rewrite Z.div_add, Z.mod_add by lia.
      rewrite (zget_cons_S v vals (p / (8 * k)))
        by (assert (1 <= p / (8 * k)) by (apply Z.div_le_lower_bound; lia); lia).
      do 2 f_equal; lia.
Qed.

Lemma packs_of_units (k N : Z) (inp out : list Z) :
  1 <= k -> 0 <= N <= zlen inp ->
  out = flat_map (le_bytes k) (ztake N inp) ->
  packs (8 * k) inp 0 N out.
Proof.
  intros Hk HN ->. destruct (packs_units k (ztake N inp) Hk) as (Hb & Hl & H).
  rewrite zlen_ztake in * by lia.
  split; [exact Hb|]. split.
  - rewrite Hl. replace (N * (8 * k) + 7) with (7 + (k * N) * 8) by lia.
    rewrite Z.div_add by lia. reflexivity.
  - intros p Hp. rewrite Hl in Hp. rewrite H by lia. unfold field_bit.
    destruct (Z.ltb_spec p (N * (8 * k))); [|lia]. cbn [andb].
    rewrite zget_ztake; [reflexivity|].
    split; [apply Z.div_pos; lia|apply Z.div_lt_upper_bound; lia].
Qed.

Lemma flat_map_ext_all {A} (f g : A -> list Z) (l : list A) :
  (forall x, f x = g x) -> flat_map f l = flat_map g l.
Proof.
  intros H. induction l as [|a l IH]; [reflexivity|]. cbn [flat_map].
  rewrite H, IH. reflexivity.
Qed.

Lemma le_bytes_2_u16 (v : Z) : storeU16 (u16 v) = le_bytes 2 v.
Proof.
  rewrite storeU16_le_bytes.
  cbv [le_bytes zseq map seq Z.to_nat Pos.to_nat Pos.iter_op Nat.add Z.of_nat
       Pos.of_succ_nat Pos.succ].
  rewrite !u8_u16_shiftr by lia. reflexivity.
Qed.

Lemma map_u8_flat_map (l : list Z) : map u8 l = flat_map (le_bytes 1) l.
Proof.
  induction l as [|a l IH]; [reflexivity|]. cbn [map flat_map]. rewrite IH.
  reflexivity.
Qed.

(** ** [pack_n_b], [bitpack_b] and [bitpack32Scalar] *)

Lemma pack_n_b_packs (B N : Z) (inp : list Z) :
  1 <= B <= 32 -> 1 <= N <= 32 -> N <= zlen inp -> fits B inp 0 N ->
  packs B inp 0 N (pack_n_b B N inp).
Proof.
  intros HB HN Hlen Hfit. unfold pack_n_b.
  destruct (Z.eqb_spec B 32) as [->|].
  - apply (packs_of_units 4); [lia|lia|]. unfold copyU32ArrayToLe.
    apply flat_map_ext_all. intros x. apply storeU32_le_bytes.
  - destruct (Z.eqb_spec B 16) as [->|].
    + apply (packs_of_units 2); [lia|lia|].
      apply flat_map_ext_all. intros x. apply le_bytes_2_u16.
    + destruct (Z.eqb_spec B 8) as [->|].
      * apply (packs_of_units 1); [lia|lia|]. apply map_u8_flat_map.
      * apply pack_blocks_packs; [lia|lia|apply blocks_aligned_spec; lia|exact Hfit].
Qed.

Lemma bitpack_b_full_packs (k : nat) (B : Z) (inp : list Z) :
  1 <= B <= 32 -> 32 * Z.of_nat k <= zlen inp ->
  fits B inp 0 (32 * Z.of_nat k) ->
  packs B inp 0 (32 * Z.of_nat k) (bitpack_b_full k B inp).
Proof.
  intros HB. revert inp. induction k as [|k IH]; intros inp Hlen Hfit.
  - apply packs_nil.
  - cbn [bitpack_b_full].
    replace (32 * Z.of_nat (S k)) with (32 + 32 * Z.of_nat k) in * by lia.
    apply packs_app; [lia|lia|lia| | |].
    + replace (32 * B) with (4 * B * 8) by lia. apply Z.mod_mul. lia.
    + apply pack_n_b_packs; [lia|lia|lia|]. intros i Hi. apply Hfit. lia.
    + apply (packs_zdrop B inp 32 0); [lia|lia|lia|]. apply IH.
      * rewrite zlen_zdrop; lia.
      * apply fits_zdrop; [lia|lia|]. intros i Hi. apply Hfit. lia.
Qed.

Lemma bitpack_b_packs (B n : Z) (inp : list Z) :
  1 <= B <= 32 -> 0 <= n <= zlen inp -> fits B inp 0 n ->
  packs B inp 0 n (bitpack_b B inp n).
Proof.
  intros HB Hn Hfit. unfold bitpack_b. cbv zeta.
  rewrite land_lnot_31, land_31 by lia.
  replace (32 * (n / 32) / 32) with (n / 32)
    by (rewrite Z.mul_comm, Z.div_mul; lia).
  pose proof (Z.div_mod n 32 ltac:(lia)) as Hdm.
  pose proof (Z.mod_pos_bound n 32 ltac:(lia)) as Hm.
  assert (Hq : 0 <= n / 32) by (apply Z.div_pos; lia).
  assert (Hfull : packs B inp 0 (32 * (n / 32))
                    (bitpack_b_full (Z.to_nat (n / 32)) B inp)).
  { rewrite <- (Z2Nat.id (n / 32)) at 1 by lia.
    apply bitpack_b_full_packs; [lia|rewrite Z2Nat.id; lia|].
    rewrite Z2Nat.id by lia. intros i Hi. apply Hfit. lia. }
  destruct (Z.eqb_spec (n mod 32) 0) as [E|E].
  - replace n with (32 * (n / 32)) at 1 by lia. exact Hfull.
  - replace n with (32 * (n / 32) + n mod 32) at 1 by lia.
    apply packs_app; [lia|lia|lia| |exact Hfull|].
    + replace (32 * (n / 32) * B) with (4 * (n / 32) * B * 8) by lia.
      apply Z.mod_mul. lia.
    + rewrite Z.add_0_l.
      replace (32 * (n / 32)) with (32 * (n / 32) + 0) at 1 by lia.
      apply (packs_zdrop B inp (32 * (n / 32)) 0); [lia|lia|lia|].
      apply pack_n_b_packs; [lia|lia|rewrite zlen_zdrop; lia|].
      apply fits_zdrop; [lia|lia|]. intros i Hi. apply Hfit. lia.
Qed.

Lemma bitpack32Scalar_packs (inp : list Z) (n b : Z) :
  1 <= b <= 32 -> 0 <= n <= zlen inp -> fits b inp 0 n ->
  packs b inp 0 n (bitpack32Scalar inp n b).
Proof.
  intros Hb Hn Hfit. unfold bitpack32Scalar.
  destruct (Z.eqb_spec b 0); [lia|].
  destruct (Z.eqb_spec b 32) as [->|].
  - apply (packs_of_units 4); [lia|lia|]. unfold copyU32ArrayToLe.
    apply flat_map_ext_all. intros x. apply storeU32_le_bytes.
  - apply bitpack_b_packs; [lia|lia|exact Hfit].
Qed.

(** The format of the horizontal layout.  [bitpack32Scalar] writes [n]
    values that fit in [b] bits, [1 <= b <= 32], as one little-endian bit
    stream of [ceil (n * b / 8)] bytes: the bit [p] of the output (the bit
    [p mod 8] of the byte [p / 8]) is the bit [p mod b] of the value
    [in[p / b]], and the bits after the last value are 0. *)
Theorem bitpack32Scalar_bit_stream (inp : list Z) (n b : Z)
    (Hb : 1 <= b <= 32) (Hn : 0 <= n <= zlen inp)
    (Hfit : forall i, 0 <= i < n -> 0 <= zget inp i < 2 ^ b) :
  let out := bitpack32Scalar inp n b in
  bytes out /\ zlen out = (n * b + 7) / 8 /\
  forall p, 0 <= p < 8 * zlen out ->
    Z.testbit (zget out (p / 8)) (p mod 8)
    = (p <? n * b) && Z.testbit (zget inp (p / b)) (p mod b).
Proof.
  apply (bitpack32Scalar_packs inp n b Hb Hn).
  intros i Hi. apply Hfit. lia.
Qed.

Lemma bitpack32Scalar_bit_stream_witness :
  zlen (bitpack32Scalar [5; 1; 7] 3 3) = (3 * 3 + 7) / 8.
Proof.
  assert (Hfit : forall i, 0 <= i < 3 -> 0 <= zget [5; 1; 7] i < 2 ^ 3).
  { intros i Hi. assert (C : i = 0 \/ i = 1 \/ i = 2) by lia.
    destruct C as [->|[->| ->]]; vm_compute; (split; [discriminate|reflexivity]). }
  assert (Hn : 0 <= 3 <= zlen [5; 1; 7]) by (unfold zlen; simpl; lia).
  exact (proj1 (proj2 (bitpack32Scalar_bit_stream [5; 1; 7] 3 3
                         ltac:(lia) Hn Hfit))).
Defined.

(** * The horizontal layout: what [bitunpack32Scalar] reads *)

(** ** The words of a block *)

Lemma zget_load_words (k : nat) (ip : list Z) (j : Z) :
  0 <= j < Z.of_nat k ->
  zget (load_words k ip) j = loadU64 (zdrop (8 * j) ip).
Proof.
  revert ip j. induction k as [|k IH]; intros ip j Hj; [lia|].
  cbn [load_words]. destruct (Z.eq_dec j 0) as [->|Hne].
  - reflexivity.
  - rewrite zget_cons_S by lia. rewrite IH by lia.
    rewrite zdrop_zdrop by lia. do 2 f_equal. lia.
Qed.

Lemma zlen_load_words (k : nat) (ip : list Z) : zlen (load_words k ip) = Z.of_nat k.
Proof.
  revert ip. induction k as [|k IH]; intros ip; [reflexivity|].
  cbn [load_words]. rewrite zlen_cons, IH. lia.
Qed.

Lemma loaded_words_bits (tb : Z) (inp : list Z) (j t : Z) :
  bytes inp -> 1 <= tb ->
  let total_bytes := (tb + 7) / 8 in
  let word_count := (tb + 63) / 64 in
  let last_bytes := total_bytes - (word_count - 1) * 8 in
  let ip := zdrop (8 * (word_count - 1)) inp in
  let w := load_words (Z.to_nat (word_count - 1)) inp ++
           [if last_bytes =? 8 then loadU64 ip else load_partial last_bytes ip] in
  0 <= j < word_count -> 0 <= t ->
  Z.testbit (zget w j) t
  = (t <? 64) && (64 * j + t <? 8 * total_bytes) && sbit inp (64 * j + t).
Proof.
  intros Hb Htb. cbv zeta.
  set (wc := (tb + 63) / 64). set (lastb := (tb + 7) / 8 - (wc - 1) * 8).
  assert (Hwc : 1 <= wc) by (unfold wc; Z.div_mod_to_equations; lia).
  assert (Hlast : 1 <= lastb <= 8)
    by (unfold lastb, wc; Z.div_mod_to_equations; lia).
  intros Hj Ht.
  destruct (Z.lt_ge_cases j (wc - 1)) as [Hlow|Hhigh].
  - rewrite zget_app_l by (rewrite zlen_load_words; lia).
    rewrite zget_load_words by lia.
    rewrite testbit_loadU64_sbit by (first [apply bytes_zdrop; exact Hb | lia]).
    rewrite sbit_zdrop by lia.
    destruct (Z.ltb_spec t 64); [|reflexivity]. cbn [andb].
    destruct (Z.ltb_spec (64 * j + t) (8 * ((tb + 7) / 8)));
      [|unfold lastb in *; lia].
    cbn [andb]. f_equal. lia.
  - rewrite zget_app_r by (rewrite zlen_load_words; lia).
    rewrite zlen_load_words. replace (j - Z.of_nat (Z.to_nat (wc - 1))) with 0 by lia.
    rewrite zget_cons_0.
    assert (Hbd : bytes (zdrop (8 * (wc - 1)) inp)) by (apply bytes_zdrop; exact Hb).
    assert (E : j = wc - 1) by lia. subst j.
    destruct (Z.eqb_spec lastb 8) as [E8|E8].
    + rewrite testbit_loadU64_sbit by (first [assumption | lia]).
      rewrite sbit_zdrop by lia.
      destruct (Z.ltb_spec t 64); [|reflexivity]. cbn [andb].
      destruct (Z.ltb_spec (64 * (wc - 1) + t) (8 * ((tb + 7) / 8)));
        [|unfold lastb in *; lia].
      cbn [andb]. f_equal. lia.
    + rewrite testbit_load_partial by (first [assumption | lia]).
      rewrite sbit_zdrop by lia.
      destruct (Z.ltb_spec t (8 * lastb));
        destruct (Z.ltb_spec t 64);
        destruct (Z.ltb_spec (64 * (wc - 1) + t) (8 * ((tb + 7) / 8)));
        unfold lastb in *; try lia; cbn [andb]; try reflexivity.
      f_equal. lia.
Qed.

(** ** One value *)

Lemma unpack_mask (B : Z) :
  1 <= B <= 32 -> u32 (u64 (Z.shiftl 1 B) - 1) = Z.ones B.
Proof.
  intros HB. rewrite Z.shiftl_1_l, Z.ones_equiv.
  assert (0 < 2 ^ B <= 2 ^ 32)
    by (split; [apply Z.pow_pos_nonneg; lia|apply Z.pow_le_mono_r; lia]).
  change (2 ^ 32) with 4294967296 in *.
  rewrite u64_small by lia. apply u32_small. lia.
Qed.

Lemma unpack_emit_one_bits (B Base I : Z) (w : list Z) (acc r : Z)
    (wordbit : Z -> bool) :
  1 <= B <= 32 -> 0 <= I -> 0 <= r ->
  (forall j t, 0 <= j <= (I * B + B - 1) / 64 -> 0 <= t ->
     Z.testbit (zget w j) t = (t <? 64) && wordbit (64 * j + t)) ->
  Z.testbit (fst (unpack_emit_one false B Base I w acc)) r
  = (r <? B) && wordbit (I * B + r).
Proof.
  intros HB HI Hr Hw. unfold unpack_emit_one. cbv zeta. cbn [fst].
  rewrite unpack_mask by exact HB.
  rewrite Z.land_spec, Z.testbit_ones_nonneg, testbit_u32 by lia.
  rewrite andb_comm.
  destruct (Z.ltb_spec r B) as [HrB|]; [|reflexivity]. cbn [andb].
  destruct (Z.ltb_spec r 32); [|lia]. cbn [andb].
  set (bitpos := I * B).
  assert (Hbp : 0 <= bitpos) by (unfold bitpos; nia).
  pose proof (Z.div_mod bitpos 64 ltac:(lia)) as Hdm.
  pose proof (Z.mod_pos_bound bitpos 64 ltac:(lia)) as Hsh.
  set (wi := bitpos / 64) in *. set (sh := bitpos mod 64) in *.
  assert (Hwi : 0 <= wi) by (unfold wi; apply Z.div_pos; lia).
  assert (Hlastw : (bitpos + B - 1) / 64 = if sh + B >? 64 then wi + 1 else wi).
  { destruct (Z.gtb_spec (sh + B) 64).
    - symmetry. apply (Z.div_unique _ 64 (wi + 1) (sh + B - 1 - 64)); lia.
    - symmetry. apply (Z.div_unique _ 64 wi (sh + B - 1)); lia. }
  fold bitpos in Hw. rewrite Hlastw in Hw.
  unfold shr64, shl64. revert Hw.
  destruct (Z.gtb_spec (sh + B) 64) as [Hspan|Hnospan]; intros Hw.
  - rewrite Z.lor_spec, Z.shiftr_spec, testbit_u64, testbit_shiftl_full by lia.
    rewrite !Hw by lia.
    destruct (Z.ltb_spec (r + sh) 64) as [Hin|Hout].
    + destruct (Z.leb_spec (64 - sh) r); [lia|].
      rewrite andb_false_r, orb_false_r. cbn [andb]. f_equal. lia.
    + destruct (Z.leb_spec (64 - sh) r); [|lia].
      destruct (Z.ltb_spec r 64); [|lia].
      cbn [andb orb]. rewrite Hw by lia.
      destruct (Z.ltb_spec (r - (64 - sh)) 64); [|lia].
      cbn [andb orb]. f_equal. lia.
  - rewrite Z.shiftr_spec by lia. rewrite Hw by lia.
    destruct (Z.ltb_spec (r + sh) 64); [|lia]. cbn [andb]. f_equal. lia.
Qed.

Lemma unpack_emit_one_acc (B Base I : Z) (w : list Z) (acc : Z) :
  snd (unpack_emit_one false B Base I w acc) = acc.
Proof. reflexivity. Qed.

Lemma unpack_emit_from_false (B Base : Z) (w Is : list Z) (acc : Z) :
  unpack_emit_from false B Base w Is acc
  = (map (fun I => fst (unpack_emit_one false B Base I w acc)) Is, acc).
Proof.
  induction Is as [|I Is IH]; [reflexivity|].
  cbn [unpack_emit_from map].
  change (unpack_emit_one false B Base I w acc)
    with (fst (unpack_emit_one false B Base I w acc), acc).
  cbv iota. rewrite IH. reflexivity.
Qed.

(** ** One block *)

Lemma unpack_block_unpacks (B K Base : Z) (inp : list Z) (acc : Z) :
  1 <= B <= 32 -> 1 <= K -> bytes inp ->
  let '(vals, acc', used) := unpack_block false B K Base inp acc in
  unpacks B inp 0 K vals /\ acc' = acc /\ used = (K * B + 7) / 8.
Proof.
  intros HB HK Hb. unfold unpack_block. cbv zeta.
  unfold unpack_emit. rewrite unpack_emit_from_false.
  split; [|split; reflexivity].
  split; [rewrite zlen_map, zlen_zseq; lia|].
  intros i r Hi Hr. rewrite zget_map_zseq by lia.
  set (tb := K * B). assert (Htb : 1 <= tb) by (unfold tb; nia).
  rewrite (unpack_emit_one_bits B Base i _ acc r
             (fun p => (p <? 8 * ((tb + 7) / 8)) && sbit inp p));
    [| exact HB | lia | lia |].
  - destruct (Z.ltb_spec r B); [|reflexivity]. cbn [andb].
    destruct (Z.ltb_spec (i * B + r) (8 * ((tb + 7) / 8))) as [|Hge].
    + reflexivity.
    + exfalso. assert (i * B + r < tb) by (unfold tb; nia).
      revert Hge. Z.div_mod_to_equations. lia.
  - intros j t Hj Ht.
    rewrite (loaded_words_bits tb inp j t Hb Htb); [symmetry; apply andb_assoc| |exact Ht].
    split; [lia|].
    apply Z.le_lt_trans with ((i * B + B - 1) / 64); [lia|].
    apply Z.div_lt_upper_bound; [lia|].
    assert (i * B + B <= tb) by (unfold tb; nia).
    Z.div_mod_to_equations. lia.
Qed.

(** ** Concatenation *)

Lemma unpacks_nil (B : Z) (inp : list Z) (off : Z) : unpacks B inp off 0 [].
Proof. split; [reflexivity|]. intros i r Hi. lia. Qed.

Lemma unpacks_app (B : Z) (inp : list Z) (off k m : Z) (v1 v2 : list Z) :
  0 <= k -> 0 <= m ->
  unpacks B inp off k v1 -> unpacks B inp (off + k * B) m v2 ->
  unpacks B inp off (k + m) (v1 ++ v2).
Proof.
  intros Hk Hm (Hl1 & H1) (Hl2 & H2).
  split; [rewrite zlen_app; lia|].
  intros i r Hi Hr. destruct (Z.lt_ge_cases i k) as [Hlt|Hge].
  - rewrite zget_app_l by lia. apply H1; lia.
  - rewrite zget_app_r by lia. rewrite Hl1, H2 by lia.
    do 2 f_equal. lia.
Qed.

Lemma unpacks_zdrop (B : Z) (inp : list Z) (d off n : Z) (vals : list Z) :
  0 <= d -> 0 <= off -> 0 <= B ->
  unpacks B (zdrop d inp) off n vals -> unpacks B inp (8 * d + off) n vals.
Proof.
  intros Hd Hoff HB (Hl & H). split; [exact Hl|].
  intros i r Hi Hr. rewrite H by assumption.
  rewrite sbit_zdrop by nia. do 2 f_equal. lia.
Qed.

(** ** The template recursion over blocks *)

Lemma unpack_blocks_unpacks (fuel : nat) (B N Base : Z) (inp : list Z) (acc : Z) :
  1 <= B <= 32 -> 0 <= N -> blocks_aligned fuel B N = true -> bytes inp ->
  let '(vals, used) := unpack_blocks fuel false B N Base inp acc in
  unpacks B inp 0 N vals /\ used = (N * B + 7) / 8.
Proof.
  intros HB. revert N Base inp.
  induction fuel as [|fuel IH]; intros N Base inp HN Hal Hb;
    cbn [blocks_aligned unpack_blocks] in *.
  - apply Z.eqb_eq in Hal. subst N. split; [apply unpacks_nil|reflexivity].
  - destruct (Z.eqb_spec N 0) as [->|Hne]; [split; [apply unpacks_nil|reflexivity]|].
    cbv zeta in *. set (block := choose_block_size B N) in *.
    apply andb_prop in Hal. destruct Hal as (Hal & Hrest).
    apply andb_prop in Hal. destruct Hal as (H1 & H2).
    apply Z.leb_le in H1, H2.
    pose proof (unpack_block_unpacks B block Base inp acc HB H1 Hb) as Hfirst.
    destruct (unpack_block false B block Base inp acc) as [[v1 acc1] used1].
    destruct Hfirst as (Hu1 & -> & ->).
    destruct (Z.eqb_spec N block) as [E|E].
    + rewrite E. split; [exact Hu1|reflexivity].
    + apply andb_prop in Hrest. destruct Hrest as (Hmod & Hrec).
      apply Z.eqb_eq in Hmod.
      assert (Hbytes : 8 * ((block * B + 7) / 8) = block * B)
        by (revert Hmod; Z.div_mod_to_equations; lia).
      specialize (IH (N - block) (Base + block)
                     (zdrop ((block * B + 7) / 8) inp) ltac:(lia) Hrec
                     (bytes_zdrop _ _ Hb)).
      destruct (unpack_blocks fuel false B (N - block) (Base + block)
                  (zdrop ((block * B + 7) / 8) inp) acc) as [v2 used2].
      destruct IH as (Hu2 & ->). split.
      * replace N with (block + (N - block)) by lia.
        apply unpacks_app; [lia|lia|exact Hu1|].
        rewrite Z.add_0_l, <- Hbytes.
        replace (8 * ((block * B + 7) / 8)) with (8 * ((block * B + 7) / 8) + 0) by lia.
        apply unpacks_zdrop; [|lia|lia|exact Hu2].
        apply Z.div_pos; nia.
      * replace (N * B + 7) with ((N - block) * B + 7 + ((block * B + 7) / 8) * 8) by lia.
        rewrite Z.div_add by lia. lia.
Qed.

(** ** The widths 8, 16 and 32 *)

Lemma unpack_aligned_unpacks (width : Z) (k : nat) (i : Z) (ip : list Z) (start : Z) :
  width = 1 \/ width = 2 \/ width = 4 -> bytes ip ->
  unpacks (8 * width) ip 0 (Z.of_nat k)
    (unpack_aligned false width k i ip start).
Proof.
  intros Hw. revert i ip. induction k as [|k IH]; intros i ip Hb.
  - apply unpacks_nil.
  - cbn [unpack_aligned]. replace (Z.of_nat (S k)) with (1 + Z.of_nat k) by lia.
    change (?v :: ?l) with ([v] ++ l).
    apply unpacks_app; [lia|lia| |].
    + split; [reflexivity|]. intros j r Hj Hr. replace j with 0 by lia.
      rewrite zget_cons_0. replace (0 + 0 * (8 * width) + r) with r by lia.
      destruct Hw as [->|[->| ->]]; cbn [Z.eqb Pos.eqb Z.mul Pos.mul].
      * apply testbit_byte_sbit; assumption.
      * apply testbit_loadU16_sbit; assumption.
      * apply testbit_loadU32_sbit; assumption.
    + rewrite Z.add_0_l, Z.mul_1_l.
      replace (8 * width) with (8 * width + 0) at 2 by lia.
      apply unpacks_zdrop; [lia|lia|lia|]. apply IH. apply bytes_zdrop. exact Hb.
Qed.

(** ** [unpack_n_b], [bitunpack_b] and the dispatch *)

Lemma unpack_n_b_unpacks (B N : Z) (inp : list Z) (start : Z) :
  1 <= B <= 32 -> 1 <= N <= 32 -> bytes inp ->
  let '(vals, used) := unpack_n_b false B N inp start in
  unpacks B inp 0 N vals /\ used = (N * B + 7) / 8.
Proof.
  intros HB HN Hb. unfold unpack_n_b.
  destruct (Z.eqb_spec B 32) as [->|].
  - split.
    + rewrite <- (Z2Nat.id N) at 1 by lia.
      apply (unpack_aligned_unpacks 4); [auto|exact Hb].
    + Z.div_mod_to_equations. lia.
  - destruct (Z.eqb_spec B 16) as [->|].
    + split.
      * rewrite <- (Z2Nat.id N) at 1 by lia.
        apply (unpack_aligned_unpacks 2); [auto|exact Hb].
      * Z.div_mod_to_equations. lia.
    + destruct (Z.eqb_spec B 8) as [->|].
      * split.
        -- rewrite <- (Z2Nat.id N) at 1 by lia.
           apply (unpack_aligned_unpacks 1); [auto|exact Hb].
        -- Z.div_mod_to_equations. lia.
      * apply unpack_blocks_unpacks; [lia|lia|apply blocks_aligned_spec; lia|exact Hb].
Qed.

Lemma bitunpack_b_full_unpacks (k : nat) (B : Z) (inp : list Z) (start : Z) :
  1 <= B <= 32 -> bytes inp ->
  let '(vals, used, start') := bitunpack_b_full k false B inp start in
  unpacks B inp 0 (32 * Z.of_nat k) vals /\ used = 4 * B * Z.of_nat k /\
  start' = start.
Proof.
  intros HB. revert inp. induction k as [|k IH]; intros inp Hb.
  - cbn [bitunpack_b_full]. split; [apply unpacks_nil|]. split; [lia|reflexivity].
  - cbn [bitunpack_b_full]. cbv beta iota.
    pose proof (unpack_n_b_unpacks B 32 inp 0 HB ltac:(lia) Hb) as H1.
    destruct (unpack_n_b false B 32 inp 0) as [v1 used1].
    destruct H1 as (Hu1 & Hused1).
    assert (E1 : used1 = 4 * B)
      by (rewrite Hused1; replace (32 * B + 7) with (7 + (4 * B) * 8) by lia;
          rewrite Z.div_add by lia; reflexivity).
    clear Hused1. subst used1.
    specialize (IH (zdrop (4 * B) inp) (bytes_zdrop _ _ Hb)).
    destruct (bitunpack_b_full k false B (zdrop (4 * B) inp) start)
      as [[v2 used2] start2].
    destruct IH as (Hu2 & -> & ->). cbv beta iota.
    split; [|split; [lia|reflexivity]].
    replace (32 * Z.of_nat (S k)) with (32 + 32 * Z.of_nat k) by lia.
    apply unpacks_app; [lia|lia|exact Hu1|].
    replace (0 + 32 * B) with (8 * (4 * B) + 0) by lia.
    apply unpacks_zdrop; [lia|lia|lia|exact Hu2].
Qed.

Lemma bitunpack_b_unpacks (B n : Z) (inp : list Z) (start : Z) :
  1 <= B <= 32 -> 0 <= n -> bytes inp ->
  let '(vals, used) := bitunpack_b false B inp n start in
  unpacks B inp 0 n vals /\ used = (n * B + 7) / 8.
Proof.
  intros HB Hn Hb. unfold bitunpack_b. cbv zeta.
  rewrite land_lnot_31, land_31 by lia.
  replace (32 * (n / 32) / 32) with (n / 32)
    by (rewrite Z.mul_comm, Z.div_mul; lia).
  pose proof (Z.div_mod n 32 ltac:(lia)) as Hdm.
  pose proof (Z.mod_pos_bound n 32 ltac:(lia)) as Hm.
  assert (Hq : 0 <= n / 32) by (apply Z.div_pos; lia).
  pose proof (bitunpack_b_full_unpacks (Z.to_nat (n / 32)) B inp start HB Hb) as Hfull.
  destruct (bitunpack_b_full (Z.to_nat (n / 32)) false B inp start)
    as [[v1 used1] start1].
  rewrite Z2Nat.id in Hfull by lia. destruct Hfull as (Hu1 & -> & ->).
  cbv beta iota.
  assert (Hsplit : (n * B + 7) / 8 = 4 * B * (n / 32) + (n mod 32 * B + 7) / 8).
  { replace (n * B + 7) with (n mod 32 * B + 7 + (4 * B * (n / 32)) * 8) by nia.
    rewrite Z.div_add by lia. lia. }
  destruct (Z.eqb_spec (n mod 32) 0) as [E|E]; cbv beta iota.
  - split.
    + replace n with (32 * (n / 32)) at 1 by lia. exact Hu1.
    + rewrite Hsplit, E. change ((0 * B + 7) / 8) with 0. lia.
  - pose proof (unpack_n_b_unpacks B (n mod 32) (zdrop (4 * B * (n / 32)) inp) 0
                  HB ltac:(lia) (bytes_zdrop _ _ Hb)) as H2.
    destruct (unpack_n_b false B (n mod 32) (zdrop (4 * B * (n / 32)) inp) 0)
      as [v2 used2].
    destruct H2 as (Hu2 & ->). cbv beta iota. split; [|lia].
    replace n with (32 * (n / 32) + n mod 32) at 1 by lia.
    apply unpacks_app; [lia|lia|exact Hu1|].
    replace (0 + 32 * (n / 32) * B) with (8 * (4 * B * (n / 32)) + 0) by lia.
    apply unpacks_zdrop; [nia|lia|lia|exact Hu2].
Qed.

Lemma bitunpack32Scalar_unpacks (inp : list Z) (n b : Z) :
  0 <= b <= 32 -> 0 <= n -> bytes inp ->
  exists vals,
    bitunpack32Scalar inp n b = Some (vals, (n * b + 7) / 8) /\
    unpacks b inp 0 n vals.
Proof.
  intros Hb Hn Hbytes. unfold bitunpack32Scalar, bitunpack_dispatch.
  destruct (Z.eqb_spec b 0) as [->|Hne].
  - eexists. split; [rewrite Z.mul_0_r; reflexivity|].
    split; [rewrite zlen_map, zlen_zseq; lia|].
    intros i r Hi Hr. rewrite zget_map_zseq by lia.
    rewrite Z.testbit_0_l. destruct (Z.ltb_spec r 0); [lia|reflexivity].
  - destruct (Z.leb_spec b 32); [|lia].
    pose proof (bitunpack_b_unpacks b n inp 0 ltac:(lia) Hn Hbytes) as Hun.
    destruct (bitunpack_b false b inp n 0) as [vals used].
    destruct Hun as (Hu & ->). exists vals. split; [reflexivity|exact Hu].
Qed.

(** The format that [bitunpack32Scalar] reads.  For [0 <= b <= 32] it
    returns [n] values and consumes [ceil (n * b / 8)] bytes; the value
    [i] is the field of [b] bits that starts at the bit [i * b] of the
    input: its bit [r], [r < b], is the bit [(i * b + r) mod 8] of the byte
    [(i * b + r) / 8], and its higher bits are 0. *)
Theorem bitunpack32Scalar_reads_bit_fields (inp : list Z) (n b : Z)
    (Hb : 0 <= b <= 32) (Hn : 0 <= n) (Hbytes : bytes inp) :
  exists vals,
    bitunpack32Scalar inp n b = Some (vals, (n * b + 7) / 8) /\
    zlen vals = n /\
    forall i r, 0 <= i < n -> 0 <= r ->
      Z.testbit (zget vals i) r
      = (r <? b) && Z.testbit (zget inp ((i * b + r) / 8)) ((i * b + r) mod 8).
Proof.
  destruct (bitunpack32Scalar_unpacks inp n b Hb Hn Hbytes) as (vals & E & Hl & H).
  exists vals. split; [exact E|]. split; [exact Hl|].
  intros i r Hi Hr. rewrite H by assumption. reflexivity.
Qed.

Lemma bitunpack32Scalar_reads_bit_fields_witness :
  exists vals, bitunpack32Scalar [0xE5; 0x01] 3 3 = Some (vals, (3 * 3 + 7) / 8).
Proof.
  assert (Hbytes : bytes [0xE5; 0x01]) by (repeat constructor; lia).
  destruct (bitunpack32Scalar_reads_bit_fields [0xE5; 0x01] 3 3
              ltac:(lia) ltac:(lia) Hbytes) as (vals & E & _).
  exists vals. exact E.
Defined.

Lemma unpack_of_pack (b n : Z) (inp out rest vals : list Z) :
  0 <= b <= 32 -> 0 <= n <= zlen inp ->
  fits b inp 0 n ->
  (1 <= b -> packs b inp 0 n out) ->
  unpacks b (out ++ rest) 0 n vals ->
  vals = ztake n inp.
Proof.
  intros Hb Hn Hfit Hpack (Hl & H).
  apply list_eq_zget; [rewrite zlen_ztake; lia|].
  intros i Hi. rewrite Hl in Hi. rewrite zget_ztake by lia.
  pose proof (Hfit i ltac:(lia)) as Hv.
  apply Z.bits_inj'. intros r Hr. rewrite H by lia.
  destruct (Z.ltb_spec r b) as [Hlt|Hge]; cbn [andb].
  - destruct (Hpack ltac:(lia)) as (_ & Hlen & Hp).
    assert (Hpos : 0 + i * b + r < n * b) by nia.
    rewrite sbit_app_l by (rewrite Hlen; Z.div_mod_to_equations; nia).
    rewrite Hp by (rewrite Hlen; Z.div_mod_to_equations; nia).
    unfold field_bit. destruct (Z.ltb_spec (0 + i * b + r) (n * b)); [|lia].
    cbn [andb].
    destruct (field_position (0 + i * b + r) b i ltac:(lia) ltac:(lia)) as (-> & ->).
    do 2 f_equal; lia.
  - symmetry. apply testbit_range with b; [exact Hv|lia].
Qed.

Lemma bytes_bitpack32Scalar (inp : list Z) (n b : Z) :
  0 <= b <= 32 -> 0 <= n <= zlen inp -> fits b inp 0 n ->
  bytes (bitpack32Scalar inp n b).
Proof.
  intros Hb Hn Hfit. destruct (Z.eq_dec b 0) as [->|Hne]; [constructor|].
  apply (bitpack32Scalar_packs inp n b ltac:(lia) Hn Hfit).
Qed.

Lemma bitunpack_of_bitpack (inp rest : list Z) (n b : Z) :
  0 <= b <= 32 -> 0 <= n <= zlen inp -> fits b inp 0 n -> bytes rest ->
  bitunpack32Scalar (bitpack32Scalar inp n b ++ rest) n b
  = Some (ztake n inp, zlen (bitpack32Scalar inp n b)).
Proof.
  intros Hb Hn Hfit Hrest.
  pose proof (bytes_bitpack32Scalar inp n b Hb Hn Hfit) as Hbytes.
  destruct (bitunpack32Scalar_unpacks (bitpack32Scalar inp n b ++ rest) n b
              Hb ltac:(lia) (bytes_app _ _ Hbytes Hrest)) as (vals & E & Hu).
  rewrite E, zlen_bitpack32Scalar by lia. do 2 f_equal.
  apply (unpack_of_pack b n inp (bitpack32Scalar inp n b) rest vals);
    try assumption.
  intros Hb1. apply bitpack32Scalar_packs; [lia|exact Hn|exact Hfit].
Qed.

(** The round trip of the horizontal layout: [bitunpack32Scalar] reads
    back the [n] values that [bitpack32Scalar] wrote with the same width
    [b], [0 <= b <= 32], provided they fit in [b] bits, and consumes
    exactly the bytes written, whatever follows them. *)
Theorem bitpack32Scalar_roundtrip (inp rest : list Z) (n b : Z)
    (Hb : 0 <= b <= 32) (Hn : 0 <= n <= zlen inp)
    (Hfit : forall i, 0 <= i < n -> 0 <= zget inp i < 2 ^ b)
    (Hrest : bytes rest) :
  bitunpack32Scalar (bitpack32Scalar inp n b ++ rest) n b
  = Some (ztake n inp, zlen (bitpack32Scalar inp n b)).
Proof.
  assert (Hfit' : fits b inp 0 n) by (intros i Hi; apply Hfit; lia).
  pose proof (bytes_bitpack32Scalar inp n b Hb Hn Hfit') as Hbytes.
  destruct (bitunpack32Scalar_unpacks (bitpack32Scalar inp n b ++ rest) n b
              Hb ltac:(lia) (bytes_app _ _ Hbytes Hrest)) as (vals & E & Hu).
  rewrite E, zlen_bitpack32Scalar by lia. do 2 f_equal.
  apply (unpack_of_pack b n inp (bitpack32Scalar inp n b) rest vals);
    try assumption.
  intros Hb1. apply bitpack32Scalar_packs; [lia|exact Hn|exact Hfit'].
Qed.

Lemma bitpack32Scalar_roundtrip_witness :
  bitunpack32Scalar (bitpack32Scalar [5; 1; 7] 3 3 ++ [9]) 3 3
  = Some ([5; 1; 7], 2).
Proof.
  assert (Hfit : forall i, 0 <= i < 3 -> 0 <= zget [5; 1; 7] i < 2 ^ 3).
  { intros i Hi. assert (C : i = 0 \/ i = 1 \/ i = 2) by lia.
    destruct C as [->|[->| ->]]; vm_compute; (split; [discriminate|reflexivity]). }
  assert (Hn : 0 <= 3 <= zlen [5; 1; 7]) by (unfold zlen; simpl; lia).
  assert (Hrest : bytes [9]) by (repeat constructor; lia).
  exact (bitpack32Scalar_roundtrip [5; 1; 7] [9] 3 3 ltac:(lia) Hn Hfit Hrest).
Defined.

(** * The fused unpack + delta1 kernel *)

(** ** Arithmetic modulo 2^32 *)

Ltac u32_solve := unfold u32 in *; Z.div_mod_to_equations; lia.

Lemma u32_add_l (a b : Z) : u32 (u32 a + b) = u32 (a + b).
Proof. u32_solve. Qed.

Lemma u32_add_r (a b : Z) : u32 (a + u32 b) = u32 (a + b).
Proof. u32_solve. Qed.

Lemma u32_u32 (a : Z) : u32 (u32 a) = u32 a.
Proof. u32_solve. Qed.

(** ** The delta1 loop *)

Lemma delta1_loop_shift (vals : list Z) (i c s s' : Z) :
  u32 s' = u32 (s + c) ->
  delta1_loop vals i s' = delta1_loop vals (i + c) s.
Proof.
  revert i s s'. induction vals as [|v vals IH]; intros i s s' H; [reflexivity|].
  cbn [delta1_loop]. f_equal.
  - u32_solve.
  - replace (i + c + 1) with (i + 1 + c) by lia. apply IH. u32_solve.
Qed.

Lemma dsum_app (s : Z) (a b : list Z) : dsum s (a ++ b) = dsum (dsum s a) b.
Proof. unfold dsum. apply fold_left_app. Qed.

Lemma delta1_loop_app (a b : list Z) (i s : Z) :
  delta1_loop (a ++ b) i s
  = delta1_loop a i s ++ delta1_loop b (i + zlen a) (dsum s a).
Proof.
  revert i s. induction a as [|v a IH]; intros i s.
  - cbn [app delta1_loop dsum fold_left]. rewrite zlen_nil, Z.add_0_r. reflexivity.
  - cbn [app delta1_loop]. rewrite IH. cbn [app]. do 2 f_equal.
    rewrite zlen_cons. f_equal. lia.
Qed.

Lemma zlen_delta1_loop (vals : list Z) (i s : Z) :
  zlen (delta1_loop vals i s) = zlen vals.
Proof.
  revert i s. induction vals as [|v vals IH]; intros i s; [reflexivity|].
  cbn [delta1_loop]. rewrite !zlen_cons, IH. reflexivity.
Qed.

Lemma dsum_congr (vals : list Z) (s s' c : Z) :
  u32 s' = u32 (s + c) -> u32 (dsum s' vals) = u32 (dsum s vals + c).
Proof.
  revert s s'. induction vals as [|v vals IH]; intros s s' H; [exact H|].
  cbn [dsum fold_left]. apply IH. u32_solve.
Qed.

(** The value number [k] of a run. *)
Lemma zget_delta1_loop (vals : list Z) (i s k : Z) :
  0 <= k < zlen vals ->
  zget (delta1_loop vals i s) k
  = u32 (dsum s (ztake (k + 1) vals) + (i + k + 1)).
Proof.
  revert i s k. induction vals as [|v vals IH]; intros i s k Hk;
    [cbn in Hk; lia|].
  rewrite zlen_cons in Hk. cbn [delta1_loop].
  unfold ztake. replace (Z.to_nat (k + 1)) with (S (Z.to_nat k)) by lia.
  cbn [firstn dsum fold_left]. fold (ztake k vals). fold (dsum (u32 (s + v)) (ztake k vals)).
  destruct (Z.eq_dec k 0) as [->|Hne].
  - rewrite zget_cons_0. cbn [ztake Z.to_nat firstn dsum fold_left]. u32_solve.
  - rewrite zget_cons_S by lia. rewrite IH by lia.
    replace (k - 1 + 1) with k by lia. f_equal. lia.
Qed.

Lemma delta1_loop_last (vals : list Z) (i s : Z) :
  1 <= zlen vals ->
  zget (delta1_loop vals i s) (zlen vals - 1)
  = u32 (dsum s vals + (i + zlen vals)).
Proof.
  intros Hl. rewrite zget_delta1_loop by lia.
  rewrite ztake_all by lia. f_equal. lia.
Qed.

(** ** The fused kernel, level by level *)

Lemma unpack_emit_one_true (B Base I : Z) (w : list Z) (acc : Z) :
  unpack_emit_one true B Base I w acc
  = let x := fst (unpack_emit_one false B Base I w 0) in
    (u32 (u32 (acc + x) + u32 (Base + I + 1)), u32 (acc + x)).
Proof. reflexivity. Qed.

Lemma unpack_emit_from_true (B Base : Z) (w : list Z) (K : nat) (I0 acc : Z) :
  0 <= I0 ->
  let plain := map (fun I => fst (unpack_emit_one false B Base I w 0))
                   (zseq I0 (Z.of_nat K)) in
  unpack_emit_from true B Base w (zseq I0 (Z.of_nat K)) acc
  = (delta1_loop plain (Base + I0) acc, dsum acc plain).
Proof.
  cbv zeta. revert I0 acc. induction K as [|K IH]; intros I0 acc HI0.
  - reflexivity.
  - rewrite zseq_S by lia. cbn [unpack_emit_from map delta1_loop dsum fold_left].
    rewrite unpack_emit_one_true. cbv beta iota zeta. rewrite IH by lia.
    unfold dsum. replace (Base + (I0 + 1)) with (Base + I0 + 1) by lia.
    reflexivity.
Qed.

Lemma unpack_emit_from_true_Z (B Base : Z) (w : list Z) (K I0 acc : Z) :
  0 <= I0 -> 0 <= K ->
  let plain := map (fun I => fst (unpack_emit_one false B Base I w 0))
                   (zseq I0 K) in
  unpack_emit_from true B Base w (zseq I0 K) acc
  = (delta1_loop plain (Base + I0) acc, dsum acc plain).
Proof.
  intros HI0 HK. rewrite <- (Z2Nat.id K) by lia.
  apply unpack_emit_from_true. exact HI0.
Qed.

Lemma unpack_emit_one_false_acc (B Base I : Z) (w : list Z) (acc a0 : Z) :
  fst (unpack_emit_one false B Base I w acc)
  = fst (unpack_emit_one false B Base I w a0).
Proof. reflexivity. Qed.

Lemma unpack_block_true (B K Base : Z) (inp : list Z) (acc a0 : Z) :
  0 <= K ->
  unpack_block true B K Base inp acc
  = let '(plain, _, used) := unpack_block false B K Base inp a0 in
    (delta1_loop plain Base acc, dsum acc plain, used).
Proof.
  intros HK. unfold unpack_block, unpack_emit. cbv zeta.
  rewrite unpack_emit_from_false.
  rewrite unpack_emit_from_true_Z by lia. cbv zeta.
  rewrite Z.add_0_r.
  rewrite (map_ext _ _ (fun I => unpack_emit_one_false_acc B Base I _ a0 0)).
  reflexivity.
Qed.

Lemma zlen_unpack_block_false (B K Base : Z) (inp : list Z) (acc : Z) :
  0 <= K -> zlen (fst (fst (unpack_block false B K Base inp acc))) = K.
Proof.
  intros HK. unfold unpack_block, unpack_emit. cbv zeta.
  rewrite unpack_emit_from_false. cbn [fst]. rewrite zlen_map, zlen_zseq; lia.
Qed.

Lemma unpack_block_false_acc (B K Base : Z) (inp : list Z) (acc a0 : Z) :
  fst (fst (unpack_block false B K Base inp acc))
  = fst (fst (unpack_block false B K Base inp a0)) /\
  snd (unpack_block false B K Base inp acc)
  = snd (unpack_block false B K Base inp a0) /\
  snd (fst (unpack_block false B K Base inp acc)) = acc.
Proof.
  unfold unpack_block, unpack_emit. cbv zeta.
  rewrite !unpack_emit_from_false. cbn [fst snd]. auto.
Qed.

Lemma unpack_blocks_true (fuel : nat) (B N Base : Z) (inp : list Z) (acc a0 : Z) :
  0 <= N -> blocks_aligned fuel B N = true ->
  unpack_blocks fuel true B N Base inp acc
  = let '(plain, used) := unpack_blocks fuel false B N Base inp a0 in
    (delta1_loop plain Base acc, used).
Proof.
  revert N Base inp acc. induction fuel as [|fuel IH]; intros N Base inp acc HN Hal;
    cbn [blocks_aligned unpack_blocks] in *.
  - reflexivity.
  - destruct (Z.eqb_spec N 0) as [->|Hne]; [reflexivity|].
    cbv zeta in *. set (block := choose_block_size B N) in *.
    apply andb_prop in Hal. destruct Hal as (Hal & Hrest).
    apply andb_prop in Hal. destruct Hal as (H1 & H2).
    apply Z.leb_le in H1, H2.
    rewrite (unpack_block_true B block Base inp acc a0) by lia.
    pose proof (zlen_unpack_block_false B block Base inp a0 ltac:(lia)) as Hlen.
    pose proof (unpack_block_false_acc B block Base inp a0 a0) as (_ & _ & Hacc).
    destruct (unpack_block false B block Base inp a0) as [[p1 acc1] used1].
    cbn [fst snd] in Hlen, Hacc. subst acc1.
    destruct (Z.eqb_spec N block) as [E|E]; [reflexivity|].
    apply andb_prop in Hrest. destruct Hrest as (_ & Hrec).
    rewrite (IH (N - block) (Base + block) (zdrop used1 inp) (dsum acc p1)
                ltac:(lia) Hrec).
    destruct (unpack_blocks fuel false B (N - block) (Base + block)
                (zdrop used1 inp) a0) as [p2 used2].
    rewrite delta1_loop_app, Hlen. reflexivity.
Qed.

Lemma unpack_aligned_true (width : Z) (k : nat) (i : Z) (ip : list Z) (start s0 : Z) :
  unpack_aligned true width k i ip start
  = delta1_loop (unpack_aligned false width k i ip s0) i start.
Proof.
  revert i ip start. induction k as [|k IH]; intros i ip start; [reflexivity|].
  cbn [unpack_aligned delta1_loop]. rewrite IH. reflexivity.
Qed.

Lemma unpack_n_b_true (B N : Z) (inp : list Z) (start s0 : Z) :
  1 <= B <= 32 -> 1 <= N <= 32 ->
  unpack_n_b true B N inp start
  = let '(plain, used) := unpack_n_b false B N inp s0 in
    (delta1_loop plain 0 start, used).
Proof.
  intros HB HN. unfold unpack_n_b.
  destruct (B =? 32); [rewrite (unpack_aligned_true _ _ _ _ _ s0); reflexivity|].
  destruct (B =? 16); [rewrite (unpack_aligned_true _ _ _ _ _ s0); reflexivity|].
  destruct (B =? 8); [rewrite (unpack_aligned_true _ _ _ _ _ s0); reflexivity|].
  apply unpack_blocks_true; [lia|apply blocks_aligned_spec; lia].
Qed.

Lemma zlen_unpack_aligned (D1 : bool) (width : Z) (k : nat) (i : Z)
    (ip : list Z) (start : Z) :
  zlen (unpack_aligned D1 width k i ip start) = Z.of_nat k.
Proof.
  revert i ip start. induction k as [|k IH]; intros i ip start; [reflexivity|].
  cbn [unpack_aligned]. destruct D1; rewrite zlen_cons, IH; lia.
Qed.

Lemma zlen_unpack_blocks_false (fuel : nat) (B N Base : Z) (inp : list Z) (acc : Z) :
  0 <= N -> blocks_aligned fuel B N = true ->
  zlen (fst (unpack_blocks fuel false B N Base inp acc)) = N.
Proof.
  revert N Base inp acc. induction fuel as [|fuel IH]; intros N Base inp acc HN Hal;
    cbn [blocks_aligned unpack_blocks] in *.
  - apply Z.eqb_eq in Hal. subst N. reflexivity.
  - destruct (Z.eqb_spec N 0) as [->|Hne]; [reflexivity|].
    cbv zeta in *. set (block := choose_block_size B N) in *.
    apply andb_prop in Hal. destruct Hal as (Hal & Hrest).
    apply andb_prop in Hal. destruct Hal as (H1 & H2).
    apply Z.leb_le in H1, H2.
    pose proof (zlen_unpack_block_false B block Base inp acc ltac:(lia)) as Hlen.
    destruct (unpack_block false B block Base inp acc) as [[p1 acc1] used1].
    cbn [fst] in Hlen.
    destruct (Z.eqb_spec N block) as [E|E]; [cbn [fst]; lia|].
    apply andb_prop in Hrest. destruct Hrest as (_ & Hrec).
    specialize (IH (N - block) (Base + block) (zdrop used1 inp) acc1 ltac:(lia) Hrec).
    destruct (unpack_blocks fuel false B (N - block) (Base + block)
                (zdrop used1 inp) acc1) as [p2 used2].
    cbn [fst] in *. rewrite zlen_app. lia.
Qed.

Lemma zlen_unpack_n_b_false (B N : Z) (inp : list Z) (start : Z) :
  1 <= B <= 32 -> 1 <= N <= 32 ->
  zlen (fst (unpack_n_b false B N inp start)) = N.
Proof.
  intros HB HN. unfold unpack_n_b.
  destruct (B =? 32); [cbn [fst]; rewrite zlen_unpack_aligned; lia|].
  destruct (B =? 16); [cbn [fst]; rewrite zlen_unpack_aligned; lia|].
  destruct (B =? 8); [cbn [fst]; rewrite zlen_unpack_aligned; lia|].
  apply zlen_unpack_blocks_false; [lia|apply blocks_aligned_spec; lia].
Qed.

(** The plain kernel does not look at [start]. *)
Lemma bitunpack_b_full_false_start (k : nat) (B : Z) (inp : list Z) (s1 s2 : Z) :
  fst (bitunpack_b_full k false B inp s1) = fst (bitunpack_b_full k false B inp s2) /\
  snd (bitunpack_b_full k false B inp s1) = s1.
Proof.
  revert inp. induction k as [|k IH]; intros inp; [split; reflexivity|].
  cbn [bitunpack_b_full]. cbv beta iota.
  destruct (unpack_n_b false B 32 inp 0) as [v used].
  destruct (IH (zdrop used inp)) as (E1 & E2).
  destruct (bitunpack_b_full k false B (zdrop used inp) s1) as [[v1 u1] t1].
  destruct (bitunpack_b_full k false B (zdrop used inp) s2) as [[v2 u2] t2].
  cbn [fst snd] in *. inversion E1; subst. split; reflexivity.
Qed.

Lemma zlen_bitunpack_b_full_false (k : nat) (B : Z) (inp : list Z) (s : Z) :
  1 <= B <= 32 ->
  zlen (fst (fst (bitunpack_b_full k false B inp s))) = 32 * Z.of_nat k.
Proof.
  intros HB. revert inp. induction k as [|k IH]; intros inp; [reflexivity|].
  cbn [bitunpack_b_full]. cbv beta iota.
  pose proof (zlen_unpack_n_b_false B 32 inp 0 HB ltac:(lia)) as H1.
  destruct (unpack_n_b false B 32 inp 0) as [v used].
  specialize (IH (zdrop used inp)).
  destruct (bitunpack_b_full k false B (zdrop used inp) s) as [[v1 u1] t1].
  cbn [fst] in *. rewrite zlen_app. lia.
Qed.

Lemma bitunpack_b_full_true (k : nat) (B : Z) (inp : list Z) (start s0 : Z) :
  1 <= B <= 32 ->
  let '(plain, used, _) := bitunpack_b_full k false B inp s0 in
  exists start',
    bitunpack_b_full k true B inp start
    = (delta1_loop plain 0 start, used, start') /\
    u32 start' = u32 (dsum start plain + 32 * Z.of_nat k).
Proof.
  intros HB. revert inp start. induction k as [|k IH]; intros inp start.
  - cbn [bitunpack_b_full]. exists start. split; [reflexivity|].
    cbn [dsum fold_left]. f_equal. lia.
  - cbn [bitunpack_b_full]. cbv beta iota.
    rewrite (unpack_n_b_true B 32 inp start 0) by lia.
    pose proof (zlen_unpack_n_b_false B 32 inp 0 HB ltac:(lia)) as Hl1.
    destruct (unpack_n_b false B 32 inp 0) as [p1 used1]. cbn [fst] in Hl1.
    set (start1 := zget (delta1_loop p1 0 start) 31).
    assert (Hs1 : start1 = u32 (dsum start p1 + 32)).
    { unfold start1. replace 31 with (zlen p1 - 1) by lia.
      rewrite delta1_loop_last by lia. f_equal. lia. }
    specialize (IH (zdrop used1 inp) start1).
    destruct (bitunpack_b_full k false B (zdrop used1 inp) s0) as [[p2 used2] t2].
    destruct IH as (start' & E & Hs').
    rewrite E. exists start'. split.
    + rewrite delta1_loop_app, Hl1. do 2 f_equal.
      rewrite (delta1_loop_shift p2 0 32 (dsum start p1) start1)
        by (rewrite Hs1; apply u32_u32).
      reflexivity.
    + rewrite Hs'. rewrite dsum_app.
      pose proof (dsum_congr p2 (dsum start p1) start1 32
                    ltac:(rewrite Hs1; apply u32_u32)) as Hc.
      revert Hc. u32_solve.
Qed.

Lemma bitunpack_b_true (B n : Z) (inp : list Z) (start s0 : Z) :
  1 <= B <= 32 -> 0 <= n ->
  bitunpack_b true B inp n start
  = let '(plain, used) := bitunpack_b false B inp n s0 in
    (delta1_loop plain 0 start, used).
Proof.
  intros HB Hn. unfold bitunpack_b. cbv zeta.
  rewrite land_lnot_31, land_31 by lia.
  pose proof (Z.mod_pos_bound n 32 ltac:(lia)) as Hm.
  pose proof (bitunpack_b_full_true (Z.to_nat (32 * (n / 32) / 32)) B inp start s0 HB)
    as Hfull.
  pose proof (zlen_bitunpack_b_full_false (Z.to_nat (32 * (n / 32) / 32)) B inp s0 HB)
    as Hlen.
  destruct (bitunpack_b_full (Z.to_nat (32 * (n / 32) / 32)) false B inp s0)
    as [[p1 used1] t1].
  destruct Hfull as (start' & E & Hs'). rewrite E. cbn [fst] in Hlen.
  destruct (Z.eqb_spec (n mod 32) 0) as [E0|E0]; [reflexivity|].
  rewrite (unpack_n_b_true B (n mod 32) (zdrop used1 inp) start' 0) by lia.
  destruct (unpack_n_b false B (n mod 32) (zdrop used1 inp) 0) as [p2 used2].
  rewrite delta1_loop_app, Hlen. do 2 f_equal.
  rewrite (delta1_loop_shift p2 0 (32 * Z.of_nat (Z.to_nat (32 * (n / 32) / 32)))
             (dsum start p1) start') by exact Hs'.
  reflexivity.
Qed.

Lemma delta1_loop_zeros (k : nat) (i start s : Z) :
  0 <= i -> u32 s = u32 start ->
  delta1_loop (map (fun _ => 0) (zseq i (Z.of_nat k))) i s
  = map (fun j => u32 (u32 (start + j) + 1)) (zseq i (Z.of_nat k)).
Proof.
  revert i s. induction k as [|k IH]; intros i s Hi Hs; [reflexivity|].
  rewrite zseq_S by lia. cbn [map delta1_loop]. f_equal.
  - revert Hs. u32_solve.
  - apply IH; [lia|]. revert Hs. u32_solve.
Qed.

Lemma bitunpack_dispatch_fused (inp : list Z) (n start b : Z) :
  0 <= b -> 0 <= n ->
  bitunpack_dispatch true inp n start b
  = match bitunpack_dispatch false inp n 0 b with
    | Some (vals, used) => Some (delta1_loop vals 0 start, used)
    | None => None
    end.
Proof.
  intros Hb Hn. unfold bitunpack_dispatch.
  destruct (Z.eqb_spec b 0) as [->|Hne].
  - do 2 f_equal. rewrite <- (Z2Nat.id n) by lia.
    rewrite (delta1_loop_zeros _ 0 start start) by (reflexivity || lia).
    reflexivity.
  - destruct (Z.leb_spec b 32); [|reflexivity].
    rewrite (bitunpack_b_true b n inp start 0) by lia.
    destruct (bitunpack_b false b inp n 0) as [plain used]. reflexivity.
Qed.

(** The fused kernel behind [bitunpackd1_32Scalar]
    ([Bitunpack32ScalarImpl<true>::dispatch]) returns what the plain kernel
    ([Bitunpack32ScalarImpl<false>::dispatch], that is [bitunpack32Scalar])
    returns, run through the delta1 loop of the exception paths,
    [out[i] = (start += out[i]) + (i + 1)]; both consume the same bytes,
    and both have no result for [b > 32]. *)
Theorem fused_delta1_is_unpack_then_delta1 (inp : list Z) (n start b : Z)
    (Hb : 0 <= b) (Hn : 0 <= n) :
  bitunpack_dispatch true inp n start b
  = match bitunpack32Scalar inp n b with
    | Some (vals, used) => Some (delta1_loop vals 0 start, used)
    | None => None
    end.
Proof.
  unfold bitunpack32Scalar, bitunpack_dispatch.
  destruct (Z.eqb_spec b 0) as [->|Hne].
  - do 2 f_equal. rewrite <- (Z2Nat.id n) by lia.
    rewrite (delta1_loop_zeros _ 0 start start) by (reflexivity || lia).
    reflexivity.
  - destruct (Z.leb_spec b 32); [|reflexivity].
    rewrite (bitunpack_b_true b n inp start 0) by lia.
    destruct (bitunpack_b false b inp n 0) as [plain used]. reflexivity.
Qed.

Lemma fused_delta1_is_unpack_then_delta1_witness :
  bitunpack_dispatch true [0xE5; 0x01] 3 10 3
  = match bitunpack32Scalar [0xE5; 0x01] 3 3 with
    | Some (vals, used) => Some (delta1_loop vals 0 10, used)
    | None => None
    end.
Proof.
  exact (fused_delta1_is_unpack_then_delta1 [0xE5; 0x01] 3 10 3
           ltac:(lia) ltac:(lia)).
Defined.

(** * The exception paths of the scalar block codec *)

Lemma merge_at_app (ev : list Z) (ei : Z) (p1 p2 : list Z) (b : Z)
    (out : list Z) :
  merge_at ev ei (p1 ++ p2) b out
  = merge_at ev (ei + zlen p1) p2 b (merge_at ev ei p1 b out).
Proof.
  revert ei out. induction p1 as [|p p1 IH]; intros ei out.
  - cbn [app merge_at]. rewrite zlen_nil. f_equal. lia.
  - cbn [app merge_at]. rewrite IH, zlen_cons. f_equal. lia.
Qed.

Lemma zget_app_here (pre : list Z) (x : Z) (r : list Z) :
  zget (pre ++ x :: r) (zlen pre) = x.
Proof.
  unfold zget, zlen. rewrite Nat2Z.id. rewrite nth_middle. reflexivity.
Qed.

Lemma set_nth_app_here (pre : list Z) (x y : Z) (r : list Z) :
  set_nth (length pre) y (pre ++ x :: r) = pre ++ y :: r.
Proof.
  induction pre as [|a pre IH]; [reflexivity|].
  cbn [length app set_nth]. rewrite IH. reflexivity.
Qed.

Lemma zset_app_here (pre : list Z) (x y : Z) (r : list Z) :
  zset (pre ++ x :: r) (zlen pre) y = pre ++ y :: r.
Proof.
  unfold zset, zlen. rewrite Nat2Z.id. apply set_nth_app_here.
Qed.

Lemma merge_positions_merge_at (pre es ps : list Z) (b : Z) (out : list Z) :
  zlen ps = zlen es ->
  merge_positions es ps b out = merge_at (pre ++ es) (zlen pre) ps b out.
Proof.
  revert pre es out. induction ps as [|p ps IH]; intros pre es out Hl.
  - destruct es; reflexivity.
  - destruct es as [|e es]; [rewrite zlen_cons, zlen_nil in Hl;
                             pose proof (zlen_nonneg ps); lia|].
    cbn [merge_positions merge_at]. rewrite zget_app_here.
    rewrite (IH (pre ++ [e]) es) by (rewrite !zlen_cons in Hl; lia).
    rewrite <- app_assoc. cbn [app]. rewrite zlen_app, zlen_cons, zlen_nil.
    f_equal; lia.
Qed.

Lemma merge_at_cons (ev : list Z) (ei p : Z) (ps : list Z) (b : Z)
    (out : list Z) :
  merge_at ev ei (p :: ps) b out
  = merge_at ev (ei + 1) ps b
      (zset out p (Z.lor (zget out p) (shl32 (zget ev ei) b))).
Proof. reflexivity. Qed.

Lemma patch_word_S (fuel : nat) (word wi b : Z) (ev : list Z) (ei : Z)
    (out : list Z) :
  patch_word (S fuel) word wi b ev ei out
  = if word =? 0 then (out, ei)
    else patch_word fuel (Z.land word (word - 1)) wi b ev (ei + 1)
           (zset out (wi * 64 + ctzll word)
              (Z.lor (zget out (wi * 64 + ctzll word))
                     (shl32 (zget ev ei) b))).
Proof. reflexivity. Qed.

Lemma patch_word_stop (fuel : nat) (wi b : Z) (ev : list Z) (ei : Z)
    (out : list Z) :
  patch_word fuel 0 wi b ev ei out = (out, ei).
Proof. destruct fuel; reflexivity. Qed.

Lemma zlen_set_bits (word : Z) : 0 <= zlen (set_bits word) <= 64.
Proof.
  split; [apply zlen_nonneg|]. unfold set_bits.
  pose proof (zlen_filter_le (Z.testbit word) (zseq 0 64)) as H.
  rewrite zlen_zseq in H by lia. exact H.
Qed.

Lemma patch_word_merge_at (fuel : nat) (word wi b : Z) (ev : list Z)
    (ei : Z) (out : list Z) :
  0 <= word < 2 ^ 64 -> zlen (set_bits word) <= Z.of_nat fuel ->
  patch_word fuel word wi b ev ei out
  = (merge_at ev ei (map (fun t => wi * 64 + t) (set_bits word)) b out,
     ei + zlen (set_bits word)).
Proof.
  revert word ei out. induction fuel as [|fuel IH]; intros word ei out Hw Hf.
  - destruct (Z.eq_dec word 0) as [->|Hne].
    + rewrite patch_word_stop, set_bits_0, zlen_nil, Z.add_0_r. reflexivity.
    + rewrite (set_bits_step word) in Hf by lia. rewrite zlen_cons in Hf.
      pose proof (zlen_set_bits (Z.land word (word - 1))). lia.
  - destruct (Z.eq_dec word 0) as [->|Hne].
    + rewrite patch_word_stop, set_bits_0, zlen_nil, Z.add_0_r. reflexivity.
    + rewrite patch_word_S.
      destruct (Z.eqb_spec word 0) as [E|_]; [contradiction|].
      rewrite (set_bits_step word) by lia.
      rewrite (set_bits_step word) in Hf by lia.
      rewrite zlen_cons in Hf.
      rewrite map_cons, merge_at_cons, zlen_cons.
      rewrite IH; [|apply clear_lowest_range; lia|lia].
      rewrite Z.add_assoc. reflexivity.
Qed.

Lemma patch_words_merge_at (bitmap : list Z) (wi b : Z) (ev : list Z)
    (ei : Z) (out : list Z) :
  Forall (fun w => 0 <= w < 2 ^ 64) bitmap ->
  patch_words bitmap wi b ev ei out
  = merge_at ev ei (bitmap_positions bitmap wi) b out.
Proof.
  intros HF. revert wi ei out. induction HF as [|w bitmap Hw HF IH];
    intros wi ei out; [reflexivity|].
  cbn [patch_words bitmap_positions].
  rewrite patch_word_merge_at; [|exact Hw|apply zlen_set_bits].
  rewrite merge_at_app, zlen_map. apply IH.
Qed.

Lemma count_exceptions_fold (bitmap : list Z) (wi c : Z) :
  Forall (fun w => 0 <= w < 2 ^ 64) bitmap ->
  0 <= c -> c + 64 * zlen bitmap < 4294967296 ->
  fold_left (fun c word => u32 (c + popcountll word)) bitmap c
  = c + zlen (bitmap_positions bitmap wi).
Proof.
  intros HF. revert wi c. induction HF as [|w bitmap Hw HF IH];
    intros wi c Hc Hb.
  - cbn [fold_left bitmap_positions]. rewrite zlen_nil. lia.
  - cbn [fold_left bitmap_positions]. rewrite zlen_cons in Hb.
    pose proof (zlen_nonneg bitmap) as Hn.
    pose proof (zlen_set_bits w) as Hs.
    rewrite popcountll_spec by exact Hw.
    rewrite u32_small by lia.
    rewrite (IH (wi + 1)) by lia.
    rewrite zlen_app, zlen_map. lia.
Qed.

Lemma count_exceptions_spec (bitmap : list Z) :
  Forall (fun w => 0 <= w < 2 ^ 64) bitmap -> zlen bitmap <= 4 ->
  count_exceptions bitmap = zlen (bitmap_positions bitmap 0).
Proof.
  intros HF Hl. unfold count_exceptions.
  rewrite (count_exceptions_fold bitmap 0 0) by (assumption || lia). lia.
Qed.

(** ** The split of a block into base values and exceptions *)

Lemma base_mask_ones (b : Z) : 0 <= b <= 31 -> u32 (shl32 1 b - 1) = Z.ones b.
Proof.
  intros Hb. unfold shl32. rewrite Z.shiftl_1_l, Z.ones_equiv.
  assert (0 < 2 ^ b < 4294967296).
  { split; [apply Z.pow_pos_nonneg; lia|].
    change 4294967296 with (2 ^ 32). apply Z.pow_lt_mono_r; lia. }
  rewrite (u32_small (2 ^ b)) by lia. rewrite u32_small by lia. lia.
Qed.

Lemma exception_test (v b : Z) :
  0 <= v -> 0 <= b -> (v >? Z.ones b) = (b <? bitWidth32 v).
Proof.
  intros Hv Hb. rewrite Z.ones_equiv.
  pose proof (bitWidth32_le_iff v b Hv Hb) as H.
  destruct (Z.gtb_spec v (Z.pred (2 ^ b))), (Z.ltb_spec b (bitWidth32 v));
    try reflexivity; lia.
Qed.

Lemma recombine (v b : Z) :
  0 <= v < 4294967296 -> 0 <= b <= 31 ->
  Z.lor (u32 (Z.land v (Z.ones b))) (shl32 (shr32 v b) b) = v.
Proof.
  intros Hv Hb. apply Z.bits_inj'. intros i Hi.
  unfold shl32, shr32.
  rewrite Z.lor_spec, !testbit_u32, Z.land_spec, testbit_shiftl_full by lia.
  rewrite Z.testbit_ones_nonneg by lia.
  destruct (Z.ltb_spec i 32) as [H32|H32]; cbn [andb orb].
  - destruct (Z.leb_spec b i) as [Hbi|Hbi].
    + rewrite Z.shiftr_spec by lia. replace (i - b + b) with i by lia.
      destruct (Z.ltb_spec i b); [lia|]. cbn [andb].
      rewrite andb_false_r. reflexivity.
    + destruct (Z.ltb_spec i b); [|lia]. cbn [andb].
      rewrite andb_true_r, orb_false_r. reflexivity.
  - symmetry. apply testbit_range with 32; [exact Hv|lia].
Qed.

Lemma low_bits_small (v b : Z) :
  0 <= v -> 0 <= b <= 31 -> v < 2 ^ b -> u32 (Z.land v (Z.ones b)) = v.
Proof.
  intros Hv Hb Hlt. rewrite Z.land_ones by lia.
  rewrite Z.mod_small by lia. apply u32_small.
  assert (2 ^ b < 2 ^ 32) by (apply Z.pow_lt_mono_r; lia).
  change (2 ^ 32) with 4294967296 in *. lia.
Qed.

Lemma split_exceptions_cons (value : Z) (vals : list Z) (i base_mask b : Z) :
  split_exceptions (value :: vals) i base_mask b
  = let '(base, exceptions, exception_positions) :=
      split_exceptions vals (i + 1) base_mask b in
    let base_i := u32 (Z.land value base_mask) in
    if value >? base_mask
    then (base_i :: base, shr32 value b :: exceptions,
          i :: exception_positions)
    else (base_i :: base, exceptions, exception_positions).
Proof. reflexivity. Qed.

Lemma merge_split (vals : list Z) (b : Z) (pre pre_ex : list Z) :
  0 <= b <= 31 -> u32_list vals ->
  let '(base, ex, pos) := split_exceptions vals (zlen pre) (Z.ones b) b in
  merge_at (pre_ex ++ ex) (zlen pre_ex) pos b (pre ++ base) = pre ++ vals.
Proof.
  intros Hb Hu. revert pre pre_ex.
  induction Hu as [|value vals Hv Hu IH]; intros pre pre_ex.
  - reflexivity.
  - rewrite split_exceptions_cons.
    assert (Hsame : forall e,
              split_exceptions vals (zlen pre + 1) (Z.ones b) b
              = split_exceptions vals (zlen (pre ++ [e])) (Z.ones b) b).
    { intros e. rewrite zlen_app, zlen_cons, zlen_nil. do 2 f_equal. }
    destruct (Z.gtb_spec value (Z.ones b)) as [Hgt|Hle].
    + specialize (IH (pre ++ [value]) (pre_ex ++ [shr32 value b])).
      rewrite <- (Hsame value) in IH.
      destruct (split_exceptions vals (zlen pre + 1) (Z.ones b) b)
        as [[base ex] pos].
      cbv beta iota zeta.
      rewrite merge_at_cons, !zget_app_here, zset_app_here.
      rewrite recombine by assumption.
      rewrite <- !app_assoc in IH. cbn [app] in IH.
      rewrite zlen_app, zlen_cons, zlen_nil in IH.
      replace (zlen pre_ex + (1 + 0)) with (zlen pre_ex + 1) in IH by lia.
      exact IH.
    + specialize (IH (pre ++ [value]) pre_ex).
      rewrite <- (Hsame value) in IH.
      destruct (split_exceptions vals (zlen pre + 1) (Z.ones b) b)
        as [[base ex] pos].
      cbv beta iota zeta.
      rewrite low_bits_small by (rewrite Z.ones_equiv in Hle; lia).
      rewrite <- !app_assoc in IH. cbn [app] in IH. exact IH.
Qed.

Lemma Forall_zget (P : Z -> Prop) (l : list Z) (i : Z) :
  Forall P l -> 0 <= i < zlen l -> P (zget l i).
Proof.
  intros HF Hi. rewrite Forall_forall in HF. apply HF.
  unfold zget. apply nth_In. unfold zlen in Hi. lia.
Qed.

Lemma split_exceptions_facts (vals : list Z) (i b m : Z) :
  0 <= b <= 31 -> b <= m -> 0 <= i ->
  Forall (fun v => 0 <= v < 2 ^ m) vals ->
  let '(base, ex, pos) := split_exceptions vals i (Z.ones b) b in
  zlen base = zlen vals /\
  zlen ex = zlen pos /\
  zlen pos <= zlen vals /\
  Forall (fun v => 0 <= v < 2 ^ b) base /\
  Forall (fun e => 0 <= e < 2 ^ (m - b)) ex /\
  Forall (fun p => i <= p < i + zlen vals) pos /\
  zlen ex
  = zsum (map (fun v => if b <? bitWidth32 v then 1 else 0) vals).
Proof.
  intros Hb Hm Hi HF. revert i Hi.
  induction HF as [|value vals Hv HF IH]; intros i Hi.
  - cbn [split_exceptions map]. repeat split; try constructor; reflexivity.
  - rewrite split_exceptions_cons. specialize (IH (i + 1) ltac:(lia)).
    destruct (split_exceptions vals (i + 1) (Z.ones b) b) as [[base ex] pos].
    destruct IH as (H1 & H2 & H3 & H4 & H5 & H6 & H7).
    assert (Hbase : 0 <= u32 (Z.land value (Z.ones b)) < 2 ^ b).
    { rewrite Z.land_ones by lia.
      pose proof (Z.mod_pos_bound value (2 ^ b) ltac:(apply Z.pow_pos_nonneg; lia)).
      rewrite u32_small; [lia|].
      assert (2 ^ b < 2 ^ 32) by (apply Z.pow_lt_mono_r; lia).
      change (2 ^ 32) with 4294967296 in *. lia. }
    assert (Hpos : Forall (fun p => i <= p < i + (1 + zlen vals)) pos).
    { eapply Forall_impl; [|exact H6]. cbv beta. intros p Hp. lia. }
    cbn [map]. rewrite zsum_cons, <- exception_test by lia.
    cbv beta iota zeta.
    destruct (Z.gtb_spec value (Z.ones b)) as [Hgt|Hle];
      rewrite ?zlen_cons; repeat split; try lia; try assumption;
      try (constructor; assumption).
    + constructor; [|assumption]. unfold shr32.
      rewrite Z.shiftr_div_pow2 by lia.
      replace (2 ^ m) with (2 ^ b * 2 ^ (m - b)) in Hv
        by (rewrite <- Z.pow_add_r by lia; f_equal; lia).
      assert (0 < 2 ^ b) by (apply Z.pow_pos_nonneg; lia).
      split; [apply Z.div_pos; lia|apply Z.div_lt_upper_bound; lia].
    + constructor; [pose proof (zlen_nonneg vals); lia|assumption].
Qed.

(** * The exception bitmap: written, loaded and enumerated *)

Lemma filter_ext_In {A} (f g : A -> bool) (l : list A) :
  (forall x, In x l -> f x = g x) -> filter f l = filter g l.
Proof.
  induction l as [|a l IH]; intros H; [reflexivity|]. cbn [filter].
  rewrite (H a) by (left; reflexivity).
  rewrite IH by (intros x Hx; apply H; right; exact Hx). reflexivity.
Qed.

Lemma map_filter_shift (f : Z -> bool) (d a : Z) (n : nat) :
  0 <= a -> 0 <= d ->
  map (fun t => d + t) (filter f (zseq a (Z.of_nat n)))
  = filter (fun p => f (p - d)) (zseq (d + a) (Z.of_nat n)).
Proof.
  intros Ha Hd. revert a Ha. induction n as [|n IH]; intros a Ha.
  - rewrite !zseq_nil by lia. reflexivity.
  - rewrite !zseq_S by lia. cbn [filter].
    replace (d + a - d) with a by lia.
    replace (d + a + 1) with (d + (a + 1)) by lia.
    destruct (f a); cbn [map]; rewrite IH by lia; reflexivity.
Qed.

Lemma split_positions_filter (vals : list Z) (i base_mask b : Z) :
  0 <= i ->
  snd (split_exceptions vals i base_mask b)
  = filter (fun p => zget vals (p - i) >? base_mask) (zseq i (zlen vals)).
Proof.
  intros Hi. revert i Hi. induction vals as [|value vals IH]; intros i Hi.
  - reflexivity.
  - rewrite split_exceptions_cons. specialize (IH (i + 1) ltac:(lia)).
    destruct (split_exceptions vals (i + 1) base_mask b) as [[base ex] pos].
    cbn [snd] in IH. cbv beta iota zeta.
    unfold zlen at 1. cbn [length]. rewrite zseq_S by lia. cbn [filter].
    replace (i - i) with 0 by lia. rewrite zget_cons_0.
    fold (zlen vals).
    assert (E : filter (fun p => zget (value :: vals) (p - i) >? base_mask)
                  (zseq (i + 1) (zlen vals))
                = pos).
    { rewrite IH. apply filter_ext_In. intros p Hp.
      apply In_zseq_iff in Hp; [|lia].
      rewrite zget_cons_S by lia. do 2 f_equal. lia. }
    rewrite E. destruct (value >? base_mask); reflexivity.
Qed.

Lemma bitmap_positions_filter (bitmap : list Z) (wi : Z) :
  0 <= wi ->
  bitmap_positions bitmap wi
  = filter (fun p => wbit bitmap (p - 64 * wi))
      (zseq (64 * wi) (64 * zlen bitmap)).
Proof.
  intros Hwi. revert wi Hwi. induction bitmap as [|w bitmap IH]; intros wi Hwi.
  - reflexivity.
  - cbn [bitmap_positions]. rewrite zlen_cons.
    pose proof (zlen_nonneg bitmap) as Hl.
    replace (64 * (1 + zlen bitmap)) with (64 + 64 * zlen bitmap) by lia.
    rewrite zseq_app by lia. rewrite filter_app. f_equal.
    + unfold set_bits.
      rewrite (map_ext (fun t => wi * 64 + t) (fun t => 64 * wi + t))
        by (intros; lia).
      change 64 with (Z.of_nat 64) at 2 4.
      rewrite map_filter_shift by lia.
      rewrite Z.add_0_r. apply filter_ext_In. intros p Hp.
      apply In_zseq_iff in Hp; [|lia]. unfold wbit.
      change (Z.of_nat 64) with 64 in Hp.
      destruct (word_position (p - 64 * wi) 0 (p - 64 * wi) ltac:(lia) ltac:(lia))
        as (-> & ->).
      rewrite zget_cons_0. reflexivity.
    + rewrite (IH (wi + 1)) by lia.
      replace (64 * (wi + 1)) with (64 * wi + 64) by lia.
      apply filter_ext_In. intros p Hp.
      apply In_zseq_iff in Hp; [|lia]. unfold wbit.
      assert (E1 : (p - 64 * wi) / 64 = (p - (64 * wi + 64)) / 64 + 1)
        by (Z.div_mod_to_equations; lia).
      assert (E2 : (p - 64 * wi) mod 64 = (p - (64 * wi + 64)) mod 64)
        by (Z.div_mod_to_equations; lia).
      rewrite E1, E2.
      rewrite zget_cons_S by (Z.div_mod_to_equations; lia).
      do 2 f_equal. lia.
Qed.

Lemma zlen_bitmap_set (bitmap : list Z) (pos : Z) :
  zlen (bitmap_set bitmap pos) = zlen bitmap.
Proof. apply zlen_zset. Qed.

Lemma zlen_fold_bitmap_set (positions bitmap : list Z) :
  zlen (fold_left bitmap_set positions bitmap) = zlen bitmap.
Proof.
  revert bitmap. induction positions as [|p ps IH]; intros bitmap;
    [reflexivity|].
  cbn [fold_left]. rewrite IH. apply zlen_bitmap_set.
Qed.

Lemma wbit_bitmap_set (bitmap : list Z) (pos p : Z) :
  0 <= pos < 64 * zlen bitmap -> 0 <= p ->
  wbit (bitmap_set bitmap pos) p = wbit bitmap p || (p =? pos).
Proof.
  intros Hpos Hp. unfold bitmap_set.
  rewrite Z.shiftr_div_pow2 by lia. change (2 ^ 6) with 64.
  change 0x3F with (Z.ones 6). rewrite Z.land_ones by lia.
  change (2 ^ 6) with 64.
  pose proof (Z.mod_pos_bound pos 64 ltac:(lia)) as Hm.
  rewrite wbit_zset by (Z.div_mod_to_equations; lia).
  unfold shl64. rewrite Z.shiftl_1_l.
  assert (H64 : 0 < 2 ^ (pos mod 64) < 2 ^ 64).
  { split; [apply Z.pow_pos_nonneg; lia|apply Z.pow_lt_mono_r; lia]. }
  rewrite u64_small by (change (2 ^ 64) with 18446744073709551616 in H64; lia).
  pose proof (Z.mod_pos_bound p 64 ltac:(lia)) as Hpm.
  destruct (Z.eqb_spec (p / 64) (pos / 64)) as [E|E].
  - rewrite Z.lor_spec, Z.pow2_bits_eqb by lia. unfold wbit. rewrite E.
    f_equal.
    destruct (Z.eqb_spec (pos mod 64) (p mod 64)), (Z.eqb_spec p pos);
      try reflexivity; exfalso; Z.div_mod_to_equations; lia.
  - destruct (Z.eqb_spec p pos) as [->|_]; [contradiction|].
    rewrite orb_false_r. reflexivity.
Qed.

Lemma wbit_fold_bitmap_set (positions bitmap : list Z) (p : Z) :
  Forall (fun q => 0 <= q < 64 * zlen bitmap) positions -> 0 <= p ->
  wbit (fold_left bitmap_set positions bitmap) p
  = wbit bitmap p || existsb (Z.eqb p) positions.
Proof.
  intros HF Hp. revert bitmap HF.
  induction positions as [|q ps IH]; intros bitmap HF.
  - cbn [fold_left existsb]. rewrite orb_false_r. reflexivity.
  - inversion HF as [|? ? Hq HF']; subst. cbn [fold_left existsb].
    rewrite IH by (rewrite zlen_bitmap_set; exact HF').
    rewrite wbit_bitmap_set by assumption. rewrite orb_assoc. reflexivity.
Qed.

Lemma wbit_build_bitmap (positions : list Z) (p : Z) :
  Forall (fun q => 0 <= q < 256) positions -> 0 <= p ->
  wbit (build_bitmap positions) p = existsb (Z.eqb p) positions.
Proof.
  intros HF Hp. unfold build_bitmap.
  rewrite wbit_fold_bitmap_set; [|exact HF|exact Hp].
  replace (wbit [0; 0; 0; 0] p) with false; [reflexivity|].
  symmetry. apply (wbit_zeros 4).
Qed.

Lemma zlen_build_bitmap (positions : list Z) : zlen (build_bitmap positions) = 4.
Proof. unfold build_bitmap. rewrite zlen_fold_bitmap_set. reflexivity. Qed.

Lemma words_for (n : Z) :
  0 <= n <= 256 ->
  u32 (n + 63) / 64 = (n + 63) / 64 /\ pad8 n = (n + 7) / 8 /\
  0 <= (n + 63) / 64 <= 4 /\ (n + 7) / 8 <= 8 * ((n + 63) / 64) /\
  n <= 64 * ((n + 63) / 64) /\ n <= 8 * ((n + 7) / 8).
Proof.
  intros Hn. rewrite pad8_spec by lia. rewrite u32_small by lia.
  repeat split; Z.div_mod_to_equations; lia.
Qed.

Lemma sbit_ztake (l : list Z) (k p : Z) :
  0 <= p < 8 * k -> sbit (ztake k l) p = sbit l p.
Proof.
  intros Hp. unfold sbit. rewrite zget_ztake by (Z.div_mod_to_equations; lia).
  reflexivity.
Qed.

Lemma bytes_ztake (l : list Z) (k : Z) : bytes l -> bytes (ztake k l).
Proof. apply Forall_ztake. Qed.

Lemma write_bitmap_spec (bitmap : list Z) (n : Z) :
  0 <= n <= 256 -> zlen bitmap = 4 ->
  bytes (write_bitmap bitmap n) /\
  zlen (write_bitmap bitmap n) = pad8 n /\
  forall p, 0 <= p < n -> sbit (write_bitmap bitmap n) p = wbit bitmap p.
Proof.
  intros Hn Hl. unfold write_bitmap.
  destruct (words_for n Hn) as (EK & EP & HK & HPK & HnK & HnP).
  cbv zeta. rewrite EK, EP.
  assert (Hlw : zlen (flat_map storeU64 (ztake ((n + 63) / 64) bitmap))
                = 8 * ((n + 63) / 64)).
  { rewrite (zlen_flat_map_const storeU64 8) by apply zlen_storeU64.
    rewrite zlen_ztake by lia. reflexivity. }
  split; [apply bytes_ztake, bytes_flat_map_storeU64|].
  split.
  - apply zlen_ztake. rewrite Hlw. split; [Z.div_mod_to_equations; lia|lia].
  - intros p Hp. rewrite sbit_ztake by lia.
    rewrite sbit_flat_map_storeU64 by (rewrite zlen_ztake; lia).
    apply wbit_ztake. lia.
Qed.

Lemma zget_load_bitmap (k : nat) (i K n : Z) (ip : list Z) (j : Z) :
  0 <= j < Z.of_nat k ->
  zget (load_bitmap k i K n ip) j
  = if (i + j =? K - 1) && negb (Z.land n 0x3F =? 0)
    then Z.land (loadU64 (zdrop (8 * j) ip))
                (u64 (shl64 1 (Z.land n 0x3F) - 1))
    else loadU64 (zdrop (8 * j) ip).
Proof.
  revert i ip j. induction k as [|k IH]; intros i ip j Hj; [lia|].
  cbn [load_bitmap]. cbv zeta.
  destruct (Z.eq_dec j 0) as [->|Hne].
  - rewrite zget_cons_0, Z.add_0_r. reflexivity.
  - rewrite zget_cons_S by lia. rewrite IH by lia.
    rewrite zdrop_zdrop by lia.
    replace (i + 1 + (j - 1)) with (i + j) by lia.
    replace (8 * (j - 1) + 8) with (8 * j) by lia. reflexivity.
Qed.

Lemma zlen_load_bitmap (k : nat) (i K n : Z) (ip : list Z) :
  zlen (load_bitmap k i K n ip) = Z.of_nat k.
Proof.
  revert i ip. induction k as [|k IH]; intros i ip; [reflexivity|].
  cbn [load_bitmap]. cbv zeta. rewrite zlen_cons, IH. lia.
Qed.

Lemma Forall_of_zget (P : Z -> Prop) (l : list Z) :
  (forall j, 0 <= j < zlen l -> P (zget l j)) -> Forall P l.
Proof.
  intros H. apply Forall_forall. intros x Hx.
  destruct (In_nth l x 0 Hx) as (k & Hk & E).
  rewrite <- E. specialize (H (Z.of_nat k)). unfold zget in H.
  rewrite Nat2Z.id in H. apply H. unfold zlen. lia.
Qed.

Lemma tail_mask (n : Z) :
  0 <= n -> n mod 64 <> 0 ->
  u64 (shl64 1 (Z.land n 0x3F) - 1) = Z.ones (n mod 64).
Proof.
  intros Hn Hm. change 0x3F with (Z.ones 6). rewrite Z.land_ones by lia.
  change (2 ^ 6) with 64.
  pose proof (Z.mod_pos_bound n 64 ltac:(lia)) as Hb.
  unfold shl64. rewrite Z.shiftl_1_l, Z.ones_equiv.
  assert (H64 : 0 < 2 ^ (n mod 64) < 2 ^ 64).
  { split; [apply Z.pow_pos_nonneg; lia|apply Z.pow_lt_mono_r; lia]. }
  change (2 ^ 64) with 18446744073709551616 in H64.
  rewrite (u64_small (2 ^ (n mod 64))) by lia. rewrite u64_small by lia. lia.
Qed.

Lemma load_bitmap_bits (n : Z) (inp : list Z) :
  0 <= n <= 256 -> bytes inp ->
  let K := u32 (n + 63) / 64 in
  let bitmap := load_bitmap (Z.to_nat K) 0 K n inp in
  zlen bitmap = K /\
  Forall (fun w => 0 <= w < 2 ^ 64) bitmap /\
  forall p, 0 <= p < 64 * K -> wbit bitmap p = (p <? n) && sbit inp p.
Proof.
  intros Hn Hbytes.
  destruct (words_for n Hn) as (EK & EP & HK & HPK & HnK & HnP).
  cbv zeta. rewrite EK. set (K := (n + 63) / 64) in *.
  assert (Hlen : zlen (load_bitmap (Z.to_nat K) 0 K n inp) = K)
    by (rewrite zlen_load_bitmap; lia).
  assert (Hword : forall j, 0 <= j < K ->
            0 <= zget (load_bitmap (Z.to_nat K) 0 K n inp) j < 2 ^ 64 /\
            forall t, 0 <= t < 64 ->
              Z.testbit (zget (load_bitmap (Z.to_nat K) 0 K n inp) j) t
              = (64 * j + t <? n) && sbit inp (64 * j + t)).
  { intros j Hj. rewrite zget_load_bitmap by lia.
    pose proof (loadU64_range (zdrop (8 * j) inp)
                  (bytes_zdrop _ _ Hbytes)) as Hr.
    change 18446744073709551616 with (2 ^ 64) in Hr.
    assert (Hbit : forall t, 0 <= t < 64 ->
              Z.testbit (loadU64 (zdrop (8 * j) inp)) t = sbit inp (64 * j + t)).
    { intros t Ht. rewrite testbit_loadU64_sbit by (try apply bytes_zdrop; lia || assumption).
      destruct (Z.ltb_spec t 64); [|lia]. cbn [andb].
      rewrite sbit_zdrop by lia. f_equal. lia. }
    assert (Eland : Z.land n 0x3F = n mod 64).
    { change 0x3F with (Z.ones 6). rewrite Z.land_ones by lia. reflexivity. }
    destruct (Z.eqb_spec (0 + j) (K - 1)) as [Ej|Ej];
      destruct (Z.eqb_spec (Z.land n 0x3F) 0) as [Em|Em];
      rewrite Eland in Em; cbn [andb negb].
    - split; [exact Hr|]. intros t Ht. rewrite Hbit by lia.
      destruct (Z.ltb_spec (64 * j + t) n); [reflexivity|].
      exfalso. unfold K in *. Z.div_mod_to_equations. lia.
    - rewrite (tail_mask n ltac:(lia) Em). pose proof (Z.mod_pos_bound n 64 ltac:(lia)) as Hb.
      split.
      + rewrite Z.land_ones by lia.
        pose proof (Z.mod_pos_bound (loadU64 (zdrop (8 * j) inp))
                      (2 ^ (n mod 64)) ltac:(apply Z.pow_pos_nonneg; lia)).
        assert (2 ^ (n mod 64) < 2 ^ 64) by (apply Z.pow_lt_mono_r; lia).
        lia.
      + intros t Ht. rewrite Z.land_spec, Hbit by lia.
        rewrite Z.testbit_ones_nonneg by lia.
        rewrite andb_comm. f_equal.
        destruct (Z.ltb_spec t (n mod 64)), (Z.ltb_spec (64 * j + t) n);
          try reflexivity; exfalso; unfold K in *; Z.div_mod_to_equations; lia.
    - split; [exact Hr|]. intros t Ht. rewrite Hbit by lia.
      destruct (Z.ltb_spec (64 * j + t) n); [reflexivity|].
      exfalso. unfold K in *. Z.div_mod_to_equations. lia.
    - split; [exact Hr|]. intros t Ht. rewrite Hbit by lia.
      destruct (Z.ltb_spec (64 * j + t) n); [reflexivity|].
      exfalso. unfold K in *. Z.div_mod_to_equations. lia. }
  split; [exact Hlen|]. split.
  - apply Forall_of_zget. intros j Hj. apply Hword. lia.
  - intros p Hp. unfold wbit.
    pose proof (Z.mod_pos_bound p 64 ltac:(lia)) as Hm.
    destruct (Hword (p / 64) ltac:(Z.div_mod_to_equations; lia)) as (_ & Hb).
    rewrite Hb by lia.
    replace (64 * (p / 64) + p mod 64) with p
      by (Z.div_mod_to_equations; lia).
    reflexivity.
Qed.

Lemma existsb_eqb_filter (f : Z -> bool) (l : list Z) (p : Z) :
  existsb (Z.eqb p) (filter f l) = f p && existsb (Z.eqb p) l.
Proof.
  induction l as [|a l IH]; [rewrite andb_false_r; reflexivity|].
  cbn [filter existsb]. destruct (Z.eqb_spec p a) as [->|Hne].
  - destruct (f a) eqn:Ef; cbn [existsb orb andb].
    + rewrite Z.eqb_refl. reflexivity.
    + exact IH.
  - destruct (f a); cbn [existsb orb]; rewrite ?IH;
      destruct (Z.eqb_spec p a); try contradiction; reflexivity.
Qed.

Lemma existsb_eqb_zseq (a n p : Z) :
  0 <= a -> a <= p < a + n -> existsb (Z.eqb p) (zseq a n) = true.
Proof.
  intros Ha Hp. apply existsb_exists. exists p. split.
  - apply In_zseq_iff; assumption.
  - apply Z.eqb_refl.
Qed.

(** What the decoder loads from the bitmap the encoder wrote, whatever
    follows it: the marked positions are the exception positions. *)
Lemma loaded_positions (vals rest : list Z) (n base_mask b : Z) :
  0 <= n <= 256 -> zlen vals = n -> bytes rest ->
  let pos := snd (split_exceptions vals 0 base_mask b) in
  let inp := write_bitmap (build_bitmap pos) n ++ rest in
  let K := u32 (n + 63) / 64 in
  let bitmap := load_bitmap (Z.to_nat K) 0 K n inp in
  Forall (fun w => 0 <= w < 2 ^ 64) bitmap /\ zlen bitmap <= 4 /\
  bitmap_positions bitmap 0 = pos /\
  zdrop (pad8 n) inp = rest.
Proof.
  intros Hn Hl Hrest. cbv zeta.
  rewrite split_positions_filter by lia. rewrite Hl.
  set (E := fun p => zget vals (p - 0) >? base_mask).
  set (pos := filter E (zseq 0 n)).
  assert (Hpos : Forall (fun q => 0 <= q < 256) pos).
  { apply Forall_forall. intros q Hq. apply filter_In in Hq.
    destruct Hq as (Hq & _). apply In_zseq_iff in Hq; lia. }
  destruct (write_bitmap_spec (build_bitmap pos) n Hn (zlen_build_bitmap pos))
    as (Hwb & Hwl & Hws).
  destruct (load_bitmap_bits n (write_bitmap (build_bitmap pos) n ++ rest) Hn
              (bytes_app _ _ Hwb Hrest)) as (HlK & HF & Hbits).
  destruct (words_for n Hn) as (EK & EP & HK & HPK & HnK & HnP).
  rewrite EK in *.
  set (bitmap := load_bitmap (Z.to_nat ((n + 63) / 64)) 0 ((n + 63) / 64) n
                   (write_bitmap (build_bitmap pos) n ++ rest)) in *.
  split; [exact HF|]. split; [lia|]. split.
  - rewrite bitmap_positions_filter by lia. rewrite HlK.
    replace (64 * 0) with 0 by lia.
    replace (64 * ((n + 63) / 64)) with (n + (64 * ((n + 63) / 64) - n)) by lia.
    rewrite zseq_app by lia. rewrite filter_app.
    rewrite (filter_all_false _ (zseq (0 + n) _)).
    + rewrite app_nil_r. apply filter_ext_In. intros p Hp.
      apply In_zseq_iff in Hp; [|lia].
      replace (p - 0) with p by lia.
      rewrite Hbits by lia.
      destruct (Z.ltb_spec p n); [|lia]. cbn [andb].
      rewrite sbit_app_l by (rewrite Hwl, EP; lia).
      rewrite Hws by lia. rewrite wbit_build_bitmap by (assumption || lia).
      unfold pos. rewrite existsb_eqb_filter.
      rewrite existsb_eqb_zseq by lia. apply andb_true_r.
    + intros p Hp. apply In_zseq_iff in Hp; [|lia].
      replace (p - 0) with p by lia.
      rewrite Hbits by lia.
      destruct (Z.ltb_spec p n); [lia|]. reflexivity.
  - apply zdrop_app_len. symmetry. exact Hwl.
Qed.

(** * Decoding what the scalar block encoder wrote *)

Lemma fits_of_Forall (B : Z) (vals : list Z) (n : Z) :
  Forall (fun v => 0 <= v < 2 ^ B) vals -> n <= zlen vals ->
  fits B vals 0 n.
Proof.
  intros HF Hn i Hi. apply (Forall_zget _ _ _ HF). lia.
Qed.

Lemma zlen_ztake_le {A} (l : list A) (n : Z) :
  0 <= n <= zlen l -> zlen (ztake n l) = n.
Proof. apply zlen_ztake. Qed.

Lemma bitmap_payload_roundtrip (inp rest : list Z) (n start b bx : Z) :
  0 <= n <= 256 -> n <= zlen inp -> 0 <= b <= 31 -> 1 <= bx <= 32 ->
  Forall (fun v => 0 <= v < 2 ^ (b + bx)) (ztake n inp) -> b + bx <= 32 ->
  bytes rest ->
  p4D1DecPayloadExceptions (p4Enc32PayloadExceptions inp n b bx ++ rest)
    n start b bx
  = Some (delta1_loop (ztake n inp) 0 start,
          zlen (p4Enc32PayloadExceptions inp n b bx)).
Proof.
  intros Hn Hlen Hb Hbx HF Hsum Hrest.
  unfold p4Enc32PayloadExceptions. cbv zeta. rewrite base_mask_ones by lia.
  set (vals := ztake n inp) in *.
  assert (Hvl : zlen vals = n) by (apply zlen_ztake; lia).
  assert (Hu : u32_list vals).
  { eapply Forall_impl; [|exact HF]. cbv beta. intros v Hv.
    assert (2 ^ (b + bx) <= 2 ^ 32) by (apply Z.pow_le_mono_r; lia).
    change (2 ^ 32) with 4294967296 in *. lia. }
  pose proof (split_exceptions_facts vals 0 b (b + bx) Hb ltac:(lia) ltac:(lia) HF)
    as Hfacts.
  pose proof (merge_split vals b [] [] Hb Hu) as Hmerge.
  change (zlen (@nil Z)) with 0 in Hmerge.
  assert (Hloaded := fun r => loaded_positions vals r n (Z.ones b) b Hn Hvl).
  cbv zeta in Hloaded.
  destruct (split_exceptions vals 0 (Z.ones b) b) as [[base ex] pos].
  cbn [snd app] in *.
  destruct Hfacts as (H1 & H2 & H3 & H4 & H5 & H6 & _).
  replace (b + bx - b) with bx in H5 by lia.
  destruct (Z.leb_spec bx MAX_BITS) as [_|Habs]; [|unfold MAX_BITS in Habs; lia].
  assert (Hfe : fits bx ex 0 (zlen ex)) by (apply fits_of_Forall; [exact H5|lia]).
  assert (Hfb : fits b base 0 n) by (apply fits_of_Forall; [exact H4|lia]).
  pose proof (zlen_nonneg ex) as Hexn.
  assert (Hbb : bytes (bitpack32Scalar base n b ++ rest)).
  { apply bytes_app; [|exact Hrest].
    apply bytes_bitpack32Scalar; [lia|lia|exact Hfb]. }
  assert (Hbe : bytes (bitpack32Scalar ex (zlen ex) bx
                       ++ bitpack32Scalar base n b ++ rest)).
  { apply bytes_app; [|exact Hbb].
    apply bytes_bitpack32Scalar; [lia|lia|exact Hfe]. }
  destruct (Hloaded _ Hbe) as (HF64 & Hl4 & Hpos & Hdrop).
  rewrite <- !app_assoc.
  unfold p4D1DecPayloadExceptions. cbv zeta.
  rewrite Hdrop.
  rewrite (count_exceptions_spec _ HF64 Hl4), Hpos, <- H2.
  rewrite (bitunpack_of_bitpack ex _ (zlen ex) bx) by (assumption || lia).
  rewrite zdrop_app_len by reflexivity.
  rewrite (bitunpack_of_bitpack base rest n b) by (assumption || lia).
  rewrite (patch_words_merge_at _ 0 b _ 0 _ HF64), Hpos.
  rewrite (ztake_all ex) by lia. rewrite (ztake_all base) by lia.
  rewrite Hmerge. rewrite (ztake_all vals) by lia.
  do 2 f_equal. rewrite !zlen_app.
  destruct (write_bitmap_spec (build_bitmap pos) n Hn (zlen_build_bitmap pos))
    as (_ & Hwl & _).
  rewrite Hwl. lia.
Qed.

(** * What the analyzer's choice implies for the layouts *)

Lemma zsum_map_le {A} (f g : A -> Z) (l : list A) :
  (forall x, In x l -> f x <= g x) -> zsum (map f l) <= zsum (map g l).
Proof.
  induction l as [|a l IH]; intros H; [reflexivity|].
  cbn [map]. rewrite !zsum_cons.
  pose proof (H a (or_introl eq_refl)).
  pose proof (IH (fun x Hx => H x (or_intror Hx))). lia.
Qed.

Lemma zsum_map_const {A} (c : Z) (l : list A) :
  zsum (map (fun _ => c) l) = c * zlen l.
Proof.
  induction l as [|a l IH]; [cbn; lia|].
  cbn [map]. rewrite zsum_cons, zlen_cons, IH. lia.
Qed.

Lemma zsum_indicator_le {A} (P : A -> bool) (l : list A) :
  zsum (map (fun v => if P v then 1 else 0) l) <= zlen l.
Proof.
  rewrite <- (Z.mul_1_l (zlen l)), <- (zsum_map_const 1 l).
  apply zsum_map_le. intros x _. destruct (P x); lia.
Qed.

Lemma zsum_indicator_full {A} (P : A -> bool) (l : list A) :
  zlen l <= zsum (map (fun v => if P v then 1 else 0) l) ->
  forall v, In v l -> P v = true.
Proof.
  induction l as [|a l IH]; intros H v Hv; [destruct Hv|].
  cbn [map] in H. rewrite zsum_cons, zlen_cons in H.
  pose proof (zsum_indicator_le P l) as Hle.
  destruct (P a) eqn:Ea; [|lia].
  destruct Hv as [->|Hv]; [exact Ea|]. apply IH; [lia|exact Hv].
Qed.

Lemma widths_bounded (inp : list Z) (n : Z) :
  u32_list inp ->
  forall v, In v (ztake n inp) ->
    bitWidth32 v <= bitWidth32 (fold_left Z.lor (ztake n inp) 0).
Proof.
  intros Hu.
  assert (Hnn : Forall (fun v => 0 <= v) (ztake n inp)).
  { apply Forall_ztake. eapply Forall_impl; [|exact Hu]. cbv beta. lia. }
  apply (bitWidth32_fold_lor (ztake n inp) 0 ltac:(lia) Hnn).
Qed.

Lemma candidate_vbyte_size_spec (inp : list Z) (n max_bits k : Z) :
  (forall v, In v (ztake n inp) -> bitWidth32 v <= max_bits) ->
  0 <= k < max_bits ->
  candidate_vbyte_size n max_bits (bit_width_histogram inp n) k
  = pad8 (n * k) + 2
    + zsum (map (fun v => if k <? bitWidth32 v
                          then 1 + vbyte_estimate (bitWidth32 v - k) else 0)
                (ztake n inp)).
Proof.
  intros Hwidth Hk. unfold candidate_vbyte_size, vbyte_size_at.
  destruct (head_counters inp n max_bits Hwidth (Z.to_nat (max_bits - 1 - k)))
    as (Hc & Ha & _).
  cbv zeta in Hc, Ha.
  replace (max_bits - 1 - Z.of_nat (Z.to_nat (max_bits - 1 - k))) with k
    in Hc, Ha by lia.
  rewrite Hc, Ha, <- Z.add_assoc, zsum_map_add. f_equal.
  apply zsum_map_ext. intros v _. destruct (k <? bitWidth32 v); lia.
Qed.

Lemma vbyte_estimate_drop8 (d : Z) :
  8 < d <= 32 -> 1 + vbyte_estimate (d - 8) <= vbyte_estimate d.
Proof.
  intros Hd. unfold vbyte_estimate.
  repeat match goal with
         | |- context [?a <=? ?b] => destruct (Z.leb_spec a b)
         end; lia.
Qed.

Lemma vbyte_estimate_pos (d : Z) : 1 <= vbyte_estimate d.
Proof.
  unfold vbyte_estimate.
  repeat match goal with
         | |- context [?a <=? ?b] => destruct (Z.leb_spec a b)
         end; lia.
Qed.

Lemma pad8_256 (k : Z) : 0 <= k <= 32 -> pad8 (256 * k) = 32 * k.
Proof.
  intros Hk. rewrite pad8_spec by lia. Z.div_mod_to_equations. lia.
Qed.

(** A block of 256 values all of which are exceptions is never given the
    vbyte layout: the candidate eight bits wider, or plain packing, is not
    more expensive. *)
Lemma vbyte_count_bound (inp : list Z) (n b : Z) :
  0 <= n <= 256 -> n <= zlen inp -> u32_list inp ->
  let max_bits := bitWidth32 (fold_left Z.lor (ztake n inp) 0) in
  let cnt := bit_width_histogram inp n in
  0 <= b < max_bits ->
  candidate_vbyte_size n max_bits cnt b <= pad8 (n * max_bits) + 1 ->
  (forall k, b < k < max_bits ->
     candidate_vbyte_size n max_bits cnt b
     < candidate_vbyte_size n max_bits cnt k) ->
  zsum (map (fun v => if b <? bitWidth32 v then 1 else 0) (ztake n inp)) <= 255.
Proof.
  intros Hn Hlen Hu max_bits cnt Hb H0 Hk.
  pose proof (widths_bounded inp n Hu) as Hwidth. fold max_bits in Hwidth.
  pose proof (max_bits_range inp n Hu) as Hmax. fold max_bits in Hmax.
  set (vals := ztake n inp) in *.
  assert (Hvl : zlen vals = n) by (apply zlen_ztake; lia).
  pose proof (zsum_indicator_le (fun v => b <? bitWidth32 v) vals) as Hle.
  cbv beta in Hle.
  destruct (Z.le_gt_cases
              (zsum (map (fun v => if b <? bitWidth32 v then 1 else 0) vals))
              255) as [|Hbig]; [assumption|exfalso].
  assert (Hn256 : n = 256) by lia.
  assert (Hall : forall v, In v vals -> (b <? bitWidth32 v) = true).
  { apply (zsum_indicator_full (fun v => b <? bitWidth32 v)). cbv beta. lia. }
  unfold cnt in *.
  rewrite (candidate_vbyte_size_spec inp n max_bits b Hwidth Hb) in H0.
  fold vals in H0.
  destruct (Z.le_gt_cases max_bits (b + 8)) as [Hnear|Hfar].
  - assert (Hsum : 2 * zlen vals
                   <= zsum (map (fun v => if b <? bitWidth32 v
                                   then 1 + vbyte_estimate (bitWidth32 v - b)
                                   else 0) vals)).
    { rewrite <- (zsum_map_const 2 vals). apply zsum_map_le. intros v Hv.
      rewrite (Hall v Hv). pose proof (vbyte_estimate_pos (bitWidth32 v - b)).
      lia. }
    rewrite Hn256, !pad8_256 in H0 by lia. lia.
  - specialize (Hk (b + 8) ltac:(lia)).
    rewrite (candidate_vbyte_size_spec inp n max_bits b Hwidth Hb) in Hk.
    rewrite (candidate_vbyte_size_spec inp n max_bits (b + 8) Hwidth) in Hk
      by lia.
    fold vals in Hk.
    assert (Hsum : zlen vals
                   + zsum (map (fun v => if b + 8 <? bitWidth32 v
                                 then 1 + vbyte_estimate (bitWidth32 v - (b + 8))
                                 else 0) vals)
                   <= zsum (map (fun v => if b <? bitWidth32 v
                                   then 1 + vbyte_estimate (bitWidth32 v - b)
                                   else 0) vals)).
    { rewrite <- (Z.mul_1_l (zlen vals)), <- (zsum_map_const 1 vals).
      rewrite zsum_map_add. apply zsum_map_le. intros v Hv.
      rewrite (Hall v Hv).
      destruct (Z.ltb_spec (b + 8) (bitWidth32 v)) as [Hw|Hw].
      - pose proof (Hwidth v Hv) as Hwv.
        pose proof (vbyte_estimate_drop8 (bitWidth32 v - b) ltac:(lia)) as Hd.
        replace (bitWidth32 v - b - 8) with (bitWidth32 v - (b + 8)) in Hd
          by lia.
        lia.
      - pose proof (vbyte_estimate_pos (bitWidth32 v - b)). lia. }
    rewrite Hn256, !pad8_256 in Hk by lia. lia.
Qed.

(** * The four layouts of a scalar block, decoded *)

Lemma header_flag_bit6 (b : Z) :
  0 <= b <= 32 ->
  Z.land (192 + b) 0x40 = 0x40 /\ Z.land (64 + b) 0x40 = 0x40.
Proof.
  revert b. apply (Z_range_nat _ 32). intros k Hk.
  do 33 (range_case k). lia.
Qed.

Lemma zdrop_1_cons {A} (x : A) (l : list A) : zdrop 1 (x :: l) = l.
Proof. reflexivity. Qed.

Lemma ztake_app_len {A} (l r : list A) (k : Z) :
  k = zlen l -> ztake k (l ++ r) = l.
Proof.
  intros ->. unfold ztake, zlen. rewrite Nat2Z.id.
  rewrite firstn_app, Nat.sub_diag, firstn_all. cbn [firstn].
  apply app_nil_r.
Qed.

Lemma map_u8_small (l : list Z) :
  Forall (fun p => 0 <= p < 256) l -> map u8 l = l.
Proof.
  induction 1 as [|p l Hp HF IH]; [reflexivity|].
  cbn [map]. rewrite IH, u8_small by lia. reflexivity.
Qed.

Lemma bytes_map_u8 (l : list Z) : bytes (map u8 l).
Proof.
  induction l as [|p l IH]; [constructor|].
  cbn [map]. constructor; [apply u8_range|exact IH].
Qed.

Lemma bytes_storeU32 (v : Z) : bytes (storeU32 v).
Proof. unfold storeU32. repeat constructor; apply u8_range. Qed.

Lemma bytes_flat_map (f : Z -> list Z) (l : list Z) :
  (forall v, bytes (f v)) -> bytes (flat_map f l).
Proof.
  intros H. induction l as [|v l IH]; [constructor|].
  cbn [flat_map]. apply bytes_app; [apply H|exact IH].
Qed.

Lemma bytes_vbPut32 (v : Z) : bytes (vbPut32 v).
Proof.
  unfold vbPut32. cbv zeta.
  repeat match goal with
         | |- context [if ?c then _ else _] => destruct c
         end;
    repeat (constructor; try apply u8_range); apply bytes_storeU32.
Qed.

Lemma bytes_vbEnc32 (l : list Z) (n : Z) : bytes (vbEnc32 l n).
Proof.
  unfold vbEnc32. cbv zeta.
  destruct (_ >? _).
  - constructor; [unfold VBYTE_ESCAPE_UNCOMPRESSED; lia|].
    unfold copyU32ArrayToLe. apply bytes_flat_map, bytes_storeU32.
  - apply bytes_flat_map, bytes_vbPut32.
Qed.

Lemma vbDec32_vbEnc32 (l rest : list Z) :
  u32_list l ->
  vbDec32 (vbEnc32 l (zlen l) ++ rest) (zlen l)
  = (l, zlen (vbEnc32 l (zlen l))).
Proof.
  intros Hl. set (n := zlen l). set (encoded := flat_map vbPut32 l).
  assert (Hesc : zlen encoded + 32 > 4 * n ->
                 vbEnc32 l n = 0xFF :: flat_map storeU32 l).
  { intros H. unfold vbEnc32, copyU32ArrayToLe.
    rewrite ztake_all by (subst n; lia). fold encoded.
    destruct (Z.gtb_spec (zlen encoded + 32) (n * 4)); [reflexivity | lia]. }
  assert (Hraw : zlen encoded + 32 <= 4 * n -> vbEnc32 l n = encoded).
  { intros H. unfold vbEnc32.
    rewrite ztake_all by (subst n; lia). fold encoded.
    destruct (Z.gtb_spec (zlen encoded + 32) (n * 4)); [lia | reflexivity]. }
  assert (Hne : zlen encoded + 32 <= 4 * n -> l <> []).
  { intros H ->. subst n encoded. cbv in H. congruence. }
  unfold vbDec32, VBYTE_ESCAPE_UNCOMPRESSED.
  destruct (Z.le_gt_cases (zlen encoded + 32) (4 * n)) as [H|H].
  - rewrite Hraw by assumption.
    assert (Hf : zget (encoded ++ rest) 0 = zget encoded 0).
    { pose proof (Hne H). subst encoded. destruct l as [|v l']; [congruence|].
      inversion Hl as [|? ? Hv Hl']; subst. cbn [flat_map].
      pose proof (vbPut32_len v Hv) as Hlen.
      destruct (vbPut32 v) as [|b0 t]; [cbv [zlen length] in Hlen; lia|].
      reflexivity. }
    rewrite Hf.
    pose proof (flat_map_vbPut32_first l Hl (Hne H)) as Hb. fold encoded in Hb.
    destruct (Z.eqb_spec (zget encoded 0) 255); [lia|].
    subst n. unfold zlen at 1. rewrite Nat2Z.id.
    apply vbDec32_loop_flat_map. assumption.
  - rewrite Hesc by lia. cbn [app]. rewrite zget_cons_0.
    change (255 =? 255) with true. cbv iota.
    rewrite zdrop_cons, zdrop_0 by lia.
    unfold copyU32ArrayFromLe. subst n. unfold zlen at 1. rewrite Nat2Z.id.
    rewrite copyU32ArrayFromLe_aux_flat_map by assumption.
    rewrite zlen_cons, zlen_flat_map_storeU32. f_equal. lia.
Qed.

Lemma fold_lor_zero (l : list Z) :
  Forall (fun v => 0 <= v) l -> fold_left Z.lor l 0 = 0 ->
  Forall (fun v => v = 0) l.
Proof.
  intros Hnn H0. apply Forall_forall. intros v Hv.
  destruct (bitWidth32_fold_lor l 0 ltac:(lia) Hnn) as (_ & Hw).
  specialize (Hw v Hv). rewrite H0 in Hw.
  destruct (Z.eq_dec v 0) as [E|E]; [exact E|].
  pose proof (bitWidth32_pos v E). change (bitWidth32 0) with 0 in Hw. lia.
Qed.

Lemma equal_count_le (f : Z) (l : list Z) (c : Z) :
  fold_left (fun c v => c + (if v =? f then 1 else 0)) l c <= c + zlen l.
Proof.
  revert c. induction l as [|v l IH]; intros c.
  - cbn [fold_left]. rewrite zlen_nil. lia.
  - cbn [fold_left]. rewrite zlen_cons.
    specialize (IH (c + (if v =? f then 1 else 0))).
    destruct (v =? f); lia.
Qed.

Lemma equal_count_all (f : Z) (l : list Z) (c : Z) :
  fold_left (fun c v => c + (if v =? f then 1 else 0)) l c = c + zlen l ->
  Forall (fun v => v = f) l.
Proof.
  revert c. induction l as [|v l IH]; intros c H; [constructor|].
  cbn [fold_left] in H. rewrite zlen_cons in H.
  pose proof (equal_count_le f l (c + (if v =? f then 1 else 0))) as Hle.
  destruct (Z.eqb_spec v f) as [E|E]; [|lia].
  constructor; [exact E|]. apply (IH (c + 1)). lia.
Qed.

Lemma constant_list (f : Z) (l : list Z) :
  Forall (fun v => v = f) l -> l = map (fun _ => f) (zseq 0 (zlen l)).
Proof.
  intros HF. pose proof (zlen_nonneg l).
  apply list_eq_zget; [rewrite zlen_map, zlen_zseq; lia|].
  intros k Hk. rewrite zget_map_zseq by lia.
  apply (Forall_zget _ _ _ HF). lia.
Qed.

Lemma testbit_loadU24_sbit (l : list Z) (t : Z) :
  bytes l -> 0 <= t -> Z.testbit (loadU24 l) t = (t <? 24) && sbit l t.
Proof.
  intros Hb Ht. unfold loadU24.
  pose proof (zget_bytes l 2 Hb).
  rewrite Z.lor_spec, testbit_loadU16_sbit by assumption.
  rewrite (testbit_shiftl_byte (zget l 2) 16 t) by lia.
  change (16 + 8) with 24.
  destruct (Z.ltb_spec t 16).
  - destruct (Z.leb_spec 16 t); [lia|]. destruct (Z.ltb_spec t 24); [|lia].
    cbn [andb]. apply orb_false_r.
  - cbn [andb orb]. destruct (Z.leb_spec 16 t); [|lia].
    destruct (Z.ltb_spec t 24); cbn [andb]; [|reflexivity].
    unfold sbit. f_equal; [f_equal|]; Z.div_mod_to_equations; lia.
Qed.

Lemma store_low_bytes_le_bytes (k v : Z) : store_low_bytes k v = le_bytes k v.
Proof.
  unfold store_low_bytes, le_bytes. apply map_ext. intros i.
  rewrite Z.mul_comm. reflexivity.
Qed.

Lemma load_le_bytes_small (k v : Z) (rest : list Z) (load : list Z -> Z) :
  1 <= k ->
  (forall l t, bytes l -> 0 <= t ->
               Z.testbit (load l) t = (t <? 8 * k) && sbit l t) ->
  bytes rest -> 0 <= v < 2 ^ (8 * k) ->
  load (le_bytes k v ++ rest) = v.
Proof.
  intros Hk Hload Hrest Hv. apply Z.bits_inj'. intros t Ht.
  rewrite (testbit_load_le_bytes k v t rest load) by (assumption || lia).
  rewrite Z.mod_small by lia. reflexivity.
Qed.

Lemma plain_layout_decoded (inp rest : list Z) (n b start : Z) :
  0 <= b <= 32 -> 0 <= n <= zlen inp -> fits b inp 0 n -> bytes rest ->
  p4D1Dec32 (b :: bitpack32Scalar inp n b ++ rest) n start
  = Some (delta1_loop (ztake n inp) 0 start,
          1 + zlen (bitpack32Scalar inp n b)).
Proof.
  intros Hb Hn Hfit Hrest.
  destruct (header_flag_bits b Hb) as (_ & H0 & _).
  unfold p4D1Dec32. cbv zeta. rewrite zget_cons_0, zdrop_1_cons, H0.
  change (0 =? 0) with true. cbv iota.
  unfold bitunpackd1_32Scalar.
  rewrite bitunpack_dispatch_fused by lia.
  change (bitunpack_dispatch false (bitpack32Scalar inp n b ++ rest) n 0 b)
    with (bitunpack32Scalar (bitpack32Scalar inp n b ++ rest) n b).
  rewrite bitunpack_of_bitpack by assumption. reflexivity.
Qed.

Lemma bitmap_layout_decoded (inp rest : list Z) (n start b bx : Z) :
  0 <= n <= 256 -> n <= zlen inp -> 0 <= b <= 31 -> 1 <= bx <= 32 ->
  Forall (fun v => 0 <= v < 2 ^ (b + bx)) (ztake n inp) -> b + bx <= 32 ->
  bytes rest ->
  p4D1Dec32 ((128 + b) :: bx :: p4Enc32PayloadExceptions inp n b bx ++ rest)
    n start
  = Some (delta1_loop (ztake n inp) 0 start,
          2 + zlen (p4Enc32PayloadExceptions inp n b bx)).
Proof.
  intros Hn Hlen Hb Hbx HF Hsum Hrest.
  destruct (header_flag_bits b ltac:(lia))
    as (_ & _ & _ & H1 & H2 & H3 & _).
  unfold p4D1Dec32. cbv zeta.
  rewrite zget_cons_0, !zdrop_1_cons, zget_cons_0, H1, H2, H3.
  change (128 =? 0) with false. change (0 =? 0) with true. cbv iota.
  destruct (Z.eqb_spec bx 0) as [E|_]; [lia|].
  rewrite bitmap_payload_roundtrip by assumption. reflexivity.
Qed.

Lemma vbyte_layout_decoded (inp rest : list Z) (n start b : Z) :
  0 <= n <= 256 -> n <= zlen inp -> 0 <= b <= 31 -> u32_list inp ->
  zsum (map (fun v => if b <? bitWidth32 v then 1 else 0) (ztake n inp))
  <= 255 ->
  bytes rest ->
  p4D1Dec32 ((64 + b) :: p4Enc32PayloadExceptions inp n b 33 ++ rest) n start
  = Some (delta1_loop (ztake n inp) 0 start,
          1 + zlen (p4Enc32PayloadExceptions inp n b 33)).
Proof.
  intros Hn Hlen Hb Hu Hcount Hrest.
  destruct (header_flag_bits b ltac:(lia))
    as (_ & _ & _ & _ & _ & _ & _ & H1 & H2 & _).
  destruct (header_flag_bit6 b ltac:(lia)) as (_ & H3).
  unfold p4Enc32PayloadExceptions. cbv zeta. rewrite base_mask_ones by lia.
  set (vals := ztake n inp) in *.
  assert (Hvl : zlen vals = n) by (apply zlen_ztake; lia).
  assert (Hvu : u32_list vals) by (apply Forall_ztake; exact Hu).
  assert (HF : Forall (fun v => 0 <= v < 2 ^ 32) vals) by exact Hvu.
  pose proof (split_exceptions_facts vals 0 b 32 Hb ltac:(lia) ltac:(lia) HF)
    as Hfacts.
  pose proof (merge_split vals b [] [] Hb Hvu) as Hmerge.
  change (zlen (@nil Z)) with 0 in Hmerge.
  destruct (split_exceptions vals 0 (Z.ones b) b) as [[base ex] pos].
  cbn [app] in Hmerge.
  destruct Hfacts as (F1 & F2 & F3 & F4 & F5 & F6 & F7).
  rewrite <- F7 in Hcount.
  change (33 <=? MAX_BITS) with false. cbv iota.
  pose proof (zlen_nonneg ex) as Hexn.
  rewrite u8_small by lia.
  assert (Hfb : fits b base 0 n) by (apply fits_of_Forall; [exact F4|lia]).
  assert (Hexu : u32_list ex).
  { eapply Forall_impl; [|exact F5]. cbv beta. intros e He.
    assert (2 ^ (32 - b) <= 2 ^ 32) by (apply Z.pow_le_mono_r; lia).
    change (2 ^ 32) with 4294967296 in *. lia. }
  assert (Hpos : map u8 pos = pos).
  { apply map_u8_small. eapply Forall_impl; [|exact F6]. cbv beta. lia. }
  assert (Hr2 : bytes (map u8 pos ++ rest))
    by (apply bytes_app; [apply bytes_map_u8|exact Hrest]).
  assert (Hr1 : bytes (vbEnc32 ex (zlen ex) ++ map u8 pos ++ rest))
    by (apply bytes_app; [apply bytes_vbEnc32|exact Hr2]).
  cbn [app]. rewrite <- !app_assoc.
  unfold p4D1Dec32. cbv zeta.
  rewrite zget_cons_0, !zdrop_1_cons, zget_cons_0, H1, H2, H3.
  change (64 =? 0) with false. change (64 =? 192) with false. cbv iota.
  rewrite (bitunpack_of_bitpack base _ n b) by (assumption || lia).
  rewrite zdrop_app_len by reflexivity.
  rewrite (vbDec32_vbEnc32 ex _ Hexu).
  rewrite zdrop_app_len by reflexivity.
  rewrite Hpos, (ztake_app_len pos rest) by lia.
  rewrite (ztake_all base) by lia.
  rewrite (merge_positions_merge_at [] ex pos) by lia.
  change (zlen (@nil Z)) with 0. cbn [app]. rewrite Hmerge.
  rewrite (ztake_all vals) by lia.
  do 2 f_equal. rewrite zlen_cons, !zlen_app. lia.
Qed.

Lemma constant_layout_decoded (v b n start : Z) (rest : list Z) :
  1 <= b <= 32 -> 0 <= v < 2 ^ b -> bytes rest ->
  let payload :=
    if b =? 32 then storeU32 v
    else store_low_bytes ((b + 7) / 8) (Z.land v (u32 (shl32 1 b - 1))) in
  p4D1Dec32 ((192 + b) :: payload ++ rest) n start
  = Some (delta1_loop (map (fun _ => v) (zseq 0 n)) 0 start,
          1 + zlen payload).
Proof.
  intros Hb Hv Hrest.
  destruct (header_flag_bits b ltac:(lia))
    as (_ & _ & _ & _ & _ & _ & _ & _ & _ & _ & H1 & H2).
  destruct (header_flag_bit6 b ltac:(lia)) as (H3 & _).
  assert (Hk : 1 <= (b + 7) / 8 <= 4 /\ b <= 8 * ((b + 7) / 8))
    by (Z.div_mod_to_equations; lia).
  set (k := (b + 7) / 8) in *.
  assert (Hpay : (if b =? 32 then storeU32 v
                  else store_low_bytes k (Z.land v (u32 (shl32 1 b - 1))))
                 = le_bytes k v).
  { destruct (Z.eqb_spec b 32) as [->|Hne].
    - rewrite storeU32_le_bytes. reflexivity.
    - rewrite base_mask_ones by lia. rewrite Z.land_ones by lia.
      rewrite Z.mod_small by lia. apply store_low_bytes_le_bytes. }
  cbv zeta. rewrite Hpay. rewrite zlen_le_bytes by lia.
  assert (Hv8 : 0 <= v < 2 ^ (8 * k)).
  { split; [lia|]. apply Z.lt_le_trans with (2 ^ b); [lia|].
    apply Z.pow_le_mono_r; lia. }
  unfold p4D1Dec32. cbv zeta.
  rewrite zget_cons_0, !zdrop_1_cons, H1, H2, H3.
  change (192 =? 0) with false. change (64 =? 0) with false.
  change (192 =? 192) with true. cbv iota.
  fold k.
  assert (Hmask : u32 (Z.land v (u64 (shl64 1 b - 1))) = v).
  { unfold shl64. rewrite Z.shiftl_1_l.
    assert (0 < 2 ^ b < 2 ^ 64).
    { split; [apply Z.pow_pos_nonneg; lia|apply Z.pow_lt_mono_r; lia]. }
    assert (2 ^ b <= 2 ^ 32) by (apply Z.pow_le_mono_r; lia).
    change (2 ^ 64) with 18446744073709551616 in *.
    change (2 ^ 32) with 4294967296 in *.
    rewrite (u64_small (2 ^ b)) by lia. rewrite u64_small by lia.
    replace (2 ^ b - 1) with (Z.ones b) by (rewrite Z.ones_equiv; lia).
    rewrite Z.land_ones by lia. rewrite Z.mod_small by lia.
    apply u32_small. lia. }
  assert (C : k = 1 \/ k = 2 \/ k = 3 \/ k = 4) by lia.
  destruct C as [E|[E|[E|E]]]; rewrite E in *.
  - change (1 =? 1) with true. cbv iota.
    rewrite (load_le_bytes_small 1 v rest (fun l => zget l 0))
      by (try assumption; try lia; apply testbit_byte_sbit).
    rewrite Hmask. reflexivity.
  - change (2 =? 1) with false. change (2 =? 2) with true. cbv iota.
    rewrite (load_le_bytes_small 2 v rest loadU16)
      by (try assumption; try lia; apply testbit_loadU16_sbit).
    rewrite Hmask. reflexivity.
  - change (3 =? 1) with false. change (3 =? 2) with false.
    change (3 =? 3) with true. cbv iota.
    rewrite (load_le_bytes_small 3 v rest loadU24)
      by (try assumption; try lia; apply testbit_loadU24_sbit).
    rewrite Hmask. reflexivity.
  - change (4 =? 1) with false. change (4 =? 2) with false.
    change (4 =? 3) with false. change (4 =? 4) with true. cbv iota.
    rewrite (load_le_bytes_small 4 v rest loadU32)
      by (try assumption; try lia; apply testbit_loadU32_sbit).
    rewrite Hmask. reflexivity.
Qed.

(** * The scalar block codec: decoding what was encoded *)

Lemma writeHeader_forms (b : Z) :
  0 <= b <= 32 ->
  writeHeader b 0 = [b] /\
  (forall bx, 1 <= bx <= 32 -> writeHeader b bx = [128 + b; bx]) /\
  writeHeader b 33 = [64 + b] /\
  writeHeader b 34 = [192 + b].
Proof.
  intros Hb.
  destruct (header_flag_bits b Hb)
    as (H1 & _ & H2 & _ & _ & _ & H3 & _ & _ & H4 & _).
  unfold writeHeader, MAX_BITS. cbn [Z.eqb Z.leb Z.compare Pos.compare Pos.eqb Z.add Pos.add Pos.succ Pos.compare_cont].
  rewrite H1, H3, H4. repeat split.
  intros bx Hbx. destruct (Z.eqb_spec bx 0); [lia|].
  destruct (Z.leb_spec bx 32); [|lia].
  rewrite H2, u8_small by lia. reflexivity.
Qed.

Lemma p4Enc32Payload_forms (inp : list Z) (n b : Z) :
  (1 <= b -> p4Enc32Payload inp n b 0 = bitpack32Scalar inp n b) /\
  (forall bx, 1 <= bx <= 33 ->
     p4Enc32Payload inp n b bx = p4Enc32PayloadExceptions inp n b bx) /\
  p4Enc32Payload inp n b 34
  = if b =? 32 then storeU32 (zget inp 0)
    else store_low_bytes ((b + 7) / 8)
           (Z.land (zget inp 0) (u32 (shl32 1 b - 1))).
Proof.
  unfold p4Enc32Payload, MAX_BITS. repeat split.
  - intros Hb. destruct (Z.eqb_spec b 0); [lia|]. reflexivity.
  - intros bx Hbx. destruct (Z.eqb_spec bx 0); [lia|].
    rewrite andb_false_r. destruct (Z.eqb_spec bx (32 + 2)); [lia|].
    reflexivity.
  - rewrite andb_false_r. reflexivity.
Qed.

(** The ways the analyzer returns, with what each says about the block. *)
Lemma p4Bits32_layout (inp : list Z) (n : Z) :
  0 <= n <= zlen inp ->
  let vals := ztake n inp in
  let max_bits := bitWidth32 (fold_left Z.lor vals 0) in
  let cnt := bit_width_histogram inp n in
  (fold_left Z.lor vals 0 = 0 /\ p4Bits32 inp n = (0, 0)) \/
  (fold_left Z.lor vals 0 <> 0 /\
   Forall (fun v => v = zget inp 0) vals /\
   p4Bits32 inp n = (max_bits, 34)) \/
  (fold_left Z.lor vals 0 <> 0 /\
   exists st,
     candidates_invariant n max_bits cnt 0 st /\
     p4Bits32 inp n
     = (optimal_base_bits st,
        if use_vbyte_exceptions st =? 0
        then max_bits - optimal_base_bits st else 33)).
Proof.
  intros Hn vals max_bits cnt. unfold p4Bits32. cbv zeta.
  fold vals. fold max_bits. fold cnt.
  destruct (Z.eqb_spec (fold_left Z.lor vals 0) 0) as [E|E]; [left; auto|].
  destruct (Z.eqb_spec
              (fold_left (fun c v => c + (if v =? zget inp 0 then 1 else 0))
                 vals 0) n) as [Eq|_].
  - right; left. split; [exact E|]. split; [|reflexivity].
    apply (equal_count_all (zget inp 0) vals 0).
    rewrite Eq. unfold vals. rewrite zlen_ztake by lia. lia.
  - right; right. split; [exact E|].
    eexists. split; [|reflexivity].
    apply loop_invariant. apply bitWidth32_pos. exact E.
Qed.

Lemma values_fit (inp : list Z) (n : Z) :
  u32_list inp ->
  Forall (fun v => 0 <= v < 2 ^ bitWidth32 (fold_left Z.lor (ztake n inp) 0))
    (ztake n inp).
Proof.
  intros Hu. apply Forall_forall. intros v Hv.
  pose proof (widths_bounded inp n Hu v Hv) as Hw.
  assert (H0 : 0 <= v).
  { pose proof (Forall_ztake _ inp n Hu) as Hf. rewrite Forall_forall in Hf.
    specialize (Hf v Hv). cbv beta in Hf. lia. }
  split; [exact H0|].
  apply bitWidth32_le_iff; [exact H0|apply bitWidth32_nonneg|exact Hw].
Qed.

Lemma fits_ztake (B : Z) (inp : list Z) (n : Z) :
  Forall (fun v => 0 <= v < 2 ^ B) (ztake n inp) -> 0 <= n <= zlen inp ->
  fits B inp 0 n.
Proof.
  intros HF Hn i Hi. rewrite <- (zget_ztake inp n i) by lia.
  apply (Forall_zget _ _ _ HF). rewrite zlen_ztake by lia. lia.
Qed.

Lemma p4Enc32_decoded (inp rest : list Z) (n start : Z) :
  0 <= n <= 256 -> n <= zlen inp -> u32_list inp -> bytes rest ->
  p4D1Dec32 (p4Enc32 inp n ++ rest) n start
  = Some (delta1_loop (ztake n inp) 0 start, zlen (p4Enc32 inp n)).
Proof.
  intros Hn Hlen Hu Hrest.
  pose proof (values_fit inp n Hu) as Hfit.
  pose proof (max_bits_range inp n Hu) as Hmax.
  assert (Hvl : zlen (ztake n inp) = n) by (apply zlen_ztake; lia).
  unfold p4Enc32.
  destruct (p4Bits32_layout inp n ltac:(lia))
    as [(E & H)|[(E & Hconst & H)|(E & st & Hinv & H)]];
    rewrite H; clear H.
  - (* all values are zero *)
    rewrite E in Hfit. change (bitWidth32 0) with 0 in Hfit.
    change (writeHeader 0 0 ++ p4Enc32Payload inp n 0 0)
      with (0 :: bitpack32Scalar inp n 0).
    change ((0 :: bitpack32Scalar inp n 0) ++ rest)
      with (0 :: bitpack32Scalar inp n 0 ++ rest).
    rewrite plain_layout_decoded;
      [rewrite zlen_cons; reflexivity|lia|lia| |exact Hrest].
    apply fits_ztake; [exact Hfit|lia].
  - (* a constant block *)
    set (max_bits := bitWidth32 (fold_left Z.lor (ztake n inp) 0)) in *.
    assert (Hb1 : 1 <= max_bits) by (apply bitWidth32_pos; exact E).
    assert (Hn1 : 1 <= n).
    { destruct (Z.eq_dec n 0) as [->|]; [|lia]. exfalso. apply E.
      reflexivity. }
    assert (Hv : 0 <= zget inp 0 < 2 ^ max_bits).
    { rewrite <- (zget_ztake inp n 0) by lia.
      apply (Forall_zget _ _ _ Hfit). lia. }
    destruct (writeHeader_forms max_bits ltac:(lia)) as (_ & _ & _ & ->).
    destruct (p4Enc32Payload_forms inp n max_bits) as (_ & _ & ->).
    cbn [app].
    pose proof (constant_layout_decoded (zget inp 0) max_bits n start rest
                  ltac:(lia) Hv Hrest) as Hdec.
    cbv zeta in Hdec. rewrite Hdec.
    rewrite (constant_list _ _ Hconst) at 1. rewrite Hvl, zlen_cons.
    reflexivity.
  - set (max_bits := bitWidth32 (fold_left Z.lor (ztake n inp) 0)) in *.
    assert (Hb1 : 1 <= max_bits) by (apply bitWidth32_pos; exact E).
    destruct Hinv as (Hm0 & Hall & Hsel & Hlt0 & Hlt).
    cbv zeta in Hm0, Hall, Hsel, Hlt0, Hlt.
    destruct Hsel as [(Eo & Eu & Em)|[(Ho & Eu & Em & Hv)|(Ho & Eu & Em & Hp)]];
      rewrite Eu.
    + (* plain packing at the widest width *)
      rewrite Eo. change (0 =? 0) with true. cbv iota.
      replace (max_bits - max_bits) with 0 by lia.
      destruct (writeHeader_forms max_bits ltac:(lia)) as (-> & _).
      rewrite (proj1 (p4Enc32Payload_forms inp n max_bits)) by lia.
      cbn [app].
      rewrite plain_layout_decoded;
        [rewrite zlen_cons; reflexivity|lia|lia| |exact Hrest].
      apply fits_ztake; [exact Hfit|lia].
    + (* bitmap patching *)
      change (0 =? 0) with true. cbv iota.
      set (b := optimal_base_bits st) in *.
      rewrite (proj1 (proj2 (writeHeader_forms b ltac:(lia)))) by lia.
      rewrite (proj1 (proj2 (p4Enc32Payload_forms inp n b))) by lia.
      cbn [app].
      rewrite bitmap_layout_decoded;
        [rewrite !zlen_cons; do 2 f_equal; lia|lia|lia|lia|lia| |lia|exact Hrest].
      replace (b + (max_bits - b)) with max_bits by lia. exact Hfit.
    + (* vbyte exceptions *)
      change (1 =? 0) with false. cbv iota.
      set (b := optimal_base_bits st) in *.
      destruct (writeHeader_forms b ltac:(lia)) as (_ & _ & -> & _).
      rewrite (proj1 (proj2 (p4Enc32Payload_forms inp n b))) by lia.
      cbn [app].
      rewrite vbyte_layout_decoded;
        [rewrite zlen_cons; reflexivity|lia|lia|lia|exact Hu| |exact Hrest].
      apply (vbyte_count_bound inp n b Hn Hlen Hu); fold max_bits.
      * lia.
      * rewrite <- Em. exact Hm0.
      * intros k Hk. rewrite <- Em. apply Hlt. lia.
Qed.

(** A block written by [p4Enc32] is read back by [p4D1Dec32]: for a block
    of [n <= 256] 32-bit values, followed by any bytes, the decoder
    returns the [n] values run through the delta1 accumulation
    [out[i] = (start += in[i]) + (i + 1)] and consumes exactly the bytes
    the encoder wrote, whichever of the four layouts (plain, bitmap
    patching, vbyte exceptions, constant) the analyzer chose. *)
Theorem p4Enc32_p4D1Dec32_roundtrip (inp rest : list Z) (n start : Z)
    (Hn : 0 <= n <= 256) (Hlen : n <= zlen inp) (Hu : u32_list inp)
    (Hrest : bytes rest) :
  p4D1Dec32 (p4Enc32 inp n ++ rest) n start
  = Some (delta1_loop (ztake n inp) 0 start, zlen (p4Enc32 inp n)) /\
  zlen (delta1_loop (ztake n inp) 0 start) = n /\
  1 <= zlen (p4Enc32 inp n).
Proof.
  split; [apply p4Enc32_decoded; assumption|].
  split; [rewrite zlen_delta1_loop; apply zlen_ztake; lia|].
  unfold p4Enc32. destruct (p4Bits32 inp n) as [b bx].
  rewrite zlen_app. pose proof (zlen_nonneg (p4Enc32Payload inp n b bx)).
  assert (1 <= zlen (writeHeader b bx)); [|lia].
  unfold writeHeader. destruct (bx =? 0); [rewrite zlen_cons; cbn; lia|].
  destruct (bx <=? MAX_BITS); rewrite !zlen_cons; cbn; lia.
Qed.

Lemma p4Enc32_p4D1Dec32_roundtrip_witness :
  p4D1Dec32 (p4Enc32 [1; 2; 3; 1000] 4 ++ [7]) 4 0
  = Some (delta1_loop (ztake 4 [1; 2; 3; 1000]) 0 0,
          zlen (p4Enc32 [1; 2; 3; 1000] 4)).
Proof.
  assert (Hlen : 4 <= zlen [1; 2; 3; 1000]) by (unfold zlen; simpl; lia).
  assert (Hu : u32_list [1; 2; 3; 1000]) by (repeat constructor; lia).
  assert (Hrest : bytes [7]) by (repeat constructor; lia).
  exact (proj1 (p4Enc32_p4D1Dec32_roundtrip [1; 2; 3; 1000] [7] 4 0
                  ltac:(lia) Hlen Hu Hrest)).
Defined.

Lemma vbyte_selected (inp : list Z) (n b : Z) :
  0 <= n <= 256 -> n <= zlen inp -> u32_list inp ->
  p4Bits32 inp n = (b, 33) ->
  0 <= b <= 31 /\
  zsum (map (fun v => if b <? bitWidth32 v then 1 else 0) (ztake n inp))
  <= 255.
Proof.
  intros Hn Hlen Hu Hsel.
  pose proof (max_bits_range inp n Hu) as Hmax.
  destruct (p4Bits32_layout inp n ltac:(lia))
    as [(E & H)|[(E & Hconst & H)|(E & st & Hinv & H)]];
    rewrite H in Hsel; clear H; try discriminate Hsel.
  set (max_bits := bitWidth32 (fold_left Z.lor (ztake n inp) 0)) in *.
  destruct Hinv as (Hm0 & Hall & Hs & Hlt0 & Hlt).
  cbv zeta in Hm0, Hall, Hs, Hlt0, Hlt.
  injection Hsel as Eb Ebx.
  destruct Hs as [(Eo & Eu & Em)|[(Ho & Eu & Em & Hv)|(Ho & Eu & Em & Hp)]];
    rewrite Eu in Ebx.
  - change (0 =? 0) with true in Ebx. cbv iota in Ebx. lia.
  - change (0 =? 0) with true in Ebx. cbv iota in Ebx. lia.
  - rewrite Eb in *. split; [lia|].
    apply (vbyte_count_bound inp n b Hn Hlen Hu); fold max_bits.
    + lia.
    + rewrite <- Em. exact Hm0.
    + intros k Hk. rewrite <- Em. apply Hlt. lia.
Qed.

(** The vbyte layout stores the number of exceptions in one byte.  For a
    block of at most 256 values the analyzer never selects vbyte
    exceptions ([bx = 33]) at a base width at which all 256 values would be
    exceptions: the exceptions that [p4Enc32PayloadExceptions] splits off
    number at most 255, so the count byte holds their number, and the
    positions stored after them are bytes as well. *)
Theorem vbyte_exception_count_fits_byte (inp : list Z) (n b : Z)
    (Hn : 0 <= n <= 256) (Hlen : n <= zlen inp) (Hu : u32_list inp)
    (Hsel : p4Bits32 inp n = (b, 33)) :
  let '(base, exceptions, exception_positions) :=
    split_exceptions (ztake n inp) 0 (u32 (shl32 1 b - 1)) b in
  0 <= b <= 31 /\
  1 <= zlen exceptions <= 255 /\
  u8 (zlen exceptions) = zlen exceptions /\
  zlen exception_positions = zlen exceptions /\
  map u8 exception_positions = exception_positions.
Proof.
  destruct (vbyte_selected inp n b Hn Hlen Hu Hsel) as (Hb & Hcount).
  rewrite base_mask_ones by lia.
  assert (HF : Forall (fun v => 0 <= v < 2 ^ 32) (ztake n inp))
    by (apply Forall_ztake; exact Hu).
  pose proof (split_exceptions_facts (ztake n inp) 0 b 32 Hb ltac:(lia)
                ltac:(lia) HF) as Hfacts.
  assert (Hone : 1 <= zsum (map (fun v => if b <? bitWidth32 v then 1 else 0)
                              (ztake n inp))).
  { destruct (Z.le_gt_cases 1
                (zsum (map (fun v => if b <? bitWidth32 v then 1 else 0)
                         (ztake n inp)))) as [|Hz]; [assumption|exfalso].
    (* no exception: every width is at most [b], below the widest *)
    pose proof (max_bits_range inp n Hu) as Hmax.
    destruct (p4Bits32_layout inp n ltac:(lia))
      as [(E & H)|[(E & Hconst & H)|(E & st & Hinv & H)]];
      rewrite H in Hsel; clear H; try discriminate Hsel.
    destruct Hinv as (_ & _ & Hs & _).
    cbv zeta in Hs. injection Hsel as Eb Ebx.
    assert (Hlt : b < bitWidth32 (fold_left Z.lor (ztake n inp) 0)).
    { destruct Hs as [(Eo & Eu & _)|[(Ho & Eu & _)|(Ho & _)]].
      - rewrite Eu in Ebx. change (0 =? 0) with true in Ebx.
        cbv iota in Ebx. lia.
      - lia.
      - lia. }
    assert (Hnn : Forall (fun v => 0 <= v) (ztake n inp)).
    { eapply Forall_impl; [|exact HF]. cbv beta. lia. }
    assert (Hwb : forall v, In v (ztake n inp) -> bitWidth32 v <= b).
    { intros v Hv.
      destruct (Z.ltb_spec b (bitWidth32 v)) as [Hgt|]; [|lia]. exfalso.
      assert (Hsum : 1 <= zsum (map (fun v => if b <? bitWidth32 v
                                      then 1 else 0) (ztake n inp))).
      { clear - Hv Hgt. induction (ztake n inp) as [|a l IH]; [destruct Hv|].
        cbn [map]. rewrite zsum_cons.
        pose proof (zsum_indicator_le (fun v => b <? bitWidth32 v) l).
        assert (0 <= zsum (map (fun v => if b <? bitWidth32 v then 1 else 0) l)).
        { clear. induction l as [|x l IH]; [cbn; lia|].
          cbn [map]. rewrite zsum_cons. destruct (b <? bitWidth32 x); lia. }
        destruct Hv as [->|Hv].
        - destruct (Z.ltb_spec b (bitWidth32 v)); lia.
        - specialize (IH Hv). destruct (b <? bitWidth32 a); lia. }
      lia. }
    pose proof (bitWidth32_fold_lor_bound (ztake n inp) 0 b ltac:(lia) Hnn
                  ltac:(change (bitWidth32 0) with 0; lia) Hwb).
    lia. }
  destruct (split_exceptions (ztake n inp) 0 (Z.ones b) b) as [[base ex] pos].
  destruct Hfacts as (F1 & F2 & F3 & F4 & F5 & F6 & F7).
  rewrite <- F7 in Hcount, Hone.
  split; [exact Hb|]. split; [lia|]. split; [apply u8_small; lia|].
  split; [lia|].
  apply map_u8_small. eapply Forall_impl; [|exact F6]. cbv beta.
  rewrite zlen_ztake by lia. lia.
Qed.

Lemma vbyte_exception_count_fits_byte_witness :
  let '(base, exceptions, exception_positions) :=
    split_exceptions (ztake 9 [1; 1; 1; 1; 1; 1; 1; 1; 32]) 0
      (u32 (shl32 1 1 - 1)) 1 in
  0 <= 1 <= 31 /\
  1 <= zlen exceptions <= 255 /\
  u8 (zlen exceptions) = zlen exceptions /\
  zlen exception_positions = zlen exceptions /\
  map u8 exception_positions = exception_positions.
Proof.
  assert (Hlen : 9 <= zlen [1; 1; 1; 1; 1; 1; 1; 1; 32])
    by (unfold zlen; simpl; lia).
  assert (Hu : u32_list [1; 1; 1; 1; 1; 1; 1; 1; 32])
    by (repeat constructor; lia).
  assert (Hsel : p4Bits32 [1; 1; 1; 1; 1; 1; 1; 1; 32] 9 = (1, 33))
    by (vm_compute; reflexivity).
  exact (vbyte_exception_count_fits_byte [1; 1; 1; 1; 1; 1; 1; 1; 32] 9 1
           ltac:(lia) Hlen Hu Hsel).
Defined.

(** * The size the analyzer computes for bitmap patching *)

Lemma candidate_patching_size_spec (inp : list Z) (n max_bits k : Z) :
  (forall v, In v (ztake n inp) -> bitWidth32 v <= max_bits) ->
  0 <= k < max_bits ->
  candidate_patching_size n max_bits (bit_width_histogram inp n) k
  = pad8 (n * k) + 2 + pad8 n
    + pad8 (zsum (map (fun v => if k <? bitWidth32 v then 1 else 0)
                      (ztake n inp))
            * (max_bits - k)).
Proof.
  intros Hwidth Hk. unfold candidate_patching_size, patching_size_at.
  destruct (head_counters inp n max_bits Hwidth (Z.to_nat (max_bits - 1 - k)))
    as (Hc & _).
  cbv zeta in Hc.
  replace (max_bits - 1 - Z.of_nat (Z.to_nat (max_bits - 1 - k))) with k
    in Hc by lia.
  cbv zeta. rewrite Hc. reflexivity.
Qed.

Lemma zlen_p4Enc32PayloadExceptions_bitmap (inp : list Z) (n b bx : Z) :
  0 <= n <= 256 -> n <= zlen inp -> 0 <= b <= 31 -> 1 <= bx <= 32 ->
  u32_list inp ->
  zlen (p4Enc32PayloadExceptions inp n b bx)
  = pad8 n
    + pad8 (zsum (map (fun v => if b <? bitWidth32 v then 1 else 0)
                      (ztake n inp)) * bx)
    + pad8 (n * b).
Proof.
  intros Hn Hlen Hb Hbx Hu.
  unfold p4Enc32PayloadExceptions. cbv zeta. rewrite base_mask_ones by lia.
  assert (HF : Forall (fun v => 0 <= v < 2 ^ 32) (ztake n inp))
    by (apply Forall_ztake; exact Hu).
  pose proof (split_exceptions_facts (ztake n inp) 0 b 32 Hb ltac:(lia)
                ltac:(lia) HF) as Hfacts.
  destruct (split_exceptions (ztake n inp) 0 (Z.ones b) b) as [[base ex] pos].
  destruct Hfacts as (F1 & F2 & F3 & F4 & F5 & F6 & F7).
  rewrite zlen_ztake in F1, F3 by lia.
  destruct (Z.leb_spec bx MAX_BITS) as [_|Habs]; [|unfold MAX_BITS in Habs; lia].
  destruct (write_bitmap_spec (build_bitmap pos) n Hn (zlen_build_bitmap pos))
    as (_ & Hwl & _).
  pose proof (zlen_nonneg ex).
  rewrite !zlen_app, Hwl, !zlen_bitpack32Scalar by lia.
  rewrite <- F7. rewrite !pad8_spec by nia. lia.
Qed.

(** For bitmap patching the size the analyzer computes is the size of the
    block: when [p4Bits32] selects a base width [b] with [1 <= bx <= 32]
    patch bits, [p4Enc32] writes exactly the number of bytes the analyzer
    computed for that candidate, two header bytes, the bitmap of
    [pad8(n)] bytes and the two packed arrays, and this is less than
    plain packing at the width of the widest value would take. *)
Theorem bitmap_patching_size_is_exact (inp : list Z) (n b bx : Z)
    (Hn : 0 <= n <= 256) (Hlen : n <= zlen inp) (Hu : u32_list inp)
    (Hsel : p4Bits32 inp n = (b, bx)) (Hbx : 1 <= bx <= 32) :
  let max_bits := bitWidth32 (fold_left Z.lor (ztake n inp) 0) in
  let exceptions :=
    snd (fst (split_exceptions (ztake n inp) 0 (u32 (shl32 1 b - 1)) b)) in
  b + bx = max_bits /\
  zlen (p4Enc32 inp n)
  = candidate_patching_size n max_bits (bit_width_histogram inp n) b /\
  zlen (p4Enc32 inp n)
  = 2 + pad8 n + pad8 (zlen exceptions * bx) + pad8 (n * b) /\
  zlen (p4Enc32 inp n) < 1 + pad8 (n * max_bits).
Proof.
  intros max_bits exceptions.
  pose proof (max_bits_range inp n Hu) as Hmax. fold max_bits in Hmax.
  pose proof (widths_bounded inp n Hu) as Hwidth. fold max_bits in Hwidth.
  assert (Hshape : 0 <= b < max_bits /\ b + bx = max_bits /\
            candidate_patching_size n max_bits (bit_width_histogram inp n) b
            < pad8 (n * max_bits) + 1).
  { destruct (p4Bits32_layout inp n ltac:(lia))
      as [(E & H)|[(E & Hconst & H)|(E & st & Hinv & H)]];
      rewrite H in Hsel; clear H.
    - injection Hsel as Eb Ebx. lia.
    - injection Hsel as Eb Ebx. lia.
    - fold max_bits in Hinv, Hsel.
      destruct Hinv as (Hm0 & Hall & Hs & Hlt0 & Hlt).
      cbv zeta in Hm0, Hall, Hs, Hlt0, Hlt.
      injection Hsel as Eb Ebx.
      destruct Hs as [(Eo & Eu & Em)|[(Ho & Eu & Em & Hv)|(Ho & Eu & Em & Hp)]];
        rewrite Eu in Ebx.
      + change (0 =? 0) with true in Ebx. cbv iota in Ebx. lia.
      + change (0 =? 0) with true in Ebx. cbv iota in Ebx.
        rewrite Eb in *. split; [lia|]. split; [lia|].
        rewrite <- Em. apply Hlt0. lia.
      + change (1 =? 0) with false in Ebx. cbv iota in Ebx. lia. }
  destruct Hshape as (Hb & Hsum & Hless).
  assert (Hlenenc : zlen (p4Enc32 inp n)
                    = 2 + zlen (p4Enc32PayloadExceptions inp n b bx)).
  { unfold p4Enc32. rewrite Hsel.
    rewrite (proj1 (proj2 (writeHeader_forms b ltac:(lia)))) by lia.
    rewrite (proj1 (proj2 (p4Enc32Payload_forms inp n b))) by lia.
    cbn [app]. rewrite !zlen_cons. lia. }
  rewrite (zlen_p4Enc32PayloadExceptions_bitmap inp n b bx) in Hlenenc
    by (assumption || lia).
  rewrite (candidate_patching_size_spec inp n max_bits b Hwidth Hb) in *.
  replace (max_bits - b) with bx in * by lia.
  assert (Hex : zlen exceptions
                = zsum (map (fun v => if b <? bitWidth32 v then 1 else 0)
                          (ztake n inp))).
  { unfold exceptions. rewrite base_mask_ones by lia.
    assert (HF : Forall (fun v => 0 <= v < 2 ^ 32) (ztake n inp))
      by (apply Forall_ztake; exact Hu).
    pose proof (split_exceptions_facts (ztake n inp) 0 b 32 ltac:(lia)
                  ltac:(lia) ltac:(lia) HF) as Hfacts.
    destruct (split_exceptions (ztake n inp) 0 (Z.ones b) b) as [[base ex] pos].
    cbn [fst snd]. apply Hfacts. }
  rewrite Hex. repeat split; lia.
Qed.

Lemma bitmap_patching_size_is_exact_witness :
  zlen (p4Enc32 [1; 2; 3; 1000] 4)
  = candidate_patching_size 4
      (bitWidth32 (fold_left Z.lor (ztake 4 [1; 2; 3; 1000]) 0))
      (bit_width_histogram [1; 2; 3; 1000] 4) 2.
Proof.
  assert (Hlen : 4 <= zlen [1; 2; 3; 1000]) by (unfold zlen; simpl; lia).
  assert (Hu : u32_list [1; 2; 3; 1000]) by (repeat constructor; lia).
  assert (Hsel : p4Bits32 [1; 2; 3; 1000] 4 = (2, 8))
    by (vm_compute; reflexivity).
  exact (proj1 (proj2 (bitmap_patching_size_is_exact [1; 2; 3; 1000] 4 2 8
                         ltac:(lia) Hlen Hu Hsel ltac:(lia)))).
Defined.

(** * The delta1 pass *)

Lemma applyDelta1_loop_delta1_loop (vals : list Z) (i acc start : Z) :
  u32 acc = u32 (start + i) ->
  applyDelta1_loop vals acc = delta1_loop vals i start.
Proof.
  revert i acc start. induction vals as [|v vals IH]; intros i acc start H;
    [reflexivity|].
  cbn [applyDelta1_loop delta1_loop]. cbv zeta. f_equal.
  - revert H. u32_solve.
  - apply IH. revert H. u32_solve.
Qed.

Lemma dsum_zsum (vals : list Z) (s : Z) :
  u32 (dsum s vals) = u32 (s + zsum vals).
Proof.
  revert s. induction vals as [|v vals IH]; intros s.
  - cbn [dsum fold_left]. unfold zsum. cbn [fold_right]. f_equal. lia.
  - cbn [dsum fold_left]. fold (dsum (u32 (s + v)) vals).
    rewrite IH, zsum_cons. u32_solve.
Qed.

(** The delta1 pass is a prefix sum, as the comment on [applyDelta1] has
    it: [out[k] = start + sum(in[0..k]) + (k + 1)] in 32-bit arithmetic.
    The in-place loop of the 128v decoder ([applyDelta1], on the first
    [n] cells) and the loop of the scalar decoder ([delta1_loop]) compute
    the same values. *)
Theorem delta1_is_prefix_sum (vals : list Z) (n start : Z)
    (Hn : 0 <= n <= zlen vals) :
  applyDelta1 vals n start
  = delta1_loop (ztake n vals) 0 start ++ zdrop n vals /\
  forall k, 0 <= k < n ->
    zget (applyDelta1 vals n start) k
    = u32 (start + zsum (ztake (k + 1) vals) + (k + 1)).
Proof.
  assert (E : applyDelta1 vals n start
              = delta1_loop (ztake n vals) 0 start ++ zdrop n vals).
  { unfold applyDelta1. f_equal. apply applyDelta1_loop_delta1_loop.
    f_equal. lia. }
  split; [exact E|]. intros k Hk. rewrite E.
  assert (Hl : zlen (ztake n vals) = n) by (apply zlen_ztake; lia).
  rewrite zget_app_l by (rewrite zlen_delta1_loop, Hl; lia).
  rewrite zget_delta1_loop by lia.
  assert (Et : ztake (k + 1) (ztake n vals) = ztake (k + 1) vals).
  { unfold ztake. rewrite firstn_firstn. f_equal. lia. }
  rewrite Et.
  pose proof (dsum_zsum (ztake (k + 1) vals) start) as Hd.
  revert Hd. u32_solve.
Qed.

Lemma delta1_is_prefix_sum_witness :
  applyDelta1 [5; 0; 2; 9] 3 10
  = delta1_loop (ztake 3 [5; 0; 2; 9]) 0 10 ++ zdrop 3 [5; 0; 2; 9].
Proof.
  assert (Hn : 0 <= 3 <= zlen [5; 0; 2; 9]) by (unfold zlen; simpl; lia).
  exact (proj1 (delta1_is_prefix_sum [5; 0; 2; 9] 3 10 Hn)).
Defined.

(** * The analyzer's classification of a block *)

Lemma equal_count_of_all (f : Z) (l : list Z) (c : Z) :
  Forall (fun v => v = f) l ->
  fold_left (fun c v => c + (if v =? f then 1 else 0)) l c = c + zlen l.
Proof.
  intros HF. revert c. induction HF as [|v l Hv HF IH]; intros c.
  - cbn [fold_left]. rewrite zlen_nil. lia.
  - cbn [fold_left]. rewrite IH, zlen_cons. subst v. rewrite Z.eqb_refl. lia.
Qed.

(** [p4Bits32] tells the two special blocks from the rest.  It returns
    [(0, 0)] exactly for a block of zeros; it reports a constant block
    ([bx = 34]) exactly when the [n >= 1] values are all equal and not
    zero, and the width it returns then is the bit width of that value. *)
Theorem p4Bits32_classifies_block (inp : list Z) (n : Z)
    (Hn : 0 <= n <= zlen inp) (Hu : u32_list inp) :
  (p4Bits32 inp n = (0, 0) <-> Forall (fun v => v = 0) (ztake n inp)) /\
  (snd (p4Bits32 inp n) = 34 <->
   1 <= n /\ zget inp 0 <> 0 /\
   Forall (fun v => v = zget inp 0) (ztake n inp)) /\
  (snd (p4Bits32 inp n) = 34 ->
   fst (p4Bits32 inp n) = bitWidth32 (zget inp 0)).
Proof.
  pose proof (max_bits_range inp n Hu) as Hmax.
  assert (Hnn : Forall (fun v => 0 <= v) (ztake n inp)).
  { apply Forall_ztake. eapply Forall_impl; [|exact Hu]. cbv beta. lia. }
  assert (Hvl : zlen (ztake n inp) = n) by (apply zlen_ztake; lia).
  assert (Hfirst : 1 <= n -> zget inp 0 = zget (ztake n inp) 0)
    by (intros; rewrite zget_ztake by lia; reflexivity).
  assert (Hconst : forall v, 1 <= n -> v <> 0 ->
            Forall (fun x => x = v) (ztake n inp) ->
            fold_left Z.lor (ztake n inp) 0 = v).
  { intros v H1 Hv HF. revert HF Hvl. clear - H1.
    generalize (ztake n inp). intros l0 HF Hvl.
    destruct l0 as [|x l]; [rewrite zlen_nil in Hvl; lia|].
    apply Forall_cons_iff in HF. destruct HF as (Hx & HF'). subst x.
    cbn [fold_left]. clear Hvl. change (Z.lor 0 v) with v.
    induction HF' as [|y l Hy HF' IH]; [reflexivity|].
    cbn [fold_left]. subst y. rewrite Z.lor_diag. exact IH. }
  assert (Hcase3 : forall st,
            fold_left Z.lor (ztake n inp) 0 <> 0 ->
            candidates_invariant n
              (bitWidth32 (fold_left Z.lor (ztake n inp) 0))
              (bit_width_histogram inp n) 0 st ->
            let bx := if use_vbyte_exceptions st =? 0
                      then bitWidth32 (fold_left Z.lor (ztake n inp) 0)
                           - optimal_base_bits st else 33 in
            bx <> 34 /\ (optimal_base_bits st, bx) <> (0, 0)).
  { intros st E Hinv.
    pose proof (bitWidth32_pos _ E) as Hb1.
    destruct Hinv as (_ & _ & Hs & _). cbv zeta in Hs.
    destruct Hs as [(Eo & Eu & _)|[(Ho & Eu & _)|(Ho & Eu & _)]];
      rewrite Eu; cbv zeta.
    - change (0 =? 0) with true. cbv iota.
      split; [lia|]. intros H. injection H as H1 H2. lia.
    - change (0 =? 0) with true. cbv iota.
      split; [lia|]. intros H. injection H as H1 H2. lia.
    - change (1 =? 0) with false. cbv iota.
      split; [lia|]. intros H. injection H as H1 H2. lia. }
  destruct (p4Bits32_layout inp n Hn)
    as [(E & H)|[(E & Hall & H)|(E & st & Hinv & H)]]; rewrite H; cbn [fst snd].
  - pose proof (fold_lor_zero _ Hnn E) as Hz.
    split; [split; [intros _; exact Hz|reflexivity]|].
    split; [|intros HH; discriminate HH].
    split; [intros HH; discriminate HH|].
    intros (H1 & Hv & _). exfalso. apply Hv. rewrite (Hfirst H1).
    apply (Forall_zget _ _ _ Hz). lia.
  - assert (H1 : 1 <= n).
    { destruct (Z.eq_dec n 0) as [->|]; [|lia]. exfalso. apply E. reflexivity. }
    assert (Hv : zget inp 0 <> 0).
    { intros Hv0. apply E. apply fold_lor_zeros. rewrite Hv0 in Hall.
      exact Hall. }
    pose proof (bitWidth32_pos _ E) as Hb1.
    split; [split|].
    + intros HH. injection HH as HH _. lia.
    + intros Hz. exfalso. apply E. apply fold_lor_zeros. exact Hz.
    + split; [split; [intros _; auto|reflexivity]|].
      intros _. rewrite (Hconst (zget inp 0) H1 Hv Hall). reflexivity.
  - destruct (Hcase3 st E Hinv) as (H34 & H00). cbv zeta in H34, H00.
    split; [split|].
    + intros HH. contradiction.
    + intros Hz. exfalso. apply E. apply fold_lor_zeros. exact Hz.
    + split; [|intros HH; contradiction].
      split; [intros HH; contradiction|].
      intros (H1 & Hv & Hall). exfalso.
      (* a constant block leaves through the early return *)
      pose proof (equal_count_of_all (zget inp 0) (ztake n inp) 0 Hall) as Heq.
      rewrite Hvl in Heq.
      revert H. unfold p4Bits32. cbv zeta.
      destruct (Z.eqb_spec (fold_left Z.lor (ztake n inp) 0) 0); [contradiction|].
      rewrite Heq. change (0 + n) with n. rewrite Z.eqb_refl.
      intros HH. injection HH as _ HH. unfold MAX_BITS in HH. lia.
Qed.

Lemma p4Bits32_classifies_block_witness :
  snd (p4Bits32 [42; 42; 42] 3) = 34 <->
  1 <= 3 /\ zget [42; 42; 42] 0 <> 0 /\
  Forall (fun v => v = zget [42; 42; 42] 0) (ztake 3 [42; 42; 42]).
Proof.
  assert (Hn : 0 <= 3 <= zlen [42; 42; 42]) by (unfold zlen; simpl; lia).
  assert (Hu : u32_list [42; 42; 42]) by (repeat constructor; lia).
  exact (proj1 (proj2 (p4Bits32_classifies_block [42; 42; 42] 3 Hn Hu))).
Defined.

(** * The block split of the horizontal kernels *)

Lemma choose_shrink_range (fuel : nat) (k n : Z) :
  1 <= k -> 1 <= choose_shrink fuel k n <= k.
Proof.
  revert k. induction fuel as [|fuel IH]; intros k Hk; cbn [choose_shrink];
    [lia|].
  destruct (Z.gtb_spec k 1); cbn [andb]; [|lia].
  destruct (Z.gtb_spec k n); [|lia].
  assert (1 <= Z.shiftr k 1 <= k).
  { rewrite Z.shiftr_div_pow2 by lia. change (2 ^ 1) with 2.
    Z.div_mod_to_equations. lia. }
  specialize (IH (Z.shiftr k 1) ltac:(lia)). lia.
Qed.

Lemma choose_search_spec (fuel : nat) (b n max_words k : Z) :
  1 <= k <= n ->
  let r := choose_search fuel b n max_words k in
  1 <= r <= n /\
  (r = n \/ (r * b) mod 8 = 0 /\ word_count_for b r <= max_words).
Proof.
  revert k. induction fuel as [|fuel IH]; intros k Hk; cbn [choose_search];
    [cbv zeta; lia|].
  destruct (Z.leb_spec (word_count_for b k) max_words) as [Hw|Hw];
    cbn [andb].
  - destruct (Z.eqb_spec ((k * b) mod 8) 0) as [Hm|Hm].
    + cbv zeta. split; [lia|]. right. split; assumption.
    + destruct (Z.eqb_spec k 1); [cbv zeta; lia|].
      apply IH. rewrite Z.shiftr_div_pow2 by lia. change (2 ^ 1) with 2.
      Z.div_mod_to_equations. lia.
  - destruct (Z.eqb_spec k 1); [cbv zeta; lia|].
    apply IH. rewrite Z.shiftr_div_pow2 by lia. change (2 ^ 1) with 2.
    Z.div_mod_to_equations. lia.
Qed.

(** [choose_block_size(b, n)] splits a run of [n >= 1] values of [b >= 1]
    bits so that the blocks can be packed one after the other: the block
    it returns has between 1 and [n] values, and unless it is the whole
    run it ends on a byte boundary and fits in the word budget
    ([max_words_for_gcd], 12 or 16 words of 64 bits). *)
Theorem choose_block_size_byte_aligned (b n : Z) (Hb : 1 <= b) (Hn : 1 <= n) :
  let k := choose_block_size b n in
  1 <= k <= n /\
  (k = n \/
   (k * b) mod 8 = 0 /\
   word_count_for b k <= max_words_for_gcd (gcd_u32 64 b)).
Proof.
  unfold choose_block_size. destruct (Z.eqb_spec n 0); [lia|]. cbv zeta.
  set (g := gcd_u32 64 b).
  assert (Hg : 1 <= g <= 64).
  { unfold g, gcd_u32. pose proof (Z.gcd_nonneg 64 b).
    assert (Z.gcd 64 b <> 0) by (intros H0; apply Z.gcd_eq_0_l in H0; lia).
    assert (Z.gcd 64 b <= 64).
    { apply Z.divide_pos_le; [lia|apply Z.gcd_divide_l]. }
    lia. }
  assert (Hp : 1 <= 64 / g) by (apply Z.div_le_lower_bound; lia).
  pose proof (choose_shrink_range 7 (64 / g) n Hp) as Hs.
  apply choose_search_spec.
  destruct (Z.gtb_spec (choose_shrink 7 (64 / g) n) n); lia.
Qed.

Lemma choose_block_size_byte_aligned_witness :
  1 <= choose_block_size 3 20 <= 20 /\
  (choose_block_size 3 20 = 20 \/
   (choose_block_size 3 20 * 3) mod 8 = 0 /\
   word_count_for 3 (choose_block_size 3 20)
   <= max_words_for_gcd (gcd_u32 64 3)).
Proof.
  exact (choose_block_size_byte_aligned 3 20 ltac:(lia) ltac:(lia)).
Defined.

(** * The lane-interleaved layout *)

Lemma sbit_flat_map_storeU32 (ws : list Z) (p : Z) :
  0 <= p < 32 * zlen ws ->
  sbit (flat_map storeU32 ws) p = Z.testbit (zget ws (p / 32)) (p mod 32).
Proof.
  intros Hp.
  rewrite (flat_map_ext_all storeU32 (le_bytes 4) ws storeU32_le_bytes).
  destruct (packs_units 4 ws ltac:(lia)) as (_ & _ & H).
  rewrite H by lia. reflexivity.
Qed.

Lemma zlen_map_zseq {A} (f : Z -> A) (n : Z) :
  0 <= n -> zlen (map f (zseq 0 n)) = n.
Proof. intros Hn. rewrite zlen_map, zlen_zseq; lia. Qed.

Lemma lane_position (g b shift W t : Z) :
  1 <= b -> 0 <= g -> g * b = 32 * W + shift ->
  shift <= t < shift + b ->
  (32 * W + t) / b = g /\ (32 * W + t) mod b = t - shift.
Proof.
  intros Hb Hg E Ht.
  destruct (field_position (32 * W + t) b g ltac:(lia) ltac:(lia))
    as (E1 & E2).
  split; [exact E1|]. rewrite E2. lia.
Qed.

Lemma masked_bit (v b r : Z) :
  0 <= b -> 0 <= r ->
  Z.testbit (Z.land v (Z.ones b)) r = (r <? b) && Z.testbit v r.
Proof.
  intros Hb Hr. rewrite Z.land_spec, Z.testbit_ones_nonneg by lia.
  apply andb_comm.
Qed.

Lemma pack_v_group_step (b L : Z) (inp : list Z) (g : Z) (ov : list Z)
    (shift : Z) :
  1 <= b <= 31 -> 1 <= L -> 0 <= g ->
  pack_v_inv b L inp g ov shift ->
  let '(ov', shift', written) :=
    bitpack_v_group L b (Z.ones b) inp g ov shift in
  pack_v_inv b L inp (g + 1) ov' shift' /\
  rows_spec b L inp ((g * b) / 32) (((g + 1) * b) / 32) written.
Proof.
  intros Hb HL Hg (Hs & Hov).
  set (W := (g * b) / 32) in *.
  assert (HW : g * b = 32 * W + shift)
    by (unfold W; rewrite Hs; Z.div_mod_to_equations; lia).
  assert (Hsr : 0 <= shift < 32) by (rewrite Hs; apply Z.mod_pos_bound; lia).
  unfold bitpack_v_group. cbv zeta.
  set (iv := map (fun lane => Z.land (zget inp (g * L + lane)) (Z.ones b))
               (zseq 0 L)).
  assert (Hiv : forall l r, 0 <= l < L -> 0 <= r ->
            Z.testbit (zget iv l) r
            = (r <? b) && Z.testbit (zget inp (g * L + l)) r).
  { intros l r Hl Hr. unfold iv. rewrite zget_map_zseq by lia.
    apply masked_bit; lia. }
  set (ov1 := if shift =? 0 then iv
              else map (fun lane => Z.lor (zget ov lane)
                                      (shl32 (zget iv lane) shift))
                     (zseq 0 L)).
  assert (Hov1 : forall l t, 0 <= l < L -> 0 <= t ->
            Z.testbit (zget ov1 l) t
            = (t <? shift + b) && (t <? 32)
              && lane_bit b L inp l (32 * W + t)).
  { intros l t Hl Ht. unfold ov1.
    destruct (Z.eqb_spec shift 0) as [E0|E0].
    - rewrite Hiv by lia. rewrite E0 in *.
      replace (0 + b) with b by lia.
      destruct (Z.ltb_spec t b) as [Hlt|Hge]; cbn [andb]; [|reflexivity].
      destruct (Z.ltb_spec t 32); [|lia]. cbn [andb]. unfold lane_bit.
      destruct (lane_position g b 0 W t ltac:(lia) Hg ltac:(lia) ltac:(lia))
        as (-> & ->).
      do 2 f_equal. lia.
    - rewrite zget_map_zseq by lia. unfold shl32.
      rewrite Z.lor_spec, testbit_u32, testbit_shiftl_full, Hov by lia.
      destruct (Z.ltb_spec t shift) as [Hlt|Hge]; cbn [andb orb].
      + destruct (Z.leb_spec shift t); [lia|].
        destruct (Z.ltb_spec t (shift + b)); [|lia].
        destruct (Z.ltb_spec t 32); [|lia].
        cbn [andb]. rewrite orb_false_r. reflexivity.
      + destruct (Z.leb_spec shift t); [|lia]. cbn [andb].
        rewrite Hiv by lia.
        destruct (Z.ltb_spec (t - shift) b), (Z.ltb_spec t (shift + b));
          try lia; cbn [andb].
        destruct (Z.ltb_spec t 32); cbn [andb]; [|reflexivity].
        unfold lane_bit.
        destruct (lane_position g b shift W t ltac:(lia) Hg HW ltac:(lia))
          as (-> & ->).
        reflexivity. }
  destruct (Z.geb_spec (shift + b) 32) as [Hfull|Hpart].
  - (* a row is complete *)
    assert (HW1 : ((g + 1) * b) / 32 = W + 1)
      by (Z.div_mod_to_equations; lia).
    assert (Hs1 : ((g + 1) * b) mod 32 = shift + b - 32)
      by (Z.div_mod_to_equations; lia).
    split.
    + split; [symmetry; exact Hs1|]. rewrite HW1.
      intros l t Hl Ht.
      destruct (Z.gtb_spec (shift + b - 32) 0) as [Hpos|Hzero].
      * rewrite zget_map_zseq by lia. unfold shr32.
        rewrite Z.shiftr_spec, Hiv by lia.
        destruct (Z.ltb_spec t (shift + b - 32)) as [Hlt|Hge];
          destruct (Z.ltb_spec (t + (b - (shift + b - 32))) b); try lia;
          cbn [andb].
        unfold lane_bit.
        destruct (lane_position g b shift W (32 + t) ltac:(lia) Hg HW
                    ltac:(lia)) as (E1 & E2).
        replace (32 * (W + 1) + t) with (32 * W + (32 + t)) by lia.
        rewrite E1, E2. f_equal. lia.
      * rewrite zget_map_zseq by lia. rewrite Z.bits_0.
        destruct (Z.ltb_spec t (shift + b - 32)); [lia|]. reflexivity.
    + rewrite HW1. split; [apply bytes_flat_map, bytes_storeU32|].
      assert (Hl1 : zlen ov1 = L).
      { unfold ov1. destruct (shift =? 0); [unfold iv|];
          apply zlen_map_zseq; lia. }
      split; [rewrite zlen_flat_map_storeU32, Hl1; lia|].
      intros w l t Hw Hl Ht. assert (w = W) by lia. subst w.
      replace (W - W) with 0 by lia.
      rewrite sbit_flat_map_storeU32 by (rewrite Hl1; lia).
      destruct (field_position (32 * (0 * L + l) + t) 32 l ltac:(lia)
                  ltac:(lia)) as (-> & ->).
      replace (32 * (0 * L + l) + t - l * 32) with t by lia.
      rewrite Hov1 by lia.
      destruct (Z.ltb_spec t (shift + b)); [|lia].
      destruct (Z.ltb_spec t 32); [|lia]. reflexivity.
  - assert (HW1 : ((g + 1) * b) / 32 = W) by (Z.div_mod_to_equations; lia).
    assert (Hs1 : ((g + 1) * b) mod 32 = shift + b)
      by (Z.div_mod_to_equations; lia).
    split.
    + split; [symmetry; exact Hs1|]. rewrite HW1.
      intros l t Hl Ht. rewrite Hov1 by lia.
      destruct (Z.ltb_spec t (shift + b)); cbn [andb]; [|reflexivity].
      destruct (Z.ltb_spec t 32); [|lia]. reflexivity.
    + rewrite HW1. split; [constructor|]. split; [rewrite zlen_nil; lia|].
      intros w l t Hw. lia.
Qed.

Lemma rows_spec_app (b L : Z) (inp : list Z) (w0 w1 w2 : Z) (W1 W2 : list Z) :
  1 <= L -> w0 <= w1 <= w2 ->
  rows_spec b L inp w0 w1 W1 -> rows_spec b L inp w1 w2 W2 ->
  rows_spec b L inp w0 w2 (W1 ++ W2).
Proof.
  intros HL Hw (B1 & L1 & S1) (B2 & L2 & S2).
  split; [apply bytes_app; assumption|].
  split; [rewrite zlen_app, L1, L2; lia|].
  intros w l t Hww Hl Ht.
  destruct (Z.lt_ge_cases w w1) as [Hlo|Hhi].
  - rewrite sbit_app_l by (rewrite L1; nia). apply S1; lia.
  - rewrite sbit_app_r by (rewrite L1; nia).
    rewrite <- (S2 w l t) by lia. f_equal. rewrite L1. lia.
Qed.

Lemma pack_v_groups_spec (b L : Z) (inp : list Z) (k : nat) (g : Z)
    (ov : list Z) (shift : Z) :
  1 <= b <= 31 -> 1 <= L -> 0 <= g ->
  pack_v_inv b L inp g ov shift ->
  let '(ov', shift', W) :=
    bitpack_v_groups L b (Z.ones b) inp (zseq g (Z.of_nat k)) ov shift in
  pack_v_inv b L inp (g + Z.of_nat k) ov' shift' /\
  rows_spec b L inp ((g * b) / 32) (((g + Z.of_nat k) * b) / 32) W.
Proof.
  intros Hb HL. revert g ov shift.
  induction k as [|k IH]; intros g ov shift Hg Hinv.
  - rewrite zseq_nil by lia. cbn [bitpack_v_groups].
    replace (g + Z.of_nat 0) with g by lia.
    split; [exact Hinv|]. split; [constructor|].
    split; [rewrite zlen_nil; lia|]. intros w l t Hw. lia.
  - rewrite zseq_S by lia. cbn [bitpack_v_groups].
    pose proof (pack_v_group_step b L inp g ov shift Hb HL Hg Hinv) as Hstep.
    destruct (bitpack_v_group L b (Z.ones b) inp g ov shift)
      as [[ov1 shift1] W1].
    destruct Hstep as (Hinv1 & Hrows1).
    specialize (IH (g + 1) ov1 shift1 ltac:(lia) Hinv1).
    destruct (bitpack_v_groups L b (Z.ones b) inp (zseq (g + 1) (Z.of_nat k))
                ov1 shift1) as [[ov2 shift2] W2].
    destruct IH as (Hinv2 & Hrows2).
    replace (g + Z.of_nat (S k)) with (g + 1 + Z.of_nat k) by lia.
    split; [exact Hinv2|].
    apply (rows_spec_app b L inp _ (((g + 1) * b) / 32)); try assumption.
    split; apply Z.div_le_mono; nia.
Qed.

Lemma pack_v_inv_init (b L : Z) (inp : list Z) :
  1 <= L -> pack_v_inv b L inp 0 (map (fun _ => 0) (zseq 0 L)) 0.
Proof.
  intros HL. split; [reflexivity|]. intros l t Hl Ht.
  rewrite zget_map_zseq by lia. rewrite Z.bits_0.
  destruct (Z.ltb_spec t 0); [lia|]. reflexivity.
Qed.

(** The block that [bitpack128v32Scalar] / [bitpack256v32Scalar] write
    for [1 <= b <= 31]: [b] rows of [LANE_COUNT] words. *)
Lemma bitpack_v32Scalar_rows (L : Z) (inp : list Z) (b : Z) :
  1 <= b <= 31 -> 1 <= L ->
  rows_spec b L inp 0 b (bitpack_v32Scalar L inp b).
Proof.
  intros Hb HL. unfold bitpack_v32Scalar.
  destruct (Z.eqb_spec b 0); [lia|]. destruct (Z.eqb_spec b 32); [lia|].
  cbv zeta. rewrite base_mask_ones by lia.
  change V_GROUP_COUNT with (Z.of_nat 32).
  pose proof (pack_v_groups_spec b L inp 32 0 _ 0 Hb HL ltac:(lia)
                (pack_v_inv_init b L inp HL)) as H.
  destruct (bitpack_v_groups L b (Z.ones b) inp (zseq 0 (Z.of_nat 32))
              (map (fun _ => 0) (zseq 0 L)) 0) as [[ov shift] W].
  destruct H as ((Hs & _) & Hrows).
  assert (E0 : shift = 0).
  { rewrite Hs. change (Z.of_nat 32) with 32. Z.div_mod_to_equations. lia. }
  rewrite E0. change (0 >? 0) with false. cbv iota.
  replace (0 * b / 32) with 0 in Hrows by reflexivity.
  replace ((0 + Z.of_nat 32) * b / 32) with b in Hrows
    by (change (Z.of_nat 32) with 32; Z.div_mod_to_equations; lia).
  exact Hrows.
Qed.

(** * Unpacking the lane-interleaved layout *)

Lemma zget_map (f : Z -> Z) (xs : list Z) (l : Z) :
  0 <= l < zlen xs -> zget (map f xs) l = f (zget xs l).
Proof.
  intros Hl. unfold zget. rewrite (nth_indep _ 0 (f 0)).
  - apply map_nth.
  - rewrite length_map. unfold zlen in Hl. lia.
Qed.

Lemma load_lanes_bits (L : Z) (inp : list Z) (w l t : Z) :
  bytes inp -> 1 <= L -> 0 <= w -> 0 <= l < L -> 0 <= t ->
  Z.testbit (zget (load_lanes L (zdrop (4 * L * w) inp)) l) t
  = (t <? 32) && row_bit L inp l (32 * w + t).
Proof.
  intros Hb HL Hw Hl Ht. unfold load_lanes.
  rewrite zget_map_zseq by lia.
  rewrite testbit_loadU32_sbit by (try lia; do 2 apply bytes_zdrop; exact Hb).
  destruct (Z.ltb_spec t 32) as [H32|H32]; cbn [andb]; [|reflexivity].
  rewrite !sbit_zdrop by nia. unfold row_bit.
  destruct (field_position (32 * w + t) 32 w ltac:(lia) ltac:(lia))
    as (-> & ->).
  f_equal. lia.
Qed.

Lemma zlen_load_lanes (L : Z) (inp : list Z) :
  0 <= L -> zlen (load_lanes L inp) = L.
Proof. intros HL. unfold load_lanes. apply zlen_map_zseq. exact HL. Qed.

Lemma unpack_v_group_step (b L : Z) (inp : list Z) (g : Z) (iv : list Z)
    (shift inp_off : Z) :
  1 <= b <= 31 -> 1 <= L -> 0 <= g -> bytes inp ->
  unpack_v_inv b L inp g iv shift inp_off ->
  let '(iv', shift', inp_off', ov) :=
    bitunpack_v_group L b (Z.ones b) inp iv shift inp_off in
  unpack_v_inv b L inp (g + 1) iv' shift' inp_off' /\
  zlen ov = L /\
  forall l r, 0 <= l < L -> 0 <= r ->
    Z.testbit (zget ov l) r = (r <? b) && row_bit L inp l (g * b + r).
Proof.
  intros Hb HL Hg Hbytes (Hs & Hliv & Hoff & Hiv).
  set (W := (g * b) / 32) in *.
  assert (HW : g * b = 32 * W + shift)
    by (unfold W; rewrite Hs; Z.div_mod_to_equations; lia).
  assert (Hsr : 0 <= shift < 32) by (rewrite Hs; apply Z.mod_pos_bound; lia).
  assert (HW0 : 0 <= W) by (unfold W; apply Z.div_pos; nia).
  unfold bitunpack_v_group.
  set (st1 := if shift =? 0
              then (load_lanes L (zdrop inp_off inp), inp_off + 4 * L)
              else (iv, inp_off)).
  assert (H1 : zlen (fst st1) = L /\ snd st1 = 4 * L * (W + 1) /\
               forall l t, 0 <= l < L -> 0 <= t ->
                 Z.testbit (zget (fst st1) l) t
                 = (t <? 32) && row_bit L inp l (32 * W + t)).
  { unfold st1. destruct (Z.eqb_spec shift 0) as [E0|E0]; cbn [fst snd].
    - assert (Eo : inp_off = 4 * L * W).
      { rewrite Hoff. f_equal. unfold W. Z.div_mod_to_equations. lia. }
      rewrite Eo. split; [apply zlen_load_lanes; lia|]. split; [lia|].
      intros l t Hl Ht. apply load_lanes_bits; assumption || lia.
    - split; [exact Hliv|]. split.
      + rewrite Hoff. f_equal. unfold W. Z.div_mod_to_equations. lia.
      + apply Hiv. lia. }
  destruct st1 as [iv1 off1]. cbn [fst snd] in H1.
  destruct H1 as (Hl1 & Ho1 & Hb1).
  cbv zeta.
  set (ov := map (fun x => Z.land (shr32 x shift) (Z.ones b)) iv1).
  assert (Hlov : zlen ov = L) by (unfold ov; rewrite zlen_map; exact Hl1).
  assert (Hov : forall l r, 0 <= l < L -> 0 <= r ->
            Z.testbit (zget ov l) r
            = (r <? b) && (r + shift <? 32)
              && row_bit L inp l (g * b + r)).
  { intros l r Hl Hr. unfold ov. rewrite zget_map by lia.
    rewrite masked_bit by lia. unfold shr32.
    rewrite Z.shiftr_spec, Hb1 by lia.
    replace (32 * W + (r + shift)) with (g * b + r) by lia.
    rewrite andb_assoc. reflexivity. }
  destruct (Z.geb_spec (shift + b) 32) as [Hfull|Hpart].
  - assert (HW1 : ((g + 1) * b) / 32 = W + 1)
      by (Z.div_mod_to_equations; lia).
    assert (Hs1 : ((g + 1) * b) mod 32 = shift + b - 32)
      by (Z.div_mod_to_equations; lia).
    destruct (Z.gtb_spec (shift + b - 32) 0) as [Hpos|Hzero].
    + set (iv2 := load_lanes L (zdrop off1 inp)).
      assert (Hb2 : forall l t, 0 <= l < L -> 0 <= t ->
                Z.testbit (zget iv2 l) t
                = (t <? 32) && row_bit L inp l (32 * (W + 1) + t)).
      { intros l t Hl Ht. unfold iv2. rewrite Ho1.
        apply load_lanes_bits; assumption || lia. }
      split; [|split].
      * split; [symmetry; exact Hs1|].
        split; [apply zlen_load_lanes; lia|]. split.
        -- rewrite Ho1. replace (4 * L * (W + 1) + 4 * L)
             with (4 * L * (W + 2)) by lia.
           f_equal. Z.div_mod_to_equations. lia.
        -- intros _. rewrite HW1. exact Hb2.
      * apply zlen_map_zseq. lia.
      * intros l r Hl Hr. rewrite zget_map_zseq by lia.
        rewrite Z.lor_spec, masked_bit, Hov by lia. unfold shl32.
        rewrite testbit_u32, testbit_shiftl_full by lia.
        destruct (Z.ltb_spec r b) as [Hrb|Hrb]; cbn [andb orb];
          [|reflexivity].
        destruct (Z.ltb_spec (r + shift) 32) as [Hlo|Hhi]; cbn [andb orb].
        -- destruct (Z.leb_spec (b - (shift + b - 32)) r); [lia|].
           rewrite andb_false_r, orb_false_r. reflexivity.
        -- destruct (Z.leb_spec (b - (shift + b - 32)) r); [|lia].
           destruct (Z.ltb_spec r 32); [|lia]. cbn [andb].
           rewrite Hb2 by lia.
           destruct (Z.ltb_spec (r - (b - (shift + b - 32))) 32); [|lia].
           cbn [andb]. f_equal. lia.
    + split; [|split].
      * split; [rewrite Hs1; lia|]. split; [exact Hl1|]. split.
        -- rewrite Ho1. f_equal. Z.div_mod_to_equations. lia.
        -- intros Habs. lia.
      * exact Hlov.
      * intros l r Hl Hr. rewrite Hov by lia.
        destruct (Z.ltb_spec r b); cbn [andb]; [|reflexivity].
        destruct (Z.ltb_spec (r + shift) 32); [|lia]. reflexivity.
  - assert (HW1 : ((g + 1) * b) / 32 = W) by (Z.div_mod_to_equations; lia).
    assert (Hs1 : ((g + 1) * b) mod 32 = shift + b)
      by (Z.div_mod_to_equations; lia).
    split; [|split].
    + split; [symmetry; exact Hs1|]. split; [exact Hl1|]. split.
      * rewrite Ho1. f_equal. Z.div_mod_to_equations. lia.
      * intros _. rewrite HW1. exact Hb1.
    + exact Hlov.
    + intros l r Hl Hr. rewrite Hov by lia.
      destruct (Z.ltb_spec r b); cbn [andb]; [|reflexivity].
      destruct (Z.ltb_spec (r + shift) 32); [|lia]. reflexivity.
Qed.

Lemma unpack_v_groups_spec (b L : Z) (inp : list Z) (k : nat) (g : Z)
    (iv : list Z) (shift inp_off : Z) :
  1 <= b <= 31 -> 1 <= L -> 0 <= g -> bytes inp ->
  unpack_v_inv b L inp g iv shift inp_off ->
  groups_spec b L inp g (Z.of_nat k)
    (bitunpack_v_groups k L b (Z.ones b) inp iv shift inp_off).
Proof.
  intros Hb HL Hg Hbytes. revert g iv shift inp_off Hg.
  induction k as [|k IH]; intros g iv shift inp_off Hg Hinv.
  - cbn [bitunpack_v_groups]. split; [rewrite zlen_nil; lia|].
    intros j l r Hj. lia.
  - cbn [bitunpack_v_groups].
    pose proof (unpack_v_group_step b L inp g iv shift inp_off Hb HL Hg
                  Hbytes Hinv) as Hstep.
    destruct (bitunpack_v_group L b (Z.ones b) inp iv shift inp_off)
      as [[[iv1 shift1] off1] ov].
    destruct Hstep as (Hinv1 & Hlov & Hov).
    destruct (IH (g + 1) iv1 shift1 off1 ltac:(lia) Hinv1) as (Hlen & Hvals).
    split; [rewrite zlen_app, Hlov, Hlen; lia|].
    intros j l r Hj Hl Hr.
    destruct (Z.eq_dec j 0) as [->|Hne].
    + rewrite zget_app_l by (rewrite Hlov; lia).
      replace (0 * L + l) with l by lia. rewrite Hov by lia.
      do 2 f_equal. lia.
    + rewrite zget_app_r by (rewrite Hlov; nia).
      rewrite Hlov. replace (j * L + l - L) with ((j - 1) * L + l) by lia.
      rewrite Hvals by lia. do 2 f_equal. lia.
Qed.

Lemma unpack_v_inv_init (b L : Z) (inp : list Z) :
  1 <= L -> unpack_v_inv b L inp 0 (map (fun _ => 0) (zseq 0 L)) 0 0.
Proof.
  intros HL. split; [reflexivity|]. split; [apply zlen_map_zseq; lia|].
  split; [cbn; lia|]. intros Habs. lia.
Qed.

(** What [bitunpack128v32Scalar] / [bitunpack256v32Scalar] read for
    [1 <= b <= 31]. *)
Lemma bitunpack_v32Scalar_groups (L : Z) (inp : list Z) (b : Z) :
  1 <= b <= 31 -> 1 <= L <= 1024 -> bytes inp ->
  exists vals,
    bitunpack_v32Scalar L inp b = Some (vals, 4 * L * b) /\
    groups_spec b L inp 0 32 vals.
Proof.
  intros Hb HL Hbytes. unfold bitunpack_v32Scalar. cbv zeta.
  destruct (Z.eqb_spec b 0); [lia|]. destruct (Z.eqb_spec b 32); [lia|].
  destruct (Z.gtb_spec b 32); [lia|].
  rewrite base_mask_ones by lia.
  eexists. split.
  - f_equal. f_equal. unfold V_GROUP_COUNT. rewrite u32_small by nia.
    Z.div_mod_to_equations. lia.
  - change (Z.to_nat V_GROUP_COUNT) with 32%nat.
    exact (unpack_v_groups_spec b L inp 32 0 _ 0 0 Hb ltac:(lia) ltac:(lia)
             Hbytes (unpack_v_inv_init b L inp ltac:(lia))).
Qed.

Lemma lane_index (L k : Z) :
  1 <= L -> 0 <= k ->
  0 <= k / L /\ 0 <= k mod L < L /\ k = (k / L) * L + k mod L.
Proof. intros HL Hk. Z.div_mod_to_equations. nia. Qed.

(** The block read back, value by value: the low [b] bits of what was
    given to the packer. *)
Lemma bitunpack_v_masked (L : Z) (inp rest : list Z) (b : Z) :
  1 <= L <= 1024 -> 0 <= b <= 32 ->
  (b = 32 -> 32 * L <= zlen inp /\ u32_list (ztake (32 * L) inp)) ->
  bytes rest ->
  exists vals,
    bitunpack_v32Scalar L (bitpack_v32Scalar L inp b ++ rest) b
    = Some (vals, zlen (bitpack_v32Scalar L inp b)) /\
    zlen vals = 32 * L /\
    forall k, 0 <= k < 32 * L ->
      zget vals k = Z.land (zget inp k) (Z.ones b).
Proof.
  intros HL Hb H32 Hrest.
  destruct (Z.eq_dec b 0) as [E0|E0]; [|destruct (Z.eq_dec b 32) as [E32|E32]].
  - (* nothing is stored *)
    subst b. unfold bitunpack_v32Scalar, bitpack_v32Scalar.
    change (0 =? 0) with true. cbv iota zeta. cbn [app].
    change (zlen (@nil Z)) with 0. eexists. split; [reflexivity|].
    unfold V_GROUP_COUNT. split; [rewrite zlen_map_zseq; lia|].
    intros k Hk. rewrite zget_map_zseq by lia.
    change (Z.ones 0) with 0. rewrite Z.land_0_r. reflexivity.
  - (* raw words *)
    subst b. destruct (H32 eq_refl) as (Hlen & Hu).
    unfold bitunpack_v32Scalar, bitpack_v32Scalar.
    change (32 =? 0) with false. change (32 =? 32) with true. cbv iota zeta.
    unfold V_GROUP_COUNT, copyU32ArrayToLe, copyU32ArrayFromLe.
    replace (L * 32) with (32 * L) by lia.
    assert (Hl : Z.to_nat (32 * L) = length (ztake (32 * L) inp)).
    { pose proof (zlen_ztake (32 * L) inp ltac:(lia)) as H.
      unfold zlen in H. lia. }
    rewrite Hl, copyU32ArrayFromLe_aux_flat_map by exact Hu.
    rewrite zlen_flat_map_storeU32, zlen_ztake by lia.
    eexists. split; [do 2 f_equal; lia|].
    split; [apply zlen_ztake; lia|].
    intros k Hk. rewrite zget_ztake by lia.
    assert (Hv : 0 <= zget inp k < 2 ^ 32).
    { rewrite <- (zget_ztake inp (32 * L) k) by lia.
      apply (Forall_zget _ _ _ Hu). rewrite zlen_ztake by lia. lia. }
    rewrite Z.land_ones by lia. rewrite Z.mod_small by exact Hv. reflexivity.
  - destruct (bitpack_v32Scalar_rows L inp b ltac:(lia) ltac:(lia))
      as (Hbo & Hlo & Hrows).
    destruct (bitunpack_v32Scalar_groups L
                (bitpack_v32Scalar L inp b ++ rest) b ltac:(lia) HL
                (bytes_app _ _ Hbo Hrest)) as (vals & E & Hvl & Hvals).
    exists vals. rewrite E, Hlo.
    split; [do 2 f_equal; lia|]. split; [lia|].
    intros k Hk.
    destruct (lane_index L k ltac:(lia) ltac:(lia)) as (Hq & Hm & Ek).
    assert (Hq32 : k / L < 32) by (apply Z.div_lt_upper_bound; lia).
    apply Z.bits_inj'. intros r Hr.
    rewrite masked_bit by lia.
    rewrite Ek at 1. rewrite Hvals by lia.
    destruct (Z.ltb_spec r b) as [Hrb|Hrb]; cbn [andb]; [|reflexivity].
    unfold row_bit.
    assert (Hp : 0 <= (0 + k / L) * b + r < 32 * b) by nia.
    set (p := (0 + k / L) * b + r) in *.
    pose proof (Z.mod_pos_bound p 32 ltac:(lia)) as Hpm.
    assert (Hpd : 0 <= p / 32 < b) by (Z.div_mod_to_equations; lia).
    rewrite sbit_app_l by (rewrite Hlo; nia).
    replace (p / 32) with (p / 32 - 0) by lia.
    rewrite Hrows by lia. unfold lane_bit.
    replace (32 * (p / 32) + p mod 32) with p
      by (Z.div_mod_to_equations; lia).
    destruct (field_position p b (k / L) ltac:(lia) ltac:(unfold p; lia))
      as (-> & ->).
    rewrite <- Ek. f_equal. unfold p. lia.
Qed.

Lemma bitunpack_v_of_bitpack_v (L : Z) (inp rest : list Z) (b : Z) :
  1 <= L <= 1024 -> 0 <= b <= 32 -> 32 * L <= zlen inp ->
  fits b inp 0 (32 * L) -> bytes rest ->
  bitunpack_v32Scalar L (bitpack_v32Scalar L inp b ++ rest) b
  = Some (ztake (32 * L) inp, zlen (bitpack_v32Scalar L inp b)).
Proof.
  intros HL Hb Hlen Hfit Hrest.
  destruct (bitunpack_v_masked L inp rest b HL Hb) as (vals & E & Hvl & Hv);
    [|exact Hrest|].
  - intros ->. split; [exact Hlen|].
    apply Forall_of_zget. intros j Hj. rewrite zlen_ztake in Hj by lia.
    rewrite zget_ztake by lia. pose proof (Hfit j ltac:(lia)) as Hv.
    change (2 ^ 32) with 4294967296 in Hv. exact Hv.
  - rewrite E. do 2 f_equal.
    apply list_eq_zget; [rewrite Hvl, zlen_ztake; lia|].
    intros k Hk. rewrite Hvl in Hk. rewrite Hv, zget_ztake by lia.
    pose proof (Hfit k ltac:(lia)) as Hfk.
    rewrite Z.land_ones by lia. apply Z.mod_small. exact Hfk.
Qed.

(** The round trip of the lane-interleaved layouts: what
    [bitpack128v32Scalar] (4 lanes, 128 values) and [bitpack256v32Scalar]
    (8 lanes, 256 values) write with a width [b], [0 <= b <= 32],
    [bitunpack128v32Scalar] and [bitunpack256v32Scalar] read back when the
    values fit in [b] bits, consuming exactly the bytes written, whatever
    follows them. *)
Theorem bitpack_v32Scalar_roundtrip (inp rest : list Z) (b : Z)
    (Hb : 0 <= b <= 32) (Hrest : bytes rest) :
  (128 <= zlen inp ->
   (forall i, 0 <= i < 128 -> 0 <= zget inp i < 2 ^ b) ->
   bitunpack128v32Scalar (bitpack128v32Scalar inp b ++ rest) b
   = Some (ztake 128 inp, zlen (bitpack128v32Scalar inp b))) /\
  (256 <= zlen inp ->
   (forall i, 0 <= i < 256 -> 0 <= zget inp i < 2 ^ b) ->
   bitunpack256v32Scalar (bitpack256v32Scalar inp b ++ rest) b
   = Some (ztake 256 inp, zlen (bitpack256v32Scalar inp b))).
Proof.
  split; intros Hlen Hfit.
  - apply (bitunpack_v_of_bitpack_v 4 inp rest b); try assumption;
      unfold V128_LANE_COUNT; lia.
  - apply (bitunpack_v_of_bitpack_v 8 inp rest b); try assumption;
      unfold V256_LANE_COUNT; lia.
Qed.

Lemma bitpack_v32Scalar_roundtrip_witness :
  bitunpack128v32Scalar (bitpack128v32Scalar (repeat 5 128) 3 ++ [9]) 3
  = Some (ztake 128 (repeat 5 128),
          zlen (bitpack128v32Scalar (repeat 5 128) 3)).
Proof.
  assert (Hrest : bytes [9]) by (repeat constructor; lia).
  assert (Hlen : 128 <= zlen (repeat 5 128))
    by (unfold zlen; rewrite repeat_length; lia).
  assert (Hfit : forall i, 0 <= i < 128 -> 0 <= zget (repeat 5 128) i < 2 ^ 3).
  { intros i Hi. rewrite zget_repeat. change (2 ^ 3) with 8.
    destruct (Z.to_nat i <? 128)%nat; lia. }
  exact (proj1 (bitpack_v32Scalar_roundtrip (repeat 5 128) [9] 3
                  ltac:(lia) Hrest) Hlen Hfit).
Defined.

(** * The round trip of a sequence through the scalar codec *)

Lemma delta1_loop_inverts (X : list Z) (s i start : Z) :
  u32_list X -> u32 (start + i) = u32 s ->
  delta1_loop (X_delta1_of X s) i start = X.
Proof.
  intros HX. revert s i start.
  induction HX as [|x X Hx HX IH]; intros s i start H; [reflexivity|].
  cbn [X_delta1_of delta1_loop]. cbv zeta. f_equal.
  - rewrite <- (u32_small x) at 2 by exact Hx. revert H. u32_solve.
  - apply IH. revert H. u32_solve.
Qed.

Lemma zlen_X_delta1_of (X : list Z) (s : Z) :
  zlen (X_delta1_of X s) = zlen X.
Proof.
  revert s. induction X as [|x X IH]; intros s; [reflexivity|].
  cbn [X_delta1_of]. rewrite !zlen_cons, IH. reflexivity.
Qed.

Lemma u32_list_X_delta1_of (X : list Z) (s : Z) :
  u32_list (X_delta1_of X s).
Proof.
  revert s. induction X as [|x X IH]; intros s; [constructor|].
  cbn [X_delta1_of]. constructor; [apply u32_range|apply IH].
Qed.

(** The scalar codec returns every sequence: for a sequence [X] of at most
    256 uint32 values and any seed [s], encoding the delta1 transform of
    [X] ([X[i] - X[i-1] - 1] in 32-bit arithmetic, [X[-1] = s]) with
    [p4Enc32] and decoding it with [p4D1Dec32] and the same seed gives [X]
    back, and the decoder consumes exactly the encoded bytes. *)
Theorem scalar_codec_returns_the_sequence (X rest : list Z) (s : Z)
    (HX : u32_list X) (Hn : zlen X <= 256) (Hrest : bytes rest) :
  let n := zlen X in
  let block := p4Enc32 (X_delta1_of X s) n in
  p4D1Dec32 (block ++ rest) n s = Some (X, zlen block).
Proof.
  cbv zeta.
  pose proof (zlen_nonneg X) as H0.
  rewrite p4Enc32_decoded;
    [|lia|rewrite zlen_X_delta1_of; lia|apply u32_list_X_delta1_of
     |exact Hrest].
  do 2 f_equal.
  rewrite ztake_all by (rewrite zlen_X_delta1_of; lia).
  apply delta1_loop_inverts; [exact HX|]. f_equal. lia.
Qed.

Lemma scalar_codec_returns_the_sequence_witness :
  p4D1Dec32 (p4Enc32 (X_delta1_of [3; 4; 10; 1000] 1) (zlen [3; 4; 10; 1000])
             ++ [7])
    (zlen [3; 4; 10; 1000]) 1
  = Some ([3; 4; 10; 1000],
          zlen (p4Enc32 (X_delta1_of [3; 4; 10; 1000] 1)
                  (zlen [3; 4; 10; 1000]))).
Proof.
  assert (HX : u32_list [3; 4; 10; 1000]) by (repeat constructor; lia).
  assert (Hn : zlen [3; 4; 10; 1000] <= 256) by (unfold zlen; simpl; lia).
  assert (Hrest : bytes [7]) by (repeat constructor; lia).
  exact (scalar_codec_returns_the_sequence [3; 4; 10; 1000] [7] 1
           HX Hn Hrest).
Defined.

(** * p4bits128_scalar.h: the analyzer for blocks of 128 values *)

(** ** The unrolled scans are the plain loops *)

Lemma zseq_8 (i : Z) :
  0 <= i ->
  zseq i 8 = [i; i + 1; i + 2; i + 3; i + 4; i + 5; i + 6; i + 7].
Proof.
  intros Hi. unfold zseq. change (Z.to_nat 8) with 8%nat. cbn [seq map].
  repeat (apply f_equal2; [lia|]). reflexivity.
Qed.

Lemma ztake_as_map (inp : list Z) (n : Z) :
  0 <= n <= zlen inp -> ztake n inp = map (zget inp) (zseq 0 n).
Proof.
  intros Hn. apply list_eq_zget.
  - rewrite zlen_ztake, zlen_map, zlen_zseq by lia. reflexivity.
  - intros k Hk. rewrite zlen_ztake in Hk by lia.
    rewrite zget_ztake, (zget_map_zseq (zget inp)) by lia. reflexivity.
Qed.

Lemma p4Bits128_scan_spec (k : nat) (inp : list Z) (first i or_acc eq : Z) :
  0 <= i ->
  p4Bits128_scan k inp first i or_acc eq
  = (fold_left Z.lor (map (zget inp) (zseq i (8 * Z.of_nat k))) or_acc,
     fold_left (fun c v => c + (if v =? first then 1 else 0))
       (map (zget inp) (zseq i (8 * Z.of_nat k))) eq).
Proof.
  revert i or_acc eq. induction k as [|k IH]; intros i or_acc eq Hi.
  - rewrite zseq_nil by lia. reflexivity.
  - cbn [p4Bits128_scan]. rewrite IH by lia.
    replace (8 * Z.of_nat (S k)) with (8 + 8 * Z.of_nat k) by lia.
    rewrite zseq_app by lia. rewrite zseq_8 by lia.
    rewrite map_app, !fold_left_app. cbn [map fold_left].
    unfold p4Bits128_or8, p4Bits128_eq8. rewrite !Z.lor_assoc, !Z.add_assoc.
    reflexivity.
Qed.

Lemma p4Bits128_histogram_spec (k : nat) (inp : list Z) (i : Z)
    (cnt : Z -> Z) :
  0 <= i ->
  p4Bits128_histogram k inp i cnt
  = fold_left (fun cnt v => upd cnt (bitWidth32 v) (cnt (bitWidth32 v) + 1))
      (map (zget inp) (zseq i (8 * Z.of_nat k))) cnt.
Proof.
  revert i cnt. induction k as [|k IH]; intros i cnt Hi.
  - rewrite zseq_nil by lia. reflexivity.
  - cbn [p4Bits128_histogram]. cbv zeta. rewrite IH by lia.
    replace (8 * Z.of_nat (S k)) with (8 + 8 * Z.of_nat k) by lia.
    rewrite zseq_app by lia. rewrite zseq_8 by lia.
    rewrite map_app, fold_left_app. reflexivity.
Qed.

(** ** The candidate loop is that of [p4Bits32] *)

Lemma p4Bits128_iter_step (cnt : Z -> Z) (bx i : Z) (s : p4bits128_state)
    (st : p4bits_state) :
  same_state s st ->
  let s' := p4Bits128_iter cnt bx (pad8 128) i s in
  let st' := p4Bits32_choose 128 bx i st in
  same_state s' (p4Bits32_advance cnt i st') /\
  s128_ml s' = min_size st' /\ s128_b s' = optimal_base_bits st' /\
  s128_fx s' = use_vbyte_exceptions st'.
Proof.
  intros (Hx & Hvv & Hvb & Hml & Hb & Hfx).
  unfold p4Bits128_iter, p4Bits32_choose, p4Bits32_advance, same_state,
    vbyte_size_at, patching_size_at.
  cbv zeta. rewrite Hx, Hvv, Hvb, Hml, Hb, Hfx.
  set (v := pad8 (128 * i) + 2 + exception_count st
            + vbyte_size_accumulator st).
  set (l := pad8 (128 * i) + 2 + pad8 128
            + pad8 (exception_count st * (bx - i))).
  destruct (Z.ltb_spec l (min_size st)) as [H1|H1];
    destruct (Z.leb_spec l v) as [H2|H2]; cbn [andb].
  - destruct (Z.ltb_spec v l); [lia|].
    cbn [s128_x s128_vv s128_vb s128_ml s128_b s128_fx exception_count
         vbyte_size_accumulator vbyte_accumulator min_size optimal_base_bits
         use_vbyte_exceptions].
    repeat split; try reflexivity; lia.
  - destruct (Z.ltb_spec v l); [|lia].
    destruct (Z.ltb_spec v (min_size st)); [|lia].
    cbn [s128_x s128_vv s128_vb s128_ml s128_b s128_fx exception_count
         vbyte_size_accumulator vbyte_accumulator min_size optimal_base_bits
         use_vbyte_exceptions].
    repeat split; try reflexivity; lia.
  - destruct (Z.ltb_spec v (min_size st));
      cbn [s128_x s128_vv s128_vb s128_ml s128_b s128_fx exception_count
           vbyte_size_accumulator vbyte_accumulator min_size
           optimal_base_bits use_vbyte_exceptions];
      repeat split; try reflexivity; lia.
  - destruct (Z.ltb_spec v (min_size st));
      cbn [s128_x s128_vv s128_vb s128_ml s128_b s128_fx exception_count
           vbyte_size_accumulator vbyte_accumulator min_size
           optimal_base_bits use_vbyte_exceptions];
      repeat split; try reflexivity; lia.
Qed.

Lemma p4Bits128_loop_spec (cnt : Z -> Z) (bx : Z) (j : nat)
    (s : p4bits128_state) (st : p4bits_state) :
  same_state s st ->
  let s' := p4Bits128_loop cnt bx (pad8 128) (S j) s in
  let st' := p4Bits32_loop 128 bx cnt j st in
  s128_b s' = optimal_base_bits st' /\
  s128_fx s' = use_vbyte_exceptions st'.
Proof.
  revert s st. induction j as [|j IH]; intros s st Hsim.
  - cbn [p4Bits128_loop p4Bits32_loop]. cbv zeta.
    destruct (p4Bits128_iter_step cnt bx (Z.of_nat 0) s st Hsim)
      as (_ & _ & H1 & H2).
    split; assumption.
  - cbn [p4Bits128_loop p4Bits32_loop].
    destruct (p4Bits128_iter_step cnt bx (Z.of_nat (S j)) s st Hsim)
      as (Hsim' & _).
    apply (IH _ _ Hsim').
Qed.

Lemma zsum_indicator_zero {A} (P : A -> bool) (l : list A) :
  zsum (map (fun v => if P v then 1 else 0) l) = 0 ->
  forall v, In v l -> P v = false.
Proof.
  induction l as [|a l IH]; intros H v Hv; [destruct Hv|].
  cbn [map] in H. rewrite zsum_cons in H.
  assert (H0 : 0 <= zsum (map (fun v => if P v then 1 else 0) l)).
  { clear. induction l as [|x l IH]; [cbn; lia|].
    cbn [map]. rewrite zsum_cons. destruct (P x); lia. }
  destruct (P a) eqn:Ea; [lia|].
  destruct Hv as [->|Hv]; [exact Ea|]. apply IH; [lia|exact Hv].
Qed.

Lemma widest_value_counted (inp : list Z) (n : Z) :
  u32_list inp -> fold_left Z.lor (ztake n inp) 0 <> 0 ->
  bit_width_histogram inp n (bitWidth32 (fold_left Z.lor (ztake n inp) 0))
  <> 0.
Proof.
  intros Hu E H0.
  pose proof (bitWidth32_pos _ E) as Hb1.
  set (b := bitWidth32 (fold_left Z.lor (ztake n inp) 0)) in *.
  rewrite bit_width_histogram_spec in H0.
  pose proof (zsum_indicator_zero (fun v => bitWidth32 v =? b) _ H0) as Hne.
  cbv beta in Hne.
  assert (Hnn : Forall (fun v => 0 <= v) (ztake n inp)).
  { apply Forall_ztake. eapply Forall_impl; [|exact Hu]. cbv beta. lia. }
  assert (Hle : bitWidth32 (fold_left Z.lor (ztake n inp) 0) <= b - 1).
  { apply bitWidth32_fold_lor_bound; [lia|exact Hnn| |].
    - change (bitWidth32 0) with 0. lia.
    - intros v Hv. pose proof (widths_bounded inp n Hu v Hv) as Hw.
      fold b in Hw. specialize (Hne v Hv). apply Z.eqb_neq in Hne. lia. }
  fold b in Hle. lia.
Qed.

Lemma p4Bits128_is_p4Bits32 (inp : list Z) :
  128 <= zlen inp -> u32_list inp -> p4Bits128 inp = p4Bits32 inp 128.
Proof.
  intros Hlen Hu.
  unfold p4Bits128, p4Bits32. cbv zeta.
  rewrite (p4Bits128_scan_spec 16 inp (zget inp 0) 0 0 0) by lia.
  rewrite (p4Bits128_histogram_spec 16 inp 0) by lia.
  change (8 * Z.of_nat 16) with 128.
  rewrite <- (ztake_as_map inp 128) by lia.
  fold (bit_width_histogram inp 128).
  set (vals := ztake 128 inp).
  assert (Hvl : zlen vals = 128) by (apply zlen_ztake; lia).
  assert (Hnn : Forall (fun v => 0 <= v) vals).
  { apply Forall_ztake. eapply Forall_impl; [|exact Hu]. cbv beta. lia. }
  assert (Hfirst : zget inp 0 = zget vals 0)
    by (unfold vals; rewrite zget_ztake by lia; reflexivity).
  set (eqc := fold_left (fun c v => c + (if v =? zget inp 0 then 1 else 0))
                vals 0).
  destruct (Z.eqb_spec (fold_left Z.lor vals 0) 0) as [E|E].
  - (* zeros *)
    pose proof (fold_lor_zero vals Hnn E) as Hz.
    assert (H0 : zget inp 0 = 0).
    { rewrite Hfirst. apply (Forall_zget _ _ _ Hz). lia. }
    rewrite H0. change (0 =? 0) with true. cbn [negb].
    rewrite andb_false_r, E. reflexivity.
  - pose proof (bitWidth32_pos _ E) as Hb1.
    set (b := bitWidth32 (fold_left Z.lor vals 0)) in *.
    destruct (Z.eqb_spec eqc 128) as [Eq|Eq]; cbn [andb].
    + (* a constant block *)
      assert (Hall : Forall (fun v => v = zget inp 0) vals).
      { apply (equal_count_all (zget inp 0) vals 0). fold eqc. lia. }
      destruct (Z.eqb_spec (zget inp 0) 0) as [H0|H0]; [|reflexivity].
      exfalso. apply E. apply fold_lor_zeros. rewrite H0 in Hall. exact Hall.
    + destruct (Z.eqb_spec b 0); [lia|].
      pose proof (widest_value_counted inp 128 Hu E) as Hx.
      fold vals in Hx. fold b in Hx.
      destruct (Z.eqb_spec (bit_width_histogram inp 128 b) 0);
        [contradiction|].
      replace (Z.to_nat b) with (S (Z.to_nat (b - 1))) by lia.
      pose proof (p4Bits128_loop_spec (bit_width_histogram inp 128) b
                    (Z.to_nat (b - 1))
                    (mk_p4bits128_state (bit_width_histogram inp 128 b)
                       (bit_width_histogram inp 128 b)
                       (p4Bits128_vbb (fun _ => 0)
                          (bit_width_histogram inp 128 b) b)
                       (pad8 (128 * b) + 1) b 0)
                    (p4Bits32_init 128 b (bit_width_histogram inp 128))
                    ltac:(repeat split)) as Hloop.
      cbv zeta in Hloop. destruct Hloop as (H1 & H2).
      rewrite H1, H2. reflexivity.
Qed.

(** What the analyzer hands to [writeHeader]: a base width of at most 32
    and a strategy that is 0, a patch width that fits above the base
    width, 33 or 34. *)
Lemma p4Bits32_header_range (inp : list Z) (n : Z) :
  0 <= n <= zlen inp -> u32_list inp ->
  let '(b, bx) := p4Bits32 inp n in
  0 <= b <= 32 /\
  (bx = 0 \/ 1 <= bx <= 32 - b \/ bx = 33 /\ b < 32 \/ bx = 34 /\ 1 <= b).
Proof.
  intros Hn Hu.
  pose proof (max_bits_range inp n Hu) as Hmax.
  destruct (p4Bits32_layout inp n Hn)
    as [(E & H)|[(E & _ & H)|(E & st & Hinv & H)]]; rewrite H; clear H.
  - split; [lia|]. left. reflexivity.
  - pose proof (bitWidth32_pos _ E). split; [lia|]. right; right; right. lia.
  - pose proof (bitWidth32_pos _ E).
    destruct Hinv as (_ & _ & Hsel & _). cbv zeta in Hsel.
    destruct Hsel as [(Eo & Eu & _)|[(Ho & Eu & _)|(Ho & Eu & _)]];
      rewrite Eu.
    + change (0 =? 0) with true. cbv iota. split; [lia|]. left. lia.
    + change (0 =? 0) with true. cbv iota. split; [lia|]. right; left. lia.
    + change (1 =? 0) with false. cbv iota. split; [lia|].
      right; right; left. lia.
Qed.

(** The analyzer for full blocks is the generic analyzer: on 128 values
    [p4Bits128], with its unrolled scans, its early exits and its own
    candidate loop, returns the pair [(b, bx)] that [p4Bits32] returns
    for [n = 128]; the pair is one [writeHeader] can store: [b <= 32],
    and [bx] is 0, a patch width with [b + bx <= 32], 33 with [b < 32],
    or 34 with [b >= 1]. *)
Theorem p4Bits128_agrees_with_p4Bits32 (inp : list Z)
    (Hlen : 128 <= zlen inp) (Hu : u32_list inp) :
  p4Bits128 inp = p4Bits32 inp 128 /\
  let '(b, bx) := p4Bits128 inp in
  0 <= b <= 32 /\
  (bx = 0 \/ 1 <= bx <= 32 - b \/ bx = 33 /\ b < 32 \/ bx = 34 /\ 1 <= b).
Proof.
  split; [apply p4Bits128_is_p4Bits32; assumption|].
  rewrite p4Bits128_is_p4Bits32 by assumption.
  apply p4Bits32_header_range; [lia|exact Hu].
Qed.

Lemma p4Bits128_agrees_with_p4Bits32_witness :
  p4Bits128 (repeat 5 127 ++ [1000]) = p4Bits32 (repeat 5 127 ++ [1000]) 128.
Proof.
  assert (Hlen : 128 <= zlen (repeat 5 127 ++ [1000]))
    by (unfold zlen; rewrite length_app, repeat_length; simpl; lia).
  assert (Hu : u32_list (repeat 5 127 ++ [1000])).
  { apply Forall_app. split; [|repeat constructor; lia].
    apply Forall_forall. intros x Hx. apply repeat_spec in Hx. lia. }
  pose proof (p4Bits128_agrees_with_p4Bits32 (repeat 5 127 ++ [1000])
                Hlen Hu) as H.
  destruct H as (H & _). exact H.
Defined.

(** ** p4enc128v32_scalar.cpp: the scalar encoder of the 128v layout *)

(** * The 128v block codec: decoding what was encoded *)

Lemma scan_exceptions_split (vals : list Z) (i mask b : Z) :
  scan_exceptions vals i mask
  = (snd (split_exceptions vals i mask b),
     fst (fst (split_exceptions vals i mask b))).
Proof.
  revert i. induction vals as [|v vals IH]; intros i; [reflexivity|].
  cbn [scan_exceptions]. rewrite split_exceptions_cons, IH.
  destruct (split_exceptions vals (i + 1) mask b) as [[base ex] pos].
  cbv zeta. destruct (v >? mask); reflexivity.
Qed.

Lemma split_exceptions_values (vals : list Z) (i mask b : Z) :
  0 <= i ->
  let '(base, ex, pos) := split_exceptions vals i mask b in
  Forall (fun p => i <= p) pos /\
  ex = map (fun p => shr32 (zget vals (p - i)) b) pos.
Proof.
  revert i. induction vals as [|v vals IH]; intros i Hi.
  - cbn [split_exceptions map]. split; [constructor|reflexivity].
  - rewrite split_exceptions_cons. specialize (IH (i + 1) ltac:(lia)).
    destruct (split_exceptions vals (i + 1) mask b) as [[base ex] pos].
    destruct IH as (Hp & He). cbv zeta.
    assert (Hp' : Forall (fun p => i <= p) pos)
      by (eapply Forall_impl; [|exact Hp]; cbv beta; lia).
    assert (He' : ex = map (fun p => shr32 (zget (v :: vals) (p - i)) b) pos).
    { rewrite He. apply map_ext_in. intros p Hin.
      rewrite Forall_forall in Hp. specialize (Hp p Hin). cbv beta in Hp.
      rewrite zget_cons_S by lia. do 2 f_equal. lia. }
    destruct (v >? mask).
    + split; [constructor; [lia|exact Hp']|].
      cbn [map]. rewrite Z.sub_diag, zget_cons_0. f_equal. exact He'.
    + split; [exact Hp'|exact He'].
Qed.

Lemma base_mask_128v (b : Z) :
  0 <= b <= 31 ->
  (if b >=? 32 then 0xFFFFFFFF else u64 (shl64 1 b - 1)) = Z.ones b.
Proof.
  intros Hb. destruct (Z.geb_spec b 32); [lia|].
  unfold shl64. rewrite Z.shiftl_1_l.
  assert (0 < 2 ^ b < 2 ^ 64).
  { split; [apply Z.pow_pos_nonneg; lia|apply Z.pow_lt_mono_r; lia]. }
  change (2 ^ 64) with 18446744073709551616 in *.
  rewrite (u64_small (2 ^ b)) by lia. rewrite u64_small by lia.
  rewrite Z.ones_equiv. lia.
Qed.

(** The payload with exceptions, in terms of the three arrays of the
    scalar encoder. *)
Lemma p4Enc128v32PayloadExceptions_split (inp : list Z) (n b bx : Z) :
  0 <= n <= zlen inp -> 0 <= b <= 31 -> u32_list inp ->
  p4Enc128v32PayloadExceptions inp n b bx
  = let '(base, ex, pos) := split_exceptions (ztake n inp) 0 (Z.ones b) b in
    if bx <=? MAX_BITS then
      write_bitmap (build_bitmap pos) n
      ++ bitpack32Scalar ex (zlen ex) bx
      ++ bitpack128v32Scalar base b
    else
      [u8 (zlen ex)]
      ++ bitpack128v32Scalar base b
      ++ vbEnc32 ex (zlen ex)
      ++ map u8 pos.
Proof.
  intros Hn Hb Hu. unfold p4Enc128v32PayloadExceptions. cbv zeta.
  rewrite base_mask_128v by exact Hb.
  rewrite (scan_exceptions_split _ 0 (Z.ones b) b).
  assert (HF : Forall (fun v => 0 <= v < 2 ^ 32) (ztake n inp))
    by (apply Forall_ztake; exact Hu).
  pose proof (split_exceptions_facts (ztake n inp) 0 b 32 Hb ltac:(lia)
                ltac:(lia) HF) as Hfacts.
  pose proof (split_exceptions_values (ztake n inp) 0 (Z.ones b) b
                ltac:(lia)) as Hvals.
  destruct (split_exceptions (ztake n inp) 0 (Z.ones b) b) as [[base ex] pos].
  cbn [fst snd].
  destruct Hfacts as (_ & F2 & _ & _ & _ & F6 & _).
  destruct Hvals as (_ & He).
  rewrite zlen_ztake in F6 by lia.
  assert (Hex : map (fun p => u32 (shr32 (zget inp p) b)) pos = ex).
  { rewrite He. apply map_ext_in. intros p Hin.
    rewrite Forall_forall in F6. specialize (F6 p Hin). cbv beta in F6.
    rewrite Z.sub_0_r, zget_ztake by lia.
    assert (Hv : 0 <= zget inp p < 4294967296)
      by (apply (Forall_zget _ _ _ Hu); lia).
    unfold shr32. rewrite Z.shiftr_div_pow2 by lia.
    apply u32_small.
    assert (0 < 2 ^ b) by (apply Z.pow_pos_nonneg; lia).
    split; [apply Z.div_pos; lia|].
    apply Z.le_lt_trans with (zget inp p); [|lia].
    apply Z.div_le_upper_bound; nia. }
  rewrite Hex, <- F2. reflexivity.
Qed.

(** The base array read back: its cells, and zeros up to 128. *)
Lemma bitunpack128_base (base rest : list Z) (b : Z) :
  0 <= b <= 31 -> zlen base <= 128 ->
  Forall (fun v => 0 <= v < 2 ^ b) base -> bytes rest ->
  bitunpack128v32Scalar (bitpack128v32Scalar base b ++ rest) b
  = Some (base ++ repeat 0 (Z.to_nat (128 - zlen base)),
          zlen (bitpack128v32Scalar base b)).
Proof.
  intros Hb Hl HF Hrest. pose proof (zlen_nonneg base) as Hl0.
  unfold bitunpack128v32Scalar, bitpack128v32Scalar, V128_LANE_COUNT.
  destruct (bitunpack_v_masked 4 base rest b ltac:(lia) ltac:(lia)
              ltac:(lia) Hrest) as (vals & E & Hvl & Hv).
  rewrite E. do 2 f_equal.
  apply list_eq_zget; [rewrite Hvl, zlen_app, zlen_repeat; lia|].
  intros k Hk. rewrite Hvl in Hk. rewrite Hv by lia.
  destruct (Z.lt_ge_cases k (zlen base)) as [Hkb|Hkb].
  - rewrite zget_app_l by lia.
    pose proof (Forall_zget _ _ k HF ltac:(lia)) as Hr. cbv beta in Hr.
    rewrite Z.land_ones by lia. apply Z.mod_small. exact Hr.
  - rewrite zget_overflow by lia. rewrite Z.land_0_l.
    rewrite zget_app_r by lia. rewrite zget_repeat.
    destruct (_ <? _)%nat; reflexivity.
Qed.

Lemma set_nth_app_l (k : nat) (v : Z) (l r : list Z) :
  (k < length l)%nat -> set_nth k v (l ++ r) = set_nth k v l ++ r.
Proof.
  revert k. induction l as [|h t IH]; intros k Hk; [cbn in Hk; lia|].
  destruct k as [|k]; [reflexivity|].
  cbn [app set_nth]. rewrite IH by (cbn in Hk; lia). reflexivity.
Qed.

Lemma merge_at_app_out (ev : list Z) (ei : Z) (pos : list Z) (b : Z)
    (o1 o2 : list Z) :
  Forall (fun p => 0 <= p < zlen o1) pos ->
  merge_at ev ei pos b (o1 ++ o2) = merge_at ev ei pos b o1 ++ o2.
Proof.
  intros HF. revert ei o1 HF.
  induction pos as [|p pos IH]; intros ei o1 HF; [reflexivity|].
  apply Forall_cons_iff in HF. destruct HF as (Hp & HF).
  rewrite !merge_at_cons. rewrite zget_app_l by lia.
  unfold zset at 1. rewrite set_nth_app_l by (unfold zlen in Hp; lia).
  fold (zset o1 p (Z.lor (zget o1 p) (shl32 (zget ev ei) b))).
  apply IH. eapply Forall_impl; [|exact HF]. cbv beta. intros q Hq.
  rewrite zlen_zset. exact Hq.
Qed.

(** The first [n] cells after [applyDelta1]: the delta1 loop of the
    scalar decoder on the first [n] cells. *)
Lemma ztake_applyDelta1 (out : list Z) (n start : Z) :
  0 <= n <= zlen out ->
  ztake n (applyDelta1 out n start) = delta1_loop (ztake n out) 0 start.
Proof.
  intros Hn. unfold applyDelta1.
  rewrite (applyDelta1_loop_delta1_loop (ztake n out) 0 start start)
    by (f_equal; lia).
  apply ztake_app_len. rewrite zlen_delta1_loop, zlen_ztake by lia.
  reflexivity.
Qed.

Lemma header_flag_bits_128v (b : Z) :
  0 <= b <= 32 ->
  Z.land b 0x40 = 0 /\ Z.land b 0x80 = 0 /\
  Z.land (128 + b) 0x80 = 0x80.
Proof.
  revert b. apply (Z_range_nat _ 32). intros k Hk.
  do 33 (range_case k). lia.
Qed.

Lemma bytes_bitpack_v32Scalar (L : Z) (inp : list Z) (b : Z) :
  1 <= L -> 0 <= b <= 31 -> bytes (bitpack_v32Scalar L inp b).
Proof.
  intros HL Hb. destruct (Z.eq_dec b 0) as [->|Hne]; [constructor|].
  destruct (bitpack_v32Scalar_rows L inp b ltac:(lia) HL) as (H & _).
  exact H.
Qed.

Lemma maskBits_ones (b : Z) : 0 <= b <= 31 -> maskBits b = Z.ones b.
Proof.
  intros Hb. unfold maskBits. destruct (Z.geb_spec b 32); [lia|].
  destruct (Z.eqb_spec b 0) as [->|Hne]; [reflexivity|].
  rewrite Z.shiftl_1_l.
  assert (0 < 2 ^ b < 2 ^ 32).
  { split; [apply Z.pow_pos_nonneg; lia|apply Z.pow_lt_mono_r; lia]. }
  change (2 ^ 32) with 4294967296 in *.
  rewrite (u32_small (2 ^ b)) by lia. rewrite u32_small by lia.
  rewrite Z.ones_equiv. lia.
Qed.

Lemma ztake_storeU32 (k v : Z) :
  1 <= k <= 4 -> ztake k (storeU32 v) = le_bytes k v.
Proof.
  intros Hk. assert (C : k = 1 \/ k = 2 \/ k = 3 \/ k = 4) by lia.
  destruct C as [-> | [-> | [-> | ->]]]; reflexivity.
Qed.

(** A block without exceptions. *)
Lemma plain128_layout_decoded (inp rest : list Z) (n b start : Z) :
  0 <= b <= 32 -> 1 <= n <= 128 -> 128 <= zlen inp -> u32_list inp ->
  fits b inp 0 n -> bytes rest ->
  exists out,
    p4D1Dec128v32 (b :: bitpack128v32Scalar inp b ++ rest) n start
    = Some (out, 1 + zlen (bitpack128v32Scalar inp b)) /\
    ztake n out = delta1_loop (ztake n inp) 0 start.
Proof.
  intros Hb Hn Hlen Hu Hfit Hrest.
  destruct (header_flag_bits b Hb) as (_ & H0 & _).
  destruct (header_flag_bits_128v b Hb) as (H1 & H2 & _).
  destruct (bitunpack_v_masked 4 inp rest b ltac:(lia) Hb)
    as (vals & E & Hvl & Hv); [|exact Hrest|].
  - intros _. split; [lia|apply Forall_ztake; exact Hu].
  - exists (applyDelta1 vals n start). split.
    + unfold p4D1Dec128v32. destruct (Z.eqb_spec n 0); [lia|]. cbv zeta.
      rewrite zget_cons_0, H0, H1, H2.
      change (0 =? 192) with false. change (0 =? 0) with true.
      cbn [negb]. cbv iota. rewrite zdrop_1_cons.
      unfold p4D1Dec128Payload. rewrite H2.
      change (0 =? 0) with true. cbv iota.
      unfold unpack128_delta1, bitunpack128v32Scalar, bitpack128v32Scalar,
        V128_LANE_COUNT.
      rewrite E. reflexivity.
    + rewrite ztake_applyDelta1 by lia. f_equal.
      apply list_eq_zget; [rewrite !zlen_ztake; lia|].
      intros k Hk. rewrite zlen_ztake in Hk by lia.
      rewrite !zget_ztake, Hv by lia.
      pose proof (Hfit k ltac:(lia)) as Hfk.
      rewrite Z.land_ones by lia. apply Z.mod_small. exact Hfk.
Qed.

(** A constant block. *)
Lemma constant128_layout_decoded (v b n start : Z) (rest : list Z) :
  1 <= b <= 32 -> 1 <= n -> 0 <= v < 2 ^ b -> bytes rest ->
  p4D1Dec128v32 ((192 + b) :: ztake ((b + 7) / 8) (storeU32 v) ++ rest)
    n start
  = Some (applyDelta1 (map (fun _ => v) (zseq 0 n)) n start,
          1 + (b + 7) / 8).
Proof.
  intros Hb Hn Hv Hrest.
  destruct (header_flag_bits b ltac:(lia))
    as (_ & _ & _ & _ & _ & _ & _ & _ & _ & _ & H1 & H2).
  assert (Hk : 1 <= (b + 7) / 8 <= 4 /\ b <= 8 * ((b + 7) / 8))
    by (Z.div_mod_to_equations; lia).
  set (k := (b + 7) / 8) in *.
  rewrite ztake_storeU32 by lia.
  assert (Hl : bytes (le_bytes k v ++ rest))
    by (apply bytes_app; [apply bytes_le_bytes|exact Hrest]).
  assert (Hval : (if b <? MAX_BITS
                  then Z.land (loadU32 (le_bytes k v ++ rest)) (maskBits b)
                  else loadU32 (le_bytes k v ++ rest)) = v).
  { unfold MAX_BITS. destruct (Z.ltb_spec b 32) as [Hlt|Hge].
    - rewrite maskBits_ones by lia. apply Z.bits_inj'. intros t Ht.
      rewrite Z.land_spec, testbit_loadU32_sbit by assumption.
      rewrite Z.testbit_ones_nonneg by lia.
      destruct (Z.ltb_spec t b) as [Htb|Htb].
      + destruct (Z.ltb_spec t 32); [|lia]. cbn [andb].
        rewrite sbit_app_l by (rewrite zlen_le_bytes; lia).
        rewrite sbit_le_bytes by lia. apply andb_true_r.
      + rewrite andb_false_r. symmetry.
        apply testbit_small with b; [exact Hv|lia].
    - assert (b = 32) by lia. subst b.
      assert (k = 4) by (unfold k; reflexivity).
      rewrite H. apply load_le_bytes_small; try assumption; try lia.
      intros l t Hbl Ht. apply testbit_loadU32_sbit; assumption. }
  unfold p4D1Dec128v32. destruct (Z.eqb_spec n 0); [lia|]. cbv zeta.
  rewrite zget_cons_0, zdrop_1_cons, H1, H2.
  change (192 =? 192) with true. cbv iota.
  rewrite Hval. reflexivity.
Qed.

(** A block with bitmap patching. *)
Lemma bitmap128_layout_decoded (inp rest : list Z) (n start b bx : Z) :
  1 <= n <= 128 -> n <= zlen inp -> 0 <= b <= 31 -> 1 <= bx <= 32 ->
  u32_list inp ->
  Forall (fun v => 0 <= v < 2 ^ (b + bx)) (ztake n inp) -> b + bx <= 32 ->
  bytes rest ->
  exists out,
    p4D1Dec128v32
      ((128 + b) :: bx :: p4Enc128v32PayloadExceptions inp n b bx ++ rest)
      n start
    = Some (out, 2 + zlen (p4Enc128v32PayloadExceptions inp n b bx)) /\
    ztake n out = delta1_loop (ztake n inp) 0 start.
Proof.
  intros Hn Hlen Hb Hbx Hu HF Hsum Hrest.
  destruct (header_flag_bits b ltac:(lia))
    as (_ & _ & _ & H1 & H2 & H3 & _).
  destruct (header_flag_bits_128v b ltac:(lia)) as (_ & _ & H4).
  rewrite p4Enc128v32PayloadExceptions_split by (assumption || lia).
  set (vals := ztake n inp) in *.
  assert (Hvl : zlen vals = n) by (apply zlen_ztake; lia).
  assert (Hvu : u32_list vals) by (apply Forall_ztake; exact Hu).
  pose proof (split_exceptions_facts vals 0 b (b + bx) Hb ltac:(lia)
                ltac:(lia) HF) as Hfacts.
  pose proof (merge_split vals b [] [] Hb Hvu) as Hmerge.
  change (zlen (@nil Z)) with 0 in Hmerge.
  assert (Hloaded := fun r => loaded_positions vals r n (Z.ones b) b
                                ltac:(lia) Hvl).
  cbv zeta in Hloaded.
  destruct (split_exceptions vals 0 (Z.ones b) b) as [[base ex] pos].
  cbn [snd app] in *.
  destruct Hfacts as (F1 & F2 & F3 & F4 & F5 & F6 & _).
  replace (b + bx - b) with bx in F5 by lia.
  destruct (Z.leb_spec bx MAX_BITS) as [_|Habs];
    [|unfold MAX_BITS in Habs; lia].
  assert (Hfe : fits bx ex 0 (zlen ex))
    by (apply fits_of_Forall; [exact F5|lia]).
  pose proof (zlen_nonneg ex) as Hexn.
  assert (Hbb : bytes (bitpack128v32Scalar base b ++ rest)).
  { apply bytes_app; [|exact Hrest].
    apply bytes_bitpack_v32Scalar; unfold V128_LANE_COUNT; lia. }
  assert (Hbe : bytes (bitpack32Scalar ex (zlen ex) bx
                       ++ bitpack128v32Scalar base b ++ rest)).
  { apply bytes_app; [|exact Hbb].
    apply bytes_bitpack32Scalar; [lia|lia|exact Hfe]. }
  destruct (Hloaded _ Hbe) as (HF64 & Hl4 & Hpos & Hdrop).
  assert (Hposr : Forall (fun p => 0 <= p < zlen base) pos).
  { eapply Forall_impl; [|exact F6]. cbv beta. lia. }
  exists (applyDelta1 (vals ++ repeat 0 (Z.to_nat (128 - zlen base)))
            n start).
  split.
  - rewrite <- !app_assoc.
    unfold p4D1Dec128v32. destruct (Z.eqb_spec n 0); [lia|]. cbv zeta.
    rewrite zget_cons_0, H1, H2, H4.
    change (128 =? 192) with false. change (0 =? 0) with true.
    change (128 =? 0) with false. cbn [negb]. cbv iota.
    rewrite zdrop_1_cons, zget_cons_0.
    change (zdrop 2 (128 + b :: bx :: ?l)) with l.
    unfold p4D1Dec128Payload. rewrite H4, H3.
    change (128 =? 0) with false. cbv iota.
    destruct (Z.eqb_spec bx 0) as [E|_]; [lia|].
    unfold p4D1Dec128PayloadBitmap. cbv zeta.
    rewrite Hdrop.
    rewrite (count_exceptions_spec _ HF64 Hl4), Hpos, <- F2.
    rewrite (bitunpack_of_bitpack ex _ (zlen ex) bx) by (assumption || lia).
    rewrite zdrop_app_len by reflexivity.
    rewrite (bitunpack128_base base rest b) by (assumption || lia).
    rewrite (patch_words_merge_at _ 0 b _ 0 _ HF64), Hpos.
    rewrite (ztake_all ex) by lia.
    rewrite merge_at_app_out by exact Hposr.
    rewrite Hmerge.
    do 2 f_equal. rewrite !zlen_app.
    destruct (write_bitmap_spec (build_bitmap pos) n ltac:(lia)
                (zlen_build_bitmap pos)) as (_ & Hwl & _).
    rewrite Hwl. lia.
  - rewrite ztake_applyDelta1 by (rewrite zlen_app; pose proof
      (zlen_nonneg (repeat 0 (Z.to_nat (128 - zlen base)))); lia).
    rewrite (ztake_app_len vals) by lia. reflexivity.
Qed.

(** A block with vbyte exceptions. *)
Lemma vbyte128_layout_decoded (inp rest : list Z) (n start b : Z) :
  1 <= n <= 128 -> n <= zlen inp -> 0 <= b <= 31 -> u32_list inp ->
  bytes rest ->
  exists out,
    p4D1Dec128v32
      ((64 + b) :: p4Enc128v32PayloadExceptions inp n b 33 ++ rest) n start
    = Some (out, 1 + zlen (p4Enc128v32PayloadExceptions inp n b 33)) /\
    ztake n out = delta1_loop (ztake n inp) 0 start.
Proof.
  intros Hn Hlen Hb Hu Hrest.
  destruct (header_flag_bits b ltac:(lia))
    as (_ & _ & _ & _ & _ & _ & _ & H1 & H2 & _).
  destruct (header_flag_bit6 b ltac:(lia)) as (_ & H3).
  rewrite p4Enc128v32PayloadExceptions_split by (assumption || lia).
  set (vals := ztake n inp) in *.
  assert (Hvl : zlen vals = n) by (apply zlen_ztake; lia).
  assert (Hvu : u32_list vals) by (apply Forall_ztake; exact Hu).
  assert (HF : Forall (fun v => 0 <= v < 2 ^ 32) vals) by exact Hvu.
  pose proof (split_exceptions_facts vals 0 b 32 Hb ltac:(lia) ltac:(lia) HF)
    as Hfacts.
  pose proof (merge_split vals b [] [] Hb Hvu) as Hmerge.
  change (zlen (@nil Z)) with 0 in Hmerge.
  destruct (split_exceptions vals 0 (Z.ones b) b) as [[base ex] pos].
  cbn [app] in Hmerge.
  destruct Hfacts as (F1 & F2 & F3 & F4 & F5 & F6 & _).
  change (33 <=? MAX_BITS) with false. cbv iota.
  pose proof (zlen_nonneg ex) as Hexn.
  rewrite u8_small by lia.
  assert (Hexu : u32_list ex).
  { eapply Forall_impl; [|exact F5]. cbv beta. intros e He.
    assert (2 ^ (32 - b) <= 2 ^ 32) by (apply Z.pow_le_mono_r; lia).
    change (2 ^ 32) with 4294967296 in *. lia. }
  assert (Hpos : map u8 pos = pos).
  { apply map_u8_small. eapply Forall_impl; [|exact F6]. cbv beta. lia. }
  assert (Hr2 : bytes (map u8 pos ++ rest))
    by (apply bytes_app; [apply bytes_map_u8|exact Hrest]).
  assert (Hr1 : bytes (vbEnc32 ex (zlen ex) ++ map u8 pos ++ rest))
    by (apply bytes_app; [apply bytes_vbEnc32|exact Hr2]).
  assert (Hposr : Forall (fun p => 0 <= p < zlen base) pos).
  { eapply Forall_impl; [|exact F6]. cbv beta. lia. }
  exists (applyDelta1 (vals ++ repeat 0 (Z.to_nat (128 - zlen base)))
            n start).
  split.
  - cbn [app]. rewrite <- !app_assoc.
    unfold p4D1Dec128v32. destruct (Z.eqb_spec n 0); [lia|]. cbv zeta.
    rewrite zget_cons_0, !zdrop_1_cons, zget_cons_0, H1, H2, H3.
    change (64 =? 192) with false. change (64 =? 0) with false. cbv iota.
    rewrite (bitunpack128_base base _ b) by (assumption || lia).
    rewrite zdrop_app_len by reflexivity.
    rewrite (vbDec32_vbEnc32 ex _ Hexu).
    rewrite zdrop_app_len by reflexivity.
    rewrite Hpos, (ztake_app_len pos rest) by lia.
    rewrite (merge_positions_merge_at [] ex pos) by lia.
    change (zlen (@nil Z)) with 0. cbn [app].
    rewrite merge_at_app_out by exact Hposr.
    rewrite Hmerge.
    do 2 f_equal. rewrite zlen_cons, !zlen_app. lia.
  - rewrite ztake_applyDelta1 by (rewrite zlen_app; pose proof
      (zlen_nonneg (repeat 0 (Z.to_nat (128 - zlen base)))); lia).
    rewrite (ztake_app_len vals) by lia. reflexivity.
Qed.

Lemma p4Enc128v32Payload_forms (inp : list Z) (n b : Z) :
  p4Enc128v32Payload inp n b 0 = bitpack128v32Scalar inp b /\
  (forall bx, 1 <= bx <= 33 ->
     p4Enc128v32Payload inp n b bx = p4Enc128v32PayloadExceptions inp n b bx) /\
  p4Enc128v32Payload inp n b 34 = ztake ((b + 7) / 8) (storeU32 (zget inp 0)).
Proof.
  unfold p4Enc128v32Payload, MAX_BITS. repeat split.
  intros bx Hbx. destruct (Z.eqb_spec bx 0); [lia|].
  destruct (Z.eqb_spec bx (32 + 2)); [lia|]. reflexivity.
Qed.

(** A block written by [p4Enc128v32] is read back by [p4D1Dec128v32]:
    for [n <= 128] values taken from an array of at least 128 32-bit
    cells (the packer of the lane-interleaved layout always reads 128),
    followed by any bytes, the decoder consumes exactly the bytes the
    encoder wrote and the first [n] cells of its output are the [n]
    values run through the delta1 accumulation
    [out[i] = (start += in[i]) + (i + 1)], whichever layout the analyzer
    ([p4Bits128] for a full block, [p4Bits32] otherwise) chose. *)
Theorem p4Enc128v32_p4D1Dec128v32_roundtrip (inp rest : list Z) (n start : Z)
    (Hn : 0 <= n <= 128) (Hlen : 128 <= zlen inp) (Hu : u32_list inp)
    (Hrest : bytes rest) :
  exists out,
    p4D1Dec128v32 (p4Enc128v32 inp n ++ rest) n start
    = Some (out, zlen (p4Enc128v32 inp n)) /\
    ztake n out = delta1_loop (ztake n inp) 0 start.
Proof.
  unfold p4Enc128v32.
  destruct (Z.eqb_spec n 0) as [->|Hn0].
  { exists []. split; reflexivity. }
  assert (Hbits : (if n =? 128 then p4Bits128 inp else p4Bits32 inp n)
                  = p4Bits32 inp n).
  { destruct (Z.eqb_spec n 128) as [->|_]; [|reflexivity].
    apply p4Bits128_is_p4Bits32; assumption. }
  rewrite Hbits. clear Hbits.
  pose proof (values_fit inp n Hu) as Hfit.
  pose proof (max_bits_range inp n Hu) as Hmax.
  assert (Hvl : zlen (ztake n inp) = n) by (apply zlen_ztake; lia).
  destruct (p4Bits32_layout inp n ltac:(lia))
    as [(E & H)|[(E & Hconst & H)|(E & st & Hinv & H)]];
    rewrite H; clear H.
  - (* all values are zero *)
    rewrite E in Hfit. change (bitWidth32 0) with 0 in Hfit.
    change (writeHeader 0 0 ++ p4Enc128v32Payload inp n 0 0)
      with (0 :: bitpack128v32Scalar inp 0).
    change ((0 :: bitpack128v32Scalar inp 0) ++ rest)
      with (0 :: bitpack128v32Scalar inp 0 ++ rest).
    destruct (plain128_layout_decoded inp rest n 0 start) as (out & Ed & Ho);
      try assumption; try lia.
    { apply fits_ztake; [exact Hfit|lia]. }
    exists out. rewrite Ed, zlen_cons. split; [reflexivity|exact Ho].
  - (* a constant block *)
    set (max_bits := bitWidth32 (fold_left Z.lor (ztake n inp) 0)) in *.
    assert (Hb1 : 1 <= max_bits) by (apply bitWidth32_pos; exact E).
    assert (Hv : 0 <= zget inp 0 < 2 ^ max_bits).
    { rewrite <- (zget_ztake inp n 0) by lia.
      apply (Forall_zget _ _ _ Hfit). lia. }
    destruct (writeHeader_forms max_bits ltac:(lia)) as (_ & _ & _ & ->).
    destruct (p4Enc128v32Payload_forms inp n max_bits) as (_ & _ & ->).
    cbn [app].
    rewrite (constant128_layout_decoded (zget inp 0) max_bits n start rest)
      by (assumption || lia).
    eexists. split.
    + rewrite zlen_cons, zlen_ztake; [reflexivity|].
      rewrite zlen_storeU32. Z.div_mod_to_equations; lia.
    + rewrite ztake_applyDelta1 by (rewrite zlen_map, zlen_zseq; lia).
      rewrite ztake_all by (rewrite zlen_map, zlen_zseq; lia).
      rewrite (constant_list _ _ Hconst) at 1. rewrite Hvl. reflexivity.
  - set (max_bits := bitWidth32 (fold_left Z.lor (ztake n inp) 0)) in *.
    assert (Hb1 : 1 <= max_bits) by (apply bitWidth32_pos; exact E).
    destruct Hinv as (Hm0 & Hall & Hsel & Hlt0 & Hlt).
    cbv zeta in Hm0, Hall, Hsel, Hlt0, Hlt.
    destruct Hsel as [(Eo & Eu & Em)|[(Ho & Eu & Em & Hv)|(Ho & Eu & Em & Hp)]];
      rewrite Eu.
    + (* plain packing at the widest width *)
      rewrite Eo. change (0 =? 0) with true. cbv iota.
      replace (max_bits - max_bits) with 0 by lia.
      destruct (writeHeader_forms max_bits ltac:(lia)) as (-> & _).
      rewrite (proj1 (p4Enc128v32Payload_forms inp n max_bits)).
      cbn [app].
      destruct (plain128_layout_decoded inp rest n max_bits start)
        as (out & Ed & Hout); try assumption; try lia.
      { apply fits_ztake; [exact Hfit|lia]. }
      exists out. rewrite Ed, zlen_cons. split; [reflexivity|exact Hout].
    + (* bitmap patching *)
      change (0 =? 0) with true. cbv iota.
      set (b := optimal_base_bits st) in *.
      rewrite (proj1 (proj2 (writeHeader_forms b ltac:(lia)))) by lia.
      rewrite (proj1 (proj2 (p4Enc128v32Payload_forms inp n b))) by lia.
      cbn [app].
      destruct (bitmap128_layout_decoded inp rest n start b (max_bits - b))
        as (out & Ed & Hout); try assumption; try lia.
      { replace (b + (max_bits - b)) with max_bits by lia. exact Hfit. }
      exists out. rewrite Ed, !zlen_cons.
      split; [do 2 f_equal; lia|exact Hout].
    + (* vbyte exceptions *)
      change (1 =? 0) with false. cbv iota.
      set (b := optimal_base_bits st) in *.
      destruct (writeHeader_forms b ltac:(lia)) as (_ & _ & -> & _).
      rewrite (proj1 (proj2 (p4Enc128v32Payload_forms inp n b))) by lia.
      cbn [app].
      destruct (vbyte128_layout_decoded inp rest n start b)
        as (out & Ed & Hout); try assumption; try lia.
      exists out. rewrite Ed, zlen_cons. split; [reflexivity|exact Hout].
Qed.

Lemma p4Enc128v32_p4D1Dec128v32_roundtrip_witness :
  match p4D1Dec128v32 (p4Enc128v32 (repeat 5 127 ++ [1000]) 128 ++ [7])
          128 1 with
  | Some (out, used) =>
      used = zlen (p4Enc128v32 (repeat 5 127 ++ [1000]) 128) /\
      ztake 128 out = delta1_loop (ztake 128 (repeat 5 127 ++ [1000])) 0 1
  | None => False
  end.
Proof.
  assert (Hlen : 128 <= zlen (repeat 5 127 ++ [1000]))
    by (unfold zlen; rewrite length_app, repeat_length; simpl; lia).
  assert (Hu : u32_list (repeat 5 127 ++ [1000])).
  { apply Forall_app. split; [|repeat constructor; lia].
    apply Forall_forall. intros x Hx. apply repeat_spec in Hx. lia. }
  assert (Hrest : bytes [7]) by (repeat constructor; lia).
  pose proof (p4Enc128v32_p4D1Dec128v32_roundtrip (repeat 5 127 ++ [1000])
                [7] 128 1 ltac:(lia) Hlen Hu Hrest) as H.
  destruct H as (out & E & H). rewrite E. split; [reflexivity|exact H].
Defined.

(** * The AVX2 delta1 pass and the scalar one *)

Lemma applyDelta1_loop_app (l1 l2 : list Z) (acc : Z) :
  applyDelta1_loop (l1 ++ l2) acc
  = applyDelta1_loop l1 acc ++ applyDelta1_loop l2 (delta1_acc l1 acc).
Proof.
  revert acc. induction l1 as [|v l1 IH]; intros acc; [reflexivity|].
  cbn [app applyDelta1_loop]. cbv zeta. rewrite IH. reflexivity.
Qed.

Lemma delta1_acc_app (l1 l2 : list Z) (acc : Z) :
  delta1_acc (l1 ++ l2) acc = delta1_acc l2 (delta1_acc l1 acc).
Proof. unfold delta1_acc. apply fold_left_app. Qed.

Lemma ztake_add {A} (a b : Z) (l : list A) :
  0 <= a -> 0 <= b -> ztake (a + b) l = ztake a l ++ ztake b (zdrop a l).
Proof.
  intros Ha Hb. unfold ztake, zdrop.
  rewrite Z2Nat.inj_add by lia. revert l.
  induction (Z.to_nat a) as [|k IH]; intros l; [reflexivity|].
  destruct l as [|x l]; [cbn; rewrite firstn_nil; reflexivity|].
  cbn [Nat.add firstn skipn app]. rewrite IH. reflexivity.
Qed.

Lemma zlen_8 (l : list Z) :
  zlen l = 8 ->
  exists v0 v1 v2 v3 v4 v5 v6 v7, l = [v0; v1; v2; v3; v4; v5; v6; v7].
Proof.
  intros Hl. unfold zlen in Hl.
  do 8 (destruct l as [|? l]; [cbn [length] in Hl; lia|]).
  destruct l; [|cbn [length] in Hl; lia].
  repeat eexists.
Qed.

(** One step of the vector loop: the eight lanes that
    [mm256_scani_epi32] returns for the increments [1, ..., 8] are the
    eight values of the scalar loop started at lane 7 of [sv]. *)
Lemma mm256_scani_epi32_delta1 (v sv : list Z) :
  zlen v = 8 -> zlen sv = 8 ->
  mm256_scani_epi32 v sv [1; 2; 3; 4; 5; 6; 7; 8]
  = applyDelta1_loop v (zget sv 7) /\
  zget (applyDelta1_loop v (zget sv 7)) 7 = delta1_acc v (zget sv 7) /\
  zlen (applyDelta1_loop v (zget sv 7)) = 8.
Proof.
  intros Hv Hs.
  destruct (zlen_8 v Hv) as (v0 & v1 & v2 & v3 & v4 & v5 & v6 & v7 & ->).
  destruct (zlen_8 sv Hs) as (s0 & s1 & s2 & s3 & s4 & s5 & s6 & s7 & ->).
  change (zget [s0; s1; s2; s3; s4; s5; s6; s7] 7) with s7.
  split; [|split; reflexivity].
  cbv beta delta [mm256_scani_epi32 mm256_scan_epi32 mm_add_epi32 vzip
       mm256_slli_si256 mm_slli_si128 mm256_permute2x128_si256
       mm256_shuffle_epi32_FF mm_set1_epi32].
  change (4 - 1) with 3. change (4 - 2) with 2.
  cbv - [Z.add u32].
  repeat (apply f_equal2; [u32_solve|]).
  reflexivity.
Qed.

Lemma applyDelta1_256v_vectors_spec (k : nat) (out vs : list Z) :
  zlen vs = 8 -> 8 * Z.of_nat k <= zlen out ->
  let '(done, vs') := applyDelta1_256v_vectors k out vs in
  done = applyDelta1_loop (ztake (8 * Z.of_nat k) out) (zget vs 7) /\
  zlen vs' = 8 /\
  zget vs' 7 = delta1_acc (ztake (8 * Z.of_nat k) out) (zget vs 7).
Proof.
  revert out vs. induction k as [|k IH]; intros out vs Hvs Hout.
  - cbn [applyDelta1_256v_vectors]. repeat split. exact Hvs.
  - cbn [applyDelta1_256v_vectors]. cbv zeta.
    assert (H8 : zlen (ztake 8 out) = 8) by (apply zlen_ztake; lia).
    destruct (mm256_scani_epi32_delta1 (ztake 8 out) vs H8 Hvs)
      as (E & E7 & El).
    rewrite E.
    specialize (IH (zdrop 8 out) (applyDelta1_loop (ztake 8 out) (zget vs 7))
                  El ltac:(rewrite zlen_zdrop; lia)).
    destruct (applyDelta1_256v_vectors k (zdrop 8 out)
                (applyDelta1_loop (ztake 8 out) (zget vs 7))) as [done vs'].
    destruct IH as (Ed & Hl & H7).
    replace (8 * Z.of_nat (S k)) with (8 + 8 * Z.of_nat k) by lia.
    rewrite ztake_add by lia.
    rewrite applyDelta1_loop_app, delta1_acc_app, <- E7.
    split; [rewrite Ed; reflexivity|]. split; [exact Hl|exact H7].
Qed.

(** The AVX2 delta1 pass is the scalar one: [applyDelta1_256v], with its
    in-register prefix sums over vectors of eight cells and its scalar
    tail, leaves in [out] what the loop [acc += out[i] + 1; out[i] = acc]
    of [applyDelta1] leaves, for every [n] up to the length of the array
    and every 32-bit content, overflow included. *)
Theorem applyDelta1_256v_is_applyDelta1 (out : list Z) (n start : Z)
    (Hn : 0 <= n <= zlen out) :
  applyDelta1_256v out n start = applyDelta1 out n start.
Proof.
  unfold applyDelta1_256v, applyDelta1.
  destruct (Z.eqb_spec n 0) as [->|Hn0]; [reflexivity|].
  cbv zeta.
  assert (Hq : 0 <= n / 8 /\ 8 * (n / 8) <= n)
    by (Z.div_mod_to_equations; lia).
  set (q := n / 8) in *.
  pose proof (applyDelta1_256v_vectors_spec (Z.to_nat q) out
                (mm_set1_epi32 8 start) eq_refl
                ltac:(rewrite Z2Nat.id by lia; lia)) as H.
  destruct (applyDelta1_256v_vectors (Z.to_nat q) out
              (mm_set1_epi32 8 start)) as [done vs].
  destruct H as (Ed & _ & E7).
  rewrite Z2Nat.id in Ed, E7 by lia.
  change (zget (mm_set1_epi32 8 start) 7) with start in Ed, E7.
  assert (Et : ztake n out
               = ztake (8 * q) out ++ ztake (n - q * 8) (zdrop (q * 8) out)).
  { replace (q * 8) with (8 * q) by lia.
    rewrite <- ztake_add by lia. f_equal. lia. }
  rewrite Ed, E7, Et, applyDelta1_loop_app, app_assoc.
  replace (q * 8) with (8 * q) by lia. reflexivity.
Qed.

Lemma applyDelta1_256v_is_applyDelta1_witness :
  applyDelta1_256v [1; 2; 3; 4; 5; 6; 7; 8; 4294967295; 10; 11] 10 5
  = applyDelta1 [1; 2; 3; 4; 5; 6; 7; 8; 4294967295; 10; 11] 10 5.
Proof.
  apply applyDelta1_256v_is_applyDelta1. unfold zlen. simpl. lia.
Defined.

(** * The public entry point *)






